(* ===== verification/_CoqProject ===== *)
-Q . S2P
Prelude.v
CxxString.v
Framing.v
MessageParser.v
OrderBook.v
OrderBookSpec.v
Kernel.v
EventLoop.v
SocketUtils.v
Signals.v
KeptCalls.v
ClientSession.v
TcpServer.v
ExchangeServer.v
ServerKept.v
ExchangeSpec.v
ExchangeTrace.v
ExchangeMessages.v
ExchangeFills.v
ServerInv.v
ServerOutput.v
ServerProtocol.v
ServerTrace.v
ServerLoop.v
ServerFraming.v
ServerTheorems.v
ServerHistory.v
ServerFills.v
ServerEquiv.v
ServerResources.v
ServerProcess.v
ServerService.v
ServerRemarks.v
ServerMain.v
Shutdown.v
TcpClient.v
ClientShell.v
ShellDisplay.v
ClientScript.v
EndToEnd.v
ClientMain.v
ConnGen.v
ClientSignals.v
