(* ===== verification/Prelude.v ===== *)
(** * The Socket Exchange: a verification library

    The program is a small trading venue in C++17: a single-threaded TCP
    server that keeps an order book per instrument, two interactive clients
    (trader, market data) that share one shell, and a generator of idle
    connections.  Clients send newline-terminated commands (LOGIN, BUY, SELL,
    CANCEL, SUBSCRIBE, UNSUBSCRIBE, QUIT); the server answers, matches orders
    at equal price in time order, tells both sides of every execution, and
    pushes trades to subscribers.

    Parts of the program and files of the library (paths under src/src/)

    - Prelude.v: outcomes, the state monad, total-correctness triples [wp],
      frame conditions [keeps] with the hint database of the same name,
      machine integers, list lemmas.
    - CxxString.v: the part of std::string, istringstream, to_string, strtol
      and atoi the sources use.  Framing.v: the lines of a byte stream, the
      specification of every framing loop.
    - MessageParser.v: protocol/message_parser.{hpp,cpp}, one definition per
      function; the grammar of the protocol.
    - OrderBook.v: trading/order_book.{hpp,cpp}.  The std::list queues are
      lists of nodes with addresses, an iterator is an address, [index_] maps
      an order id to queue and address; erasing and dereferencing go through
      the address, so a stale iterator is [Dangling].  OrderBookSpec.v: the
      abstract book (a time-ordered queue per side, instrument and price) and
      the refinement.
    - Kernel.v: the system calls as a type class over an arbitrary kernel
      state, with laws, and what can be observed of it ([KernelView]: the open
      descriptors, the bytes sent and received on each); a scripted kernel for
      evaluation.
    - EventLoop.v: network/event_loop.{hpp,cpp}, both back ends (poll and
      kqueue), and the interface [EventLoopI]/[EventLoopLaws] against which the
      server is proved; both back ends are an instance.  kevent(2) may fail in
      any way; [loop_steady] says that the changes a loop asks for do not.
    - SocketUtils.v: network/socket_utils.{hpp,cpp}.  TcpServer.v:
      network/tcp_server.{hpp,cpp}.  ClientSession.v: network/client_session.hpp.
    - ExchangeServer.v: class ExchangeServer of exchange_server.cpp.  [Server]
      has its data members, the kernel and the printed text; every member
      function is a program of the monad over [Server] ([drop] is
      [drop_session]).  A ClientSession& is the key of its entry: use after
      erasure is [Dangling].  ServerMain.v: constructor, start and main.
    - Signals.v: the signal handlers that all programs install, and a process
      with dispositions and the flag [g_stop] as a kernel on top of a kernel.
      KeptCalls.v: what the system calls keep, the socket utilities keep.
    - ExchangeSpec.v: the abstract exchange (clients with role, name and
      subscriptions, and the abstract book) and what each request does to it
      and says to each client.  ExchangeTrace.v: the abstract exchange as a
      labelled transition system (connect, request, leave) and its histories.
      ExchangeMessages.v: the messages an exchange may send, as a type, that
      its steps send no others, and the round trips of the protocol.  ExchangeFills.v: the quantities clients
      order, hold and are told they traded, read off the bytes.
    - ServerInv.v: the invariant [inv] and the relation [delivers] on output
      streams.  ServerOutput.v, ServerProtocol.v, ServerLoop.v,
      ServerFraming.v: a triple for each member function (output path, request
      handlers, input path and main loop, framing).  ServerTrace.v: which
      histories of the abstract exchange explain a state of the server.
      ServerTheorems.v: the properties of single operations and of reachable
      states.  ServerHistory.v: the properties of whole runs.
      ServerFills.v: the accounts of ExchangeFills.v for them.  ServerEquiv.v:
      servers that clients cannot tell apart.  ServerKept.v: which properties of
      states all member functions keep ([Kept]), proved once for the code and
      used with three invariants: ServerResources.v (descriptors),
      ServerProcess.v (what holds of the kernel and the server's own
      descriptors) and ServerService.v (a well-behaved client).  Shutdown.v:
      the server's main as a process that gets signals.  ServerRemarks.v:
      behaviour that the comments of the sources do not suggest.
    - TcpClient.v: network/tcp_client.{hpp,cpp}.  ClientShell.v:
      client_shell.{hpp,cpp}; ShellDisplay.v: what the shell shows.
      ClientMain.v: trader_client.cpp and
      market_data_client.cpp.  ClientScript.v: a scripted kernel with a
      terminal.  EndToEnd.v: a client shell and the server, joined by the bytes
      on the connection.  ConnGen.v: tools/conn_gen.cpp.  ClientSignals.v: the
      shell and the generator as processes that get signals.

    What the theorems show

    - Server: from start-up on, every reachable pass of the main loop returns
      without using an erased session or iterator (the only other outcome is
      an order id beyond the range of long); handling a request refines the
      abstract exchange and every connected client's output stream grows by
      exactly the specified bytes; the tables stay consistent; per-client
      buffers are bounded; within a batch of events a descriptor never changes
      hands; dropping a client removes every trace of it; each session's
      interest is exact, and the registration agrees with it while the loop is
      steady ([loop_steady]: the server does not look at the result of
      [update]); accepting is suspended when accept(2) runs into a resource
      limit, and resumed; the open descriptors are those
      of before and one per client.
    - The server as a program: for every command line [main] refuses it, cannot
      start, or serves until it is told to stop, and leaves open exactly what
      was open; no signal kills it, and SIGINT or SIGTERM ends it in order.
    - Whole runs of the server: every state the main loop reaches is explained
      by a history of the abstract exchange, in which the requests of a client
      are the lines received from it and the messages for it the bytes sent to
      it and still pending; all bytes sent are well-formed messages, each
      typed as the reply or notice it is; every complete line is answered; no
      client is told of more fills than it ordered, its resting orders
      included; and pending output reaches the socket if the kernel keeps
      taking bytes.  A client that behaves ([Courteous]: it keeps the connection
      up, sends no QUIT or overlong line, and never leaves its socket full with
      more than 16 MiB waiting) is never dropped and gets a reply for every
      line, whatever the others do.  What clients are told does not depend on
      the back end or on hash order, nor on the sockets as long as the sender
      of the request stays connected.
    - Client and server: the commands typed at a shell are what the exchange
      executes for that client, and the messages the exchange addresses to it
      are what the shell shows, if the connection delivers bytes in order.
    - Order book: refinement of the abstract book by any sequence of
      operations, price-time priority, conservation of quantity, no crossed
      book, cancellation, removal independent of hash order, ids in sequence
      up to the range of long.
    - Protocol: exact grammar, 64-bit bounds, error replies; whole streams of
      formatted messages and of requests are read back exactly.
    - Event loop: both back ends refine a finite map, whatever the kernel
      answers; the kqueue mirror is exact after every call that succeeds and
      ENOENT does not arise; reported events are complete and not duplicated.
    - Client side: complete sends, reassembly independent of chunking, the
      shell transmits exactly what was typed and shows exactly the messages
      that arrived, clients and generator leak no descriptor, are not killed
      by signals and stop when told to; command lines are decoded as documented.
    - ServerRemarks.v states behaviour that the comments do not suggest, among
      it [submitter_dropped_loses_executions] and [long_line_accepted].

    Conventions, bounds and fuel

    Loops whose length depends on the kernel run on fuel: the output loop on
    the pending bytes plus [sys_work], the input and accept loops on
    [sys_work], framing loops on the length of the buffer, a client's send on
    the length of the message plus [sys_stall], the generator's retries on
    201.  [sys_work] and [sys_stall] bound what the environment still has to
    offer between two waits; the laws say that each interrupt, received chunk
    and accepted connection uses some of it up.  This is an assumption on the
    environment ([KernelLaws]): the code bounds neither its input nor its accept
    loop, so a peer that supplied [on_readable] with full chunks for ever would
    keep the server there.  The theorems prove these amounts sufficient, so
    [OutOfFuel] does not occur inside a pass.  Loops that run until they are
    told to stop (the server's and the shell's main loop, the generator's hold
    loop) take a number of passes and the theorems hold for every number.
    std::size_t and long are kept at their width where the code computes with
    them; times in seconds as double are integers of nano- or microseconds; the
    order in which hash tables enumerate is a parameter with only the law that
    it enumerates every element once.

    What is not modelled

    Memory exhaustion (but for the one allocation whose size the user gives, in
    the generator) and exceptions, and failing writes to stdout and stderr.  A
    handler only sets [g_stop], which is only read between other steps, so
    signals are delivered when the flag is read; how long a call that waits
    goes on waiting after a signal is not modelled.  The Python tests, the
    experiment and measurement scripts and the report exercise the programs
    from outside and are not part of the development. *)

From Stdlib Require Export ZArith Ascii String Lia.
From stdpp Require Export base option list list_numbers numbers gmap fin_maps sets strings.
From stdpp Require Export tactics sorting list.

#[global] Set Default Goal Selector "!".

(** ** Outcomes

    A piece of C++ code either returns normally, or reaches a point at which
    the model stops: the loop budget is used up ([OutOfFuel]), a signed
    integer overflows ([Overflow]), or a reference or iterator whose target
    has been erased is used ([Dangling]).  The last two are undefined
    behaviour in C++. *)
Inductive outcome (A : Type) : Type :=
| Done (a : A)
| OutOfFuel
| Overflow
| Dangling.

Arguments Done {A} a.
Arguments OutOfFuel {A}.
Arguments Overflow {A}.
Arguments Dangling {A}.

Definition obind {A B : Type} (m : outcome A) (f : A → outcome B) : outcome B :=
  match m with
  | Done a => f a
  | OutOfFuel => OutOfFuel
  | Overflow => Overflow
  | Dangling => Dangling
  end.

(** ** Stateful code: state passing with an outcome *)
Definition M (S A : Type) : Type := S → outcome (A * S).

Section Monad.
Context {S : Type}.

Definition ret {A : Type} (a : A) : M S A := λ s, Done (a, s).

Definition bind {A B : Type} (m : M S A) (f : A → M S B) : M S B :=
  λ s, obind (m s) (λ '(a, s'), f a s').

Definition get : M S S := λ s, Done (s, s).

Definition gets {A : Type} (f : S → A) : M S A := λ s, Done (f s, s).

Definition modify (f : S → S) : M S unit := λ s, Done (tt, f s).

Definition dangling {A : Type} : M S A := λ _, Dangling.

Definition out_of_fuel {A : Type} : M S A := λ _, OutOfFuel.

Definition when (b : bool) (m : M S unit) : M S unit :=
  if b then m else ret tt.

End Monad.

Declare Scope m_scope.
Delimit Scope m_scope with M.

Notation "'let*' x ':=' m 'in' k" := (bind m (λ x, k))
  (at level 10, x binder, m at level 100, k at level 200) : m_scope.
Notation "m1 ;;; m2" := (bind m1 (λ _, m2))
  (at level 199, right associativity) : m_scope.
Open Scope m_scope.

Lemma bind_Done {S A B} (m : M S A) (f : A → M S B) s b s' :
  bind m f s = Done (b, s') → ∃ a s1, m s = Done (a, s1) ∧ f a s1 = Done (b, s').
Proof. unfold bind, obind. destruct (m s) as [[a s1]| | |]; try done. by exists a, s1. Qed.

(** [for (x : xs) body] *)
Fixpoint for_each {S A : Type} (xs : list A) (body : A → M S unit) : M S unit :=
  match xs with
  | [] => ret tt
  | x :: xs' => body x ;;; for_each xs' body
  end.

(** Whether a signed overflow is accepted as a way to stop. *)
Class Tolerance : Type := tolerated : Prop.

(** Total correctness: from [s] the code returns, and result and final state
    satisfy [Q].  Running out of fuel and using a dangling reference are
    excluded, and so is overflow unless it is [tolerated]. *)
Definition wp {OV : Tolerance} {S A : Type} (m : M S A) (Q : A → S → Prop) (s : S) : Prop :=
  match m s with
  | Done (a, s') => Q a s'
  | Overflow => tolerated
  | OutOfFuel | Dangling => False
  end.

Section WpLemmas.
Context {OV : Tolerance} {S : Type}.

Lemma wp_mono {A} (m : M S A) (P Q : A → S → Prop) s :
  wp m P s → (∀ a s', P a s' → Q a s') → wp m Q s.
Proof. unfold wp. destruct (m s) as [[a s']| | |]; naive_solver. Qed.

Lemma wp_ret {A} (a : A) (Q : A → S → Prop) s : Q a s → wp (ret a) Q s.
Proof. done. Qed.

Lemma wp_bind {A B} (m : M S A) (f : A → M S B) (Q : B → S → Prop) s :
  wp m (λ a s', wp (f a) Q s') s → wp (bind m f) Q s.
Proof. unfold wp, bind, obind. destruct (m s) as [[a s']| | |]; done. Qed.

Lemma wp_bind_mono {A B} (m : M S A) (f : A → M S B) (P : A → S → Prop) (Q : B → S → Prop) s :
  wp m P s → (∀ a s', P a s' → wp (f a) Q s') → wp (bind m f) Q s.
Proof. intros Hm Hf. apply wp_bind. eapply wp_mono; eauto. Qed.

Lemma wp_get (Q : S → S → Prop) s : Q s s → wp get Q s.
Proof. done. Qed.

Lemma wp_gets {A} (f : S → A) (Q : A → S → Prop) s : Q (f s) s → wp (gets f) Q s.
Proof. done. Qed.

Lemma wp_modify (f : S → S) (Q : unit → S → Prop) s : Q tt (f s) → wp (modify f) Q s.
Proof. done. Qed.

Lemma wp_when (b : bool) (m : M S unit) (Q : unit → S → Prop) s :
  (b = true → wp m Q s) → (b = false → Q tt s) → wp (when b m) Q s.
Proof. destruct b; simpl; [|intros; apply wp_ret]; auto. Qed.

Lemma wp_and {A} (m : M S A) (P Q : A → S → Prop) s :
  wp m P s → wp m Q s → wp m (λ a s', P a s' ∧ Q a s') s.
Proof. unfold wp. destruct (m s) as [[a s']| | |]; done. Qed.

(** A loop over a list keeps an invariant that each pass keeps. *)
Lemma wp_for_each {A} (xs : list A) (body : A → M S unit) (I : S → Prop) s :
  I s → (∀ x s', x ∈ xs → I s' → wp (body x) (λ _, I) s') →
  wp (for_each xs body) (λ _, I) s.
Proof.
  revert s. induction xs as [|x xs IH]; intros s Hs Hbody; [by apply wp_ret|].
  apply wp_bind. eapply wp_mono; [apply Hbody; [left|done]|].
  intros [] s' Hs'. apply IH; [done|]. intros y s'' Hy. apply Hbody. by right.
Qed.

(** Code whose result is known exactly. *)
Lemma wp_done {A} (m : M S A) (Q : A → S → Prop) s a s' :
  m s = Done (a, s') → Q a s' → wp m Q s.
Proof. unfold wp. by intros ->. Qed.

Lemma wp_elim {A} (m : M S A) (Q : A → S → Prop) s a s' :
  wp m Q s → m s = Done (a, s') → Q a s'.
Proof. unfold wp. by intros ? Hm; rewrite Hm in *. Qed.

Lemma wp_mono_done {A} (m : M S A) (P Q : A → S → Prop) s :
  wp m P s → (∀ a s', m s = Done (a, s') → P a s' → Q a s') → wp m Q s.
Proof. unfold wp. destruct (m s) as [[a s']| | |]; naive_solver. Qed.

(** Code that does not overflow returns. *)
Lemma wp_returns {A} (m : M S A) (Q : A → S → Prop) s :
  wp m Q s → (m s = Overflow ∧ tolerated) ∨ ∃ a s', m s = Done (a, s') ∧ Q a s'.
Proof. unfold wp. destruct (m s) as [[a s']| | |]; naive_solver. Qed.

Lemma wp_overflow {A} (m : M S A) (Q : A → S → Prop) s : tolerated → m s = Overflow → wp m Q s.
Proof. unfold wp. by intros ? ->. Qed.

End WpLemmas.

#[global] Opaque wp.

(** Symbolic execution of the straight-line part of a monadic program. *)
Ltac wp_step :=
  lazymatch goal with
  | |- wp (ret _) _ _ => apply wp_ret
  | |- wp (bind _ _) _ _ => apply wp_bind
  | |- wp get _ _ => apply wp_get
  | |- wp (gets _) _ _ => apply wp_gets
  | |- wp (modify _) _ _ => apply wp_modify
  | |- wp (when _ _) _ _ => apply wp_when; intros ?
  | |- wp (let _ := _ in _) _ _ => cbv zeta
  | |- wp (if ?b then _ else _) _ _ => destruct b eqn:?
  | |- wp (match ?x with _ => _ end) _ _ => destruct x eqn:?
  end.
Ltac wp_steps := repeat (wp_step; cbv beta).

(** *** Frame conditions

    [keeps f m]: whatever [m] does, the part [f] of the state stays. *)
Definition keeps {S A B : Type} (f : S → B) (m : M S A) : Prop :=
  ∀ s a s', m s = Done (a, s') → f s' = f s.

Section Keeps.
Context {S B : Type} (f : S → B).

Lemma keeps_ret {A} (a : A) : keeps f (ret a).
Proof. by intros s b s' [= <- <-]. Qed.

Lemma keeps_gets {A} (g : S → A) : keeps f (gets g).
Proof. by intros s b s' [= <- <-]. Qed.

Lemma keeps_get : keeps f get.
Proof. by intros s b s' [= <- <-]. Qed.

Lemma keeps_fuel {A} : keeps f (out_of_fuel (A := A)).
Proof. done. Qed.

Lemma keeps_modify g : (∀ s, f (g s) = f s) → keeps f (modify g).
Proof. intros Hg s b s' [= <- <-]. apply Hg. Qed.

Lemma keeps_bind {A C} (m : M S A) (g : A → M S C) :
  keeps f m → (∀ a, keeps f (g a)) → keeps f (bind m g).
Proof.
  intros Hm Hg s c s'. unfold bind, obind. destruct (m s) as [[a s1]| | |] eqn:Hs; try done.
  intros Hc. by rewrite (Hg a s1 c s' Hc), (Hm s a s1 Hs).
Qed.

Lemma keeps_when b (m : M S unit) : keeps f m → keeps f (when b m).
Proof. destruct b; [done|]. intros _. apply keeps_ret. Qed.

Lemma keeps_if {A} (b : bool) (m1 m2 : M S A) : keeps f m1 → keeps f m2 → keeps f (if b then m1 else m2).
Proof. by destruct b. Qed.

Lemma keeps_for_each {A} (xs : list A) (body : A → M S unit) :
  (∀ x, keeps f (body x)) → keeps f (for_each xs body).
Proof. intros Hb. induction xs as [|x xs IH]; [apply keeps_ret|]. by apply keeps_bind. Qed.

Lemma wp_keeps {OV : Tolerance} {A} (m : M S A) (Q : A → S → Prop) s :
  wp m Q s → keeps f m → wp m (λ a s', Q a s' ∧ f s' = f s) s.
Proof. intros Hm Hk. eapply wp_mono_done; [exact Hm|]. intros a s' Hd HQ. split; [done|by eapply Hk]. Qed.

End Keeps.

Create HintDb keeps discriminated.
#[export] Hint Resolve keeps_ret keeps_gets keeps_get keeps_fuel keeps_modify keeps_bind keeps_when
  keeps_if keeps_for_each : keeps.
#[export] Hint Extern 1 (keeps _ (match ?x with _ => _ end)) => destruct x : keeps.
#[export] Hint Extern 1 (_ = _) => reflexivity : keeps.

(** *** Partial correctness

    [ensures P m Q]: if [m] returns from a state with [P], then [Q] holds. *)
Definition ensures {S A : Type} (P : S → Prop) (m : M S A) (Q : S → Prop) : Prop :=
  ∀ s a s', m s = Done (a, s') → P s → Q s'.

(** ... and [P] holds again. *)
Abbreviation maintains P m := (ensures P m P).

Section Ensures.
Context {S : Type}.
Implicit Types P Q R : S → Prop.

Lemma ensures_bind {A C} P Q R (m : M S A) (g : A → M S C) :
  ensures P m R → (∀ a, ensures R (g a) Q) → ensures P (bind m g) Q.
Proof.
  intros Hm Hg s c s'. unfold bind, obind. destruct (m s) as [[a s1]| | |] eqn:Hs; try done.
  intros Hc HP. eapply Hg; [exact Hc|]. by eapply Hm.
Qed.

Lemma ensures_ret {A} P Q (a : A) : (∀ s, P s → Q s) → ensures P (ret a) Q.
Proof. intros HPQ s b s' [= _ <-]. apply HPQ. Qed.

(** What depends only on a part of the state that is kept. *)
Lemma keeps_maintains {A B} (f : S → B) P (m : M S A) :
  keeps f m → (∀ s s', f s' = f s → P s → P s') → maintains P m.
Proof. intros Hk Hf s a s' Hm. apply Hf. by eapply Hk. Qed.

Lemma ensures_if {A} P Q (b : bool) (m1 m2 : M S A) :
  ensures P m1 Q → ensures P m2 Q → ensures P (if b then m1 else m2) Q.
Proof. by destruct b. Qed.

Lemma maintains_bind {A C} P (m : M S A) (g : A → M S C) :
  maintains P m → (∀ a, maintains P (g a)) → maintains P (bind m g).
Proof. apply ensures_bind. Qed.

Lemma maintains_ret {A} P (a : A) : maintains P (ret a).
Proof. by apply ensures_ret. Qed.

Lemma maintains_gets {A} P (g : S → A) : maintains P (gets g).
Proof. by intros s b s' [= _ <-]. Qed.

Lemma maintains_get P : maintains P get.
Proof. apply maintains_gets. Qed.

Lemma maintains_stuck {A} P : maintains P (out_of_fuel (A := A)) ∧ maintains P (dangling (A := A)).
Proof. done. Qed.

Lemma maintains_modify P g : (∀ s, P s → P (g s)) → maintains P (modify g).
Proof. intros Hg s b s' [= _ <-]. apply Hg. Qed.

Lemma maintains_when P b (m : M S unit) : maintains P m → maintains P (when b m).
Proof. destruct b; [done|]. intros _. apply maintains_ret. Qed.

Lemma maintains_for_each {A} P (xs : list A) (body : A → M S unit) :
  (∀ x, x ∈ xs → maintains P (body x)) → maintains P (for_each xs body).
Proof.
  induction xs as [|x xs IH]; intros Hb; [apply maintains_ret|]. cbn [for_each]. apply maintains_bind.
  - apply Hb. left.
  - intros _. apply IH. intros y Hy. apply Hb. by right.
Qed.

(** With the fact that holds before. *)
Lemma maintains_exists {A X} (P : X → S → Prop) (m : M S A) :
  (∀ x, maintains (P x) m) → maintains (λ s, ∃ x, P x s) m.
Proof. intros Hm s a s' Hrun [x HP]. exists x. exact (Hm x s a s' Hrun HP). Qed.

Lemma maintains_bind_gets {A C} P (f : S → A) (g : A → M S C) :
  (∀ s, P s → ∀ c s', g (f s) s = Done (c, s') → P s') → maintains P (bind (gets f) g).
Proof. intros Hg s c s' Hm HP. by apply (Hg s HP c). Qed.

End Ensures.

Create HintDb maintains discriminated.
#[export] Hint Resolve maintains_bind maintains_ret maintains_gets maintains_get maintains_modify
  maintains_when maintains_for_each ensures_if : maintains.
#[export] Hint Extern 1 (ensures _ out_of_fuel _) => apply maintains_stuck : maintains.
#[export] Hint Extern 1 (ensures _ dangling _) => apply maintains_stuck : maintains.
#[export] Hint Extern 1 (ensures _ (match ?x with _ => _ end) _) => destruct x : maintains.

(** ** Machine integers *)

(** [long] on the 64-bit target. *)
Definition LONG_MAX : Z := 9223372036854775807.
Definition LONG_MIN : Z := -9223372036854775808.

(** Two's-complement value of a 64-bit pattern. *)
Definition wrap64 (z : Z) : Z := (z + 2^63) `mod` 2^64 - 2^63.

(** [std::size_t]. *)
Definition wrap_size (z : Z) : Z := z `mod` 2^64.

Lemma wrap64_id z : (LONG_MIN ≤ z ≤ LONG_MAX)%Z → wrap64 z = z.
Proof.
  unfold wrap64, LONG_MIN, LONG_MAX. intros Hz.
  rewrite Z.mod_small; lia.
Qed.

Lemma wrap_size_id z : (0 ≤ z < 2^64)%Z → wrap_size z = z.
Proof. apply Z.mod_small. Qed.


(** ** Lists *)

Lemma filter_all {A} (P : A → Prop) `{!∀ x, Decision (P x)} (l : list A) :
  Forall P l → filter P l = l.
Proof.
  induction 1 as [|x l Hx Hl IH]; [done|]. rewrite filter_cons, decide_True by done.
  by rewrite IH.
Qed.

Lemma filter_none {A} (P : A → Prop) `{!∀ x, Decision (P x)} (l : list A) :
  Forall (λ x, ¬ P x) l → filter P l = [].
Proof.
  induction 1 as [|x l Hx Hl IH]; [done|]. by rewrite filter_cons, decide_False.
Qed.

Lemma filter_filter_and {A} (P Q : A → Prop)
    `{!∀ x, Decision (P x)} `{!∀ x, Decision (Q x)} (l : list A) :
  filter P (filter Q l) = filter (λ x, Q x ∧ P x) l.
Proof.
  induction l as [|x l IH]; [done|]. rewrite !filter_cons.
  destruct (decide (Q x)) as [HQ|HQ].
  - rewrite filter_cons. destruct (decide (P x)) as [HP|HP].
    + rewrite (decide_True (P := Q x ∧ P x)) by done. by rewrite IH.
    + rewrite (decide_False (P := Q x ∧ P x)) by tauto. done.
  - rewrite (decide_False (P := Q x ∧ P x)) by tauto. done.
Qed.

Lemma filter_sublist {A} (P : A → Prop) `{!∀ x, Decision (P x)} (l : list A) :
  filter P l `sublist_of` l.
Proof.
  induction l as [|x l IH]; [done|]. rewrite filter_cons.
  case_decide; by constructor.
Qed.

Lemma StronglySorted_sublist {A} (R : relation A) (l1 l2 : list A) :
  l1 `sublist_of` l2 → StronglySorted R l2 → StronglySorted R l1.
Proof.
  induction 1 as [|x l1 l2 Hs IH|x l1 l2 Hs IH]; [done|..];
    intros [Hx Hl]%StronglySorted_cons; [|auto].
  apply StronglySorted_cons. split; [|auto].
  rewrite Forall_forall in *. intros y Hy. eapply Hx, elem_of_sublist; eauto.
Qed.

Lemma filter_ext_in {A} (P Q : A → Prop)
    `{!∀ x, Decision (P x)} `{!∀ x, Decision (Q x)} (l : list A) :
  (∀ x, x ∈ l → P x ↔ Q x) → filter P l = filter Q l.
Proof.
  induction l as [|x l IH]; intros HPQ; [done|]. rewrite !filter_cons.
  rewrite IH by (intros y Hy; apply HPQ; by right).
  apply decide_ext, HPQ. left.
Qed.

Lemma lookup_removelast {A} (l : list A) i :
  removelast l !! i = if decide (i < length l - 1) then l !! i else None.
Proof.
  rewrite removelast_firstn_len. rewrite Nat.sub_1_r.
  destruct (decide (i < Nat.pred (length l))) as [Hi|Hi].
  - apply lookup_take_lt; lia.
  - apply lookup_ge_None. rewrite length_take. lia.
Qed.

(** Moving the last element into the place of another one. *)
Lemma lookup_swap_remove {A} (l : list A) k x i y :
  k < length l - 1 →
  removelast (<[k := x]> l) !! i = Some y ↔
  (i = k ∧ y = x) ∨ (i ≠ k ∧ i ≠ length l - 1 ∧ l !! i = Some y).
Proof.
  intros Hk. rewrite lookup_removelast, length_insert. case_decide as Hd.
  - destruct (decide (i = k)) as [->|Hne].
    + rewrite list_lookup_insert_eq by lia. naive_solver.
    + rewrite list_lookup_insert_ne by done. split; [right; split_and!; [done|lia|done]|naive_solver].
  - split; [done|]. intros [[-> _]|(? & ? & Hy)]; [lia|]. apply lookup_lt_Some in Hy. lia.
Qed.
