(* ===== verification/CxxString.v ===== *)
(** * CxxString: the part of the C++ string library the program uses

    [std::string] is a sequence of bytes, modelled as [list ascii].  The file
    gives the member functions the sources call ([find], [substr], [erase],
    [append]), the classification functions [isspace] and [isdigit] of the
    "C" locale, [std::to_string], extraction of whitespace-separated tokens
    from an [std::istringstream], and [std::atoi]; then the lemmas about them
    that the components share: what [find] says about its result, that token
    extraction splits exactly at white space, and that the decimal rendering
    of a number is read back as that number. *)

From S2P Require Import Prelude.

Abbreviation bytes := (list ascii).

(** A string literal of the source. *)
Definition lit (s : string) : bytes := String.list_ascii_of_string s.
Arguments lit s%_string_scope : simpl never.

Definition LF : ascii := "010"%char.
Definition CR : ascii := "013"%char.
Definition NUL : ascii := "000"%char.

Definition str_size (s : bytes) : Z := Z.of_nat (length s).

(** [s.find(c)]; [None] is [npos]. *)
Fixpoint find_char (c : ascii) (s : bytes) : option nat :=
  match s with
  | [] => None
  | x :: s' => if decide (x = c) then Some 0 else S <$> find_char c s'
  end.

(** [s.substr(0, n)] and [s.erase(0, n)]. *)
Definition substr0 (s : bytes) (n : nat) : bytes := take n s.
Definition erase0 (s : bytes) (n : nat) : bytes := drop n s.

(** [if (!line.empty() && line.back() == '\r') line.pop_back();] *)
Definition chomp_cr (line : bytes) : bytes :=
  match list.last line with
  | Some c => if decide (c = CR) then removelast line else line
  | None => line
  end.

(** What [printf("%s")] prints of [s.c_str()]: the bytes before the first NUL. *)
Definition c_str (s : bytes) : bytes :=
  match find_char NUL s with Some n => take n s | None => s end.

(** [isspace] and [isdigit] of the "C" locale. *)
Definition isspace (c : ascii) : bool :=
  let n := N_of_ascii c in (n =? 32)%N || ((9 <=? n)%N && (n <=? 13)%N).

Definition isdigit (c : ascii) : bool :=
  let n := N_of_ascii c in (48 <=? n)%N && (n <=? 57)%N.

(** [c - '0'] *)
Definition digit_value (c : ascii) : Z := Z.of_N (N_of_ascii c) - 48.

Definition digit_char (d : Z) : ascii := ascii_of_N (Z.to_N (48 + d)).

(** [std::to_string] of a non-negative integer; [fuel] bounds the number of
    digits, and 20 digits hold every 64-bit value. *)
Fixpoint digits (fuel : nat) (z : Z) : bytes :=
  match fuel with
  | O => []
  | S f => if (z <? 10)%Z then [digit_char z]
           else digits f (z `div` 10) ++ [digit_char (z `mod` 10)]
  end.

Definition to_string (z : Z) : bytes :=
  if (z <? 0)%Z then "-"%char :: digits 20 (- z) else digits 20 z.

(** [stream >> token]: skip white space, then take everything up to the next
    white space.  Extraction fails when only white space is left. *)
Fixpoint skip_ws (s : bytes) : bytes :=
  match s with
  | [] => []
  | c :: s' => if isspace c then skip_ws s' else s
  end.

Fixpoint span_token (s : bytes) : bytes * bytes :=
  match s with
  | [] => ([], [])
  | c :: s' => if isspace c then ([], s)
               else let '(t, r) := span_token s' in (c :: t, r)
  end.

Definition extract (s : bytes) : option (bytes * bytes) :=
  match span_token (skip_ws s) with
  | ([], _) => None
  | (token, rest) => Some (token, rest)
  end.

(** [while (stream >> token) out.push_back(token);] *)
Fixpoint extract_all (fuel : nat) (s : bytes) : list bytes :=
  match fuel with
  | O => []
  | S f => match extract s with
           | None => []
           | Some (token, rest) => token :: extract_all f rest
           end
  end.

Definition tokens_of (s : bytes) : list bytes := extract_all (S (length s)) s.

(** ** Lemmas *)

Lemma find_Some c s n :
  find_char c s = Some n → s = take n s ++ c :: drop (S n) s ∧ c ∉ take n s ∧ n < length s.
Proof.
  revert n. induction s as [|x s IH]; intros n; simpl; [done|].
  case_decide as Hx; [intros [= <-]; subst; simpl; split_and!; [done|set_solver|lia]|].
  destruct (find_char c s) as [m|]; [|done]. intros [= <-].
  destruct (IH m eq_refl) as (Hs & Hnin & Hlt). simpl. split_and!.
  - by rewrite <-Hs.
  - set_solver.
  - lia.
Qed.

Lemma find_None c s : find_char c s = None ↔ c ∉ s.
Proof.
  induction s as [|x s IH]; simpl; [set_solver|].
  case_decide as Hx; [set_solver|].
  destruct (find_char c s); simpl; set_solver.
Qed.

Lemma find_app_l c s1 s2 n : find_char c s1 = Some n → find_char c (s1 ++ s2) = Some n.
Proof.
  revert n. induction s1 as [|x s1 IH]; intros n; simpl; [done|].
  case_decide; [done|]. destruct (find_char c s1); [|done].
  intros [= <-]. by rewrite (IH _ eq_refl).
Qed.

Lemma find_app_r c s1 s2 : c ∉ s1 → find_char c (s1 ++ s2) = (λ n, length s1 + n) <$> find_char c s2.
Proof.
  induction s1 as [|x s1 IH]; intros Hc; simpl; [by destruct (find_char c s2)|].
  rewrite decide_False by set_solver. rewrite IH by set_solver.
  by destruct (find_char c s2).
Qed.

(** The line before a terminator that does not occur in it. *)
Lemma find_first c s1 s2 : c ∉ s1 → find_char c (s1 ++ c :: s2) = Some (length s1).
Proof.
  intros Hc. rewrite find_app_r by done. simpl. rewrite decide_True by done.
  simpl. f_equal. lia.
Qed.

Lemma chomp_cr_incl line c : c ∈ chomp_cr line → c ∈ line.
Proof.
  unfold chomp_cr. destruct (list.last line) as [x|] eqn:Hl; [|done].
  case_decide; [|done]. apply last_Some in Hl as [l ->].
  rewrite removelast_last. set_solver.
Qed.

(** *** Tokens *)

Definition is_token (t : bytes) : Prop := t ≠ [] ∧ Forall (λ c, isspace c = false) t.

#[global] Instance is_token_dec t : Decision (is_token t).
Proof. apply _. Defined.

Lemma span_token_spec s t r :
  span_token s = (t, r) →
  s = t ++ r ∧ Forall (λ c, isspace c = false) t
  ∧ (r = [] ∨ ∃ c r', r = c :: r' ∧ isspace c = true).
Proof.
  revert t r. induction s as [|x s IH]; intros t r; simpl; [intros [= <- <-]; auto|].
  destruct (isspace x) eqn:Hx; [intros [= <- <-]; split_and!; eauto|].
  destruct (span_token s) as [t' r']. intros [= <- <-].
  destruct (IH t' r' eq_refl) as (-> & Ht & Hr). split_and!; auto.
Qed.

Lemma skip_ws_spec s :
  ∃ w, s = w ++ skip_ws s ∧ Forall (λ c, isspace c = true) w
       ∧ (skip_ws s = [] ∨ ∃ c r, skip_ws s = c :: r ∧ isspace c = false).
Proof.
  induction s as [|x s (w & Hs & Hw & Hn)]; simpl; [by exists []; auto|].
  destruct (isspace x) eqn:Hx.
  - exists (x :: w). simpl. rewrite <-Hs. auto.
  - exists []. split_and!; eauto.
Qed.

Lemma extract_Some s t r :
  extract s = Some (t, r) → is_token t ∧ ∃ w, s = w ++ t ++ r ∧ Forall (λ c, isspace c = true) w.
Proof.
  unfold extract. destruct (span_token (skip_ws s)) as [t' r'] eqn:Hsp.
  destruct t' as [|c t']; [done|]. intros [= <- <-].
  apply span_token_spec in Hsp as (Hs & Ht & _).
  destruct (skip_ws_spec s) as (w & Hw & Hall & _).
  split; [split; done|]. exists w. by rewrite <-Hs, <-Hw.
Qed.

Lemma extract_None s : extract s = None ↔ Forall (λ c, isspace c = true) s.
Proof.
  unfold extract. destruct (skip_ws_spec s) as (w & Hs & Hw & Hn).
  destruct Hn as [Hn|(c & r & Hn & Hc)].
  - rewrite Hn; simpl. split; [intros _|done]. rewrite Hs, Hn, app_nil_r. done.
  - rewrite Hn. simpl. rewrite Hc. destruct (span_token r) as [t r'].
    split; [done|]. rewrite Hs, Hn, Forall_app, Forall_cons, Hc. naive_solver.
Qed.

Lemma extract_token w t r :
  Forall (λ c, isspace c = true) w → is_token t →
  (r = [] ∨ ∃ c r', r = c :: r' ∧ isspace c = true) →
  extract (w ++ t ++ r) = Some (t, r).
Proof.
  intros Hw [Hne Ht] Hr. unfold extract.
  assert (skip_ws (w ++ t ++ r) = t ++ r) as ->.
  { induction Hw as [|x w Hx Hw IH]; simpl; [|by rewrite Hx].
    destruct t as [|c t]; [done|]. simpl. apply Forall_cons in Ht as [-> _]. done. }
  assert (span_token (t ++ r) = (t, r)) as ->.
  { clear Hne. induction Ht as [|c t Hc Ht IH]; simpl.
    - destruct Hr as [->|(c & r' & -> & Hc)]; simpl; [done|by rewrite Hc].
    - by rewrite Hc, IH. }
  by destruct t.
Qed.

(** Enough fuel: the loop over the tokens stops by itself. *)
Lemma extract_all_fuel f1 f2 s :
  length s < f1 → length s < f2 → extract_all f1 s = extract_all f2 s.
Proof.
  revert f2 s. induction f1 as [|f1 IH]; intros f2 s H1 H2; [lia|].
  destruct f2 as [|f2]; [lia|]. simpl.
  destruct (extract s) as [[t r]|] eqn:He; [|done].
  apply extract_Some in He as [[Hne _] (w & -> & _)].
  rewrite !length_app in H1, H2.
  assert (length t ≠ 0) by (by destruct t). f_equal. apply IH; lia.
Qed.

(** The equation of the extraction loop. *)
Lemma tokens_of_unfold s :
  tokens_of s = match extract s with
                | None => []
                | Some (t, r) => t :: tokens_of r
                end.
Proof.
  unfold tokens_of at 1. simpl. destruct (extract s) as [[t r]|] eqn:He; [|done].
  apply extract_Some in He as [[Hne _] (w & -> & _)]. f_equal.
  apply extract_all_fuel; [|lia]. rewrite !length_app.
  assert (length t ≠ 0) by (by destruct t). lia.
Qed.

Lemma tokens_of_tokens s : Forall is_token (tokens_of s).
Proof.
  remember (length s) as n eqn:Hn. revert s Hn.
  induction n as [n IH] using lt_wf_ind. intros s ->.
  rewrite tokens_of_unfold. destruct (extract s) as [[t r]|] eqn:He; [|done].
  apply extract_Some in He as [Ht (w & -> & _)]. constructor; [done|].
  eapply IH; [|done]. destruct Ht. rewrite !length_app. destruct t; simpl; [done|lia].
Qed.

(** Tokens separated by single spaces are recovered exactly. *)
Fixpoint unwords (ts : list bytes) : bytes :=
  match ts with
  | [] => []
  | [t] => t
  | t :: ts' => t ++ " "%char :: unwords ts'
  end.

Lemma tokens_of_unwords_ws w ts :
  Forall (λ c, isspace c = true) w → Forall is_token ts →
  tokens_of (w ++ unwords ts) = ts.
Proof.
  revert w. induction ts as [|t ts IH]; intros w Hw Hts.
  - rewrite tokens_of_unfold. simpl. rewrite app_nil_r.
    by rewrite (proj2 (extract_None w) Hw).
  - apply Forall_cons in Hts as [Ht Hts]. rewrite tokens_of_unfold. simpl.
    destruct ts as [|t' ts].
    + rewrite <-(app_nil_r t), extract_token by auto. rewrite !app_nil_r. f_equal.
    + rewrite extract_token by (try right; eauto). f_equal.
      change (" "%char :: unwords (t' :: ts)) with ([" "%char] ++ unwords (t' :: ts)).
      apply IH; [|done]. by repeat constructor.
Qed.

Lemma tokens_of_space c s : isspace c = true → tokens_of (c :: s) = tokens_of s.
Proof.
  intros Hc. rewrite (tokens_of_unfold s), tokens_of_unfold. unfold extract. simpl.
  by rewrite Hc.
Qed.

(** Trailing white space does not matter either. *)
Lemma tokens_of_trailing s c : isspace c = true → tokens_of (s ++ [c]) = tokens_of s.
Proof.
  intros Hc. remember (length s) as n eqn:Hn. revert s Hn.
  induction n as [n IH] using lt_wf_ind. intros s ->. rewrite !tokens_of_unfold.
  destruct (extract s) as [[t r]|] eqn:He.
  - assert (r = [] ∨ ∃ c' r', r = c' :: r' ∧ isspace c' = true) as Hr.
    { unfold extract in He. destruct (span_token (skip_ws s)) as [t' r'] eqn:Hsp.
      apply span_token_spec in Hsp as (_ & _ & Hr). destruct t'; [done|]. by injection He as <- <-. }
    apply extract_Some in He as [Ht (w & -> & Hw)]. rewrite <-!app_assoc.
    rewrite extract_token; [|done|done|right; destruct Hr as [->|(c' & r' & -> & ?)]; cbn; eauto].
    f_equal. apply (IH (length r)); [|done]. destruct Ht. rewrite !length_app. destruct t; cbn; [done|lia].
  - apply extract_None in He. rewrite (proj2 (extract_None _)); [done|].
    apply Forall_app. split; [done|by apply Forall_singleton].
Qed.

Lemma tokens_of_unwords ts : Forall is_token ts → tokens_of (unwords ts) = ts.
Proof. apply (tokens_of_unwords_ws []). constructor. Qed.

Lemma tokens_of_unwords_trailing ts c :
  isspace c = true → Forall is_token ts → tokens_of (unwords ts ++ [c]) = ts.
Proof.
  intros Hc Hts. destruct ts as [|t ts]; [by rewrite tokens_of_unfold; simpl;
    unfold extract; simpl; rewrite Hc|].
  revert t Hts. induction ts as [|t' ts IH]; intros t Hts;
    apply Forall_cons in Hts as [Ht Hts]; rewrite tokens_of_unfold.
  - cbn [unwords]. change (t ++ [c]) with ([] ++ t ++ [c]).
    rewrite extract_token by eauto. f_equal.
    rewrite tokens_of_unfold. unfold extract. simpl. by rewrite Hc.
  - assert (unwords (t :: t' :: ts) ++ [c] = [] ++ t ++ " "%char :: (unwords (t' :: ts) ++ [c]))
      as ->. { change (unwords (t :: t' :: ts)) with (t ++ " "%char :: unwords (t' :: ts)).
               by rewrite <-app_assoc. }
    rewrite extract_token by eauto. f_equal. rewrite tokens_of_space by done. by apply IH.
Qed.

(** No byte of a token comes from anywhere but the text. *)
Lemma tokens_of_incl s t c : t ∈ tokens_of s → c ∈ t → c ∈ s.
Proof.
  remember (length s) as n eqn:Hn. revert s Hn.
  induction n as [n IH] using lt_wf_ind. intros s ->.
  rewrite tokens_of_unfold. destruct (extract s) as [[t' r]|] eqn:He; [|set_solver].
  apply extract_Some in He as [[Hne _] (w & -> & _)].
  rewrite elem_of_cons. intros [->|Hin] Hc; [set_solver|].
  assert (c ∈ r); [|set_solver].
  eapply (IH (length r)); [|done..]. rewrite !length_app. destruct t'; simpl; [done|lia].
Qed.

(** *** Decimal numbers *)

(** The number a digit string denotes. *)
Definition dec_value (s : bytes) : Z :=
  fold_left (λ v c, v * 10 + digit_value c)%Z s 0%Z.

Lemma isdigit_value c : isdigit c = true → (0 ≤ digit_value c ≤ 9)%Z.
Proof. unfold isdigit, digit_value. rewrite andb_true_iff, !N.leb_le. lia. Qed.

Lemma isdigit_not_space c : isdigit c = true → isspace c = false.
Proof.
  unfold isdigit, isspace. rewrite andb_true_iff, !N.leb_le. intros [??].
  rewrite orb_false_iff, andb_false_iff, N.eqb_neq, !N.leb_gt. lia.
Qed.

Lemma digit_char_spec d :
  (0 ≤ d ≤ 9)%Z → isdigit (digit_char d) = true ∧ digit_value (digit_char d) = d.
Proof.
  intros Hd. unfold isdigit, digit_value, digit_char.
  rewrite N_ascii_embedding by lia.
  rewrite andb_true_iff, !N.leb_le. lia.
Qed.

Lemma dec_value_snoc s c : dec_value (s ++ [c]) = (dec_value s * 10 + digit_value c)%Z.
Proof. unfold dec_value. by rewrite fold_left_app. Qed.

Lemma dec_value_bound s :
  Forall (λ c, isdigit c = true) s → (0 ≤ dec_value s < 10 ^ Z.of_nat (length s))%Z.
Proof.
  induction s as [|c s IH] using rev_ind; [done|].
  rewrite Forall_app, Forall_singleton, dec_value_snoc. intros [Hs Hc].
  specialize (IH Hs). apply isdigit_value in Hc.
  rewrite length_app. simpl. rewrite Nat2Z.inj_add, Z.pow_add_r by lia. simpl. lia.
Qed.

Lemma digits_spec fuel z :
  (0 ≤ z < 10 ^ Z.of_nat fuel)%Z →
  Forall (λ c, isdigit c = true) (digits fuel z) ∧ dec_value (digits fuel z) = z.
Proof.
  revert z. induction fuel as [|f IH]; intros z Hz;
    [split; [done|]; change (10 ^ Z.of_nat 0)%Z with 1%Z in Hz; unfold dec_value; simpl; lia|].
  simpl. destruct (Z.ltb_spec z 10) as [Hlt|Hge].
  - destruct (digit_char_spec z) as [H1 H2]; [lia|].
    split; [by repeat constructor|]. unfold dec_value. simpl. lia.
  - rewrite Nat2Z.inj_succ, Z.pow_succ_r in Hz by lia.
    destruct (IH (z `div` 10)%Z) as [H1 H2];
      [split; [apply Z.div_pos; lia|apply Z.div_lt_upper_bound; lia]|].
    pose proof (Z.mod_pos_bound z 10 ltac:(lia)).
    destruct (digit_char_spec (z `mod` 10)) as [H3 H4]; [lia|].
    rewrite Forall_app, dec_value_snoc, H2, H4. split; [by repeat constructor|].
    pose proof (Z.div_mod z 10). lia.
Qed.

Lemma digits_length fuel n z :
  (0 ≤ z < 10 ^ Z.of_nat n)%Z → 0 < n → 0 < fuel → 1 ≤ length (digits fuel z) ≤ n.
Proof.
  revert n z. induction fuel as [|f IH]; intros n z Hz Hn Hf; [lia|]. simpl.
  destruct (Z.ltb_spec z 10) as [Hlt|Hge]; [simpl; lia|].
  destruct n as [|n]; [lia|]. rewrite Nat2Z.inj_succ, Z.pow_succ_r in Hz by lia.
  destruct n as [|n]; [simpl in Hz; lia|]. rewrite length_app. simpl.
  destruct f as [|f]; [simpl; lia|].
  assert (1 ≤ length (digits (S f) (z `div` 10)) ≤ S n); [|lia].
  apply IH; [|lia..]. split; [apply Z.div_pos; lia|apply Z.div_lt_upper_bound; lia].
Qed.

Lemma to_string_digits z :
  (0 ≤ z < 10 ^ 20)%Z →
  Forall (λ c, isdigit c = true) (to_string z) ∧ dec_value (to_string z) = z.
Proof.
  intros Hz. unfold to_string. rewrite (proj2 (Z.ltb_ge z 0)) by lia.
  by apply (digits_spec 20).
Qed.

Lemma to_string_token z : (0 ≤ z < 10 ^ 20)%Z → is_token (to_string z).
Proof.
  intros Hz. split.
  - unfold to_string. rewrite (proj2 (Z.ltb_ge z 0)) by lia.
    intros Heq. destruct (digits_length 20 20 z Hz) as [Hl _]; [lia..|].
    rewrite Heq in Hl. simpl in Hl. lia.
  - destruct (to_string_digits z Hz) as [H _].
    eapply Forall_impl; [exact H|]. apply isdigit_not_space.
Qed.

(** Whatever the number, its text has no white space in it. *)
Lemma digits_graphic fuel z c : c ∈ digits fuel z → (0 ≤ z)%Z → isspace c = false.
Proof.
  revert z. induction fuel as [|f IH]; intros z; simpl; [set_solver|].
  destruct (Z.ltb_spec z 10).
  - rewrite list_elem_of_singleton. intros -> ?. apply isdigit_not_space, digit_char_spec. lia.
  - rewrite elem_of_app, list_elem_of_singleton. intros [Hc| ->] ?.
    + apply (IH (z `div` 10)%Z); [done|]. apply Z.div_pos; lia.
    + apply isdigit_not_space, digit_char_spec. pose proof (Z.mod_pos_bound z 10). lia.
Qed.

Lemma to_string_graphic z c : c ∈ to_string z → isspace c = false.
Proof.
  unfold to_string. destruct (Z.ltb_spec z 0).
  - rewrite elem_of_cons. intros [->|Hc]; [done|]. eapply digits_graphic; [done|lia].
  - intros Hc. eapply digits_graphic; [done|lia].
Qed.

Lemma not_space_not_LF c : isspace c = false → c ≠ LF.
Proof. by intros Hc ->. Qed.

Lemma digits_at_most fuel z : length (digits fuel z) ≤ fuel.
Proof.
  revert z. induction fuel as [|f IH]; intros z; simpl; [lia|].
  destruct (z <? 10)%Z; simpl; [lia|]. rewrite length_app. specialize (IH (z / 10)%Z). simpl. lia.
Qed.

Lemma to_string_length z : length (to_string z) ≤ 21.
Proof.
  unfold to_string. destruct (z <? 0)%Z; cbn [length].
  - pose proof (digits_at_most 20 (- z)). lia.
  - pose proof (digits_at_most 20 z). lia.
Qed.

Lemma tokens_of_length s t : t ∈ tokens_of s → length t ≤ length s.
Proof.
  remember (length s) as n eqn:Hn. revert s Hn.
  induction n as [n IH] using lt_wf_ind. intros s -> Ht. rewrite tokens_of_unfold in Ht.
  destruct (extract s) as [[t0 r]|] eqn:He; [|set_solver].
  apply extract_Some in He as [[Hne _] (w & -> & _)]. rewrite !length_app.
  apply elem_of_cons in Ht as [->|Ht]; [lia|].
  apply (IH (length r)) in Ht; [lia| |done]. rewrite !length_app.
  destruct t0; [done|]. simpl. lia.
Qed.

Lemma chomp_cr_length line : length (chomp_cr line) ≤ length line.
Proof.
  unfold chomp_cr. destruct (list.last line) as [x|] eqn:Hl; [|lia]. case_decide; [|lia].
  apply last_Some in Hl as [l ->]. rewrite removelast_last, length_app. lia.
Qed.

(** *** [strtol] and [atoi] *)

Fixpoint take_digits (s : bytes) : bytes :=
  match s with
  | c :: s' => if isdigit c then c :: take_digits s' else []
  | [] => []
  end.

(** [strtol(s, nullptr, 10)]: optional white space and sign, then digits; the
    result is clamped to the range of [long]. *)
Definition strtol (s : bytes) : Z :=
  let clamp z := Z.max LONG_MIN (Z.min LONG_MAX z) in
  match skip_ws s with
  | c :: s' =>
      if decide (c = "-"%char) then clamp (- dec_value (take_digits s'))%Z
      else if decide (c = "+"%char) then clamp (dec_value (take_digits s'))
      else clamp (dec_value (take_digits (c :: s')))
  | [] => 0%Z
  end.

(** [std::atoi] converts with [strtol] and keeps the low 32 bits. *)
Definition atoi (s : bytes) : Z := (strtol s + 2 ^ 31) `mod` 2 ^ 32 - 2 ^ 31.

Lemma take_digits_all s : Forall (λ c, isdigit c = true) s → take_digits s = s.
Proof. induction 1 as [|c s Hc Hs IH]; [done|]. cbn. by rewrite Hc, IH. Qed.

Lemma strtol_digits s :
  s ≠ [] → Forall (λ c, isdigit c = true) s → (dec_value s ≤ LONG_MAX)%Z → strtol s = dec_value s.
Proof.
  intros Hne Hd Hmax. pose proof (dec_value_bound s Hd) as [Hpos _]. unfold strtol.
  destruct s as [|c s]; [done|]. inversion Hd as [|? ? Hc Hs]; subst. cbn [skip_ws].
  rewrite (isdigit_not_space c Hc).
  rewrite decide_False by (by intros ->). rewrite decide_False by (by intros ->).
  rewrite take_digits_all by done. unfold LONG_MIN, LONG_MAX in *. lia.
Qed.

Lemma atoi_to_string z : (0 ≤ z < 2 ^ 31)%Z → atoi (to_string z) = z.
Proof.
  intros Hz. assert (0 ≤ z < 10 ^ 20)%Z as Hz' by lia.
  destruct (to_string_digits z Hz') as [Hd Hv]. unfold atoi.
  rewrite strtol_digits, Hv; [rewrite Z.mod_small; lia| |done|].
  - by apply to_string_token.
  - rewrite Hv. unfold LONG_MAX. lia.
Qed.
