(* ===== verification/Framing.v ===== *)
(** * Framing: newline-delimited messages in a byte stream

    [lines_of buffer] are the complete lines of a buffer and the incomplete
    rest: what the framing loops of the server and of the client must find.
    The split does not depend on how the stream was cut into chunks. *)

From S2P Require Import Prelude CxxString.

Fixpoint lines_of (buffer : bytes) : list bytes * bytes :=
  match buffer with
  | [] => ([], [])
  | c :: buffer' =>
      let '(ls, rest) := lines_of buffer' in
      if decide (c = LF) then ([] :: ls, rest)
      else match ls with
           | [] => ([], c :: rest)
           | l :: ls' => ((c :: l) :: ls', rest)
           end
  end.

Lemma lines_of_none buffer : LF ∉ buffer → lines_of buffer = ([], buffer).
Proof.
  induction buffer as [|c buffer IH]; intros Hn; [done|]. cbn [lines_of].
  rewrite IH by set_solver. by rewrite decide_False by set_solver.
Qed.

Lemma lines_of_line line buffer :
  LF ∉ line → lines_of (line ++ LF :: buffer) = (line :: (lines_of buffer).1, (lines_of buffer).2).
Proof.
  induction line as [|c line IH]; intros Hn; cbn [app lines_of].
  - destruct (lines_of buffer) as [ls rest]. by rewrite decide_True.
  - rewrite IH by set_solver. by rewrite decide_False by set_solver.
Qed.

(** The view of the framing loops: the first newline ends the first line. *)
Lemma lines_of_found buffer n :
  find_char LF buffer = Some n →
  lines_of buffer = (take n buffer :: (lines_of (drop (S n) buffer)).1, (lines_of (drop (S n) buffer)).2).
Proof.
  intros (Heq & Hn & _)%find_Some. rewrite Heq at 1. by apply lines_of_line.
Qed.

Lemma lines_of_rest buffer : LF ∉ (lines_of buffer).2.
Proof.
  induction buffer as [|c buffer IH]; cbn [lines_of]; [set_solver|].
  destruct (lines_of buffer) as [ls rest]. case_decide; [done|].
  destruct ls; cbn [snd] in *; set_solver.
Qed.

(** Terminated lines on the wire. *)
Definition wire (ls : list bytes) : bytes := concat ((λ l, l ++ [LF]) <$> ls).

Lemma wire_app ls1 ls2 : wire (ls1 ++ ls2) = wire ls1 ++ wire ls2.
Proof. unfold wire. by rewrite fmap_app, concat_app. Qed.

Lemma wire_snoc ls l : wire (ls ++ [l]) = wire ls ++ l ++ [LF].
Proof. rewrite wire_app. unfold wire at 2. cbn. by rewrite app_nil_r. Qed.

(** Nothing is lost: lines and rest make up the buffer. *)
Lemma lines_of_concat buffer :
  buffer = wire (lines_of buffer).1 ++ (lines_of buffer).2.
Proof.
  unfold wire. induction buffer as [|c buffer IH]; [done|]. cbn [lines_of].
  destruct (lines_of buffer) as [ls rest]. cbn [fst snd] in *. case_decide as Hc.
  - subst c. cbn. by rewrite <-IH.
  - destruct ls as [|l ls]; cbn in *; by rewrite <-IH || by rewrite IH.
Qed.

Lemma lines_of_no_LF buffer l : l ∈ (lines_of buffer).1 → LF ∉ l.
Proof.
  revert l. induction buffer as [|c buffer IH]; intros l; cbn [lines_of]; [set_solver|].
  destruct (lines_of buffer) as [ls rest]. cbn [fst] in IH. case_decide as Hc.
  - cbn. intros [->|Hl]%elem_of_cons; [set_solver|by apply IH].
  - destruct ls as [|l0 ls]; cbn; [set_solver|]. intros [->|Hl]%elem_of_cons.
    + intros [Heq|Hin]%elem_of_cons; [by destruct Hc|]. eapply (IH l0); [left|done].
    + apply IH. by right.
Qed.

Lemma lines_of_app a b :
  lines_of (a ++ b) =
  ((lines_of a).1 ++ (lines_of ((lines_of a).2 ++ b)).1, (lines_of ((lines_of a).2 ++ b)).2).
Proof.
  induction a as [|c a IH]; [by cbn; destruct (lines_of b)|]. cbn [app lines_of].
  rewrite IH. destruct (lines_of a) as [ls rest]. cbn [fst snd]. case_decide as Hc.
  - by cbn.
  - destruct ls as [|l ls]; cbn [app lines_of fst snd]; [|done].
    destruct (lines_of (rest ++ b)) as [ls' rest']. cbn [fst snd].
    rewrite decide_False by done. by destruct ls'.
Qed.

(** A stream of terminated messages splits into these messages. *)
Lemma lines_of_messages (ms : list bytes) rest :
  Forall (λ m, LF ∉ m) ms → LF ∉ rest →
  lines_of (wire ms ++ rest) = (ms, rest).
Proof.
  unfold wire. intros Hms Hrest. induction Hms as [|m ms Hm Hms IH]; [by apply lines_of_none|].
  cbn. rewrite <-!app_assoc. cbn. by rewrite lines_of_line, IH by done.
Qed.

(** A stream that begins with terminated messages has these first. *)
Lemma lines_of_prefix (ms : list bytes) rest :
  Forall (λ m, LF ∉ m) ms →
  lines_of (wire ms ++ rest) = (ms ++ (lines_of rest).1, (lines_of rest).2).
Proof.
  intros Hms. rewrite lines_of_app.
  assert (lines_of (wire ms) = (ms, [])) as ->; [|done].
  rewrite <-(app_nil_r (wire ms)). apply lines_of_messages; [done|set_solver].
Qed.

(** The complete lines of a part of such a stream are the first messages. *)
Lemma lines_of_part (ms : list bytes) data :
  Forall (λ m, LF ∉ m) ms → data `prefix_of` wire ms → (lines_of data).1 `prefix_of` ms.
Proof.
  intros Hms [rest Heq]. exists (lines_of ((lines_of data).2 ++ rest)).1.
  pose proof (lines_of_messages ms [] Hms ltac:(set_solver)) as Hl.
  rewrite app_nil_r, Heq, lines_of_app in Hl. by injection Hl.
Qed.
