(* ===== verification/MessageParser.v ===== *)
(** * MessageParser: the text protocol (src/protocol/message_parser.cpp)

    Parsing of one line into a [ParsedCommand] and formatting of the
    responses.  The theorems: [parse_integer] accepts exactly the digit
    strings of one to eighteen digits and computes their value without
    overflow; [parse] accepts exactly the grammar of the protocol and decodes
    a rendered command back into itself; every rejected line gets one reason. *)

From S2P Require Import Prelude CxxString.

Definition kInstruments : list bytes := [lit "JNST"; lit "IMCT"].

Definition is_valid_instrument (instrument : bytes) : bool :=
  existsb (λ name, bool_decide (instrument = name)) kInstruments.

Inductive CommandType : Type :=
| UNKNOWN | LOGIN | BUY | SELL | CANCEL | SUBSCRIBE | UNSUBSCRIBE | QUIT.

#[global] Instance CommandType_eq_dec : EqDecision CommandType.
Proof. solve_decision. Defined.

Record ParsedCommand : Type := mkCommand {
  cmd_type : CommandType;
  cmd_args : list bytes;
  cmd_valid : bool;
  cmd_error : bytes;
  cmd_instrument : bytes;
  cmd_quantity : Z;
  cmd_price : Z;
  cmd_order_id : Z
}.

Definition default_command : ParsedCommand :=
  mkCommand UNKNOWN [] false [] [] 0 0 0.

Definition set_instrument (c : ParsedCommand) (i : bytes) : ParsedCommand :=
  mkCommand (cmd_type c) (cmd_args c) (cmd_valid c) (cmd_error c) i
    (cmd_quantity c) (cmd_price c) (cmd_order_id c).

Definition set_quantity (c : ParsedCommand) (q : Z) : ParsedCommand :=
  mkCommand (cmd_type c) (cmd_args c) (cmd_valid c) (cmd_error c)
    (cmd_instrument c) q (cmd_price c) (cmd_order_id c).

Definition set_price (c : ParsedCommand) (p : Z) : ParsedCommand :=
  mkCommand (cmd_type c) (cmd_args c) (cmd_valid c) (cmd_error c)
    (cmd_instrument c) (cmd_quantity c) p (cmd_order_id c).

Definition set_order_id (c : ParsedCommand) (i : Z) : ParsedCommand :=
  mkCommand (cmd_type c) (cmd_args c) (cmd_valid c) (cmd_error c)
    (cmd_instrument c) (cmd_quantity c) (cmd_price c) i.

Definition set_valid (c : ParsedCommand) : ParsedCommand :=
  mkCommand (cmd_type c) (cmd_args c) true (cmd_error c)
    (cmd_instrument c) (cmd_quantity c) (cmd_price c) (cmd_order_id c).

Definition verb (type : CommandType) : bytes :=
  match type with
  | LOGIN => lit "LOGIN"
  | BUY => lit "BUY"
  | SELL => lit "SELL"
  | CANCEL => lit "CANCEL"
  | SUBSCRIBE => lit "SUBSCRIBE"
  | UNSUBSCRIBE => lit "UNSUBSCRIBE"
  | QUIT => lit "QUIT"
  | UNKNOWN => lit "UNKNOWN"
  end.

(** The loop of [parse_integer]: [value = value * 10 + (c - '0')] on a
    64-bit [long]. *)
Fixpoint parse_digits (text : bytes) (value : Z) : option Z :=
  match text with
  | [] => Some value
  | c :: text' =>
      if isdigit c
      then parse_digits text' (wrap64 (wrap64 (value * 10) + digit_value c))
      else None
  end.

Definition parse_integer (text : bytes) : option Z :=
  if (str_size text =? 0)%Z || (18 <? str_size text)%Z then None
  else parse_digits text 0.

Definition verb_of (token : bytes) : CommandType :=
  if decide (token = lit "LOGIN") then LOGIN
  else if decide (token = lit "BUY") then BUY
  else if decide (token = lit "SELL") then SELL
  else if decide (token = lit "CANCEL") then CANCEL
  else if decide (token = lit "SUBSCRIBE") then SUBSCRIBE
  else if decide (token = lit "UNSUBSCRIBE") then UNSUBSCRIBE
  else if decide (token = lit "QUIT") then QUIT
  else UNKNOWN.

Definition reject (cmd : ParsedCommand) (reason : bytes) : ParsedCommand :=
  mkCommand (cmd_type cmd) (cmd_args cmd) false reason
    (cmd_instrument cmd) (cmd_quantity cmd) (cmd_price cmd) (cmd_order_id cmd).

(** The cases of the [switch] in [parse]. *)
Definition parse_login (cmd : ParsedCommand) : ParsedCommand :=
  match cmd_args cmd with
  | [a0] => if (64 <? str_size a0)%Z then reject cmd (lit "Username too long")
            else set_valid cmd
  | _ => reject cmd (lit "Usage: LOGIN <username>")
  end.

Definition parse_order (cmd : ParsedCommand) : ParsedCommand :=
  match cmd_args cmd with
  | [a0; a1; a2] =>
      if negb (is_valid_instrument a0)
      then reject cmd (lit "Unknown instrument " ++ a0)
      else
        match parse_integer a1 with
        | None => reject cmd (lit "Quantity must be a positive integer")
        | Some q =>
            let cmd := set_quantity cmd q in
            if (q <=? 0)%Z
            then reject cmd (lit "Quantity must be a positive integer")
            else
              match parse_integer a2 with
              | None => reject cmd (lit "Price must be a positive integer")
              | Some p =>
                  let cmd := set_price cmd p in
                  if (p <=? 0)%Z
                  then reject cmd (lit "Price must be a positive integer")
                  else set_valid (set_instrument cmd a0)
              end
        end
  | _ => reject cmd (lit "Usage: " ++ verb (cmd_type cmd)
                       ++ lit " <instrument> <quantity> <price>")
  end.

Definition parse_cancel (cmd : ParsedCommand) : ParsedCommand :=
  match cmd_args cmd with
  | [a0] =>
      match parse_integer a0 with
      | None => reject cmd (lit "Order id must be a non-negative integer")
      | Some i => set_valid (set_order_id cmd i)
      end
  | _ => reject cmd (lit "Usage: CANCEL <order_id>")
  end.

Definition parse_subscription (cmd : ParsedCommand) : ParsedCommand :=
  match cmd_args cmd with
  | [a0] => if negb (is_valid_instrument a0)
            then reject cmd (lit "Unknown instrument " ++ a0)
            else set_valid (set_instrument cmd a0)
  | _ => reject cmd (lit "Usage: " ++ verb (cmd_type cmd) ++ lit " <instrument>")
  end.

Definition parse_quit (cmd : ParsedCommand) : ParsedCommand :=
  match cmd_args cmd with
  | [] => set_valid cmd
  | _ => reject cmd (lit "Usage: QUIT")
  end.

Definition parse (line : bytes) : ParsedCommand :=
  match extract line with
  | None => reject default_command (lit "Empty message")
  | Some (token, rest) =>
      let cmd := mkCommand (verb_of token) (tokens_of rest) false [] [] 0 0 0 in
      match cmd_type cmd with
      | UNKNOWN => reject cmd (lit "Unknown command")
      | LOGIN => parse_login cmd
      | BUY | SELL => parse_order cmd
      | CANCEL => parse_cancel cmd
      | SUBSCRIBE | UNSUBSCRIBE => parse_subscription cmd
      | QUIT => parse_quit cmd
      end
  end.

(** Responses. *)
Definition join (head instrument : bytes) (quantity price : Z) : bytes :=
  head ++ lit " " ++ instrument ++ lit " " ++ to_string quantity ++ lit " "
    ++ to_string price ++ [LF].

Definition ok : bytes := lit "OK" ++ [LF].
Definition error (reason : bytes) : bytes := lit "ERROR " ++ reason ++ [LF].
Definition order_accepted (order_id : Z) : bytes :=
  lit "ORDER_ACCEPTED " ++ to_string order_id ++ [LF].
Definition order_cancelled (order_id : Z) : bytes :=
  lit "ORDER_CANCELLED " ++ to_string order_id ++ [LF].
Definition bought : bytes → Z → Z → bytes := join (lit "BOUGHT").
Definition sold : bytes → Z → Z → bytes := join (lit "SOLD").
Definition trade : bytes → Z → Z → bytes := join (lit "TRADE").

Example parse_buy : parse (lit "BUY JNST 100 238") =
  mkCommand BUY [lit "JNST"; lit "100"; lit "238"] true [] (lit "JNST") 100 238 0.
Proof. vm_compute. reflexivity. Qed.

Example parse_bad_price : cmd_error (parse (lit "SELL IMCT 5 1.5")) =
  lit "Price must be a positive integer".
Proof. vm_compute. reflexivity. Qed.

Example trade_text : trade (lit "JNST") 60 238 = lit "TRADE JNST 60 238" ++ [LF].
Proof. vm_compute. reflexivity. Qed.

(** ** Numbers *)

(** The decimal numerals of the protocol. *)
Definition numeral (text : bytes) (v : Z) : Prop :=
  1 ≤ length text ≤ 18 ∧ Forall (λ c, isdigit c = true) text ∧ v = dec_value text.

Lemma parse_digits_spec text value :
  (0 ≤ value)%Z → ((value + 1) * 10 ^ Z.of_nat (length text) ≤ 10 ^ 18)%Z →
  parse_digits text value =
    if decide (Forall (λ c, isdigit c = true) text)
    then Some (fold_left (λ v c, v * 10 + digit_value c)%Z text value) else None.
Proof.
  revert value. induction text as [|c text IH]; intros value Hv Hb; [done|].
  cbn [length] in Hb. rewrite Nat2Z.inj_succ, Z.pow_succ_r in Hb by lia.
  cbn [parse_digits fold_left]. destruct (isdigit c) eqn:Hc.
  - pose proof (isdigit_value c Hc) as Hd.
    assert (0 < 10 ^ Z.of_nat (length text))%Z by (apply Z.pow_pos_nonneg; lia).
    set (P := (10 ^ Z.of_nat (length text))%Z) in *.
    assert (value * 10 + 10 ≤ 10 ^ 18)%Z by nia.
    rewrite (wrap64_id (value * 10)), wrap64_id by (unfold LONG_MIN, LONG_MAX; lia).
    rewrite IH by (fold P; nia). apply decide_ext. rewrite Forall_cons. naive_solver.
  - rewrite decide_False; [done|]. intros [Hd _]%Forall_cons. congruence.
Qed.

Lemma parse_integer_Some text v : parse_integer text = Some v ↔ numeral text v.
Proof.
  unfold parse_integer, numeral, str_size.
  destruct (Z.eqb_spec (Z.of_nat (length text)) 0); simpl; [split; [done|lia]|].
  destruct (Z.ltb_spec 18 (Z.of_nat (length text))); [split; [done|lia]|].
  rewrite parse_digits_spec.
  - case_decide; [|naive_solver]. unfold dec_value. split; [intros [= <-]|].
    + split_and!; [lia..|done|done].
    + intros (_ & _ & ->). done.
  - done.
  - rewrite Z.mul_1_l. apply Z.pow_le_mono_r; lia.
Qed.

Lemma numeral_bound text v : numeral text v → (0 ≤ v < 10 ^ 18)%Z.
Proof.
  intros (Hl & Hd & ->). pose proof (dec_value_bound text Hd).
  assert (10 ^ Z.of_nat (length text) ≤ 10 ^ 18)%Z by (apply Z.pow_le_mono_r; lia). lia.
Qed.

Lemma to_string_numeral n : (0 ≤ n < 10 ^ 18)%Z → numeral (to_string n) n.
Proof.
  intros Hn. destruct (to_string_digits n) as [Hd Hv]; [lia|].
  split_and!; [..|done|done].
  - unfold to_string. rewrite (proj2 (Z.ltb_ge n 0)) by lia.
    apply (digits_length 20 18); lia.
  - unfold to_string. rewrite (proj2 (Z.ltb_ge n 0)) by lia.
    apply (digits_length 20 18); lia.
Qed.

(** ** The grammar of the protocol *)

Inductive Request : Type :=
| RLogin (username : bytes)
| ROrder (side : CommandType) (instrument : bytes) (quantity price : Z)
| RCancel (order_id : Z)
| RSubscription (action : CommandType) (instrument : bytes)
| RQuit.

Inductive accepts : list bytes → Request → Prop :=
| acc_login u :
    length u ≤ 64 → accepts [lit "LOGIN"; u] (RLogin u)
| acc_buy i tq tp q p :
    i ∈ kInstruments → numeral tq q → (0 < q)%Z → numeral tp p → (0 < p)%Z →
    accepts [lit "BUY"; i; tq; tp] (ROrder BUY i q p)
| acc_sell i tq tp q p :
    i ∈ kInstruments → numeral tq q → (0 < q)%Z → numeral tp p → (0 < p)%Z →
    accepts [lit "SELL"; i; tq; tp] (ROrder SELL i q p)
| acc_cancel ti i :
    numeral ti i → accepts [lit "CANCEL"; ti] (RCancel i)
| acc_subscribe i :
    i ∈ kInstruments → accepts [lit "SUBSCRIBE"; i] (RSubscription SUBSCRIBE i)
| acc_unsubscribe i :
    i ∈ kInstruments → accepts [lit "UNSUBSCRIBE"; i] (RSubscription UNSUBSCRIBE i)
| acc_quit : accepts [lit "QUIT"] RQuit.

(** The command a request is decoded into. *)
Definition command_of (r : Request) (args : list bytes) : ParsedCommand :=
  match r with
  | RLogin _ => mkCommand LOGIN args true [] [] 0 0 0
  | ROrder side i q p => mkCommand side args true [] i q p 0
  | RCancel id => mkCommand CANCEL args true [] [] 0 0 id
  | RSubscription action i => mkCommand action args true [] i 0 0 0
  | RQuit => mkCommand QUIT args true [] [] 0 0 0
  end.

(** The canonical text of a request. *)
Definition request_tokens (r : Request) : list bytes :=
  match r with
  | RLogin u => [lit "LOGIN"; u]
  | ROrder side i q p => [verb side; i; to_string q; to_string p]
  | RCancel id => [lit "CANCEL"; to_string id]
  | RSubscription action i => [verb action; i]
  | RQuit => [lit "QUIT"]
  end.

Definition well_formed (r : Request) : Prop :=
  match r with
  | RLogin u => is_token u ∧ length u ≤ 64
  | ROrder side i q p =>
      (side = BUY ∨ side = SELL) ∧ i ∈ kInstruments
      ∧ (0 < q < 10 ^ 18)%Z ∧ (0 < p < 10 ^ 18)%Z
  | RCancel id => (0 ≤ id < 10 ^ 18)%Z
  | RSubscription action i => (action = SUBSCRIBE ∨ action = UNSUBSCRIBE) ∧ i ∈ kInstruments
  | RQuit => True
  end.

Lemma is_valid_instrument_spec i : is_valid_instrument i = true ↔ i ∈ kInstruments.
Proof.
  unfold is_valid_instrument. rewrite existsb_exists. setoid_rewrite bool_decide_eq_true.
  split; [intros (x & Hx & ->)|intros Hi; exists i]; by rewrite list_elem_of_In in *.
Qed.

(** What [verb_of] recognises. *)
Lemma verb_of_spec token :
  match verb_of token with
  | UNKNOWN => True
  | t => token = verb t
  end.
Proof. unfold verb_of. repeat case_decide; done. Qed.

Lemma parse_tokens line :
  parse line =
    match tokens_of line with
    | [] => reject default_command (lit "Empty message")
    | token :: args =>
        let cmd := mkCommand (verb_of token) args false [] [] 0 0 0 in
        match verb_of token with
        | UNKNOWN => reject cmd (lit "Unknown command")
        | LOGIN => parse_login cmd
        | BUY | SELL => parse_order cmd
        | CANCEL => parse_cancel cmd
        | SUBSCRIBE | UNSUBSCRIBE => parse_subscription cmd
        | QUIT => parse_quit cmd
        end
    end.
Proof. rewrite tokens_of_unfold. unfold parse. by destruct (extract line) as [[t r]|]. Qed.

Lemma parse_order_valid side args :
  let cmd := parse_order (mkCommand side args false [] [] 0 0 0) in
  cmd_valid cmd = true →
  ∃ i tq tp q p, args = [i; tq; tp] ∧ i ∈ kInstruments ∧ numeral tq q ∧ (0 < q)%Z
    ∧ numeral tp p ∧ (0 < p)%Z ∧ cmd = command_of (ROrder side i q p) args.
Proof.
  unfold parse_order. cbn [cmd_args].
  destruct args as [|i [|tq [|tp [|? ?]]]]; try done.
  destruct (is_valid_instrument i) eqn:Hi; [|done]. cbn [negb].
  apply is_valid_instrument_spec in Hi.
  destruct (parse_integer tq) as [q|] eqn:Hq; [|done]. apply parse_integer_Some in Hq.
  destruct (Z.leb_spec q 0); [done|].
  destruct (parse_integer tp) as [p|] eqn:Hp; [|done]. apply parse_integer_Some in Hp.
  destruct (Z.leb_spec p 0); [done|]. intros _.
  exists i, tq, tp, q, p. split_and!; done.
Qed.

Lemma parse_order_accept side i tq tp q p :
  i ∈ kInstruments → numeral tq q → (0 < q)%Z → numeral tp p → (0 < p)%Z →
  parse_order (mkCommand side [i; tq; tp] false [] [] 0 0 0)
  = command_of (ROrder side i q p) [i; tq; tp].
Proof.
  intros Hi Hq Hq0 Hp Hp0. unfold parse_order. cbn [cmd_args].
  rewrite (proj2 (is_valid_instrument_spec i) Hi). cbn [negb].
  rewrite (proj2 (parse_integer_Some tq q) Hq), (proj2 (Z.leb_gt q 0)) by lia.
  rewrite (proj2 (parse_integer_Some tp p) Hp), (proj2 (Z.leb_gt p 0)) by lia.
  done.
Qed.

Lemma parse_subscription_valid action args :
  let cmd := parse_subscription (mkCommand action args false [] [] 0 0 0) in
  cmd_valid cmd = true →
  ∃ i, args = [i] ∧ i ∈ kInstruments ∧ cmd = command_of (RSubscription action i) args.
Proof.
  unfold parse_subscription. cbn [cmd_args]. destruct args as [|i [|? ?]]; try done.
  destruct (is_valid_instrument i) eqn:Hi; [|done]. apply is_valid_instrument_spec in Hi.
  intros _. by exists i.
Qed.

Lemma parse_accepts line r :
  accepts (tokens_of line) r → parse line = command_of r (tail (tokens_of line)).
Proof.
  rewrite parse_tokens. intros Hacc.
  inversion Hacc as [u Hu Ht|i tq tp q p Hi Hq Hq0 Hp Hp0 Ht|i tq tp q p Hi Hq Hq0 Hp Hp0 Ht
                    |ti i Hi Ht|i Hi Ht|i Hi Ht|Ht]; subst; cbn [tail].
  - change (verb_of (lit "LOGIN")) with LOGIN. cbv beta iota zeta. unfold parse_login, str_size. cbn [cmd_args].
    by rewrite (proj2 (Z.ltb_ge 64 _)) by lia.
  - by apply parse_order_accept.
  - by apply parse_order_accept.
  - change (verb_of (lit "CANCEL")) with CANCEL. cbv beta iota zeta. unfold parse_cancel. cbn [cmd_args].
    by rewrite (proj2 (parse_integer_Some ti i) Hi).
  - change (verb_of (lit "SUBSCRIBE")) with SUBSCRIBE. cbv beta iota zeta. unfold parse_subscription.
    cbn [cmd_args]. by rewrite (proj2 (is_valid_instrument_spec i) Hi).
  - change (verb_of (lit "UNSUBSCRIBE")) with UNSUBSCRIBE. cbv beta iota zeta. unfold parse_subscription.
    cbn [cmd_args]. by rewrite (proj2 (is_valid_instrument_spec i) Hi).
  - done.
Qed.

Lemma parse_valid_accepts line :
  cmd_valid (parse line) = true → ∃ r, accepts (tokens_of line) r.
Proof.
  rewrite parse_tokens. destruct (tokens_of line) as [|token args]; [done|].
  cbv zeta. pose proof (verb_of_spec token) as Hv.
  destruct (verb_of token); try subst token.
  - done.
  - unfold parse_login, str_size. cbn [cmd_args]. destruct args as [|u [|? ?]]; try done.
    destruct (Z.ltb_spec 64 (Z.of_nat (length u))); [done|]. eexists. constructor. lia.
  - intros (i & tq & tp & q & p & -> & ?)%parse_order_valid. eexists. constructor; naive_solver.
  - intros (i & tq & tp & q & p & -> & ?)%parse_order_valid. eexists. constructor; naive_solver.
  - unfold parse_cancel. cbn [cmd_args]. destruct args as [|t [|? ?]]; try done.
    destruct (parse_integer t) as [i|] eqn:Hi; [|done]. apply parse_integer_Some in Hi.
    eexists. by constructor.
  - intros (i & -> & ? & _)%parse_subscription_valid. eexists. by constructor.
  - intros (i & -> & ? & _)%parse_subscription_valid. eexists. by constructor.
  - unfold parse_quit. cbn [cmd_args]. destruct args; [|done]. eexists. constructor.
Qed.

(** ** Responses *)

Definition one_line (m : bytes) : Prop := ∃ body, m = body ++ [LF] ∧ LF ∉ body.

(** Text that cannot be mistaken for the end of a line. *)
Definition clean (t : bytes) : Prop := LF ∉ t ∧ CR ∉ t.

#[global] Instance clean_dec t : Decision (clean t).
Proof. apply _. Defined.

Lemma clean_LF t : clean t → LF ∉ t.
Proof. by intros [? _]. Qed.

Lemma clean_app a b : clean a → clean b → clean (a ++ b).
Proof. unfold clean. rewrite !not_elem_of_app. tauto. Qed.

Lemma clean_graphic t : (∀ c, c ∈ t → isspace c = false) → clean t.
Proof. intros Ht. split; intros Hin; by apply Ht in Hin. Qed.

Lemma to_string_clean z : clean (to_string z).
Proof. apply clean_graphic. apply to_string_graphic. Qed.

Lemma lit_clean s : bool_decide (clean (lit s)) = true → clean (lit s).
Proof. by intros ?%bool_decide_eq_true. Qed.

Lemma verb_clean t : clean (verb t).
Proof. destruct t; apply lit_clean; vm_compute; reflexivity. Qed.

Lemma token_clean t : is_token t → clean t.
Proof. intros [_ Ht]. apply clean_graphic. by apply Forall_forall. Qed.

Lemma instrument_token i : i ∈ kInstruments → is_token i.
Proof.
  intros Hi. apply (proj1 (Forall_forall is_token kInstruments)); [|done].
  apply (bool_decide_unpack _). vm_compute. exact I.
Qed.

Lemma chomp_clean t : clean t → chomp_cr t = t.
Proof.
  intros [_ Hcr]. unfold chomp_cr. destruct (list.last t) as [x|] eqn:Hl; [|done].
  apply last_Some in Hl as [l ->]. rewrite decide_False by set_solver. done.
Qed.

Lemma chomp_clean_all ts : Forall clean ts → chomp_cr <$> ts = ts.
Proof. induction 1 as [|t ts Ht Hts IH]; [done|]. cbn. by rewrite IH, chomp_clean. Qed.

Create HintDb clean discriminated.
#[export] Hint Resolve clean_LF clean_app to_string_clean verb_clean token_clean instrument_token : clean.
#[export] Hint Extern 1 (clean (lit _)) => apply lit_clean; vm_compute; reflexivity : clean.

Lemma one_line_error reason : LF ∉ reason → one_line (error reason).
Proof.
  intros H. exists (lit "ERROR " ++ reason). split; [done|]. apply not_elem_of_app.
  auto with clean.
Qed.

(** The reason of a rejected line ends no line and is not empty. *)
Lemma parse_reject_reason line :
  cmd_valid (parse line) = false → cmd_error (parse line) ≠ [] ∧ clean (cmd_error (parse line)).
Proof.
  rewrite parse_tokens. pose proof (tokens_of_tokens line) as Ht.
  destruct (tokens_of line) as [|token args]; [split; [done|]; cbn; auto with clean|].
  apply Forall_cons in Ht as [_ Ht]. cbv zeta.
  assert (∀ a l, args = a :: l → clean a) as Ha.
  { intros a l ->. apply Forall_cons in Ht as [Ht _]. by apply token_clean. }
  destruct (verb_of token).
  all: unfold parse_login, parse_order, parse_cancel, parse_subscription, parse_quit; cbn [cmd_args].
  all: repeat case_match; try discriminate; intros _; cbn [cmd_error reject cmd_type set_quantity set_price];
    (split; [done|]); eauto 6 with clean.
Qed.

(** ** Properties *)

(** [parse_integer] accepts exactly the texts of one to eighteen ASCII
    digits, and returns their decimal value: the 64-bit accumulation never
    wraps and the result is below 10^18. *)
Theorem parse_integer_correct text v :
  parse_integer text = Some v ↔
  1 ≤ length text ≤ 18 ∧ Forall (λ c, isdigit c = true) text
  ∧ v = dec_value text ∧ (0 ≤ v < 10 ^ 18 ∧ v ≤ LONG_MAX)%Z.
Proof.
  rewrite parse_integer_Some. unfold numeral. split; [|naive_solver].
  intros Hn. pose proof (numeral_bound _ _ Hn). unfold LONG_MAX. naive_solver lia.
Qed.

(** C28: [parse] accepts exactly the grammar of the protocol: a line is valid
    iff its tokens form a request (known verb, right number of arguments, a
    listed instrument, positive quantity and price, numerals in range, user
    name of at most 64 bytes), and then every field of the command is the
    decoded one.  Every other line is refused with a reason that is not empty,
    and the [ERROR] response built from it is exactly one line, whatever bytes
    the client sent. *)
Theorem parse_grammar line cmd :
  ((parse line = cmd ∧ cmd_valid cmd = true) ↔
   ∃ r, accepts (tokens_of line) r ∧ cmd = command_of r (tail (tokens_of line)))
  ∧ (cmd_valid (parse line) = false →
     cmd_error (parse line) ≠ [] ∧ one_line (error (cmd_error (parse line)))).
Proof.
  split; [split|].
  - intros [<- Hv]. destruct (parse_valid_accepts line Hv) as [r Hr].
    exists r. split; [done|]. by apply parse_accepts.
  - intros (r & Hr & ->). split; [by apply parse_accepts|]. by destruct r.
  - intros Hv. destruct (parse_reject_reason line Hv) as [Hne [Hlf _]]. split; [done|]. by apply one_line_error.
Qed.

(** The canonical text of a well-formed request is accepted as that request. *)
Lemma parse_canonical r :
  well_formed r →
  parse (unwords (request_tokens r)) = command_of r (tail (request_tokens r)).
Proof.
  intros Hr.
  assert (Forall is_token (request_tokens r) ∧ accepts (request_tokens r) r) as [Ht Ha].
  { pose proof instrument_token as Hin. assert (∀ t, is_token (verb t)) as Hverb.
    { intros t. apply (bool_decide_unpack _). by destruct t; vm_compute. }
    destruct r as [u|side i q p|id|action i|]; cbn [well_formed request_tokens] in *.
    - split; [|constructor; naive_solver]. apply Forall_cons_2; [apply (Hverb LOGIN)|].
      apply Forall_singleton. naive_solver.
    - destruct Hr as (Hside & Hi & Hq & Hp). split.
      + repeat apply Forall_cons_2; auto using Forall_nil_2; apply to_string_token; lia.
      + destruct Hside as [->| ->]; constructor; try done; try lia; apply to_string_numeral; lia.
    - split; [|constructor; by apply to_string_numeral].
      apply Forall_cons_2; [apply (Hverb CANCEL)|]. apply Forall_singleton, to_string_token. lia.
    - destruct Hr as [Hact Hi]. split; [repeat apply Forall_cons_2; auto using Forall_nil_2|].
      destruct Hact as [->| ->]; by constructor.
    - split; [apply Forall_singleton, (Hverb QUIT)|constructor]. }
  rewrite (parse_accepts _ r); rewrite tokens_of_unwords; done.
Qed.
