(* ===== verification/OrderBook.v ===== *)
(** * OrderBook: the matching engine (src/trading/order_book.{hpp,cpp})

    The book keeps one FIFO queue per instrument and side, an
    [std::list<Order>], and [index_], which maps an order id to the queue and
    the list iterator of its order.  Iterators are modelled as what they are,
    references to list nodes: every node of a queue has an address that
    [push_back] draws from an allocator, an iterator is such an address, and
    using an iterator whose node has been erased is [Dangling].

    This file holds the data, the operations and the well-formedness
    invariant with its preservation; OrderBookSpec.v holds the abstract
    price-level book and the refinement. *)

From S2P Require Import Prelude CxxString.

Inductive Side : Type := Side_BUY | Side_SELL.

#[global] Instance Side_eq_dec : EqDecision Side.
Proof. solve_decision. Defined.

Record Order : Type := mkOrder {
  o_id : Z;
  o_owner_fd : Z;
  o_instrument : bytes;
  o_side : Side;
  o_quantity : Z;
  o_price : Z
}.

Record TradeExecution : Type := mkExecution {
  x_buyer_fd : Z;
  x_seller_fd : Z;
  x_instrument : bytes;
  x_quantity : Z;
  x_price : Z
}.

(** A node of an [std::list<Order>]: its address and its value. *)
Abbreviation node := (Z * Order)%type.

(** A queue is named by the map and the key that hold it; [buys_] and
    [sells_] never erase a key, so the pointer stays good. *)
Abbreviation queue_ref := (Side * bytes)%type.

Record Location : Type := mkLocation {
  loc_queue : queue_ref;
  loc_it : Z
}.

Record OrderBook : Type := mkBook {
  next_order_id_ : Z;
  buys_ : gmap bytes (list node);
  sells_ : gmap bytes (list node);
  index_ : gmap Z Location;
  heap_next : Z  (* allocator: addresses at and above it are free *)
}.

Definition empty_book : OrderBook := mkBook 1 ∅ ∅ ∅ 0.

Definition opposite_side (s : Side) : Side :=
  match s with Side_BUY => Side_SELL | Side_SELL => Side_BUY end.

Definition queues (b : OrderBook) (s : Side) : gmap bytes (list node) :=
  match s with Side_BUY => buys_ b | Side_SELL => sells_ b end.

(** [*queue], where [map[key]] of an absent key is the empty list. *)
Definition queue_at (b : OrderBook) (q : queue_ref) : list node :=
  default [] (queues b q.1 !! q.2).

Definition set_queue (b : OrderBook) (q : queue_ref) (l : list node) : OrderBook :=
  match q.1 with
  | Side_BUY => mkBook (next_order_id_ b) (<[q.2 := l]> (buys_ b)) (sells_ b)
                       (index_ b) (heap_next b)
  | Side_SELL => mkBook (next_order_id_ b) (buys_ b) (<[q.2 := l]> (sells_ b))
                        (index_ b) (heap_next b)
  end.

Definition set_index (b : OrderBook) (ix : gmap Z Location) : OrderBook :=
  mkBook (next_order_id_ b) (buys_ b) (sells_ b) ix (heap_next b).

(** [*it]: the value of the node with that address. *)
Fixpoint find_node (a : Z) (l : list node) : option Order :=
  match l with
  | [] => None
  | (a', o) :: l' => if (a =? a')%Z then Some o else find_node a l'
  end.

(** [queue->erase(it)] *)
Fixpoint erase_node (a : Z) (l : list node) : list node :=
  match l with
  | [] => []
  | (a', o) :: l' => if (a =? a')%Z then l' else (a', o) :: erase_node a l'
  end.

Definition deref (b : OrderBook) (l : Location) : option Order :=
  find_node (loc_it l) (queue_at b (loc_queue l)).

Definition erase_location (b : OrderBook) (l : Location) : OrderBook :=
  set_queue b (loc_queue l) (erase_node (loc_it l) (queue_at b (loc_queue l))).

(** [OrderBook::erase_at] *)
Definition erase_at (b : OrderBook) (order_id : Z) (location : Location) : outcome OrderBook :=
  match deref b location with
  | None => Dangling
  | Some _ =>
      let b := erase_location b location in
      Done (set_index b (delete order_id (index_ b)))
  end.

Definition with_quantity (o : Order) (q : Z) : Order :=
  mkOrder (o_id o) (o_owner_fd o) (o_instrument o) (o_side o) q (o_price o).

(** The execution record built in the body of the matching loop. *)
Definition make_execution (side : Side) (owner_fd : Z) (instrument : bytes)
    (resting : Order) (traded price : Z) : TradeExecution :=
  mkExecution (match side with Side_BUY => owner_fd | Side_SELL => o_owner_fd resting end)
              (match side with Side_BUY => o_owner_fd resting | Side_SELL => owner_fd end)
              instrument traded price.

(** The matching loop of [add_order]: [it] runs over the opposite queue; the
    result is the queue, the unfilled quantity, the index and the executions
    appended by the loop. *)
Fixpoint match_loop (side : Side) (owner_fd : Z) (instrument : bytes) (price : Z)
    (opposite : list node) (remaining : Z) (ix : gmap Z Location)
    : list node * Z * gmap Z Location * list TradeExecution :=
  match opposite with
  | [] => ([], remaining, ix, [])
  | (a, o) :: rest =>
      if (0 <? remaining)%Z then
        if negb (o_price o =? price)%Z then
          let '(rest', r, ix', xs) :=
            match_loop side owner_fd instrument price rest remaining ix in
          ((a, o) :: rest', r, ix', xs)
        else
          let traded := Z.min remaining (o_quantity o) in
          let x := make_execution side owner_fd instrument o traded price in
          let remaining := (remaining - traded)%Z in
          let left := (o_quantity o - traded)%Z in
          if (left =? 0)%Z then
            let '(rest', r, ix', xs) :=
              match_loop side owner_fd instrument price rest remaining (delete (o_id o) ix) in
            (rest', r, ix', x :: xs)
          else
            let '(rest', r, ix', xs) :=
              match_loop side owner_fd instrument price rest remaining ix in
            ((a, with_quantity o left) :: rest', r, ix', x :: xs)
      else ((a, o) :: rest, remaining, ix, [])
  end.

(** [own.push_back(order); index_[order_id] = {&own, prev(own.end())};] *)
Definition rest_order (b : OrderBook) (order : Order) : OrderBook :=
  let q := (o_side order, o_instrument order) in
  let a := heap_next b in
  let b := set_queue b q (queue_at b q ++ [(a, order)]) in
  mkBook (next_order_id_ b) (buys_ b) (sells_ b)
         (<[o_id order := mkLocation q a]> (index_ b)) (a + 1).

(** [OrderBook::add_order]: the new order id, the book and the executions.
    Incrementing [next_order_id_] past [LONG_MAX] is signed overflow. *)
Definition add_order (b : OrderBook) (owner_fd : Z) (instrument : bytes) (side : Side)
    (quantity price : Z) : outcome (Z * OrderBook * list TradeExecution) :=
  if (LONG_MAX <=? next_order_id_ b)%Z then Overflow
  else
    let order_id := next_order_id_ b in
    let b := mkBook (next_order_id_ b + 1) (buys_ b) (sells_ b) (index_ b) (heap_next b) in
    let opp := (opposite_side side, instrument) in
    let '(opposite, remaining, ix, executions) :=
      match_loop side owner_fd instrument price (queue_at b opp) quantity (index_ b) in
    let b := set_index (set_queue b opp opposite) ix in
    let b := if (0 <? remaining)%Z
             then rest_order b (mkOrder order_id owner_fd instrument side remaining price)
             else b in
    Done (order_id, b, executions).

(** [OrderBook::cancel_order]: [inl] is the error text, [inr] the book. *)
Definition no_such_order (order_id : Z) : bytes :=
  lit "No such order with unfilled quantity: " ++ to_string order_id.

Definition not_your_order (order_id : Z) : bytes :=
  lit "Order " ++ to_string order_id ++ lit " belongs to another trader".

Definition cancel_order (b : OrderBook) (order_id requester_fd : Z)
    : outcome (bytes + OrderBook) :=
  match index_ b !! order_id with
  | None => Done (inl (no_such_order order_id))
  | Some location =>
      match deref b location with
      | None => Dangling
      | Some o =>
          if negb (o_owner_fd o =? requester_fd)%Z
          then Done (inl (not_your_order order_id))
          else obind (erase_at b order_id location) (λ b', Done (inr b'))
      end
  end.

(** [OrderBook::remove_orders_of]: the loop visits the entries of [index_] in
    the order in which the hash table holds them; [entries] is that order. *)
Fixpoint remove_loop (owner_fd : Z) (entries : list (Z * Location)) (b : OrderBook)
    : outcome OrderBook :=
  match entries with
  | [] => Done b
  | (id, location) :: entries' =>
      match deref b location with
      | None => Dangling
      | Some o =>
          if (o_owner_fd o =? owner_fd)%Z then
            let b := erase_location b location in
            remove_loop owner_fd entries' (set_index b (delete id (index_ b)))
          else remove_loop owner_fd entries' b
      end
  end.

Definition remove_orders_of (b : OrderBook) (owner_fd : Z) : outcome OrderBook :=
  remove_loop owner_fd (map_to_list (index_ b)) b.

Definition resting_order_count (b : OrderBook) : nat := base.size (index_ b).

(** ** Well-formedness *)

Definition id_lt (m n : node) : Prop := (o_id m.2 < o_id n.2)%Z.

Record book_wf (b : OrderBook) : Prop := mkBookWf {
  (* ids handed out so far are 1 .. next_order_id_ - 1 *)
  wf_next : (1 ≤ next_order_id_ b ≤ LONG_MAX)%Z;
  (* every resting order is in the queue of its side and instrument, has an
     id that was handed out and a positive quantity that fits a long *)
  wf_node : ∀ q a o, (a, o) ∈ queue_at b q →
    o_side o = q.1 ∧ o_instrument o = q.2 ∧ (1 ≤ o_id o < next_order_id_ b)%Z
    ∧ (0 < o_quantity o ≤ LONG_MAX)%Z ∧ (a < heap_next b)%Z;
  (* queues are in submission order *)
  wf_fifo : ∀ q, StronglySorted id_lt (queue_at b q);
  (* list nodes have distinct addresses *)
  wf_addr : ∀ q, NoDup (queue_at b q).*1;
  (* the index locates exactly the resting orders *)
  wf_index : ∀ id loc, index_ b !! id = Some loc ↔
    ∃ o, (loc_it loc, o) ∈ queue_at b (loc_queue loc) ∧ o_id o = id;
  (* no two resting orders match each other *)
  wf_uncrossed : ∀ i m n,
    m ∈ queue_at b (Side_BUY, i) → n ∈ queue_at b (Side_SELL, i) →
    o_price m.2 ≠ o_price n.2
}.

Lemma empty_book_wf : book_wf empty_book.
Proof.
  split; unfold queue_at, empty_book; simpl.
  - unfold LONG_MAX. lia.
  - intros [[] i] a o; simpl; rewrite lookup_empty; set_solver.
  - intros [[] i]; simpl; rewrite lookup_empty; constructor.
  - intros [[] i]; simpl; rewrite lookup_empty; constructor.
  - intros id [[[] i] a]; simpl; rewrite !lookup_empty; set_solver.
  - intros i m n. rewrite !lookup_empty. set_solver.
Qed.

(** *** Queues and nodes *)

Lemma queue_at_set_queue b q q' l :
  queue_at (set_queue b q l) q' = if decide (q = q') then l else queue_at b q'.
Proof.
  unfold queue_at, set_queue. destruct q as [s i], q' as [s' i']; simpl.
  case_decide as H; simplify_eq/=.
  - destruct s'; simpl; by rewrite lookup_insert_eq.
  - destruct s, s'; simpl; try done; rewrite lookup_insert_ne; congruence.
Qed.

Lemma queue_at_set_index b ix q : queue_at (set_index b ix) q = queue_at b q.
Proof. by destruct q as [[] i]. Qed.

Lemma index_set_queue b q l : index_ (set_queue b q l) = index_ b.
Proof. by destruct q as [[] i]. Qed.

Lemma next_set_queue b q l : next_order_id_ (set_queue b q l) = next_order_id_ b.
Proof. by destruct q as [[] i]. Qed.

Lemma heap_set_queue b q l : heap_next (set_queue b q l) = heap_next b.
Proof. by destruct q as [[] i]. Qed.

Lemma find_node_Some a o l : find_node a l = Some o → (a, o) ∈ l.
Proof.
  induction l as [|[a' o'] l IH]; simpl; [done|].
  destruct (Z.eqb_spec a a') as [->|]; [intros [= ->]; left|right; auto].
Qed.

Lemma find_node_in a o l : NoDup l.*1 → (a, o) ∈ l → find_node a l = Some o.
Proof.
  induction l as [|[a' o'] l IH]; simpl; [set_solver|]. intros [Hni Hnd]%NoDup_cons.
  rewrite elem_of_cons. intros [[= -> ->]|Hin]; [by rewrite Z.eqb_refl|].
  destruct (Z.eqb_spec a a') as [->|]; [|auto].
  destruct Hni. apply list_elem_of_fmap. by exists (a', o).
Qed.

Lemma erase_node_filter a l :
  NoDup l.*1 → erase_node a l = filter (λ n : node, n.1 ≠ a) l.
Proof.
  induction l as [|[a' o'] l IH]; simpl; [done|]. intros [Hni Hnd]%NoDup_cons.
  rewrite filter_cons; simpl. destruct (Z.eqb_spec a a') as [->|Hne].
  - rewrite decide_False by naive_solver. symmetry. apply filter_all.
    apply Forall_forall. intros [x y] Hx. simpl. intros ->.
    destruct Hni. apply list_elem_of_fmap. by exists (a', y).
  - rewrite decide_True by done. by rewrite IH.
Qed.

(** *** The matching loop *)

(** [n'] is the node [n], with possibly less quantity left. *)
Definition stays (n' n : node) : Prop :=
  n'.1 = n.1 ∧ n'.2 = with_quantity n.2 (o_quantity n'.2)
  ∧ (0 < o_quantity n'.2 ≤ o_quantity n.2)%Z.

(** What is left of a queue: some nodes erased, the others kept in order. *)
Inductive survivors : list node → list node → Prop :=
| surv_nil : survivors [] []
| surv_keep n' n l' l : stays n' n → survivors l' l → survivors (n' :: l') (n :: l)
| surv_drop n l' l : survivors l' l → survivors l' (n :: l).

Definition ids (l : list node) : list Z := (λ n : node, o_id n.2) <$> l.

Lemma ids_cons n l : ids (n :: l) = o_id n.2 :: ids l.
Proof. done. Qed.

Lemma elem_of_ids id l : id ∈ ids l ↔ ∃ n, n ∈ l ∧ o_id n.2 = id.
Proof. unfold ids. rewrite list_elem_of_fmap. naive_solver. Qed.

Definition live (l : list node) : Prop := Forall (λ n : node, (0 < o_quantity n.2)%Z) l.

Lemma stays_refl n : (0 < o_quantity n.2)%Z → stays n n.
Proof. destruct n as [a []]. simpl. intros ?. split_and!; simpl; [done..|lia|lia]. Qed.

Lemma survivors_refl l : live l → survivors l l.
Proof. induction 1; constructor; auto using stays_refl. Qed.

Lemma survivors_in l' l n' : survivors l' l → n' ∈ l' → ∃ n, n ∈ l ∧ stays n' n.
Proof.
  induction 1 as [|m' m l' l Hm Hs IH|m l' l Hs IH]; [set_solver|..].
  - rewrite elem_of_cons. intros [->|Hin]; [exists m; split; [left|done]|].
    destruct (IH Hin) as (n & ? & ?). exists n. split; [by right|done].
  - intros Hin. destruct (IH Hin) as (n & ? & ?). exists n. split; [by right|done].
Qed.

Lemma survivors_key l' l :
  survivors l' l →
  (λ n : node, (n.1, o_id n.2)) <$> l' `sublist_of` (λ n : node, (n.1, o_id n.2)) <$> l.
Proof.
  induction 1 as [|[a' o'] [a o] l' l (Ha & Ho & _) Hs IH|n l' l Hs IH]; simpl in *.
  - done.
  - subst a'. rewrite Ho. simpl. by constructor.
  - by constructor.
Qed.

Lemma survivors_addr l' l : survivors l' l → l'.*1 `sublist_of` l.*1.
Proof.
  induction 1 as [|[a' o'] [a o] l' l (Ha & Ho & _) Hs IH|n l' l Hs IH]; simpl in *;
    subst; by constructor.
Qed.

Lemma survivors_sorted l' l :
  survivors l' l → StronglySorted id_lt l → StronglySorted id_lt l'.
Proof.
  induction 1 as [|n' n l' l Hn Hs IH|n l' l Hs IH]; [done|..];
    intros [Hall Hsort]%StronglySorted_cons; [|auto].
  apply StronglySorted_cons. split; [|auto]. apply Forall_forall. intros m' Hm'.
  destruct (survivors_in _ _ _ Hs Hm') as (m & Hm & Hk).
  rewrite Forall_forall in Hall. specialize (Hall _ Hm).
  destruct Hn as (_ & Hn & _), Hk as (_ & Hk & _). unfold id_lt in *.
  rewrite Hn, Hk. done.
Qed.

Lemma sorted_ids_NoDup l : StronglySorted id_lt l → NoDup (ids l).
Proof.
  induction 1 as [|n l Hs IH Hall]; [constructor|].
  rewrite ids_cons. apply NoDup_cons. split; [|done].
  rewrite elem_of_ids. intros (m & Hm & Hid). rewrite Forall_forall in Hall.
  specialize (Hall _ Hm). unfold id_lt in Hall. lia.
Qed.

(** The branches of one pass of the loop: nothing left to fill, another
    price, order fully filled, order partly filled. *)
Ltac match_loop_cases Hm :=
  cbn [match_loop] in Hm;
  match type of Hm with
  | context [(0 <? ?r)%Z] => destruct (Z.ltb_spec 0 r); [|injection Hm as <- <- <- <-]
  end;
  [match type of Hm with
   | context [(o_price ?o =? ?p)%Z] => destruct (Z.eqb_spec (o_price o) p); cbn [negb] in Hm
   end;
   [match type of Hm with
    | context [(?x =? 0)%Z] => destruct (Z.eqb_spec x 0)
    end|]|];
  try (let Hrec := fresh "Hrec" in
       match type of Hm with
       | context [match_loop ?s ?o ?i ?p ?l ?r ?ix] =>
           destruct (match_loop s o i p l r ix) as [[[l1 r1] ix1] xs1] eqn:Hrec
       end; injection Hm as <- <- <- <-).

Section MatchLoop.
Context (side : Side) (owner_fd : Z) (instrument : bytes) (price : Z).

Lemma match_loop_survivors l r ix l' r' ix' xs :
  match_loop side owner_fd instrument price l r ix = (l', r', ix', xs) →
  live l → (0 ≤ r)%Z → survivors l' l ∧ (0 ≤ r' ≤ r)%Z.
Proof.
  revert r ix l' r' ix' xs.
  induction l as [|[a o] l IH]; intros r ix l' r' ix' xs Hm Hl Hr.
  { simplify_eq/=. split; [constructor|lia]. }
  apply Forall_cons in Hl as [Hq Hl]; simpl in Hq. match_loop_cases Hm.
  - apply IH in Hrec as [??]; [|done|lia]. split; [by constructor|lia].
  - apply IH in Hrec as [??]; [|done|lia]. split; [|lia]. constructor; [|done].
    split_and!; simpl; [done|done|lia..].
  - apply IH in Hrec as [??]; [|done..]. split; [|lia].
    constructor; [by apply stays_refl|done].
  - split; [by apply survivors_refl, Forall_cons|lia].
Qed.

(** A remainder means that no order at the price is left. *)
Lemma match_loop_exhausted l r ix l' r' ix' xs :
  match_loop side owner_fd instrument price l r ix = (l', r', ix', xs) →
  live l → (0 ≤ r)%Z → (0 < r')%Z → Forall (λ n : node, o_price n.2 ≠ price) l'.
Proof.
  revert r ix l' r' ix' xs.
  induction l as [|[a o] l IH]; intros r ix l' r' ix' xs Hm Hl Hr Hr'.
  { simplify_eq/=. constructor. }
  apply Forall_cons in Hl as [Hq Hl]; simpl in Hq. match_loop_cases Hm.
  - eapply IH; [done|done|lia|done].
  - apply match_loop_survivors in Hrec as [??]; [lia|done|lia].
  - constructor; [done|]. eapply IH; [done|done|lia|done].
  - lia.
Qed.

(** Orders at other prices are left alone. *)
Lemma match_loop_other l r ix l' r' ix' xs :
  match_loop side owner_fd instrument price l r ix = (l', r', ix', xs) →
  filter (λ n : node, o_price n.2 ≠ price) l' = filter (λ n : node, o_price n.2 ≠ price) l.
Proof.
  revert r ix l' r' ix' xs.
  induction l as [|[a o] l IH]; intros r ix l' r' ix' xs Hm; [by simplify_eq/=|].
  match_loop_cases Hm; rewrite ?filter_cons; cbn [snd o_price with_quantity].
  - rewrite (decide_False (P := o_price o ≠ price)) by tauto. by eapply IH.
  - rewrite !(decide_False (P := o_price o ≠ price)) by tauto. by eapply IH.
  - rewrite !decide_True by done. f_equal. by eapply IH.
  - done.
Qed.

(** The index loses exactly the orders that left the queue. *)
Lemma match_loop_index l r ix l' r' ix' xs :
  match_loop side owner_fd instrument price l r ix = (l', r', ix', xs) →
  NoDup (ids l) → live l → (0 ≤ r)%Z → ∀ id,
  ix' !! id = if decide (id ∈ ids l ∧ id ∉ ids l') then None else ix !! id.
Proof.
  revert r ix l' r' ix' xs.
  induction l as [|[a o] l IH]; intros r ix l' r' ix' xs Hm Hnd Hl Hr id.
  { injection Hm as <- <- <- <-. rewrite decide_False; [done|]. by intros [?%elem_of_nil _]. }
  apply Forall_cons in Hl as [Hq Hl]; simpl in Hq.
  rewrite ids_cons in Hnd. apply NoDup_cons in Hnd as [Hni Hnd].
  match_loop_cases Hm; rewrite ?ids_cons; cbn [snd o_id with_quantity].
  - apply match_loop_survivors in Hrec as Hsv; [|done|lia]. destruct Hsv as [Hsv _].
    specialize (IH _ _ _ _ _ _ Hrec Hnd Hl ltac:(lia) id). rewrite IH.
    assert (∀ i, i ∈ ids l1 → i ∈ ids l) as Hsub.
    { intros i (n' & Hn' & <-)%elem_of_ids.
      destruct (survivors_in _ _ _ Hsv Hn') as (n & Hn & (_ & Hk & _)).
      apply elem_of_ids. exists n. by rewrite Hk. }
    destruct (decide (id = o_id o)) as [->|Hne].
    + rewrite lookup_delete_eq. simpl in Hni. rewrite decide_False by naive_solver.
      rewrite decide_True; [done|]. split; [left|auto].
    + rewrite lookup_delete_ne by done. apply decide_ext. rewrite elem_of_cons. naive_solver.
  - specialize (IH _ _ _ _ _ _ Hrec Hnd Hl ltac:(lia) id). rewrite IH. apply decide_ext.
    rewrite !elem_of_cons. naive_solver.
  - specialize (IH _ _ _ _ _ _ Hrec Hnd Hl ltac:(lia) id). rewrite IH. apply decide_ext.
    rewrite !elem_of_cons. naive_solver.
  - rewrite decide_False; [done|]. naive_solver.
Qed.
End MatchLoop.

(** *** Preservation *)

Lemma wf_unique b q q' n n' :
  book_wf b → n ∈ queue_at b q → n' ∈ queue_at b q' → o_id n.2 = o_id n'.2 → q = q' ∧ n = n'.
Proof.
  intros Hwf Hn Hn' Hid. destruct n as [a o], n' as [a' o']; simpl in *.
  assert (index_ b !! o_id o = Some (mkLocation q a)) as H1
    by (apply (wf_index b Hwf); simpl; eauto).
  assert (index_ b !! o_id o = Some (mkLocation q' a')) as H2
    by (apply (wf_index b Hwf); simpl; eauto).
  simplify_eq. split; [done|]. f_equal.
  pose proof (find_node_in _ _ _ (wf_addr b Hwf _) Hn).
  pose proof (find_node_in _ _ _ (wf_addr b Hwf _) Hn'). congruence.
Qed.

Lemma wf_live b q : book_wf b → live (queue_at b q).
Proof.
  intros Hwf. apply Forall_forall. intros [a o] Hin. simpl.
  apply (wf_node b Hwf) in Hin. lia.
Qed.

(** An indexed order can be dereferenced: no iterator dangles. *)
Lemma wf_deref b id loc :
  book_wf b → index_ b !! id = Some loc →
  ∃ o, deref b loc = Some o ∧ o_id o = id ∧ (loc_it loc, o) ∈ queue_at b (loc_queue loc).
Proof.
  intros Hwf Hix. apply (wf_index b Hwf) in Hix as (o & Hin & Hid).
  exists o. split_and!; [|done..]. apply find_node_in; [|done]. apply Hwf.
Qed.

(** Shrinking one queue, with the index following. *)
Definition index_follows (ix ix' : gmap Z Location) (l l' : list node) : Prop :=
  ∀ id, ix' !! id = if decide (id ∈ ids l ∧ id ∉ ids l') then None else ix !! id.

Lemma shrink_index b q l' ix' :
  book_wf b → survivors l' (queue_at b q) → index_follows (index_ b) ix' (queue_at b q) l' →
  ∀ id loc, ix' !! id = Some loc ↔
    ∃ o, (loc_it loc, o) ∈ queue_at (set_queue b q l') (loc_queue loc) ∧ o_id o = id.
Proof.
  intros Hwf Hs Hix id loc. rewrite queue_at_set_queue, (Hix id). split.
  - intros H. case_decide as Hd; [done|]. apply (wf_index b Hwf) in H as (o & Hin & Hid).
    case_decide as Hq; [|by exists o]. subst q.
    destruct (decide (id ∈ ids l')) as [(n' & Hn' & Hid')%elem_of_ids|Hni].
    + destruct (survivors_in _ _ _ Hs Hn') as (n & Hn & Hk & Ho & _).
      assert (n = (loc_it loc, o)) as ->.
      { eapply wf_unique; [done..|]. simpl. rewrite Hid, <-Hid', Ho. done. }
      exists n'.2. simpl in Hk. rewrite <-Hk. by destruct n'.
    + destruct Hd. split; [|done]. apply elem_of_ids. by exists (loc_it loc, o).
  - intros (o & Hin & Hid). case_decide as Hq.
    + subst q. rewrite decide_False.
      * destruct (survivors_in _ _ _ Hs Hin) as ([a o'] & Hn & Hk & Ho & _).
        apply (wf_index b Hwf). exists o'. simpl in *. subst a. rewrite <-Hid, Ho. done.
      * intros [_ []]. apply elem_of_ids. by exists (loc_it loc, o).
    + rewrite decide_False; [apply (wf_index b Hwf); by exists o|].
      intros [(n & Hn & Hid')%elem_of_ids _]. destruct Hq.
      eapply (wf_unique b q _ n (loc_it loc, o)); [done..|]. simpl. congruence.
Qed.

Lemma shrink_in b q l' q' n' :
  survivors l' (queue_at b q) → n' ∈ queue_at (set_queue b q l') q' → live (queue_at b q') →
  ∃ n, n ∈ queue_at b q' ∧ stays n' n.
Proof.
  intros Hs. rewrite queue_at_set_queue. case_decide as Hq; intros Hin Hl.
  - subst q'. by apply survivors_in with l'.
  - exists n'. split; [done|]. apply stays_refl. unfold live in Hl.
    rewrite Forall_forall in Hl. by apply Hl.
Qed.

Lemma shrink_wf b q l' ix' :
  book_wf b → survivors l' (queue_at b q) → index_follows (index_ b) ix' (queue_at b q) l' →
  book_wf (set_index (set_queue b q l') ix').
Proof.
  intros Hwf Hs Hix. pose proof (λ q' n' H, shrink_in b q l' q' n' Hs H (wf_live b q' Hwf)) as Hin.
  split; cbn [next_order_id_ set_index index_ heap_next].
  - rewrite next_set_queue. apply Hwf.
  - intros q' a o. rewrite queue_at_set_index, next_set_queue, heap_set_queue. intros Hn.
    apply Hin in Hn as ([a' o'] & Hn & Ha & Ho & Hq). simpl in *. subst a'.
    apply (wf_node b Hwf) in Hn. rewrite Ho. simpl. naive_solver lia.
  - intros q'. rewrite queue_at_set_index, queue_at_set_queue. case_decide; [|apply Hwf].
    subst q'. eapply survivors_sorted; [done|]. apply Hwf.
  - intros q'. rewrite queue_at_set_index, queue_at_set_queue. case_decide; [|apply Hwf].
    subst q'. eapply sublist_NoDup; [|by apply survivors_addr]. apply Hwf.
  - intros id loc. rewrite queue_at_set_index. by apply shrink_index.
  - intros i m n. rewrite !queue_at_set_index. intros Hm Hn.
    apply Hin in Hm as (m0 & Hm0 & _ & -> & _). apply Hin in Hn as (n0 & Hn0 & _ & -> & _).
    simpl. eapply (wf_uncrossed b Hwf); done.
Qed.

(** Resting the remainder of an order whose id is the newest. *)
Lemma queue_at_rest_order b o q :
  queue_at (rest_order b o) q =
    if decide ((o_side o, o_instrument o) = q) then queue_at b q ++ [(heap_next b, o)]
    else queue_at b q.
Proof.
  unfold rest_order. cbv zeta.
  transitivity (queue_at (set_queue b (o_side o, o_instrument o)
    (queue_at b (o_side o, o_instrument o) ++ [(heap_next b, o)])) q).
  { by destruct q as [[] i]. }
  rewrite queue_at_set_queue. by case_decide; subst.
Qed.

Lemma rest_order_in b o q n :
  n ∈ queue_at (rest_order b o) q ↔
  n ∈ queue_at b q ∨ (q = (o_side o, o_instrument o) ∧ n = (heap_next b, o)).
Proof.
  rewrite queue_at_rest_order. case_decide as Hq.
  - rewrite elem_of_app, list_elem_of_singleton. naive_solver.
  - naive_solver.
Qed.

Lemma rest_order_wf b o :
  book_wf b →
  (1 ≤ o_id o < next_order_id_ b)%Z → (0 < o_quantity o ≤ LONG_MAX)%Z →
  (∀ q n, n ∈ queue_at b q → (o_id n.2 < o_id o)%Z) →
  (∀ n, n ∈ queue_at b (opposite_side (o_side o), o_instrument o) → o_price n.2 ≠ o_price o) →
  book_wf (rest_order b o).
Proof.
  intros Hwf Hid Hq Hnew Hopp.
  assert (next_order_id_ (rest_order b o) = next_order_id_ b) as Hnext
    by (unfold rest_order; cbn; apply next_set_queue).
  assert (heap_next (rest_order b o) = heap_next b + 1)%Z as Hheap by done.
  split.
  - rewrite Hnext. apply Hwf.
  - intros q a o'. rewrite rest_order_in, Hnext, Hheap. intros [Hin|[-> [= -> ->]]].
    + apply (wf_node b Hwf) in Hin. naive_solver lia.
    + simpl. split_and!; [done|done|lia..].
  - intros q. rewrite queue_at_rest_order. case_decide; [|apply Hwf].
    apply StronglySorted_app_2; [|apply Hwf|by repeat constructor].
    intros n m Hn ->%list_elem_of_singleton. unfold id_lt. simpl. eauto.
  - intros q. rewrite queue_at_rest_order. case_decide; [|apply Hwf].
    rewrite fmap_app. apply NoDup_app. split_and!; [apply Hwf| |apply NoDup_singleton].
    intros a ([a' o'] & -> & Hin)%list_elem_of_fmap Ha.
    apply list_elem_of_singleton in Ha. apply (wf_node b Hwf) in Hin. simpl in *. lia.
  - intros id loc. setoid_rewrite rest_order_in.
    assert (index_ (rest_order b o) = <[o_id o := mkLocation (o_side o, o_instrument o) (heap_next b)]> (index_ b))
      as -> by (unfold rest_order; cbn; by rewrite index_set_queue).
    rewrite lookup_insert. case_decide as Hd.
    + subst id. split.
      * intros [= <-]. exists o. simpl. auto.
      * intros (o' & [Hin|[Hl [= Hi ->]]] & Heq); [apply Hnew in Hin; simpl in Hin; lia|].
        destruct loc. simpl in *. by subst.
    + rewrite (wf_index b Hwf). split; [naive_solver|].
      intros (o' & [Hin|[Hl [= Hi ->]]] & Heq); naive_solver.
  - intros i m n. rewrite !rest_order_in. intros [Hm|[Hm ->]] [Hn|[Hn ->]]; simpl.
    + by eapply (wf_uncrossed b Hwf).
    + injection Hn as Hs ->. rewrite <-Hs in Hopp. by apply Hopp.
    + injection Hm as Hs ->. rewrite <-Hs in Hopp. apply not_eq_sym. by apply Hopp.
    + congruence.
Qed.

Lemma survivors_filter (P : node → Prop) `{!∀ n, Decision (P n)} l :
  live l → survivors (filter P l) l.
Proof.
  induction 1 as [|n l Hn Hl IH]; [constructor|]. rewrite filter_cons.
  case_decide; constructor; auto using stays_refl.
Qed.

Lemma bump_wf b :
  book_wf b → (next_order_id_ b < LONG_MAX)%Z →
  book_wf (mkBook (next_order_id_ b + 1) (buys_ b) (sells_ b) (index_ b) (heap_next b)).
Proof.
  intros Hwf Hlt. destruct Hwf as [Hn Hnode ????]. split; [simpl; lia| |done..].
  intros q a o Hin. apply (Hnode q) in Hin. simpl. naive_solver lia.
Qed.

(** What [add_order] does, step by step, on a well-formed book. *)
Lemma add_order_steps b owner instrument side quantity price :
  book_wf b → (0 < quantity ≤ LONG_MAX)%Z → (next_order_id_ b < LONG_MAX)%Z →
  let opp := (opposite_side side, instrument) in
  let l := queue_at b opp in
  ∃ l' r ix xs b1 b2,
    match_loop side owner instrument price l quantity (index_ b) = (l', r, ix, xs)
    ∧ (0 ≤ r ≤ quantity)%Z ∧ survivors l' l
    ∧ b1 = set_index (set_queue (mkBook (next_order_id_ b + 1) (buys_ b) (sells_ b)
                                        (index_ b) (heap_next b)) opp l') ix
    ∧ b2 = (if (0 <? r)%Z
            then rest_order b1 (mkOrder (next_order_id_ b) owner instrument side r price)
            else b1)
    ∧ add_order b owner instrument side quantity price = Done (next_order_id_ b, b2, xs)
    ∧ book_wf b1 ∧ book_wf b2.
Proof.
  intros Hwf Hq Hlt opp l.
  destruct (match_loop side owner instrument price l quantity (index_ b))
    as [[[l' r] ix] xs] eqn:Hm.
  pose proof (bump_wf b Hwf Hlt) as Hwf0.
  set (b0 := mkBook _ _ _ _ _) in Hwf0.
  assert (∀ q, queue_at b0 q = queue_at b q) as Hb0 by (by intros [[] i]).
  assert (live l) as Hlive by (by apply wf_live).
  destruct (match_loop_survivors _ _ _ _ _ _ _ _ _ _ _ Hm Hlive) as [Hs Hr]; [lia|].
  assert (book_wf (set_index (set_queue b0 opp l') ix)) as Hwf1.
  { apply shrink_wf; [done|by rewrite Hb0|]. rewrite Hb0. intros id.
    apply (match_loop_index _ _ _ _ _ _ _ _ _ _ _ Hm); [|done|lia].
    apply sorted_ids_NoDup, Hwf. }
  eexists l', r, ix, xs, _, _. split_and!; [done|lia..|done|done|done| |done|].
  - unfold add_order. rewrite (proj2 (Z.leb_gt _ _)) by done. fold b0 opp.
    rewrite Hb0. fold l. change (index_ b0) with (index_ b). by rewrite Hm.
  - destruct (Z.ltb_spec 0 r) as [Hr0|]; [|done].
    apply rest_order_wf; cbn [o_id o_quantity o_side o_instrument o_price].
    + done.
    + cbn [next_order_id_ set_index]. rewrite next_set_queue. simpl.
      pose proof (wf_next b Hwf). lia.
    + lia.
    + intros q n Hn. rewrite queue_at_set_index in Hn.
      apply shrink_in in Hn as (n0 & Hn0 & _ & -> & _); [|by rewrite Hb0|by apply wf_live].
      rewrite Hb0 in Hn0. destruct n0 as [a o0]. apply (wf_node b Hwf) in Hn0. simpl. lia.
    + intros n. rewrite queue_at_set_index, queue_at_set_queue, decide_True by done.
      apply match_loop_exhausted in Hm; [|done|lia|done]. rewrite Forall_forall in Hm. apply Hm.
Qed.

Lemma add_order_wf b owner instrument side quantity price id b' xs :
  book_wf b → (0 < quantity ≤ LONG_MAX)%Z →
  add_order b owner instrument side quantity price = Done (id, b', xs) → book_wf b'.
Proof.
  intros Hwf Hq Hadd.
  assert (next_order_id_ b < LONG_MAX)%Z as Hlt.
  { unfold add_order in Hadd. destruct (Z.leb_spec LONG_MAX (next_order_id_ b)); [done|lia]. }
  destruct (add_order_steps b owner instrument side quantity price Hwf Hq Hlt)
    as (?&?&?&?&?&?&?&?&?&?&?&Hadd'&?&?). congruence.
Qed.

(** Erasing an indexed order. *)
Lemma erase_follows b id loc :
  book_wf b → index_ b !! id = Some loc →
  index_follows (index_ b) (delete id (index_ b)) (queue_at b (loc_queue loc))
    (erase_node (loc_it loc) (queue_at b (loc_queue loc))).
Proof.
  intros Hwf Hix id'. apply (wf_index b Hwf) in Hix as (o & Hin & Hid).
  rewrite erase_node_filter by apply Hwf. rewrite lookup_delete.
  apply decide_ext. rewrite !elem_of_ids. split.
  - intros <-. split; [by exists (loc_it loc, o)|]. intros (n & Hn & Hid').
    apply list_elem_of_filter in Hn as [Hne Hn].
    assert (n = (loc_it loc, o)) as -> by (eapply wf_unique; [done..|]; simpl; congruence).
    done.
  - intros [(n & Hn & Hid') Hnot].
    destruct (decide (n.1 = loc_it loc)) as [Ha|Ha].
    + destruct n as [a o']; simpl in *. subst a.
      pose proof (find_node_in _ _ _ (wf_addr b Hwf _) Hn).
      pose proof (find_node_in _ _ _ (wf_addr b Hwf _) Hin). congruence.
    + destruct Hnot. exists n. split; [|done]. by apply list_elem_of_filter.
Qed.

Lemma erase_wf b id loc :
  book_wf b → index_ b !! id = Some loc →
  book_wf (set_index (erase_location b loc) (delete id (index_ b))).
Proof.
  intros Hwf Hix. apply shrink_wf; [done| |by apply erase_follows].
  rewrite erase_node_filter by apply Hwf. apply survivors_filter. by apply wf_live.
Qed.

Lemma index_erase_location b loc : index_ (erase_location b loc) = index_ b.
Proof. apply index_set_queue. Qed.

(** [cancel_order] by cases: the three answers, and never a dangling iterator. *)
Lemma cancel_order_cases b id requester :
  book_wf b →
  match index_ b !! id with
  | None => cancel_order b id requester = Done (inl (no_such_order id))
  | Some loc =>
      ∃ o, deref b loc = Some o ∧ o_id o = id ∧
        cancel_order b id requester =
          if decide (o_owner_fd o = requester)
          then Done (inr (set_index (erase_location b loc) (delete id (index_ b))))
          else Done (inl (not_your_order id))
  end.
Proof.
  intros Hwf. unfold cancel_order. destruct (index_ b !! id) as [loc|] eqn:Hix; [|done].
  destruct (wf_deref b id loc Hwf Hix) as (o & Ho & Hid & _). exists o. rewrite Ho.
  split_and!; [done..|]. destruct (Z.eqb_spec (o_owner_fd o) requester); simpl.
  - rewrite decide_True by done. unfold erase_at. rewrite Ho. cbn [obind].
    by rewrite index_erase_location.
  - by rewrite decide_False.
Qed.

Lemma cancel_order_wf b id requester b' :
  book_wf b → cancel_order b id requester = Done (inr b') → book_wf b'.
Proof.
  intros Hwf Hc. pose proof (cancel_order_cases b id requester Hwf) as Hcases.
  destruct (index_ b !! id) as [loc|] eqn:Hix; [|congruence].
  destruct Hcases as (o & _ & _ & Hc'). rewrite Hc' in Hc.
  case_decide; simplify_eq. by apply erase_wf.
Qed.

(** Erasing the order with id [id] takes it out of whatever queue holds it. *)
Lemma erase_queue b id loc ix q :
  book_wf b → index_ b !! id = Some loc →
  queue_at (set_index (erase_location b loc) ix) q
  = filter (λ n : node, o_id n.2 ≠ id) (queue_at b q).
Proof.
  intros Hwf Hix. apply (wf_index b Hwf) in Hix as (o & Hin & Hid).
  rewrite queue_at_set_index. unfold erase_location. rewrite queue_at_set_queue.
  case_decide as Hq.
  - subst q. rewrite erase_node_filter by apply Hwf. apply filter_ext_in. intros n Hn.
    split; intros Hne Heq; destruct Hne.
    + assert (n = (loc_it loc, o)) as -> by (eapply wf_unique; [done..|]; simpl; congruence).
      done.
    + destruct n as [a o']; simpl in *. subst a.
      pose proof (find_node_in _ _ _ (wf_addr b Hwf _) Hn).
      pose proof (find_node_in _ _ _ (wf_addr b Hwf _) Hin). congruence.
  - symmetry. apply filter_all, Forall_forall. intros n Hn Heq. destruct Hq.
    eapply (wf_unique b _ _ (loc_it loc, o) n); [done..|]. simpl. congruence.
Qed.

(** One book stands for another when the queues hold the same orders at the
    same nodes and the ids agree; keys with an empty queue do not count. *)
Definition book_equiv (b b' : OrderBook) : Prop :=
  next_order_id_ b = next_order_id_ b' ∧ heap_next b = heap_next b'
  ∧ index_ b = index_ b' ∧ ∀ q, queue_at b q = queue_at b' q.

#[global] Instance book_equiv_equivalence : Equivalence book_equiv.
Proof.
  split.
  - by intros b.
  - intros b b' (? & ? & ? & ?). done.
  - intros b1 b2 b3 (? & ? & ? & Hq) (? & ? & ? & Hq'). split_and!; [congruence..|].
    intros q. by rewrite Hq.
Qed.

#[global] Instance queue_at_proper : Proper (book_equiv ==> (=) ==> (=)) queue_at.
Proof. intros b b' (_ & _ & _ & H) q ? <-. apply H. Qed.

#[global] Instance book_wf_proper : Proper (book_equiv ==> iff) book_wf.
Proof.
  assert (∀ b b', book_equiv b b' → book_wf b → book_wf b') as H.
  { intros b b' (Hn & Hh & Hi & Hq) [H1 H2 H3 H4 H5 H6].
    split; repeat setoid_rewrite <-Hq; rewrite <-?Hn, <-?Hh, <-?Hi; auto. }
  intros b b' Heq. split; apply H; [done|by symmetry].
Qed.

(** The index is determined by the queues. *)
Lemma wf_index_eq b b' :
  book_wf b → book_wf b' → (∀ q, queue_at b q = queue_at b' q) → index_ b = index_ b'.
Proof.
  intros Hwf Hwf' Hq. apply map_eq. intros id. apply option_eq. intros loc.
  rewrite (wf_index b Hwf), (wf_index b' Hwf'). by setoid_rewrite Hq.
Qed.

Lemma remove_loop_spec owner_fd entries b :
  book_wf b → NoDup entries.*1 →
  (∀ id loc, (id, loc) ∈ entries → index_ b !! id = Some loc) →
  ∃ b', remove_loop owner_fd entries b = Done b' ∧ book_wf b'
    ∧ next_order_id_ b' = next_order_id_ b ∧ heap_next b' = heap_next b
    ∧ ∀ q, queue_at b' q =
        filter (λ n : node, ¬ (o_owner_fd n.2 = owner_fd ∧ o_id n.2 ∈ entries.*1)) (queue_at b q).
Proof.
  revert b. induction entries as [|[id loc] entries IH]; intros b Hwf Hnd Hent.
  { exists b. split_and!; [done..|]. intros q. symmetry.
    apply filter_all, Forall_forall. set_solver. }
  cbn [fmap list_fmap fst] in Hnd. apply NoDup_cons in Hnd as [Hni Hnd].
  assert (index_ b !! id = Some loc) as Hix by (apply Hent; left).
  destruct (wf_deref b id loc Hwf Hix) as (o & Ho & Hid & Hin).
  cbn [remove_loop]. rewrite Ho.
  destruct (Z.eqb_spec (o_owner_fd o) owner_fd) as [Hown|Hown].
  - rewrite index_erase_location.
    destruct (IH (set_index (erase_location b loc) (delete id (index_ b))))
      as (b' & Hb' & Hwf' & Hn' & Hh' & Hq'); [by apply erase_wf|done| |].
    { intros id' loc' Hin'. cbn [index_ set_index].
      rewrite lookup_delete_ne; [apply Hent; by right|].
      intros <-. destruct Hni. apply list_elem_of_fmap. by exists (id, loc'). }
    exists b'. split_and!; [done|done| | |].
    { rewrite Hn'. apply next_set_queue. }
    { rewrite Hh'. apply heap_set_queue. }
    intros q. rewrite Hq', (erase_queue b id loc) by done.
    rewrite filter_filter_and. apply filter_ext_in. intros n Hn.
    cbn [fmap list_fmap fst]. rewrite elem_of_cons. split.
    + intros [Hne H1] [H2 [H3|H3]]; [done|]. by destruct H1.
    + intros H1. split; [|intros [H2 H3]; destruct H1; auto].
      intros H3. destruct H1. split; [|auto].
      assert ((loc_it loc, o) = n) as <-
        by (apply (wf_unique b (loc_queue loc) q); [done|done|done|simpl; congruence]).
      done.
  - destruct (IH b) as (b' & Hb' & Hwf' & Hn' & Hh' & Hq'); [done|done| |].
    { intros id' loc' Hin'. apply Hent. by right. }
    exists b'. split_and!; [done..|]. intros q. rewrite Hq'. apply filter_ext_in. intros n Hn.
    cbn [fmap list_fmap fst]. rewrite elem_of_cons.
    split; [|intros H1 [H2 H3]; destruct H1; auto].
    intros H1 [H2 [H3|H3]]; [|by destruct H1].
    assert ((loc_it loc, o) = n) as <-
        by (apply (wf_unique b (loc_queue loc) q); [done|done|done|simpl; congruence]).
    done.
Qed.

(** Whatever the iteration order, exactly the owner's orders disappear. *)
Lemma remove_orders_spec owner_fd entries b :
  book_wf b → entries ≡ₚ map_to_list (index_ b) →
  ∃ b', remove_loop owner_fd entries b = Done b' ∧ book_wf b'
    ∧ next_order_id_ b' = next_order_id_ b ∧ heap_next b' = heap_next b
    ∧ ∀ q, queue_at b' q = filter (λ n : node, o_owner_fd n.2 ≠ owner_fd) (queue_at b q).
Proof.
  intros Hwf Hperm.
  destruct (remove_loop_spec owner_fd entries b) as (b' & Hb' & Hwf' & Hn & Hh & Hq); [done|..].
  - rewrite Hperm. apply NoDup_fst_map_to_list.
  - intros id loc. rewrite Hperm. apply elem_of_map_to_list.
  - exists b'. split_and!; [done..|]. intros q. rewrite Hq. apply filter_ext_in.
    intros [a o] Hin. split; [|intros H1 [H2 _]; done].
    intros H1 H2. apply H1. split; [done|].
    rewrite Hperm. apply list_elem_of_fmap. exists (o_id o, mkLocation q a). split; [done|].
    apply elem_of_map_to_list. apply (wf_index b Hwf). by exists o.
Qed.
