(* ===== verification/OrderBookSpec.v ===== *)
(** * OrderBookSpec: what the order book promises

    The abstract book has one FIFO queue per side, instrument and price; an
    order is its id, its owner and its unfilled quantity.  The matching rule
    of order_book.hpp ("same instrument, opposite sides, exactly the same
    price, submission order, the smaller of the two remaining quantities") is
    then a fold over one queue.  The concrete book, which scans a queue of
    mixed prices and keeps an index of iterators, refines it: every sequence
    of operations gives the same ids, executions and error texts. *)

From S2P Require Import Prelude CxxString OrderBook.

Record resting : Type := mkResting {
  r_id : Z;
  r_owner : Z;
  r_quantity : Z
}.

Record LevelBook : Type := mkLevelBook {
  lb_next : Z;
  lb_level : Side → bytes → Z → list resting
}.

Definition empty_levels : LevelBook := mkLevelBook 1 (λ _ _ _, []).

Definition level_equiv (x y : LevelBook) : Prop :=
  lb_next x = lb_next y ∧ ∀ s i p, lb_level x s i p = lb_level y s i p.

#[global] Instance level_equiv_equivalence : Equivalence level_equiv.
Proof.
  split.
  - by intros x.
  - intros x y [? ?]. done.
  - intros x y z [? Hxy] [? Hyz]. split; [congruence|]. intros s i p. by rewrite Hxy.
Qed.

(** Filling an order of size [r] from one price level, oldest first: what is
    left of the level, what is left of the order, and the fills. *)
Fixpoint fill (r : Z) (l : list resting) : list resting * Z * list (Z * Z) :=
  match l with
  | [] => ([], r, [])
  | e :: l' =>
      if (r <=? 0)%Z then (e :: l', r, [])
      else if (r_quantity e <=? r)%Z then
        let '(l'', r', fs) := fill (r - r_quantity e) l' in
        (l'', r', (r_owner e, r_quantity e) :: fs)
      else (mkResting (r_id e) (r_owner e) (r_quantity e - r) :: l', 0%Z, [(r_owner e, r)])
  end.

Definition set_level (f : Side → bytes → Z → list resting) (s : Side) (i : bytes) (p : Z)
    (l : list resting) : Side → bytes → Z → list resting :=
  λ s' i' p', if decide ((s, i, p) = (s', i', p')) then l else f s' i' p'.

(** Who bought and who sold, for one fill against [counterparty]. *)
Definition execution (side : Side) (owner : Z) (i : bytes) (p : Z) (f : Z * Z) : TradeExecution :=
  match side with
  | Side_BUY => mkExecution owner f.1 i f.2 p
  | Side_SELL => mkExecution f.1 owner i f.2 p
  end.

Definition spec_add (lb : LevelBook) (owner : Z) (i : bytes) (side : Side) (q p : Z)
    : Z * LevelBook * list TradeExecution :=
  let '(l', r, fs) := fill q (lb_level lb (opposite_side side) i p) in
  let f := set_level (lb_level lb) (opposite_side side) i p l' in
  let f := if (0 <? r)%Z
           then set_level f side i p (f side i p ++ [mkResting (lb_next lb) owner r])
           else f in
  (lb_next lb, mkLevelBook (lb_next lb + 1) f, execution side owner i p <$> fs).

Definition holds (lb : LevelBook) (id owner : Z) : Prop :=
  ∃ s i p q, mkResting id owner q ∈ lb_level lb s i p.

Definition keep_levels (lb : LevelBook) (P : resting → Prop) `{!∀ e, Decision (P e)} : LevelBook :=
  mkLevelBook (lb_next lb) (λ s i p, filter P (lb_level lb s i p)).

Inductive spec_cancel (lb : LevelBook) (id requester : Z) : bytes + LevelBook → Prop :=
| cancel_unknown :
    (∀ owner, ¬ holds lb id owner) → spec_cancel lb id requester (inl (no_such_order id))
| cancel_foreign owner :
    holds lb id owner → owner ≠ requester →
    spec_cancel lb id requester (inl (not_your_order id))
| cancel_own :
    holds lb id requester →
    spec_cancel lb id requester (inr (keep_levels lb (λ e, r_id e ≠ id))).

Definition spec_remove (lb : LevelBook) (owner : Z) : LevelBook :=
  keep_levels lb (λ e, r_owner e ≠ owner).

(** ** The abstraction *)

Definition entry (n : node) : resting :=
  mkResting (o_id n.2) (o_owner_fd n.2) (o_quantity n.2).

Definition level_of (p : Z) (l : list node) : list resting :=
  entry <$> filter (λ n : node, o_price n.2 = p) l.

Definition levels (b : OrderBook) : LevelBook :=
  mkLevelBook (next_order_id_ b) (λ s i p, level_of p (queue_at b (s, i))).

(** ** Sequences of operations *)

Inductive book_op : Type :=
| OpAdd (owner : Z) (instrument : bytes) (side : Side) (quantity price : Z)
| OpCancel (id requester : Z)
| OpRemove (owner : Z).

Inductive book_out : Type :=
| OutAdd (id : Z) (executions : list TradeExecution)
| OutCancelled
| OutRefused (reason : bytes)
| OutRemoved.

(** Quantities come from the parser: positive and within a [long]. *)
Definition op_ok (op : book_op) : Prop :=
  match op with OpAdd _ _ _ q _ => (0 < q ≤ LONG_MAX)%Z | _ => True end.

Definition run_op (b : OrderBook) (op : book_op) : outcome (book_out * OrderBook) :=
  match op with
  | OpAdd owner i side q p =>
      obind (add_order b owner i side q p) (λ '(id, b', xs), Done (OutAdd id xs, b'))
  | OpCancel id requester =>
      obind (cancel_order b id requester)
        (λ r, match r with
              | inl e => Done (OutRefused e, b)
              | inr b' => Done (OutCancelled, b')
              end)
  | OpRemove owner =>
      obind (remove_orders_of b owner) (λ b', Done (OutRemoved, b'))
  end.

Fixpoint run_ops (b : OrderBook) (ops : list book_op) : outcome (list book_out * OrderBook) :=
  match ops with
  | [] => Done ([], b)
  | op :: ops' =>
      obind (run_op b op) (λ '(o, b'),
        obind (run_ops b' ops') (λ '(os, b''), Done (o :: os, b'')))
  end.

Inductive spec_step (lb : LevelBook) : book_op → book_out → LevelBook → Prop :=
| spec_step_add owner i side q p id lb' xs :
    spec_add lb owner i side q p = (id, lb', xs) →
    spec_step lb (OpAdd owner i side q p) (OutAdd id xs) lb'
| spec_step_refuse id requester e :
    spec_cancel lb id requester (inl e) →
    spec_step lb (OpCancel id requester) (OutRefused e) lb
| spec_step_cancel id requester lb' :
    spec_cancel lb id requester (inr lb') →
    spec_step lb (OpCancel id requester) OutCancelled lb'
| spec_step_remove owner :
    spec_step lb (OpRemove owner) OutRemoved (spec_remove lb owner).

(** Runs of the specification, up to equality of the levels. *)
Inductive spec_run : LevelBook → list book_op → list book_out → LevelBook → Prop :=
| spec_run_nil lb lb' : level_equiv lb lb' → spec_run lb [] [] lb'
| spec_run_cons lb lb0 lb1 lb' op ops o os :
    level_equiv lb lb0 → spec_step lb0 op o lb1 → spec_run lb1 ops os lb' →
    spec_run lb (op :: ops) (o :: os) lb'.

(** ** Matching is filling one level *)

Lemma level_of_cons_eq p n l :
  o_price n.2 = p → level_of p (n :: l) = entry n :: level_of p l.
Proof. intros Hp. unfold level_of. by rewrite filter_cons, decide_True. Qed.

Lemma level_of_cons_ne p n l : o_price n.2 ≠ p → level_of p (n :: l) = level_of p l.
Proof. intros Hp. unfold level_of. by rewrite filter_cons, decide_False. Qed.

Lemma match_loop_done side owner i p l r ix :
  (r ≤ 0)%Z → match_loop side owner i p l r ix = (l, r, ix, []).
Proof.
  intros Hr. destruct l as [|[a o] l]; [done|]. cbn [match_loop].
  by rewrite (proj2 (Z.ltb_ge 0 r)).
Qed.

Lemma fill_done r l : (r ≤ 0)%Z → fill r l = (l, r, []).
Proof. intros Hr. destruct l; [done|]. cbn [fill]. by rewrite (proj2 (Z.leb_le r 0)). Qed.

Lemma make_execution_eq side owner i o q p :
  make_execution side owner i o q p = execution side owner i p (o_owner_fd o, q).
Proof. by destruct side. Qed.

Lemma match_loop_fill side owner i p l r ix l' r' ix' xs :
  match_loop side owner i p l r ix = (l', r', ix', xs) → live l → (0 ≤ r)%Z →
  ∃ fs, fill r (level_of p l) = (level_of p l', r', fs) ∧ xs = execution side owner i p <$> fs.
Proof.
  revert r ix l' r' ix' xs.
  induction l as [|[a o] l IH]; intros r ix l' r' ix' xs Hm Hl Hr.
  { injection Hm as <- <- <- <-. by exists []. }
  apply Forall_cons in Hl as [Hq Hl]; simpl in Hq. match_loop_cases Hm.
  - rewrite level_of_cons_eq by done. cbn [fill entry snd r_quantity r_owner].
    rewrite (proj2 (Z.leb_gt r 0)), (proj2 (Z.leb_le (o_quantity o) r)) by lia.
    rewrite Z.min_r in Hrec |- * by lia.
    destruct (IH _ _ _ _ _ _ Hrec Hl ltac:(lia)) as (fs & -> & ->).
    eexists. split; [done|]. by rewrite make_execution_eq.
  - rewrite level_of_cons_eq by done. rewrite level_of_cons_eq by done.
    cbn [fill entry snd r_quantity r_owner r_id with_quantity o_id o_owner_fd o_quantity].
    rewrite (proj2 (Z.leb_gt r 0)), (proj2 (Z.leb_gt (o_quantity o) r)) by lia.
    rewrite Z.min_l in Hrec |- * by lia.
    rewrite match_loop_done in Hrec by lia. injection Hrec as <- <- <- <-.
    eexists. split; [by rewrite Z.sub_diag|]. by rewrite make_execution_eq.
  - rewrite !level_of_cons_ne by done. eapply IH; done.
  - exists []. rewrite fill_done by lia. done.
Qed.

(** Levels at other prices do not change. *)
Lemma match_loop_level_other side owner i p p' l r ix l' r' ix' xs :
  match_loop side owner i p l r ix = (l', r', ix', xs) → p' ≠ p →
  level_of p' l' = level_of p' l.
Proof.
  intros Hm Hp. apply match_loop_other in Hm. unfold level_of. f_equal.
  assert (∀ k : list node, filter (λ n : node, o_price n.2 = p') k
    = filter (λ n : node, o_price n.2 = p') (filter (λ n : node, o_price n.2 ≠ p) k)) as Hk.
  { intros k. rewrite filter_filter_and. apply filter_ext_in. intros n _. split; [|tauto].
    intros ->. done. }
  rewrite (Hk l'), (Hk l). by rewrite Hm.
Qed.

Lemma level_of_app p l1 l2 : level_of p (l1 ++ l2) = level_of p l1 ++ level_of p l2.
Proof. unfold level_of. by rewrite filter_app, fmap_app. Qed.

(** ** Each operation refines its specification *)

Lemma add_order_refines b owner i side q p :
  book_wf b → (0 < q ≤ LONG_MAX)%Z → (next_order_id_ b < LONG_MAX)%Z →
  ∃ b', book_wf b' ∧
    add_order b owner i side q p = Done ((spec_add (levels b) owner i side q p).1.1, b',
                                        (spec_add (levels b) owner i side q p).2)
    ∧ level_equiv (levels b') (spec_add (levels b) owner i side q p).1.2.
Proof.
  intros Hwf Hq Hlt.
  destruct (add_order_steps b owner i side q p Hwf Hq Hlt)
    as (l' & r & ix & xs & b1 & b2 & Hm & Hr & Hs & Hb1 & Hb2 & Hadd & Hwf1 & Hwf2).
  destruct (match_loop_fill _ _ _ _ _ _ _ _ _ _ _ Hm) as (fs & Hfill & ->);
    [by apply wf_live|lia|].
  exists b2. split; [done|].
  unfold spec_add. cbn [lb_level levels lb_next]. rewrite Hfill. cbn [fst snd].
  split; [done|].
  assert (∀ s i' p', level_of p' (queue_at b1 (s, i')) =
    set_level (lb_level (levels b)) (opposite_side side) i p (level_of p l') s i' p') as Hlev.
  { intros s i' p'. subst b1. rewrite queue_at_set_index, queue_at_set_queue. unfold set_level.
    destruct (decide ((opposite_side side, i) = (s, i'))) as [[= <- <-]|Hne].
    - destruct (decide (p' = p)) as [->|Hp]; [by rewrite decide_True|].
      rewrite decide_False by congruence. by eapply match_loop_level_other.
    - rewrite decide_False by congruence. by destruct s. }
  split.
  { cbn [lb_next levels]. subst b2 b1. destruct (0 <? r)%Z.
    - unfold rest_order. cbn [next_order_id_]. rewrite next_set_queue. cbn [next_order_id_ set_index].
      by rewrite next_set_queue.
    - cbn [next_order_id_ set_index]. by rewrite next_set_queue. }
  intros s i' p'. cbn [lb_level levels]. rewrite Hb2. destruct (0 <? r)%Z; [|apply Hlev].
  rewrite queue_at_rest_order. cbn [o_side o_instrument].
  unfold set_level at 1. rewrite <-!Hlev.
  destruct (decide ((side, i) = (s, i'))) as [[= <- <-]|Hne].
  - rewrite level_of_app. destruct (decide (p = p')) as [<-|Hp].
    + rewrite decide_True by done. rewrite level_of_cons_eq by done. done.
    + rewrite decide_False by congruence. rewrite level_of_cons_ne by done.
      by rewrite app_nil_r.
  - rewrite decide_False by congruence. done.
Qed.

Lemma in_level b s i p id owner q :
  mkResting id owner q ∈ lb_level (levels b) s i p ↔
  ∃ a o, (a, o) ∈ queue_at b (s, i) ∧ o_price o = p
         ∧ o_id o = id ∧ o_owner_fd o = owner ∧ o_quantity o = q.
Proof.
  cbn [lb_level levels]. unfold level_of. rewrite list_elem_of_fmap.
  split.
  - intros ([a o] & [= -> -> ->] & [Hp Hin]%list_elem_of_filter). by exists a, o.
  - intros (a & o & Hin & Hp & <- & <- & <-). exists (a, o).
    split; [done|]. by apply list_elem_of_filter.
Qed.

Lemma holds_index b id owner :
  book_wf b → holds (levels b) id owner ↔
  ∃ loc o, index_ b !! id = Some loc ∧ deref b loc = Some o ∧ o_owner_fd o = owner.
Proof.
  intros Hwf. unfold holds. setoid_rewrite in_level. split.
  - intros (s & i & p & q & a & o & Hin & _ & Hid & Hown & _).
    assert (index_ b !! id = Some (mkLocation (s, i) a)) as Hix
      by (apply (wf_index b Hwf); by exists o).
    exists (mkLocation (s, i) a), o. split_and!; [done| |done].
    apply find_node_in; [apply Hwf|done].
  - intros (loc & o & Hix & Hd & Hown). destruct (wf_deref b id loc Hwf Hix) as (o' & Ho' & Hid & Hin).
    simplify_eq. destruct loc as [[s i] a]. exists s, i, (o_price o), (o_quantity o), a, o. done.
Qed.

(** Filtering the queues by what an entry shows filters the levels. *)
Lemma level_of_filter (P : node → Prop) `{!∀ n, Decision (P n)}
    (Q : resting → Prop) `{!∀ e, Decision (Q e)} p l :
  (∀ n, P n ↔ Q (entry n)) → level_of p (filter P l) = filter Q (level_of p l).
Proof.
  intros HPQ. unfold level_of. rewrite filter_filter_and.
  induction l as [|n l IH]; [done|]. rewrite !filter_cons.
  destruct (decide (o_price n.2 = p)) as [Hp|Hp].
  - rewrite fmap_cons, filter_cons. destruct (decide (Q (entry n))) as [HQ|HQ].
    + rewrite decide_True by (split; [by apply HPQ|done]). rewrite fmap_cons. by f_equal.
    + rewrite decide_False; [done|]. intros [HP _]. by apply HQ, HPQ.
  - rewrite decide_False by tauto. done.
Qed.

Lemma cancel_order_refines b id requester :
  book_wf b →
  ∃ res, cancel_order b id requester = Done res ∧
    match res with
    | inl e => spec_cancel (levels b) id requester (inl e)
    | inr b' => book_wf b' ∧ ∃ lb', spec_cancel (levels b) id requester (inr lb')
                  ∧ level_equiv (levels b') lb'
    end.
Proof.
  intros Hwf. pose proof (cancel_order_cases b id requester Hwf) as Hc.
  destruct (index_ b !! id) as [loc|] eqn:Hix.
  - destruct Hc as (o & Hd & Hid & Hc). rewrite Hc.
    assert (holds (levels b) id (o_owner_fd o)) as Hh by (apply holds_index; eauto).
    case_decide as Hown; eexists; (split; [done|]); cbv beta iota.
    + subst requester. split; [by apply erase_wf|]. eexists. split; [by constructor|].
      split; [apply next_set_queue|]. intros s i p. cbn [lb_level levels keep_levels].
      rewrite (erase_queue b id loc) by done. by apply level_of_filter.
    + by econstructor.
  - rewrite Hc. eexists; split; [done|]. constructor. intros owner Hh.
    apply holds_index in Hh as (loc & o & Hix' & _); [congruence|done].
Qed.

Lemma remove_orders_refines b owner :
  book_wf b →
  ∃ b', remove_orders_of b owner = Done b' ∧ book_wf b'
    ∧ level_equiv (levels b') (spec_remove (levels b) owner).
Proof.
  intros Hwf. destruct (remove_orders_spec owner _ b Hwf (reflexivity _))
    as (b' & Hb' & Hwf' & Hn & _ & Hq).
  exists b'. split_and!; [done..|]. split; [done|]. intros s i p. cbn [lb_level levels spec_remove keep_levels].
  rewrite Hq. by apply level_of_filter.
Qed.

(** ** Facts about filling *)

Definition depth (l : list resting) : Z := foldr Z.add 0%Z (r_quantity <$> l).
Definition traded (xs : list TradeExecution) : Z := foldr Z.add 0%Z (x_quantity <$> xs).
Definition live_level (l : list resting) : Prop := Forall (λ e, (0 < r_quantity e)%Z) l.

Lemma level_of_live p l : live l → live_level (level_of p l).
Proof.
  intros Hl. unfold live_level, level_of. rewrite Forall_fmap. unfold compose. simpl.
  unfold live in Hl. rewrite Forall_forall in *.
  intros n [_ Hn]%list_elem_of_filter. by apply Hl.
Qed.

Lemma depth_nonneg l : live_level l → (0 ≤ depth l)%Z.
Proof.
  unfold depth. induction 1 as [|e l He Hl IH]; cbn [fmap list_fmap foldr]; lia.
Qed.

Lemma fill_amounts r l l' r' fs :
  fill r l = (l', r', fs) → live_level l → (0 ≤ r)%Z →
  let total := foldr Z.add 0%Z fs.*2 in
  total = Z.min r (depth l) ∧ r' = (r - total)%Z ∧ depth l' = (depth l - total)%Z
  ∧ Forall (λ f : Z * Z, (0 < f.2)%Z) fs.
Proof.
  revert r l' r' fs. induction l as [|e l IH]; intros r l' r' fs Hf Hl Hr.
  { injection Hf as <- <- <-. unfold depth. simpl. split_and!; [lia..|done]. }
  apply Forall_cons in Hl as [He Hl]. cbn [fill] in Hf.
  pose proof (depth_nonneg l Hl) as Hd.
  assert (depth (e :: l) = r_quantity e + depth l)%Z as Hde by done. rewrite Hde.
  destruct (Z.leb_spec r 0).
  { injection Hf as <- <- <-. simpl. split_and!; [lia..|done]. }
  destruct (Z.leb_spec (r_quantity e) r).
  - destruct (fill (r - r_quantity e) l) as [[l1 r1] fs1] eqn:Hrec.
    injection Hf as <- <- <-. destruct (IH _ _ _ _ Hrec Hl ltac:(lia)) as (H1 & H2 & H3 & H4).
    cbv zeta. cbn [fmap list_fmap foldr snd]. split_and!; [lia..|by constructor].
  - injection Hf as <- <- <-. simpl. split_and!; [lia..| |by repeat constructor].
    unfold depth. cbn [fmap list_fmap foldr r_quantity]. fold (depth l). lia.
Qed.

(** Oldest first: the filled orders are a prefix of the level; only the last
    of them may be filled in part, and then the incoming order is complete. *)
Lemma fill_prefix r l l' r' fs :
  fill r l = (l', r', fs) → live_level l →
  ∃ pre suf, l = pre ++ suf ∧
    ((fs = (λ e, (r_owner e, r_quantity e)) <$> pre ∧ l' = suf)
     ∨ ∃ e suf' q, suf = e :: suf' ∧ (0 < q < r_quantity e)%Z ∧ r' = 0%Z
         ∧ fs = ((λ e, (r_owner e, r_quantity e)) <$> pre) ++ [(r_owner e, q)]
         ∧ l' = mkResting (r_id e) (r_owner e) (r_quantity e - q) :: suf').
Proof.
  revert r l' r' fs. induction l as [|e l IH]; intros r l' r' fs Hf Hl.
  { injection Hf as <- <- <-. exists [], []. auto. }
  apply Forall_cons in Hl as [He Hl]. cbn [fill] in Hf.
  destruct (Z.leb_spec r 0).
  { injection Hf as <- <- <-. exists [], (e :: l). auto. }
  destruct (Z.leb_spec (r_quantity e) r).
  - destruct (fill (r - r_quantity e) l) as [[l1 r1] fs1] eqn:Hrec.
    injection Hf as <- <- <-. destruct (IH _ _ _ _ Hrec Hl) as (pre & suf & -> & Hcase).
    exists (e :: pre), suf. split; [done|].
    destruct Hcase as [[-> ->]|(e' & suf' & q & -> & Hq & -> & -> & ->)]; [by left|].
    right. exists e', suf', q. done.
  - injection Hf as <- <- <-. exists [], (e :: l). split; [done|]. right.
    exists e, l, r. split_and!; [done|lia..|done|done|done].
Qed.

Lemma traded_executions side owner i p fs :
  traded (execution side owner i p <$> fs) = foldr Z.add 0%Z fs.*2.
Proof.
  unfold traded. induction fs as [|[c q] fs IH]; [done|].
  cbn [fmap list_fmap foldr snd]. cbn [fmap] in IH. rewrite IH. by destruct side.
Qed.

(** A completed [add_order] is the specification's. *)
Lemma add_order_inv b owner i side q p id b' xs :
  book_wf b → (0 < q ≤ LONG_MAX)%Z → add_order b owner i side q p = Done (id, b', xs) →
  ∃ l' r fs, fill q (lb_level (levels b) (opposite_side side) i p) = (l', r, fs)
    ∧ id = next_order_id_ b ∧ xs = execution side owner i p <$> fs
    ∧ lb_level (levels b') (opposite_side side) i p = l'
    ∧ lb_level (levels b') side i p
      = lb_level (levels b) side i p ++ (if (0 <? r)%Z then [mkResting id owner r] else [])
    ∧ live_level (lb_level (levels b) (opposite_side side) i p).
Proof.
  intros Hwf Hq Hadd.
  assert (next_order_id_ b < LONG_MAX)%Z as Hlt.
  { unfold add_order in Hadd. destruct (Z.leb_spec LONG_MAX (next_order_id_ b)); [done|lia]. }
  destruct (add_order_refines b owner i side q p Hwf Hq Hlt) as (b'' & _ & Hadd' & [_ Hlev]).
  rewrite Hadd' in Hadd. injection Hadd as <- -> <-.
  unfold spec_add in *. destruct (fill q _) as [[l' r] fs] eqn:Hf. cbn [fst snd] in *.
  exists l', r, fs. split_and!; [done|done|done|..].
  - rewrite Hlev. cbn [lb_level]. destruct (0 <? r)%Z; unfold set_level;
      rewrite ?(decide_False (P := (side, i, p) = (opposite_side side, i, p))) by (by destruct side);
      by rewrite decide_True.
  - rewrite Hlev. cbn [lb_level]. destruct (0 <? r)%Z; unfold set_level;
      rewrite ?(decide_True (P := (side, i, p) = (side, i, p))) by done;
      rewrite (decide_False (P := (opposite_side side, i, p) = (side, i, p))) by (by destruct side);
      by rewrite ?app_nil_r.
  - apply level_of_live. by apply wf_live.
Qed.

(** Nobody but the submitter gets into the book by [add_order]. *)
Lemma fill_owner r l e :
  e ∈ (fill r l).1.1 → ∃ e', e' ∈ l ∧ r_owner e' = r_owner e.
Proof.
  revert r. induction l as [|e0 l IH]; intros r; cbn [fill]; [set_solver|].
  destruct (r <=? 0)%Z; [set_solver|]. destruct (r_quantity e0 <=? r)%Z.
  - specialize (IH (r - r_quantity e0)%Z).
    destruct (fill (r - r_quantity e0) l) as [[l1 r1] fs1]. cbn [fst] in *.
    intros (e' & ? & ?)%IH. exists e'. set_solver.
  - cbn [fst]. intros [->|He]%elem_of_cons; [exists e0|exists e]; set_solver.
Qed.

Lemma spec_add_owner lb owner i side q p s j p' e :
  e ∈ lb_level (spec_add lb owner i side q p).1.2 s j p' →
  r_owner e = owner ∨ ∃ e', e' ∈ lb_level lb s j p' ∧ r_owner e' = r_owner e.
Proof.
  unfold spec_add. pose proof (fill_owner q (lb_level lb (opposite_side side) i p) e) as Hfill.
  destruct (fill q _) as [[l' r] fs]. cbn [fst snd lb_level] in *.
  assert (∀ s j p', e ∈ set_level (lb_level lb) (opposite_side side) i p l' s j p' →
    ∃ e', e' ∈ lb_level lb s j p' ∧ r_owner e' = r_owner e) as Hset.
  { intros s0 j0 p0. unfold set_level. case_decide as Hd; [|by eauto].
    injection Hd as <- <- <-. apply Hfill. }
  destruct (0 <? r)%Z; [|by intros ?%Hset; right].
  unfold set_level at 1. case_decide as Hd; [|by intros ?%Hset; right].
  injection Hd as <- <- <-. intros [He|He]%elem_of_app; [right; by apply Hset|].
  apply list_elem_of_singleton in He as ->. by left.
Qed.

Lemma spec_add_instrument lb owner i side q p :
  Forall (λ x, x_instrument x = i) (spec_add lb owner i side q p).2.
Proof.
  unfold spec_add. destruct (fill _ _) as [[l' r] fs]. cbn [snd]. apply Forall_fmap, Forall_true.
  intros f. by destruct side.
Qed.

Lemma run_op_refines b op :
  book_wf b → op_ok op → (next_order_id_ b < LONG_MAX)%Z →
  ∃ o b' lb', run_op b op = Done (o, b') ∧ book_wf b' ∧ spec_step (levels b) op o lb'
    ∧ level_equiv (levels b') lb' ∧ (next_order_id_ b' ≤ next_order_id_ b + 1)%Z.
Proof.
  intros Hwf Hop Hlt. destruct op as [owner i side q p|id requester|owner]; cbn [run_op op_ok] in *.
  - destruct (add_order_refines b owner i side q p) as (b' & Hwf' & -> & Heq); [done..|].
    destruct (spec_add (levels b) owner i side q p) as [[id lb'] xs] eqn:Hs. cbn [fst snd] in *.
    eexists _, b', lb'. cbn [obind]. split_and!; [done|done|by constructor|done|].
    destruct Heq as [Hn _]. cbn [lb_next levels] in Hn. rewrite Hn.
    unfold spec_add in Hs. destruct (fill _ _) as [[? ?] ?]. simplify_eq/=. lia.
  - destruct (cancel_order_refines b id requester) as (res & -> & Hres); [done|].
    destruct res as [e|b']; cbn [obind].
    + eexists _, b, (levels b). split_and!; [done|done|by constructor|done|lia].
    + destruct Hres as (Hwf' & lb' & Hc & Heq). eexists _, b', lb'.
      split_and!; [done|done|by constructor|done|].
      destruct Heq as [Hn _]. cbn [lb_next levels] in Hn. rewrite Hn.
      inversion Hc; subst. cbn. lia.
  - destruct (remove_orders_refines b owner) as (b' & -> & Hwf' & Heq); [done|].
    eexists _, b', _. cbn [obind]. split_and!; [done|done|by constructor|done|].
    destruct Heq as [Hn _]. cbn in Hn. rewrite Hn. lia.
Qed.

Lemma spec_run_equiv lb lb0 ops os lb' :
  level_equiv lb lb0 → spec_run lb0 ops os lb' → spec_run lb ops os lb'.
Proof.
  intros Heq Hrun. inversion Hrun; subst.
  - constructor. by etrans.
  - econstructor; [by etrans|done..].
Qed.

Lemma run_ops_refines b ops :
  book_wf b → Forall op_ok ops → (next_order_id_ b + Z.of_nat (length ops) ≤ LONG_MAX)%Z →
  ∃ os b', run_ops b ops = Done (os, b') ∧ book_wf b' ∧ spec_run (levels b) ops os (levels b').
Proof.
  intros Hwf Hops. revert b Hwf. induction Hops as [|op ops Hop Hops IH]; intros b Hwf Hlen.
  { exists [], b. split_and!; [done|done|]. by constructor. }
  cbn [length] in Hlen.
  destruct (run_op_refines b op) as (o & b1 & lb1 & Hrun & Hwf1 & Hstep & Heq & Hn);
    [done|done|lia|].
  destruct (IH b1 Hwf1) as (os & b' & Hrun' & Hwf' & Hspec); [lia|].
  exists (o :: os), b'. cbn [run_ops]. rewrite Hrun. cbn [obind]. rewrite Hrun'.
  split_and!; [done|done|]. econstructor; [reflexivity|done|].
  eapply spec_run_equiv; [|done]. by symmetry.
Qed.

(** ** Properties *)

(** C22: refinement: any sequence of fewer than 2^63 - 1 operations (orders of
    positive size, cancellations, client removals) runs to completion from
    the empty book, without ever using a dangling iterator or overflowing, and
    returns exactly the ids, executions and error texts of the abstract
    price-level book; the final queues are the abstract levels. *)
Theorem book_refines_levels ops :
  Forall op_ok ops → (Z.of_nat (length ops) < LONG_MAX)%Z →
  ∃ os b, run_ops empty_book ops = Done (os, b) ∧ book_wf b
    ∧ spec_run empty_levels ops os (levels b).
Proof.
  intros Hops Hlen.
  destruct (run_ops_refines empty_book ops empty_book_wf Hops) as (os & b & ? & ? & ?);
    [simpl; lia|].
  exists os, b. split_and!; [done..|]. eapply spec_run_equiv; [|done].
  split; [done|]. intros s i p. cbn [lb_level levels empty_levels].
  unfold queue_at, empty_book. by destruct s; simpl; rewrite lookup_empty.
Qed.

Definition demo_ops : list book_op :=
  [OpAdd 5 (lit "JNST") Side_SELL 30 238; OpAdd 6 (lit "JNST") Side_SELL 40 238;
   OpAdd 7 (lit "JNST") Side_BUY 50 238; OpCancel 2 6; OpCancel 2 6; OpRemove 5].

Lemma book_refines_levels_witness :
  ∃ b, run_ops empty_book demo_ops =
    Done ([OutAdd 1 []; OutAdd 2 [];
           OutAdd 3 [mkExecution 7 5 (lit "JNST") 30 238; mkExecution 7 6 (lit "JNST") 20 238];
           OutCancelled; OutRefused (no_such_order 2); OutRemoved], b)
    ∧ book_wf b.
Proof.
  destruct (book_refines_levels demo_ops) as (os & b & Hrun & Hwf & _).
  - repeat constructor; simpl; unfold LONG_MAX; lia.
  - unfold LONG_MAX. simpl. lia.
  - exists b. split; [|exact Hwf]. rewrite Hrun. f_equal. f_equal.
    assert (obind (run_ops empty_book demo_ops) (λ '(o, _), Done o) = Done os) as H
      by (by rewrite Hrun).
    vm_compute in H. injection H as <-. vm_compute. reflexivity.
Defined.

(** Who is filled: a prefix of the opposite level. *)
Lemma add_order_priority b owner i side q p id b' xs :
  book_wf b → (0 < q ≤ LONG_MAX)%Z → add_order b owner i side q p = Done (id, b', xs) →
  ∃ pre suf, lb_level (levels b) (opposite_side side) i p = pre ++ suf ∧
    ((xs = (λ e, execution side owner i p (r_owner e, r_quantity e)) <$> pre
      ∧ lb_level (levels b') (opposite_side side) i p = suf)
     ∨ ∃ e suf' n, suf = e :: suf' ∧ (0 < n < r_quantity e)%Z
         ∧ xs = ((λ e, execution side owner i p (r_owner e, r_quantity e)) <$> pre)
                ++ [execution side owner i p (r_owner e, n)]
         ∧ lb_level (levels b') (opposite_side side) i p
           = mkResting (r_id e) (r_owner e) (r_quantity e - n) :: suf'
         ∧ lb_level (levels b') side i p = lb_level (levels b) side i p).
Proof.
  intros Hwf Hq Hadd.
  destruct (add_order_inv b owner i side q p id b' xs Hwf Hq Hadd)
    as (l' & r & fs & Hf & -> & -> & Hopp & Hown & Hlive).
  destruct (fill_prefix _ _ _ _ _ Hf Hlive) as (pre & suf & Hl & Hcase).
  exists pre, suf. split; [done|].
  destruct Hcase as [[-> ->]|(e & suf' & n & -> & Hn & -> & -> & ->)].
  - left. split; [|done]. by rewrite <-list_fmap_compose.
  - right. exists e, suf', n. rewrite fmap_app, <-list_fmap_compose.
    split_and!; [done|lia..|done|done|]. rewrite Hown. simpl. by rewrite app_nil_r.
Qed.

(** How much is filled, and what becomes of the rest. *)
Lemma add_order_conserves b owner i side q p id b' xs :
  book_wf b → (0 < q ≤ LONG_MAX)%Z → add_order b owner i side q p = Done (id, b', xs) →
  let available := depth (lb_level (levels b) (opposite_side side) i p) in
  traded xs = Z.min q available
  ∧ depth (lb_level (levels b') (opposite_side side) i p) = (available - traded xs)%Z
  ∧ lb_level (levels b') side i p = lb_level (levels b) side i p
      ++ (if (traded xs <? q)%Z then [mkResting id owner (q - traded xs)] else [])
  ∧ Forall (λ x, (0 < x_quantity x)%Z ∧ x_instrument x = i ∧ x_price x = p) xs.
Proof.
  intros Hwf Hq Hadd available.
  destruct (add_order_inv b owner i side q p id b' xs Hwf Hq Hadd)
    as (l' & r & fs & Hf & -> & -> & Hopp & Hown & Hlive).
  destruct (fill_amounts _ _ _ _ _ Hf Hlive) as (H1 & H2 & H3 & H4); [lia|]. cbv zeta in *.
  rewrite traded_executions, Hopp, Hown. fold available in H1, H3.
  split_and!; [done|done| |].
  - f_equal. rewrite H2.
    destruct (Z.ltb_spec 0 (q - foldr Z.add 0%Z fs.*2)), (Z.ltb_spec (foldr Z.add 0%Z fs.*2) q);
      done || lia.
  - rewrite Forall_fmap. eapply Forall_impl; [exact H4|]. intros [c n] Hn. by destruct side.
Qed.

(** C23: price-time priority and conservation: an accepted order trades only
    with resting orders of the opposite side at exactly its price, oldest
    first; every order it fills is filled completely except possibly the last,
    which keeps its place in the queue.  It trades the minimum of its size and
    the size available at its price, that amount leaves the opposite level, and
    exactly the unfilled rest is appended to its own side under its id; every
    execution has positive quantity, the order's instrument and price. *)
Theorem add_order_matches b owner i side q p id b' xs :
  book_wf b → (0 < q ≤ LONG_MAX)%Z → add_order b owner i side q p = Done (id, b', xs) →
  let whole := λ e, execution side owner i p (r_owner e, r_quantity e) in
  let available := depth (lb_level (levels b) (opposite_side side) i p) in
  (∃ pre suf, lb_level (levels b) (opposite_side side) i p = pre ++ suf ∧
    ((xs = whole <$> pre ∧ lb_level (levels b') (opposite_side side) i p = suf)
     ∨ ∃ e suf' n, suf = e :: suf' ∧ (0 < n < r_quantity e)%Z
         ∧ xs = (whole <$> pre) ++ [execution side owner i p (r_owner e, n)]
         ∧ lb_level (levels b') (opposite_side side) i p
           = mkResting (r_id e) (r_owner e) (r_quantity e - n) :: suf'
         ∧ lb_level (levels b') side i p = lb_level (levels b) side i p))
  ∧ traded xs = Z.min q available
  ∧ depth (lb_level (levels b') (opposite_side side) i p) = (available - traded xs)%Z
  ∧ lb_level (levels b') side i p = lb_level (levels b) side i p
      ++ (if (traded xs <? q)%Z then [mkResting id owner (q - traded xs)] else [])
  ∧ Forall (λ x, (0 < x_quantity x)%Z ∧ x_instrument x = i ∧ x_price x = p) xs.
Proof.
  intros Hwf Hq Hadd whole available.
  split; [by eapply add_order_priority|by apply (add_order_conserves b owner i side q p id)].
Qed.

Definition demo_book : OrderBook :=
  match run_ops empty_book (take 2 demo_ops) with Done (_, b) => b | _ => empty_book end.

Lemma demo_book_wf : book_wf demo_book.
Proof.
  destruct (run_ops_refines empty_book (take 2 demo_ops) empty_book_wf)
    as (os & b & Hrun & Hwf & _).
  - repeat constructor; simpl; unfold LONG_MAX; lia.
  - unfold LONG_MAX. simpl. lia.
  - unfold demo_book. rewrite Hrun. exact Hwf.
Qed.

Lemma add_order_matches_witness :
  ∃ b' xs pre suf, add_order demo_book 7 (lit "JNST") Side_BUY 50 238 = Done (3%Z, b', xs)
    ∧ [mkResting 1 5 30; mkResting 2 6 40] = pre ++ suf
    ∧ traded xs = 50%Z ∧ depth (lb_level (levels b') Side_SELL (lit "JNST") 238) = 20%Z.
Proof.
  destruct (add_order demo_book 7 (lit "JNST") Side_BUY 50 238) as [[[id b'] xs]| | |] eqn:Hadd;
    [|vm_compute in Hadd; discriminate..].
  destruct (add_order_matches demo_book 7 (lit "JNST") Side_BUY 50 238 id b' xs)
    as ((pre & suf & Hl & _) & H1 & H2 & _); [exact demo_book_wf|unfold LONG_MAX; lia|exact Hadd|].
  assert (traded xs = 50%Z) as Ht by (rewrite H1; vm_compute; reflexivity).
  assert (id = 3%Z) as -> by (vm_compute in Hadd; by injection Hadd as <- _ _).
  exists b', xs, pre, suf. split; [reflexivity|]. split; [rewrite <-Hl; vm_compute; reflexivity|].
  split; [exact Ht|]. cbn [opposite_side] in H2. rewrite H2, Ht. vm_compute. reflexivity.
Defined.

(** C24: the book never rests two orders that match: after any run, a resting
    buy and a resting sell of one instrument have different prices, and each
    queue is in submission order. *)
Theorem book_never_crossed ops os b :
  Forall op_ok ops → (Z.of_nat (length ops) < LONG_MAX)%Z →
  run_ops empty_book ops = Done (os, b) →
  (∀ i m n, m ∈ queue_at b (Side_BUY, i) → n ∈ queue_at b (Side_SELL, i) →
            o_price m.2 ≠ o_price n.2)
  ∧ ∀ q, StronglySorted id_lt (queue_at b q).
Proof.
  intros Hops Hlen Hrun.
  destruct (run_ops_refines empty_book ops empty_book_wf Hops) as (os' & b' & Hrun' & Hwf & _);
    [simpl; lia|].
  rewrite Hrun in Hrun'. injection Hrun' as <- <-. split; apply Hwf.
Qed.

Lemma book_never_crossed_witness :
  ∃ os b, run_ops empty_book demo_ops = Done (os, b) ∧
    ∀ q, StronglySorted id_lt (queue_at b q).
Proof.
  destruct (run_ops empty_book demo_ops) as [[os b]| | |] eqn:Hrun;
    [|vm_compute in Hrun; discriminate..].
  exists os, b. split; [reflexivity|].
  apply (book_never_crossed demo_ops os b); [repeat constructor; simpl; unfold LONG_MAX; lia| |exact Hrun].
  unfold LONG_MAX. simpl. lia.
Defined.

(** C25: [cancel_order] answers by three cases: an id that is not resting gets
    the "no such order" text, another trader's order the "belongs to another
    trader" text and the book is untouched, and the requester's own resting
    order disappears from its level while every other order keeps its place;
    the iterator in the index never dangles. *)
Theorem cancel_order_correct b id requester :
  book_wf b →
  (cancel_order b id requester = Done (inl (no_such_order id))
     ∧ ∀ owner, ¬ holds (levels b) id owner)
  ∨ (cancel_order b id requester = Done (inl (not_your_order id))
     ∧ ∃ owner, holds (levels b) id owner ∧ owner ≠ requester)
  ∨ (∃ b', cancel_order b id requester = Done (inr b') ∧ book_wf b'
     ∧ holds (levels b) id requester
     ∧ ∀ s i p, lb_level (levels b') s i p = filter (λ e, r_id e ≠ id) (lb_level (levels b) s i p)).
Proof.
  intros Hwf. destruct (cancel_order_refines b id requester Hwf) as (res & -> & Hres).
  destruct res as [e|b'].
  - inversion Hres; subst; [by left|right; left; eauto].
  - destruct Hres as (Hwf' & lb' & Hc & [_ Hl]). inversion Hc; subst.
    right; right. exists b'. split_and!; done.
Qed.

Lemma cancel_order_correct_witness :
  ∃ b', cancel_order demo_book 1 5 = Done (inr b') ∧
    lb_level (levels b') Side_SELL (lit "JNST") 238 = [mkResting 2 6 40].
Proof.
  destruct (cancel_order_correct demo_book 1 5) as [[H _]|[[H _]|(b' & H & _ & _ & Hl)]];
    [exact demo_book_wf|vm_compute in H; discriminate H..|].
  exists b'. split; [exact H|]. rewrite Hl. vm_compute. reflexivity.
Defined.

(** C26: [remove_orders_of] removes exactly the orders of the given descriptor,
    keeps every other order in its place, and its result does not depend on
    the order in which the hash table [index_] is traversed. *)
Theorem remove_orders_of_correct b owner entries :
  book_wf b → entries ≡ₚ map_to_list (index_ b) →
  ∃ b' b'', remove_loop owner entries b = Done b' ∧ remove_orders_of b owner = Done b''
    ∧ book_wf b' ∧ book_equiv b' b''
    ∧ (∀ q, queue_at b' q = filter (λ n : node, o_owner_fd n.2 ≠ owner) (queue_at b q))
    ∧ ∀ id, ¬ holds (levels b') id owner.
Proof.
  intros Hwf Hperm.
  destruct (remove_orders_spec owner entries b Hwf Hperm) as (b' & H & Hwf' & Hn & Hh & Hq).
  destruct (remove_orders_spec owner _ b Hwf (reflexivity _)) as (b'' & H' & Hwf'' & Hn' & Hh' & Hq').
  assert (∀ q, queue_at b' q = queue_at b'' q) as Heq by (intros q; by rewrite Hq, Hq').
  exists b', b''. split_and!; [done|done|done| |done|].
  - split_and!; [congruence..|by apply wf_index_eq|done].
  - intros id (s & i & p & q & (a & o & Hin & _ & _ & Hown & _)%in_level).
    rewrite Hq in Hin. by apply list_elem_of_filter in Hin as [Hne _].
Qed.

Lemma remove_orders_of_correct_witness :
  ∃ b', remove_loop 5 (reverse (map_to_list (index_ demo_book))) demo_book = Done b' ∧
    queue_at b' (Side_SELL, lit "JNST") =
      [(1%Z, mkOrder 2 6 (lit "JNST") Side_SELL 40 238)].
Proof.
  destruct (remove_orders_of_correct demo_book 5 (reverse (map_to_list (index_ demo_book))))
    as (b' & b'' & H & _ & _ & _ & Hq & _);
    [exact demo_book_wf|apply reverse_Permutation|].
  exists b'. split; [exact H|]. rewrite Hq. vm_compute. reflexivity.
Defined.

(** *** Order ids *)

(** The number of orders submitted, and the ids handed out. *)
Definition is_add (op : book_op) : bool := match op with OpAdd _ _ _ _ _ => true | _ => false end.
Definition adds (ops : list book_op) : nat := length (filter (λ op, is_add op = true) ops).

Definition ids (os : list book_out) : list Z :=
  omap (λ o, match o with OutAdd id _ => Some id | _ => None end) os.

(** One operation that is not stopped by the range of [long]. *)
Lemma run_op_ids b op :
  book_wf b → op_ok op →
  if decide (next_order_id_ b + Z.of_nat (adds [op]) ≤ LONG_MAX)%Z
  then ∃ o b', run_op b op = Done (o, b') ∧ book_wf b'
         ∧ ids [o] = seqZ (next_order_id_ b) (Z.of_nat (adds [op]))
         ∧ next_order_id_ b' = (next_order_id_ b + Z.of_nat (adds [op]))%Z
  else run_op b op = Overflow.
Proof.
  intros Hwf Hop. pose proof (wf_next b Hwf) as Hn.
  destruct op as [owner i side q p|id requester|owner]; cbn [run_op op_ok] in *.
  - change (adds [OpAdd owner i side q p]) with 1. case_decide as Hle.
    + destruct (add_order_refines b owner i side q p) as (b' & Hwf' & -> & [Hlb _]); [done|done|lia|].
      unfold spec_add in *. destruct (fill _ _) as [[? ?] ?]. cbn in Hlb |- *. eexists _, b'. done.
    + unfold add_order. by rewrite (proj2 (Z.leb_le LONG_MAX (next_order_id_ b))) by lia.
  - change (adds [OpCancel id requester]) with 0. rewrite decide_True by lia.
    destruct (cancel_order_refines b id requester) as (res & -> & Hres); [done|].
    destruct res as [e|b']; cbn [obind].
    + eexists _, b. split_and!; [done|done|done|lia].
    + destruct Hres as (Hwf' & lb' & Hc & [Hlb _]). eexists _, b'. split_and!; [done|done|done|].
      cbn in Hlb. rewrite Hlb. inversion Hc; subst. cbn. lia.
  - change (adds [OpRemove owner]) with 0. rewrite decide_True by lia.
    destruct (remove_orders_refines b owner) as (b' & -> & Hwf' & [Hlb _]); [done|].
    eexists _, b'. split_and!; [done|done|done|]. cbn in Hlb. rewrite Hlb. lia.
Qed.

Lemma run_ops_ids b ops :
  book_wf b → Forall op_ok ops →
  if decide (next_order_id_ b + Z.of_nat (adds ops) ≤ LONG_MAX)%Z
  then ∃ os b', run_ops b ops = Done (os, b') ∧ book_wf b'
         ∧ ids os = seqZ (next_order_id_ b) (Z.of_nat (adds ops))
         ∧ next_order_id_ b' = (next_order_id_ b + Z.of_nat (adds ops))%Z
  else run_ops b ops = Overflow.
Proof.
  intros Hwf Hops. revert b Hwf. induction Hops as [|op ops Hop Hops IH]; intros b Hwf.
  { pose proof (wf_next b Hwf). rewrite decide_True by (cbn; lia). exists [], b. split_and!; [done..|cbn; lia]. }
  assert (adds (op :: ops) = adds [op] + adds ops) as Hadds.
  { change (op :: ops) with ([op] ++ ops). unfold adds. by rewrite filter_app, length_app. }
  pose proof (run_op_ids b op Hwf Hop) as H1. cbn [run_ops]. rewrite Hadds.
  destruct (decide (next_order_id_ b + Z.of_nat (adds [op]) ≤ LONG_MAX)%Z).
  - destruct H1 as (o & b1 & -> & Hwf1 & Ho & Hnext). cbn [obind]. specialize (IH b1 Hwf1). rewrite Hnext in IH.
    destruct (decide (_ + Z.of_nat (adds ops) ≤ LONG_MAX)%Z) in IH.
    + rewrite decide_True by lia. destruct IH as (os & b' & -> & Hwf' & Hos & Hn'). exists (o :: os), b'.
      split_and!; [done|done| |lia]. change (ids (o :: os)) with (ids ([o] ++ os)).
      assert (ids ([o] ++ os) = ids [o] ++ ids os) as -> by apply omap_app.
      rewrite Ho, Hos, Nat2Z.inj_add, seqZ_app by lia. done.
    + rewrite decide_False by lia. by rewrite IH.
  - rewrite decide_False by lia. by rewrite H1.
Qed.

(** C27: order ids: in any sequence of operations from the empty book the
    orders submitted get the ids 1, 2, 3, ... in this order, however many
    cancellations and removals come between them, so no id is ever used again,
    and every order resting at the end has the id of one of them.  The sequence
    is stopped by the range of [long] exactly when it submits 2^63 - 1 orders
    or more: the ids 1 to 2^63 - 2 can be handed out, and the next order would
    increment [next_order_id_] past LONG_MAX. *)
Theorem order_ids_sequential ops :
  Forall op_ok ops →
  if decide (Z.of_nat (adds ops) < LONG_MAX)%Z
  then ∃ os b, run_ops empty_book ops = Done (os, b) ∧ ids os = seqZ 1 (Z.of_nat (adds ops))
         ∧ ∀ q n, n ∈ queue_at b q → o_id n.2 ∈ ids os
  else run_ops empty_book ops = Overflow.
Proof.
  intros Hops. pose proof (run_ops_ids empty_book ops empty_book_wf Hops) as H.
  change (next_order_id_ empty_book) with 1%Z in H.
  destruct (decide (1 + _ ≤ LONG_MAX)%Z) in H; [|by rewrite decide_False by lia].
  rewrite decide_True by lia. destruct H as (os & b & Hrun & Hwf & Hos & Hn). exists os, b.
  split_and!; [done|done|]. intros q [a o] Hin. rewrite Hos. apply elem_of_seqZ.
  apply (wf_node b Hwf) in Hin. cbn. lia.
Qed.

Lemma order_ids_sequential_witness :
  ∃ os b, run_ops empty_book demo_ops = Done (os, b) ∧ ids os = [1; 2; 3]%Z.
Proof.
  pose proof (order_ids_sequential demo_ops) as H. rewrite decide_True in H by (vm_compute; reflexivity).
  destruct H as (os & b & Hrun & Hids & _); [repeat constructor; simpl; unfold LONG_MAX; lia|].
  exists os, b. split; [exact Hrun|]. rewrite Hids. vm_compute. reflexivity.
Defined.
