(* ===== verification/Kernel.v ===== *)
(** * Kernel: the operating system as the program sees it

    The system calls the sources make are parameters: a type class with one
    operation per call, over an arbitrary kernel state.  [KernelLaws] states
    the documented behaviour the proofs rely on (a send accepts at most what
    it is given, a received buffer is as long as the return value and fits,
    accept() returns a descriptor that was not open, and the supply of
    interrupts, input and connections between two waits is finite).
    [Script] is a concrete kernel that plays back a list of answers; it
    satisfies the laws and is what the examples and witnesses run on. *)

From S2P Require Import Prelude CxxString.

Inductive errno : Type :=
| EINTR | EAGAIN | EWOULDBLOCK | EPIPE | ECONNRESET | ECONNABORTED
| EMFILE | ENFILE | ENOBUFS | ENOMEM | ENOENT | ECONNREFUSED | ETIMEDOUT
| EOTHER (code : Z).

#[global] Instance errno_eq_dec : EqDecision errno.
Proof. solve_decision. Defined.

(** [errno == EAGAIN || errno == EWOULDBLOCK] *)
Definition would_block (e : errno) : bool :=
  bool_decide (e = EAGAIN) || bool_decide (e = EWOULDBLOCK).

Record sockaddr : Type := mkSockaddr { sin_addr : Z; sin_port : Z }.

Record pollfd : Type := mkPollfd { pfd_fd : Z; pfd_events : Z; pfd_revents : Z }.

Record kevent : Type := mkKevent { ke_ident : Z; ke_filter : Z; ke_flags : Z }.

Inductive shut_how : Type := SHUT_RD | SHUT_WR | SHUT_RDWR.

(** What a program prints. *)
Inductive printed : Type := Stdout (text : bytes) | Stderr (text : bytes).

#[global] Instance printed_eq_dec : EqDecision printed.
Proof. solve_decision. Defined.

(** Constants of the FreeBSD headers. *)
Definition POLLIN : Z := 1.
Definition POLLOUT : Z := 4.
Definition POLLERR : Z := 8.
Definition POLLHUP : Z := 16.
Definition POLLNVAL : Z := 32.
Definition EVFILT_READ : Z := -1.
Definition EVFILT_WRITE : Z := -2.
Definition EV_ADD : Z := 1.
Definition EV_DELETE : Z := 2.
Definition EV_EOF : Z := 32768.
Definition EV_ERROR : Z := 16384.
Definition O_NONBLOCK : Z := 4.
Definition SOL_SOCKET : Z := 65535.
Definition SO_REUSEADDR : Z := 4.
Definition SO_SNDBUF : Z := 4097.
Definition IPPROTO_TCP : Z := 6.
Definition TCP_NODELAY : Z := 1.
Definition SOMAXCONN : Z := 128.

(** One operation per system call or library function outside the sources. *)
Class Kernel (K : Type) : Type := {
  sys_errno : K → errno;
  sys_strerror : errno → bytes;
  sys_send : Z → bytes → K → Z * K;
  sys_recv : Z → Z → K → Z * bytes * K;
  sys_accept : Z → K → Z * sockaddr * K;
  sys_close : Z → K → K;
  sys_shutdown : Z → shut_how → K → K;
  sys_getfl : Z → K → Z * K;
  sys_setfl : Z → Z → K → Z * K;
  sys_setsockopt : Z → Z → Z → Z → K → Z * K;
  sys_getsockopt : Z → Z → Z → K → Z * Z * K;
  sys_inet_ntop : Z → option bytes;
  (* clock_gettime(CLOCK_MONOTONIC): seconds and nanoseconds *)
  sys_clock_gettime : K → (Z * Z) * K;
  (* the value of the flag set by the signal handler *)
  sys_stopped : K → bool * K;
  sys_poll : list pollfd → Z → K → Z * list Z * K;
  sys_kqueue : K → Z * K;
  sys_kevent_change : Z → list kevent → K → Z * K;
  sys_kevent_wait : Z → Z → option (Z * Z) → K → Z * list kevent * K;
  (* loop budget: a bound on how many more interrupts, non-empty receives and
     accepted connections the environment has to offer *)
  sys_work : K → nat
}.

(** What the proofs observe of a kernel state. *)
Class KernelView (K : Type) : Type := {
  open_fds : K → gset Z;
  (* bytes the kernel has taken over for a descriptor since it was opened *)
  sent : K → Z → bytes;
  (* bytes it has handed out for a descriptor since it was opened *)
  received : K → Z → bytes
}.

(** [k'] comes from [k] by calls that neither open, close nor transmit. *)
Definition receiving `{!Kernel K, !KernelView K} (k k' : K) : Prop :=
  open_fds k' = open_fds k ∧ (∀ fd, sent k' fd = sent k fd) ∧ sys_work k' ≤ sys_work k.

(** ... and that do not receive either. *)
Definition quiet `{!Kernel K, !KernelView K} (k k' : K) : Prop :=
  open_fds k' = open_fds k ∧ (∀ fd, sent k' fd = sent k fd) ∧ sys_work k' ≤ sys_work k
  ∧ ∀ fd, received k' fd = received k fd.

(** A call that opens a descriptor has returned [n]. *)
Definition newly_opened `{!Kernel K, !KernelView K} (k : K) (n : Z) (k' : K) : Prop :=
  ((n < 0)%Z ∧ quiet k k')
  ∨ ((0 ≤ n)%Z ∧ n ∉ open_fds k ∧ open_fds k' = {[n]} ∪ open_fds k
     ∧ sys_work k' ≤ sys_work k ∧ sent k' n = [] ∧ received k' n = []
     ∧ ∀ fd, fd ≠ n → sent k' fd = sent k fd ∧ received k' fd = received k fd).

Class KernelLaws (K : Type) `{!Kernel K, !KernelView K} : Prop := {
  law_send fd data k n k' :
    sys_send fd data k = (n, k') →
    (n ≤ str_size data)%Z ∧ open_fds k' = open_fds k ∧ sys_work k' ≤ sys_work k
    ∧ sent k' fd = sent k fd ++ take (Z.to_nat n) data
    ∧ (∀ fd', fd' ≠ fd → sent k' fd' = sent k fd')
    ∧ (∀ fd', received k' fd' = received k fd')
    ∧ ((n < 0)%Z → sys_errno k' = EINTR → sys_work k' < sys_work k);
  law_recv fd cap k n buf k' :
    sys_recv fd cap k = (n, buf, k') →
    receiving k k'
    ∧ received k' fd = received k fd ++ (if (0 <? n)%Z then buf else [])
    ∧ (∀ fd', fd' ≠ fd → received k' fd' = received k fd')
    ∧ ((0 < n)%Z → str_size buf = n ∧ (n ≤ cap)%Z ∧ sys_work k' < sys_work k)
    ∧ ((n < 0)%Z → sys_errno k' = EINTR → sys_work k' < sys_work k);
  law_accept lfd k n addr k' :
    sys_accept lfd k = (n, addr, k') →
    ((n < 0)%Z ∧ quiet k k')
    ∨ ((0 ≤ n)%Z ∧ n ∉ open_fds k ∧ open_fds k' = {[n]} ∪ open_fds k
       ∧ sys_work k' < sys_work k ∧ sent k' n = [] ∧ received k' n = []
       ∧ ∀ fd, fd ≠ n → sent k' fd = sent k fd ∧ received k' fd = received k fd);
  law_close fd k :
    open_fds (sys_close fd k) = open_fds k ∖ {[fd]}
    ∧ (∀ fd', sent (sys_close fd k) fd' = sent k fd')
    ∧ (∀ fd', received (sys_close fd k) fd' = received k fd')
    ∧ sys_work (sys_close fd k) ≤ sys_work k;
  law_shutdown fd how k : quiet k (sys_shutdown fd how k);
  law_getfl fd k : quiet k (sys_getfl fd k).2;
  law_setfl fd flags k : quiet k (sys_setfl fd flags k).2;
  law_setsockopt fd level opt v k : quiet k (sys_setsockopt fd level opt v k).2;
  law_getsockopt fd level opt k : quiet k (sys_getsockopt fd level opt k).2;
  law_clock_gettime k :
    quiet k (sys_clock_gettime k).2
    ∧ (0 ≤ (sys_clock_gettime k).1.1 ∧ 0 ≤ (sys_clock_gettime k).1.2 < 1000000000)%Z;
  law_stopped k : quiet k (sys_stopped k).2;
  law_kevent_change kq cs k : quiet k (sys_kevent_change kq cs k).2;
  law_kqueue k n k' : sys_kqueue k = (n, k') → newly_opened k n k';
  (* waiting may let new work arrive *)
  law_poll fds timeout k n revs k' :
    sys_poll fds timeout k = (n, revs, k') →
    open_fds k' = open_fds k ∧ (∀ fd, sent k' fd = sent k fd)
    ∧ (∀ fd, received k' fd = received k fd) ∧ length revs = length fds;
  law_kevent_wait kq cap ts k n evs k' :
    sys_kevent_wait kq cap ts k = (n, evs, k') →
    open_fds k' = open_fds k ∧ (∀ fd, sent k' fd = sent k fd)
    ∧ (∀ fd, received k' fd = received k fd) ∧ ((0 ≤ n)%Z → Z.of_nat (length evs) = n)
}.

Section Quiet.
Context `{!Kernel K, !KernelView K}.

#[global] Instance receiving_preorder : PreOrder receiving.
Proof.
  split.
  - intros k. done.
  - intros k1 k2 k3 (? & Hs & ?) (? & Hs' & ?). split_and!; [congruence| |lia].
    intros fd. by rewrite Hs'.
Qed.

#[global] Instance quiet_preorder : PreOrder quiet.
Proof.
  split.
  - intros k. done.
  - intros k1 k2 k3 (? & Hs & ? & Hr) (? & Hs' & ? & Hr').
    split_and!; [congruence| |lia|]; intros fd; by rewrite Hs' || rewrite Hr'.
Qed.

Lemma quiet_receiving (k k' : K) : quiet k k' → receiving k k'.
Proof. by intros (? & ? & ? & _). Qed.

End Quiet.

(** ** A scripted kernel *)

Inductive send_answer : Type := SendUpTo (n : nat) | SendFail (e : errno).
Inductive recv_answer : Type := RecvData (buf : bytes) | RecvFail (e : errno).
Inductive accept_answer : Type := AcceptFd (fd : Z) (addr : sockaddr) | AcceptFail (e : errno).

Record Script : Type := mkScript {
  sc_errno : errno;
  sc_open : gset Z;
  sc_traffic : gmap Z (bytes * bytes);  (* bytes sent and received per descriptor *)
  sc_send : list (Z * send_answer);
  sc_recv : list (Z * recv_answer);
  sc_accept : list accept_answer;
  sc_poll : list (gmap Z Z);
  sc_kevents : list (list kevent);
  sc_clock : Z;
  sc_stop : list bool;
  sc_filters : gset (Z * Z)  (* registered (ident, filter) pairs *)
}.

(** The first answer meant for [fd]. *)
Fixpoint next_for {A : Type} (fd : Z) (l : list (Z * A)) : option (A * list (Z * A)) :=
  match l with
  | [] => None
  | (fd', a) :: l' =>
      if (fd =? fd')%Z then Some (a, l')
      else '(b, l'') ← next_for fd l'; Some (b, (fd', a) :: l'')
  end.

(** More bytes sent and received on [fd]. *)
Definition sc_moved (k : Script) (fd : Z) (out inp : bytes) : gmap Z (bytes * bytes) :=
  let t := default ([], []) (sc_traffic k !! fd) in
  <[fd := (t.1 ++ out, t.2 ++ inp)]> (sc_traffic k).

Definition sc_with_send (k : Script) (e : errno) (fd : Z) (data : bytes)
    (l : list (Z * send_answer)) : Script :=
  mkScript e (sc_open k) (sc_moved k fd data []) l
    (sc_recv k) (sc_accept k) (sc_poll k) (sc_kevents k) (sc_clock k) (sc_stop k) (sc_filters k).

Definition script_send (fd : Z) (data : bytes) (k : Script) : Z * Script :=
  match next_for fd (sc_send k) with
  | None => (str_size data, sc_with_send k (sc_errno k) fd data (sc_send k))
  | Some (SendUpTo n, l) =>
      (Z.of_nat (length (take n data)), sc_with_send k (sc_errno k) fd (take n data) l)
  | Some (SendFail e, l) => ((-1)%Z, sc_with_send k e fd [] l)
  end.

Definition sc_with_recv (k : Script) (e : errno) (fd : Z) (data : bytes)
    (l : list (Z * recv_answer)) : Script :=
  mkScript e (sc_open k) (sc_moved k fd [] data) (sc_send k) l
    (sc_accept k) (sc_poll k) (sc_kevents k) (sc_clock k) (sc_stop k) (sc_filters k).

Definition script_recv (fd cap : Z) (k : Script) : Z * bytes * Script :=
  match next_for fd (sc_recv k) with
  | None => ((-1)%Z, [], sc_with_recv k EAGAIN fd [] (sc_recv k))
  | Some (RecvData buf, l) =>
      let buf := take (Z.to_nat cap) buf in (str_size buf, buf, sc_with_recv k (sc_errno k) fd buf l)
  | Some (RecvFail e, l) => ((-1)%Z, [], sc_with_recv k e fd [] l)
  end.

Definition sc_with_accept (k : Script) (e : errno) (op : gset Z) (sn : gmap Z (bytes * bytes))
    (l : list accept_answer) : Script :=
  mkScript e op sn (sc_send k) (sc_recv k) l (sc_poll k) (sc_kevents k)
    (sc_clock k) (sc_stop k) (sc_filters k).

Definition script_accept (lfd : Z) (k : Script) : Z * sockaddr * Script :=
  match sc_accept k with
  | [] => ((-1)%Z, mkSockaddr 0 0, sc_with_accept k EAGAIN (sc_open k) (sc_traffic k) [])
  | AcceptFail e :: l => ((-1)%Z, mkSockaddr 0 0, sc_with_accept k e (sc_open k) (sc_traffic k) l)
  | AcceptFd fd addr :: l =>
      if (0 <=? fd)%Z && bool_decide (fd ∉ sc_open k)
      then (fd, addr, sc_with_accept k (sc_errno k) ({[fd]} ∪ sc_open k) (delete fd (sc_traffic k)) l)
      else ((-1)%Z, addr, sc_with_accept k EAGAIN (sc_open k) (sc_traffic k) l)
  end.

Definition script_poll (fds : list pollfd) (timeout : Z) (k : Script) : Z * list Z * Script :=
  let answers := default ∅ (head (sc_poll k)) in
  let revs := (λ p, default 0%Z (answers !! pfd_fd p)) <$> fds in
  (Z.of_nat (length (filter (λ r, r ≠ 0%Z) revs)), revs,
   mkScript (sc_errno k) (sc_open k) (sc_traffic k) (sc_send k) (sc_recv k) (sc_accept k)
     (tail (sc_poll k)) (sc_kevents k) (sc_clock k) (sc_stop k) (sc_filters k)).

Definition script_kevent_wait (kq cap : Z) (ts : option (Z * Z)) (k : Script)
    : Z * list kevent * Script :=
  let evs := default [] (head (sc_kevents k)) in
  (Z.of_nat (length evs), evs,
   mkScript (sc_errno k) (sc_open k) (sc_traffic k) (sc_send k) (sc_recv k) (sc_accept k)
     (sc_poll k) (tail (sc_kevents k)) (sc_clock k) (sc_stop k) (sc_filters k)).

(** The effect of one change, and of a list of changes: the first deletion of
    a filter that is not registered fails with ENOENT and stops the list. *)
Definition apply_change (c : kevent) (fs : gset (Z * Z)) : gset (Z * Z) :=
  if decide (ke_flags c = EV_ADD) then {[(ke_ident c, ke_filter c)]} ∪ fs
  else fs ∖ {[(ke_ident c, ke_filter c)]}.

Definition apply_changes (cs : list kevent) (fs : gset (Z * Z)) : gset (Z * Z) :=
  fold_left (λ fs c, apply_change c fs) cs fs.

Fixpoint script_changes (cs : list kevent) (fs : gset (Z * Z)) : bool * gset (Z * Z) :=
  match cs with
  | [] => (true, fs)
  | c :: cs' =>
      if decide (ke_flags c = EV_DELETE ∧ (ke_ident c, ke_filter c) ∉ fs) then (false, fs)
      else script_changes cs' (apply_change c fs)
  end.

Definition script_kevent_change (kq : Z) (cs : list kevent) (k : Script) : Z * Script :=
  let '(ok, fs) := script_changes cs (sc_filters k) in
  ((if ok then 0 else -1)%Z,
   mkScript (if ok then sc_errno k else ENOENT) (sc_open k) (sc_traffic k) (sc_send k) (sc_recv k)
     (sc_accept k) (sc_poll k) (sc_kevents k) (sc_clock k) (sc_stop k) fs).

(** The number of a new descriptor. *)
Definition script_new_fd (k : Script) : Z :=
  Z.of_N (fresh (set_map Z.to_N (sc_open k) : gset N)).

Lemma script_new_fd_fresh k : script_new_fd k ∉ sc_open k.
Proof.
  intros Hin. unfold script_new_fd in Hin. set (n := fresh _) in Hin.
  apply (is_fresh (set_map Z.to_N (sc_open k) : gset N)). apply elem_of_map.
  exists (Z.of_N n). split; [|done]. by rewrite N2Z.id.
Qed.

(** A call that opens one. *)
Definition script_opening (k : Script) : Z * Script :=
  let fd := script_new_fd k in
  (fd, mkScript (sc_errno k) ({[fd]} ∪ sc_open k) (delete fd (sc_traffic k)) (sc_send k) (sc_recv k)
         (sc_accept k) (sc_poll k) (sc_kevents k) (sc_clock k) (sc_stop k) (sc_filters k)).

#[global] Instance script_kernel : Kernel Script := {
  sys_errno := sc_errno;
  sys_strerror := λ _, lit "error";
  sys_send := script_send;
  sys_recv := script_recv;
  sys_accept := script_accept;
  sys_close := λ fd k,
    mkScript (sc_errno k) (sc_open k ∖ {[fd]}) (sc_traffic k) (sc_send k) (sc_recv k)
      (sc_accept k) (sc_poll k) (sc_kevents k) (sc_clock k) (sc_stop k) (sc_filters k);
  sys_shutdown := λ _ _ k, k;
  sys_getfl := λ _ k, (0%Z, k);
  sys_setfl := λ _ _ k, (0%Z, k);
  sys_setsockopt := λ _ _ _ _ k, (0%Z, k);
  sys_getsockopt := λ _ _ _ k, (0%Z, 0%Z, k);
  sys_inet_ntop := λ _, Some (lit "127.0.0.1");
  sys_clock_gettime := λ k, ((Z.max 0 (sc_clock k) `div` 1000000000, Z.max 0 (sc_clock k) `mod` 1000000000)%Z, k);
  sys_stopped := λ k,
    (default true (head (sc_stop k)),
     mkScript (sc_errno k) (sc_open k) (sc_traffic k) (sc_send k) (sc_recv k) (sc_accept k)
       (sc_poll k) (sc_kevents k) (sc_clock k) (tail (sc_stop k)) (sc_filters k));
  sys_poll := script_poll;
  sys_kqueue := script_opening;
  sys_kevent_change := script_kevent_change;
  sys_kevent_wait := script_kevent_wait;
  sys_work := λ k, length (sc_send k) + length (sc_recv k) + length (sc_accept k)
}.

#[global] Instance script_view : KernelView Script := {
  open_fds := sc_open;
  sent := λ k fd, (default ([], []) (sc_traffic k !! fd)).1;
  received := λ k fd, (default ([], []) (sc_traffic k !! fd)).2
}.

Lemma next_for_length {A} fd (l : list (Z * A)) a l' :
  next_for fd l = Some (a, l') → length l = S (length l').
Proof.
  revert a l'. induction l as [|[fd' b] l IH]; intros a l'; simpl; [done|].
  destruct (fd =? fd')%Z; [by intros [= <- <-]|].
  destruct (next_for fd l) as [[c l'']|]; simpl; [|done]. intros [= <- <-].
  simpl. by rewrite (IH c l'').
Qed.

(** The ghost traffic after a send or a receive. *)
Lemma sc_moved_sent k fd out inp fd' :
  (default ([], []) (sc_moved k fd out inp !! fd')).1
  = sent k fd' ++ (if decide (fd' = fd) then out else []).
Proof.
  unfold sc_moved. rewrite lookup_insert. case_decide; subst; cbn.
  - by rewrite decide_True.
  - by rewrite decide_False, app_nil_r by done.
Qed.

Lemma sc_moved_received k fd out inp fd' :
  (default ([], []) (sc_moved k fd out inp !! fd')).2
  = received k fd' ++ (if decide (fd' = fd) then inp else []).
Proof.
  unfold sc_moved. rewrite lookup_insert. case_decide; subst; cbn.
  - by rewrite decide_True.
  - by rewrite decide_False, app_nil_r by done.
Qed.

(** The laws about the bytes moved. *)
Ltac moved :=
  intros; unfold sent, received; cbn [script_view sc_traffic sc_with_send sc_with_recv];
  rewrite ?sc_moved_sent, ?sc_moved_received, ?decide_True, ?decide_False, ?app_nil_r by done;
  try done; try (case_decide; by rewrite ?app_nil_r).

Lemma script_send_law fd data (k : Script) n k' :
  sys_send fd data k = (n, k') →
  (n ≤ str_size data)%Z ∧ open_fds k' = open_fds k ∧ sys_work k' ≤ sys_work k
  ∧ sent k' fd = sent k fd ++ take (Z.to_nat n) data
  ∧ (∀ fd', fd' ≠ fd → sent k' fd' = sent k fd')
  ∧ (∀ fd', received k' fd' = received k fd')
  ∧ ((n < 0)%Z → sys_errno k' = EINTR → sys_work k' < sys_work k).
Proof.
  unfold sys_send; cbn [script_kernel]. unfold script_send, str_size.
  destruct (next_for fd (sc_send k)) as [[[m|e] l]|] eqn:Hn; intros [= <- <-];
    [apply next_for_length in Hn; rewrite ?length_take..|];
    (split_and!; [lia|done|cbn; lia| |moved|moved|cbn; lia]); moved.
  - f_equal. rewrite Nat2Z.id, <-firstn_firstn. by rewrite (take_ge data (length data)).
  - by rewrite Nat2Z.id, take_ge.
Qed.

Lemma script_recv_law fd cap (k : Script) n buf k' :
  sys_recv fd cap k = (n, buf, k') →
  receiving k k'
  ∧ received k' fd = received k fd ++ (if (0 <? n)%Z then buf else [])
  ∧ (∀ fd', fd' ≠ fd → received k' fd' = received k fd')
  ∧ ((0 < n)%Z → str_size buf = n ∧ (n ≤ cap)%Z ∧ sys_work k' < sys_work k)
  ∧ ((n < 0)%Z → sys_errno k' = EINTR → sys_work k' < sys_work k).
Proof.
  unfold sys_recv; cbn [script_kernel]. unfold script_recv, str_size.
  destruct (next_for fd (sc_recv k)) as [[[b|e] l]|] eqn:Hn; intros [= <- <- <-];
    try apply next_for_length in Hn;
    (split_and!; [split_and!; [done|moved|cbn; lia]| |moved|cbn -[take Z.of_nat]; try lia|cbn; try lia]);
    try moved; try done.
  - by destruct (take _ b).
  - rewrite length_take in *. lia.
Qed.

Lemma script_opening_law (k : Script) n k' : script_opening k = (n, k') → newly_opened k n k'.
Proof.
  intros [= <- <-]. right. unfold open_fds, sent, received, sys_work. cbn.
  pose proof (script_new_fd_fresh k). rewrite lookup_delete_eq.
  split_and!; [unfold script_new_fd; lia|done..|].
  intros fd Hne. by rewrite lookup_delete_ne.
Qed.

#[global] Instance script_laws : KernelLaws Script.
Proof.
  split; try (intros; by unfold quiet; cbn).
  - exact script_send_law.
  - exact script_recv_law.
  - intros lfd k n addr k'. unfold sys_accept; cbn [script_kernel]. unfold script_accept.
    destruct (sc_accept k) as [|[fd a|e] l] eqn:Ha.
    + intros [= <- <- <-]. left. unfold quiet. cbn. rewrite Ha. cbn. split_and!; done || lia.
    + destruct (Z.leb_spec 0 fd); cbn [andb].
      * case_bool_decide; intros [= <- <- <-].
        -- right. unfold sent, received, sys_work, open_fds. cbn. rewrite Ha. cbn.
           rewrite lookup_delete_eq. split_and!; try done; try lia.
           intros fd' Hne. by rewrite lookup_delete_ne.
        -- left. unfold quiet. cbn. rewrite Ha. cbn. split_and!; done || lia.
      * intros [= <- <- <-]. left. unfold quiet. cbn. rewrite Ha. cbn. split_and!; done || lia.
    + intros [= <- <- <-]. left. unfold quiet. cbn. rewrite Ha. cbn. split_and!; done || lia.
  - intros k. split; [done|]. cbn. split; [apply Z.div_pos; lia|apply Z.mod_pos_bound; lia].
  - intros kq cs k. unfold sys_kevent_change; cbn [script_kernel]. unfold script_kevent_change.
    by destruct (script_changes cs (sc_filters k)) as [[] fs].
  - exact script_opening_law.
  - intros fds timeout k n revs k'. unfold sys_poll; cbn [script_kernel]. unfold script_poll.
    intros [= <- <- <-]. split_and!; [done..|]. by rewrite length_fmap.
  - intros kq cap ts k n evs k'. unfold sys_kevent_wait; cbn [script_kernel].
    unfold script_kevent_wait. by intros [= <- <- <-].
Qed.
