(* ===== verification/EventLoop.v ===== *)
(** * EventLoop: readiness notification (src/network/event_loop.{hpp,cpp})

    Both back ends.  The poll(2) back end keeps a dense vector of [pollfd]
    and an index from descriptor to slot, with swap-with-last removal; the
    kqueue(2) back end keeps a mirror of the registered filters and coalesces
    the reported filters per descriptor.  A vector access out of bounds is
    [Dangling].

    The contract ([registered]) is a finite map from descriptor to interest:
    [add] and [update] insert, [remove] deletes.  [EventLoopI] is the
    interface the server is verified against; both back ends discharge it. *)

From S2P Require Import Prelude CxxString Kernel.

Record Event : Type := mkEvent {
  ev_fd : Z;
  ev_readable : bool;
  ev_writable : bool;
  ev_hangup : bool
}.

Inductive Backend : Type := Poll | Kqueue.

#[global] Instance Backend_eq_dec : EqDecision Backend.
Proof. solve_decision. Defined.

Record EventLoop : Type := mkLoop {
  backend_ : Backend;
  pollfds_ : list pollfd;
  poll_index_ : gmap Z nat;
  kq_ : Z;
  kq_interest_ : gmap Z (bool * bool)
}.

(** [EXCHANGE_HAVE_KQUEUE], fixed when the program is compiled. *)
Class Platform : Type := have_kqueue : bool.

Section Backends.
Context {P : Platform}.

Definition default_backend : Backend := if have_kqueue then Kqueue else Poll.

Definition parse_backend (name : bytes) : Backend * bool :=
  if decide (name = lit "poll") then (Poll, true)
  else if decide (name = lit "kqueue") then
    if have_kqueue then (Kqueue, true) else (Poll, false)
  else (default_backend, false).

Definition backend_name (b : Backend) : bytes :=
  match b with Kqueue => lit "kqueue" | Poll => lit "poll" end.

End Backends.

Definition poll_mask (r w : bool) : Z :=
  Z.lor (Z.lor 0 (if r then POLLIN else 0)) (if w then POLLOUT else 0).

Definition set_poll (l : EventLoop) (v : list pollfd) (ix : gmap Z nat) : EventLoop :=
  mkLoop (backend_ l) v ix (kq_ l) (kq_interest_ l).

Definition set_kq (l : EventLoop) (m : gmap Z (bool * bool)) : EventLoop :=
  mkLoop (backend_ l) (pollfds_ l) (poll_index_ l) (kq_ l) m.

(** The part of [poll_add] after the test for an existing entry. *)
Definition poll_push (l : EventLoop) (fd : Z) (r w : bool) : EventLoop :=
  let entry := mkPollfd fd (poll_mask r w) 0 in
  set_poll l (pollfds_ l ++ [entry]) (<[fd := length (pollfds_ l)]> (poll_index_ l)).

Definition poll_update (l : EventLoop) (fd : Z) (r w : bool) : outcome (bool * EventLoop) :=
  match poll_index_ l !! fd with
  | None => Done (true, poll_push l fd r w)
  | Some i =>
      match pollfds_ l !! i with
      | None => Dangling
      | Some e =>
          Done (true, set_poll l (<[i := mkPollfd (pfd_fd e) (poll_mask r w) (pfd_revents e)]>
                                   (pollfds_ l)) (poll_index_ l))
      end
  end.

Definition poll_add (l : EventLoop) (fd : Z) (r w : bool) : outcome (bool * EventLoop) :=
  match poll_index_ l !! fd with
  | Some _ => poll_update l fd r w
  | None => Done (true, poll_push l fd r w)
  end.

Definition poll_remove (l : EventLoop) (fd : Z) : outcome EventLoop :=
  match poll_index_ l !! fd with
  | None => Done l
  | Some idx =>
      let last := length (pollfds_ l) - 1 in
      if decide (idx = last) then
        Done (set_poll l (removelast (pollfds_ l)) (delete fd (poll_index_ l)))
      else
        match pollfds_ l !! last, pollfds_ l !! idx with
        | Some moved, Some _ =>
            let v := <[idx := moved]> (pollfds_ l) in
            let ix := <[pfd_fd moved := idx]> (poll_index_ l) in
            Done (set_poll l (removelast v) (delete fd ix))
        | _, _ => Dangling
        end
  end.

(** Building the event of one [pollfd] whose [revents] is not zero. *)
Definition poll_event (p : pollfd) : Event :=
  mkEvent (pfd_fd p)
    (negb (Z.land (pfd_revents p) (Z.lor POLLIN POLLHUP) =? 0)%Z)
    (negb (Z.land (pfd_revents p) POLLOUT =? 0)%Z)
    (negb (Z.land (pfd_revents p) (Z.lor POLLERR POLLNVAL) =? 0)%Z).

(** poll(2) writes [revents] of every entry. *)
Definition store_revents (v : list pollfd) (revs : list Z) : list pollfd :=
  zip_with (λ p r, mkPollfd (pfd_fd p) (pfd_events p) r) v revs.

Section Calls.
Context `{!Kernel K}.

(** [EventLoop::EventLoop] *)
Definition new_loop {P : Platform} (backend : Backend) (k : K) : EventLoop * K :=
  if have_kqueue then
    match backend with
    | Kqueue =>
        let '(kq, k) := sys_kqueue k in
        (mkLoop (if (kq <? 0)%Z then Poll else Kqueue) [] ∅ kq ∅, k)
    | Poll => (mkLoop Poll [] ∅ (-1) ∅, k)
    end
  else (mkLoop Poll [] ∅ (-1) ∅, k).

(** [EventLoop::~EventLoop] *)
Definition destroy_loop (l : EventLoop) (k : K) : K :=
  if (0 <=? kq_ l)%Z then sys_close (kq_ l) k else k.

Definition poll_wait (l : EventLoop) (timeout_ms : Z) (k : K)
    : Z * list Event * EventLoop * K :=
  match pollfds_ l with
  | [] => (0%Z, [], l, k)
  | v =>
      let '(ready, revs, k) := sys_poll v timeout_ms k in
      if (ready <? 0)%Z then
        ((if decide (sys_errno k = EINTR) then 0 else -1)%Z, [], l, k)
      else
        let v := store_revents v revs in
        let l := set_poll l v (poll_index_ l) in
        if (ready =? 0)%Z then (0%Z, [], l, k)
        else
          let out := poll_event <$> filter (λ p, pfd_revents p ≠ 0%Z) v in
          (Z.of_nat (length out), out, l, k)
  end.

Definition kq_change (fd filter : Z) (on : bool) : kevent :=
  mkKevent fd filter (if on then EV_ADD else EV_DELETE).

Definition kq_apply (l : EventLoop) (fd : Z) (r w : bool) (k : K) : bool * EventLoop * K :=
  let interest := default (false, false) (kq_interest_ l !! fd) in
  let l := set_kq l (<[fd := interest]> (kq_interest_ l)) in
  let changes :=
    (if Bool.eqb r interest.1 then [] else [kq_change fd EVFILT_READ r])
    ++ (if Bool.eqb w interest.2 then [] else [kq_change fd EVFILT_WRITE w]) in
  let '(failed, k) :=
    match changes with
    | [] => (false, k)
    | _ => let '(n, k) := sys_kevent_change (kq_ l) changes k in ((n <? 0)%Z, k)
    end in
  if failed && negb (bool_decide (sys_errno k = ENOENT)) then (false, l, k)
  else (true, set_kq l (<[fd := (r, w)]> (kq_interest_ l)), k).

Definition kq_remove (l : EventLoop) (fd : Z) (k : K) : EventLoop * K :=
  match (kq_interest_ l !! fd : option (bool * bool)) with
  | None => (l, k)
  | Some (r, w) =>
      let changes :=
        (if r then [kq_change fd EVFILT_READ false] else [])
        ++ (if w then [kq_change fd EVFILT_WRITE false] else []) in
      let k := match changes with
               | [] => k
               | _ => (sys_kevent_change (kq_ l) changes k).2
               end in
      (set_kq l (delete fd (kq_interest_ l)), k)
  end.

(** What one reported filter adds to the event of its descriptor. *)
Definition kq_merge (ev : Event) (e : kevent) : Event :=
  mkEvent (ev_fd ev)
    (ev_readable ev || (ke_filter e =? EVFILT_READ)%Z
       || negb (Z.land (ke_flags e) EV_EOF =? 0)%Z)
    (ev_writable ev || (ke_filter e =? EVFILT_WRITE)%Z)
    (ev_hangup ev || negb (Z.land (ke_flags e) EV_ERROR =? 0)%Z).

(** The coalescing loop of [kq_wait]. *)
Fixpoint kq_coalesce (events : list kevent) (seen : gmap Z nat) (out : list Event)
    : outcome (list Event) :=
  match events with
  | [] => Done out
  | e :: events' =>
      let fd := ke_ident e in
      let '(seen, out, slot) :=
        match seen !! fd with
        | Some i => (seen, out, i)
        | None => (<[fd := length out]> seen, out ++ [mkEvent fd false false false], length out)
        end in
      match out !! slot with
      | None => Dangling
      | Some ev => kq_coalesce events' seen (<[slot := kq_merge ev e]> out)
      end
  end.

Definition kq_wait (l : EventLoop) (timeout_ms : Z) (k : K)
    : outcome (Z * list Event * EventLoop * K) :=
  if decide (kq_interest_ l = ∅) then Done (0%Z, [], l, k)
  else
    let capacity := (Z.of_nat (base.size (kq_interest_ l)) * 2 + 8)%Z in
    let tsp := if (0 <=? timeout_ms)%Z
               then Some (timeout_ms `quot` 1000, timeout_ms `rem` 1000 * 1000000)%Z else None in
    let '(ready, events, k) := sys_kevent_wait (kq_ l) capacity tsp k in
    if (ready <? 0)%Z then
      Done ((if decide (sys_errno k = EINTR) then 0 else -1)%Z, [], l, k)
    else
      obind (kq_coalesce events ∅ []) (λ out,
        Done (Z.of_nat (length out), out, l, k)).

(** The members of the kqueue back end where there is no kqueue. *)
Definition kq_apply_none (l : EventLoop) (fd : Z) (r w : bool) (k : K) : bool * EventLoop * K := (false, l, k).
Definition kq_remove_none (l : EventLoop) (fd : Z) (k : K) : EventLoop * K := (l, k).
Definition kq_wait_none (l : EventLoop) (timeout_ms : Z) (k : K) : outcome (Z * list Event * EventLoop * K) :=
  Done ((-1)%Z, [], l, k).

(** The dispatching members of [EventLoop]. *)
Definition add {P : Platform} (l : EventLoop) (fd : Z) (r w : bool) (k : K)
    : outcome (bool * EventLoop * K) :=
  match backend_ l with
  | Poll => obind (poll_add l fd r w) (λ '(ok, l), Done (ok, l, k))
  | Kqueue => Done (if have_kqueue then kq_apply l fd r w k else kq_apply_none l fd r w k)
  end.

Definition update {P : Platform} (l : EventLoop) (fd : Z) (r w : bool) (k : K)
    : outcome (bool * EventLoop * K) :=
  match backend_ l with
  | Poll => obind (poll_update l fd r w) (λ '(ok, l), Done (ok, l, k))
  | Kqueue => Done (if have_kqueue then kq_apply l fd r w k else kq_apply_none l fd r w k)
  end.

Definition remove {P : Platform} (l : EventLoop) (fd : Z) (k : K) : outcome (EventLoop * K) :=
  match backend_ l with
  | Poll => obind (poll_remove l fd) (λ l, Done (l, k))
  | Kqueue => Done (if have_kqueue then kq_remove l fd k else kq_remove_none l fd k)
  end.

Definition wait {P : Platform} (l : EventLoop) (timeout_ms : Z) (k : K)
    : outcome (Z * list Event * EventLoop * K) :=
  match backend_ l with
  | Poll => Done (poll_wait l timeout_ms k)
  | Kqueue => if have_kqueue then kq_wait l timeout_ms k else kq_wait_none l timeout_ms k
  end.

Definition loop_size (l : EventLoop) : nat :=
  match backend_ l with
  | Poll => length (pollfds_ l)
  | Kqueue => base.size (kq_interest_ l)
  end.

End Calls.

(** ** The poll back end *)

(** The interest a [pollfd] registers. *)
Definition decode_mask (m : Z) : bool * bool :=
  (negb (Z.land m POLLIN =? 0)%Z, negb (Z.land m POLLOUT =? 0)%Z).

Lemma decode_poll_mask r w : decode_mask (poll_mask r w) = (r, w).
Proof. by destruct r, w. Qed.

(** The index is the inverse of the vector's descriptors. *)
Definition poll_wf (l : EventLoop) : Prop :=
  ∀ fd i, poll_index_ l !! fd = Some i ↔ ∃ e, pollfds_ l !! i = Some e ∧ pfd_fd e = fd.

Definition poll_interest (l : EventLoop) (fd : Z) : option (bool * bool) :=
  i ← poll_index_ l !! fd; e ← pollfds_ l !! i; Some (decode_mask (pfd_events e)).

Lemma poll_wf_slot l fd i :
  poll_wf l → poll_index_ l !! fd = Some i →
  ∃ e, pollfds_ l !! i = Some e ∧ pfd_fd e = fd ∧ i < length (pollfds_ l).
Proof.
  intros Hwf Hi. apply Hwf in Hi as (e & He & Hfd). exists e. split_and!; [done..|].
  by eapply lookup_lt_Some.
Qed.

(** The interest of [fd] is that of its (only) entry. *)
Lemma poll_interest_entry l fd x :
  poll_wf l →
  poll_interest l fd = Some x ↔
  ∃ i e, pollfds_ l !! i = Some e ∧ pfd_fd e = fd ∧ decode_mask (pfd_events e) = x.
Proof.
  intros Hwf. unfold poll_interest. split.
  - destruct (poll_index_ l !! fd) as [i|] eqn:Hi; simpl; [|done].
    destruct (pollfds_ l !! i) as [e|] eqn:He; simpl; [|done]. intros [= <-].
    apply Hwf in Hi as (e' & He' & Hfd). simplify_eq. eauto.
  - intros (i & e & He & Hfd & <-).
    assert (poll_index_ l !! fd = Some i) as -> by (apply Hwf; eauto).
    simpl. by rewrite He.
Qed.

Lemma option_ext {A} (x y : option A) : (∀ a, x = Some a ↔ y = Some a) → x = y.
Proof. apply option_eq. Qed.

Lemma poll_push_spec l fd r w :
  poll_wf l → poll_index_ l !! fd = None →
  poll_wf (poll_push l fd r w)
  ∧ ∀ fd', poll_interest (poll_push l fd r w) fd' =
      if decide (fd = fd') then Some (r, w) else poll_interest l fd'.
Proof.
  intros Hwf Hnone.
  assert (poll_wf (poll_push l fd r w)) as Hwf'.
  { intros fd' i. unfold poll_push. cbn [poll_index_ pollfds_ set_poll].
    rewrite lookup_insert. case_decide as Hfd.
    - subst fd'. split.
      + intros [= <-]. eexists. split; [by apply list_lookup_middle|done].
      + intros (e & He & Hfd). apply lookup_app_Some in He as [He|[Hle He]].
        * assert (poll_index_ l !! fd = Some i) by (apply Hwf; eauto). congruence.
        * f_equal. apply list_lookup_singleton_Some in He as [? _]. lia.
    - rewrite (Hwf fd' i). split.
      + intros (e & He & Hfd'). exists e. split; [by apply lookup_app_l_Some|done].
      + intros (e & He & Hfd'). exists e. split; [|done].
        apply lookup_app_Some in He as [He|[Hle He]]; [done|].
        apply list_lookup_singleton_Some in He as [_ <-]. done. }
  split; [done|]. intros fd'. apply option_ext. intros x.
  rewrite (poll_interest_entry _ _ _ Hwf'). unfold poll_push. cbn [pollfds_ set_poll].
  case_decide as Hfd.
  - subst fd'. split.
    + intros (i & e & He & Hfd & <-). apply lookup_app_Some in He as [He|[Hle He]].
      * assert (poll_index_ l !! fd = Some i) by (apply Hwf; eauto). congruence.
      * apply list_lookup_singleton_Some in He as [_ <-]. cbn. by rewrite decode_poll_mask.
    + intros [= <-]. eexists (length (pollfds_ l)), _.
      split_and!; [by apply list_lookup_middle|done|]. apply decode_poll_mask.
  - rewrite (poll_interest_entry l fd' x Hwf). split.
    + intros (i & e & He & Hfd' & Hx). apply lookup_app_Some in He as [He|[Hle He]]; [eauto|].
      apply list_lookup_singleton_Some in He as [_ <-]. done.
    + intros (i & e & He & Hfd' & Hx). exists i, e. split; [by apply lookup_app_l_Some|done].
Qed.

Lemma poll_update_spec l fd r w :
  poll_wf l →
  ∃ l', poll_update l fd r w = Done (true, l') ∧ backend_ l' = backend_ l ∧ poll_wf l'
    ∧ ∀ fd', poll_interest l' fd' = if decide (fd = fd') then Some (r, w) else poll_interest l fd'.
Proof.
  intros Hwf. unfold poll_update. destruct (poll_index_ l !! fd) as [i|] eqn:Hi.
  2: { destruct (poll_push_spec l fd r w Hwf Hi). eexists. done. }
  destruct (poll_wf_slot l fd i Hwf Hi) as (e & He & Hfd & Hlt). rewrite He.
  eexists. split_and!; [done|done|..].
  - intros fd' j. cbn [poll_index_ pollfds_ set_poll]. rewrite (Hwf fd' j).
    destruct (decide (i = j)) as [<-|Hne].
    + rewrite list_lookup_insert_eq by done. rewrite He. naive_solver.
    + by rewrite list_lookup_insert_ne.
  - intros fd'. unfold poll_interest. cbn [poll_index_ pollfds_ set_poll].
    case_decide as Hfd'.
    + subst fd'. rewrite Hi. simpl. rewrite list_lookup_insert_eq by done. simpl.
      by rewrite decode_poll_mask.
    + destruct (poll_index_ l !! fd') as [j|] eqn:Hj; simpl; [|done].
      rewrite list_lookup_insert_ne; [done|]. intros <-.
      apply Hwf in Hj as (e' & He' & ?). congruence.
Qed.

Lemma poll_add_update l fd r w : poll_add l fd r w = poll_update l fd r w.
Proof. unfold poll_add, poll_update. by destruct (poll_index_ l !! fd). Qed.

Lemma poll_wf_unique l fd i j e :
  poll_wf l → poll_index_ l !! fd = Some i → pollfds_ l !! j = Some e → pfd_fd e = fd → j = i.
Proof. intros Hwf Hi He Hfd. assert (poll_index_ l !! fd = Some j) by (apply Hwf; eauto). congruence. Qed.

(** What removal of [fd] must achieve. *)
Definition removed (l : EventLoop) (fd : Z) (l' : EventLoop) : Prop :=
  poll_wf l' ∧ backend_ l' = backend_ l ∧ ∀ e, e ∈ pollfds_ l' ↔ e ∈ pollfds_ l ∧ pfd_fd e ≠ fd.

Lemma poll_remove_last l fd :
  poll_wf l → poll_index_ l !! fd = Some (length (pollfds_ l) - 1) →
  removed l fd (set_poll l (removelast (pollfds_ l)) (delete fd (poll_index_ l))).
Proof.
  intros Hwf Hi. destruct (poll_wf_slot l fd _ Hwf Hi) as (e & He & Hfd & Hlt).
  assert (∀ i e', removelast (pollfds_ l) !! i = Some e' ↔
                  pollfds_ l !! i = Some e' ∧ pfd_fd e' ≠ fd) as Hv.
  { intros i e'. rewrite lookup_removelast. case_decide as Hlt'; split.
    - intros He'. split; [done|]. intros Hfd'. pose proof (poll_wf_unique _ _ _ _ _ Hwf Hi He' Hfd'). lia.
    - by intros [? _].
    - done.
    - intros [He' Hne]. apply lookup_lt_Some in He' as Hi'.
      assert (i = length (pollfds_ l) - 1) as -> by lia. simplify_eq. }
  split_and!; [|done|].
  - intros fd' i. cbn [poll_index_ pollfds_ set_poll]. setoid_rewrite Hv.
    rewrite lookup_delete. case_decide as Hd; [subst; naive_solver|]. rewrite (Hwf fd' i). naive_solver.
  - intros e'. cbn [pollfds_ set_poll]. rewrite !list_elem_of_lookup. setoid_rewrite Hv. naive_solver.
Qed.

Lemma poll_remove_moved l fd idx moved :
  poll_wf l → poll_index_ l !! fd = Some idx → idx ≠ length (pollfds_ l) - 1 →
  pollfds_ l !! (length (pollfds_ l) - 1) = Some moved →
  removed l fd (set_poll l (removelast (<[idx := moved]> (pollfds_ l)))
                  (delete fd (<[pfd_fd moved := idx]> (poll_index_ l)))).
Proof.
  intros Hwf Hi Hlast Hm. set (last := length (pollfds_ l) - 1) in *.
  destruct (poll_wf_slot l fd idx Hwf Hi) as (e & He & Hfd & Hlt).
  assert (pfd_fd moved ≠ fd) as Hmfd
    by (intros Hmf; pose proof (poll_wf_unique _ _ _ _ _ Hwf Hi Hm Hmf); congruence).
  assert (poll_index_ l !! pfd_fd moved = Some last) as Hmi by (apply Hwf; eauto).
  assert (∀ i e', removelast (<[idx := moved]> (pollfds_ l)) !! i = Some e' ↔
    (i = idx ∧ e' = moved) ∨ (i ≠ idx ∧ i ≠ last ∧ pollfds_ l !! i = Some e')) as Hv
    by (intros i e'; apply lookup_swap_remove; lia).
  split_and!; [|done|].
  - intros fd' i. cbn [poll_index_ pollfds_ set_poll]. setoid_rewrite Hv.
    rewrite lookup_delete. case_decide as Hd.
    { subst fd'. split; [done|]. intros (e' & [[-> ->]|(? & ? & He')] & Hfd'); [done|].
      by pose proof (poll_wf_unique _ _ _ _ _ Hwf Hi He' Hfd'). }
    rewrite lookup_insert. case_decide as Hd'.
    { subst fd'. split; [intros [= <-]; exists moved; auto|].
      intros (e' & [[-> ->]|(? & ? & He')] & Hfd'); [done|].
      by pose proof (poll_wf_unique _ _ _ _ _ Hwf Hmi He' Hfd'). }
    rewrite (Hwf fd' i). split.
    + intros (e' & He' & Hfd'). exists e'. split; [|done]. right.
      split_and!; [|intros ->; congruence|done]. intros ->. congruence.
    + intros (e' & [[-> ->]|(? & ? & He')] & Hfd'); [done|eauto].
  - intros e'. cbn [pollfds_ set_poll]. rewrite !list_elem_of_lookup. setoid_rewrite Hv. split.
    + intros [i [[-> ->]|(Hne & ? & He')]]; [eauto|]. split; [eauto|].
      intros Hfd'. by pose proof (poll_wf_unique _ _ _ _ _ Hwf Hi He' Hfd').
    + intros [[i He'] Hne]. destruct (decide (i = last)) as [->|Hnl].
      { exists idx. left. split; [done|]. congruence. }
      exists i. right. split_and!; [|done|done]. intros ->. congruence.
Qed.

(** Swap-with-last removal keeps index and vector inverse to each other. *)
Lemma poll_remove_wf l fd l' : poll_wf l → poll_remove l fd = Done l' → removed l fd l'.
Proof.
  intros Hwf. unfold poll_remove. destruct (poll_index_ l !! fd) as [idx|] eqn:Hi.
  2: { intros [= <-]. split_and!; [done..|]. intros e. split; [|by intros [? _]].
       intros Hin. split; [done|]. intros Hfd. apply list_elem_of_lookup in Hin as [i He].
       assert (poll_index_ l !! fd = Some i) by (apply Hwf; eauto). congruence. }
  destruct (poll_wf_slot l fd idx Hwf Hi) as (e & He & Hfd & Hlt).
  destruct (decide (idx = _)) as [->|Hlast]; [intros [= <-]; by apply poll_remove_last|].
  destruct (lookup_lt_is_Some_2 (pollfds_ l) (length (pollfds_ l) - 1)) as [moved Hm]; [lia|].
  rewrite Hm, He. intros [= <-]. by apply poll_remove_moved.
Qed.

Lemma poll_remove_spec l fd :
  poll_wf l →
  ∃ l', poll_remove l fd = Done l' ∧ backend_ l' = backend_ l ∧ poll_wf l'
    ∧ ∀ fd', poll_interest l' fd' = if decide (fd = fd') then None else poll_interest l fd'.
Proof.
  intros Hwf.
  assert (∃ l', poll_remove l fd = Done l') as [l' Hr].
  { unfold poll_remove. destruct (poll_index_ l !! fd) as [idx|] eqn:Hi; [|eauto].
    destruct (poll_wf_slot l fd idx Hwf Hi) as (e & He & _ & Hlt).
    case_decide; [eauto|].
    destruct (lookup_lt_is_Some_2 (pollfds_ l) (length (pollfds_ l) - 1)) as [m Hm]; [lia|].
    rewrite Hm, He. eauto. }
  destruct (poll_remove_wf l fd l' Hwf Hr) as (Hwf' & Hb & Hin).
  exists l'. split_and!; [done..|]. intros fd'. apply option_ext. intros x.
  assert (∀ l0 y, poll_wf l0 → poll_interest l0 fd' = Some y ↔
    ∃ e, e ∈ pollfds_ l0 ∧ pfd_fd e = fd' ∧ decode_mask (pfd_events e) = y) as Hent.
  { intros l0 y Hwf0. rewrite (poll_interest_entry _ _ _ Hwf0). setoid_rewrite list_elem_of_lookup.
    naive_solver. }
  rewrite (Hent l' x Hwf'). setoid_rewrite Hin. case_decide as Hd; [naive_solver|].
  rewrite (Hent l x Hwf). naive_solver.
Qed.

(** ** The kqueue back end *)

Section Kq.
Context `{!Kernel K, !KernelView K, !KernelLaws K}.

(** No change of the filters of queue [kq] fails, except that deleting a
    filter that is not there reports ENOENT.  kevent(2) may fail (ENOMEM); what
    depends on its not doing so says so. *)
Definition kq_never_fails (kq : Z) : Prop :=
  ∀ cs (k : K) n k', sys_kevent_change kq cs k = (n, k') →
    (0 ≤ n)%Z ∨ sys_errno k' = ENOENT.

(** A change call that fails in a way the code does not tolerate. *)
Definition change_fails (kq : Z) (cs : list kevent) (k : K) : Prop :=
  cs ≠ [] ∧ ((sys_kevent_change kq cs k).1 < 0)%Z ∧ sys_errno (sys_kevent_change kq cs k).2 ≠ ENOENT.

(** The change list that takes the interest of [fd] from [old] to [new]. *)
Definition changes_for (fd : Z) (old new : bool * bool) : list kevent :=
  (if Bool.eqb new.1 old.1 then [] else [kq_change fd EVFILT_READ new.1])
  ++ (if Bool.eqb new.2 old.2 then [] else [kq_change fd EVFILT_WRITE new.2]).

(** The interest of a descriptor that may be unknown. *)
Definition interest_of (l : EventLoop) (fd : Z) : bool * bool := default (false, false) (kq_interest_ l !! fd).

(** [kq_apply] by the fate of its one change call. *)
Lemma kq_apply_cases l fd r w (k : K) :
  let cs := changes_for fd (interest_of l fd) (r, w) in
  let k' := match cs with [] => k | _ => (sys_kevent_change (kq_ l) cs k).2 end in
  (change_fails (kq_ l) cs k
   ∧ kq_apply l fd r w k = (false, set_kq l (<[fd := interest_of l fd]> (kq_interest_ l)), k'))
  ∨ (¬ change_fails (kq_ l) cs k
     ∧ kq_apply l fd r w k = (true, set_kq l (<[fd := (r, w)]> (kq_interest_ l)), k')).
Proof.
  intros cs k'. unfold kq_apply, change_fails. cbv zeta. fold (interest_of l fd).
  change (_ ++ _) with cs. cbn [kq_ set_kq kq_interest_]. subst k'.
  destruct cs as [|c cs']; [right; split; [tauto|]; cbn; by rewrite insert_insert_eq|].
  destruct (sys_kevent_change (kq_ l) (c :: cs') k) as [n k1]. cbn [fst snd].
  destruct (Z.ltb_spec n 0) as [Hn|Hn]; cbn [andb].
  - case_bool_decide as He; cbn [negb]; [right; split; [tauto|]; cbn; by rewrite insert_insert_eq|].
    left. done.
  - right. split; [lia|]. cbn. by rewrite insert_insert_eq.
Qed.

Lemma kq_apply_spec l fd r w (k : K) ok l' k' :
  kq_apply l fd r w k = (ok, l', k') →
  backend_ l' = backend_ l ∧ kq_ l' = kq_ l ∧ quiet k k'
  ∧ (∀ fd', fd' ≠ fd → kq_interest_ l' !! fd' = kq_interest_ l !! fd')
  ∧ kq_interest_ l' !! fd = Some (if ok then (r, w) else interest_of l fd)
  ∧ (kq_never_fails (kq_ l) → ok = true).
Proof.
  intros Heq. set (cs := changes_for fd (interest_of l fd) (r, w)).
  assert (quiet k (match cs with [] => k | _ => (sys_kevent_change (kq_ l) cs k).2 end)) as Hq
    by (destruct cs; [done|apply law_kevent_change]).
  destruct (kq_apply_cases l fd r w k) as [[Hf H]|[Hf H]]; fold cs in Hf, H; rewrite H in Heq; injection Heq as <- <- <-;
    (split_and!; [done|done|exact Hq| |cbn; by rewrite lookup_insert_eq|]);
    [by intros fd' Hne; cbn; rewrite lookup_insert_ne| |by intros fd' Hne; cbn; rewrite lookup_insert_ne|done].
  intros Hrel. destruct Hf as (_ & Hn & He). destruct (sys_kevent_change (kq_ l) cs k) as [n k1] eqn:Hc.
  destruct (Hrel _ _ _ _ Hc); [cbn in Hn; lia|done].
Qed.

(** A registration that fails leaves an entry behind: the descriptor counts
    as known, with no interest, although the caller was told it was not added. *)
Lemma kq_apply_failure l fd r w (k : K) n k' :
  kq_interest_ l !! fd = None → r || w = true →
  sys_kevent_change (kq_ l)
    ((if r then [kq_change fd EVFILT_READ r] else []) ++ (if w then [kq_change fd EVFILT_WRITE w] else [])) k
    = (n, k') →
  (n < 0)%Z → sys_errno k' ≠ ENOENT →
  kq_apply l fd r w k = (false, set_kq l (<[fd := (false, false)]> (kq_interest_ l)), k').
Proof.
  intros Hnone Hrw Hcall Hneg Herr. unfold kq_apply. rewrite Hnone. cbn [default fst snd].
  destruct r, w; try done; cbn [Bool.eqb app kq_ set_kq] in *; rewrite Hcall, (proj2 (Z.ltb_lt n 0)) by done;
    by rewrite bool_decide_false.
Qed.

Lemma kq_remove_spec l fd (k : K) l' k' :
  kq_remove l fd k = (l', k') →
  backend_ l' = backend_ l ∧ kq_ l' = kq_ l ∧ quiet k k' ∧ kq_interest_ l' !! fd = None
  ∧ ∀ fd', fd' ≠ fd → kq_interest_ l' !! fd' = kq_interest_ l !! fd'.
Proof.
  unfold kq_remove. destruct (kq_interest_ l !! fd) as [[r w]|] eqn:Hi; [|by intros [= <- <-]].
  intros [= <- <-]. cbn. rewrite lookup_delete_eq. split_and!; [done|done| |done|].
  - destruct (_ ++ _) as [|c cs]; [done|]. apply law_kevent_change.
  - intros fd' Hfd'. by rewrite lookup_delete_ne.
Qed.

End Kq.

(** What the reported filters say about a descriptor. *)
Definition reports (fd : Z) (test : kevent → bool) (events : list kevent) : bool :=
  existsb (λ e, (ke_ident e =? fd)%Z && test e) events.

Definition says_readable (e : kevent) : bool :=
  (ke_filter e =? EVFILT_READ)%Z || negb (Z.land (ke_flags e) EV_EOF =? 0)%Z.
Definition says_writable (e : kevent) : bool := (ke_filter e =? EVFILT_WRITE)%Z.
Definition says_error (e : kevent) : bool := negb (Z.land (ke_flags e) EV_ERROR =? 0)%Z.

Definition summary (fd : Z) (events : list kevent) : Event :=
  mkEvent fd (reports fd says_readable events) (reports fd says_writable events)
    (reports fd says_error events).

Lemma summary_snoc_eq fd events e :
  ke_ident e = fd → summary fd (events ++ [e]) = kq_merge (summary fd events) e.
Proof.
  intros Hfd. unfold summary, reports, kq_merge. cbn.
  rewrite !existsb_app. cbn. rewrite Hfd, Z.eqb_refl. cbn. rewrite !orb_false_r.
  unfold says_readable, says_writable, says_error. by rewrite orb_assoc.
Qed.

Lemma summary_snoc_ne fd events e :
  ke_ident e ≠ fd → summary fd (events ++ [e]) = summary fd events.
Proof.
  intros Hfd. unfold summary, reports. rewrite !existsb_app. cbn.
  rewrite (proj2 (Z.eqb_neq _ _) Hfd). cbn. by rewrite !orb_false_r.
Qed.

(** Invariant of the coalescing loop after the events [pre]. *)
Record coalesced (pre : list kevent) (seen : gmap Z nat) (out : list Event) : Prop := {
  co_seen : ∀ fd i, seen !! fd = Some i ↔ ∃ ev, out !! i = Some ev ∧ ev_fd ev = fd;
  co_summary : ∀ ev, ev ∈ out → ev = summary (ev_fd ev) pre;
  co_fds : ∀ fd, (∃ ev, ev ∈ out ∧ ev_fd ev = fd) ↔ fd ∈ ke_ident <$> pre
}.

Lemma coalesced_seen pre seen out e i ev :
  coalesced pre seen out → seen !! ke_ident e = Some i → out !! i = Some ev →
  coalesced (pre ++ [e]) seen (<[i := kq_merge ev e]> out).
Proof.
  intros [Hs Hsum Hf] Hi Hev. apply lookup_lt_Some in Hev as Hlt.
  assert (ev_fd ev = ke_ident e) as Hfd.
  { apply Hs in Hi as (ev' & ? & ?). congruence. }
  assert (ev ∈ out) as Hin by (apply list_elem_of_lookup; eauto).
  assert (∀ j, i ≠ j → ∀ ev', out !! j = Some ev' → ev_fd ev' ≠ ke_ident e) as Hother.
  { intros j Hj ev' Hev' Heq. assert (seen !! ke_ident e = Some j) by (apply Hs; eauto).
    congruence. }
  split.
  - intros fd j. rewrite Hs. destruct (decide (i = j)) as [<-|Hne].
    + rewrite list_lookup_insert_eq by done. rewrite Hev. cbn. naive_solver.
    + by rewrite list_lookup_insert_ne.
  - intros ev' [j Hj]%list_elem_of_lookup. destruct (decide (i = j)) as [<-|Hne].
    + rewrite list_lookup_insert_eq in Hj by done. injection Hj as <-. cbn [ev_fd kq_merge].
      rewrite summary_snoc_eq by done. by rewrite <-(Hsum ev Hin).
    + rewrite list_lookup_insert_ne in Hj by done.
      rewrite summary_snoc_ne by (apply not_eq_sym; by eapply Hother).
      apply Hsum, list_elem_of_lookup. eauto.
  - intros fd. rewrite fmap_app, elem_of_app, <-Hf.
    change (ke_ident <$> [e]) with [ke_ident e]. rewrite list_elem_of_singleton. split.
    + intros (ev' & [j Hj]%list_elem_of_lookup & <-). destruct (decide (i = j)) as [<-|Hne].
      * rewrite list_lookup_insert_eq in Hj by done. injection Hj as <-. by right.
      * rewrite list_lookup_insert_ne in Hj by done. left. exists ev'.
        split; [apply list_elem_of_lookup; eauto|done].
    + assert (kq_merge ev e ∈ <[i:=kq_merge ev e]> out) as Hm.
      { apply list_elem_of_lookup. exists i. by apply list_lookup_insert_eq. }
      intros [(ev' & [j Hj]%list_elem_of_lookup & <-)| ->].
      * destruct (decide (i = j)) as [<-|Hne].
        -- rewrite Hev in Hj. injection Hj as <-. by exists (kq_merge ev e).
        -- exists ev'. split; [|done]. apply list_elem_of_lookup. exists j.
           by rewrite list_lookup_insert_ne.
      * by exists (kq_merge ev e).
Qed.

Lemma coalesced_new pre seen out fd :
  coalesced pre seen out → seen !! fd = None →
  ∀ e, ke_ident e = fd →
  coalesced (pre ++ [e]) (<[fd := length out]> seen)
    (out ++ [kq_merge (mkEvent fd false false false) e]).
Proof.
  intros [Hs Hsum Hf] Hnone e He.
  assert (∀ ev, ev ∈ out → ev_fd ev ≠ fd) as Hfresh.
  { intros ev [j Hj]%list_elem_of_lookup Heq.
    assert (seen !! fd = Some j) by (apply Hs; eauto). congruence. }
  assert (summary fd pre = mkEvent fd false false false) as Hempty.
  { assert (fd ∉ ke_ident <$> pre) as Hni.
    { rewrite <-Hf. intros (ev & Hin & Heq). by apply (Hfresh ev). }
    assert (∀ test, reports fd test pre = false) as Hrep.
    { intros test. apply not_true_iff_false. unfold reports. rewrite existsb_exists.
      intros (e' & Hin & Hand). apply andb_true_iff in Hand as [Heq%Z.eqb_eq _]. destruct Hni.
      apply list_elem_of_fmap. exists e'. split; [done|]. by apply list_elem_of_In. }
    unfold summary. by rewrite !Hrep. }
  split.
  - intros fd' i. rewrite lookup_insert. case_decide as Hd.
    + subst fd'. split.
      * intros [= <-]. eexists. split; [by apply list_lookup_middle|done].
      * intros (ev & Hev & Heq). apply lookup_app_Some in Hev as [Hev|[Hle Hev]].
        -- by destruct (Hfresh ev); [apply list_elem_of_lookup; eauto|].
        -- apply list_lookup_singleton_Some in Hev as [? _]. f_equal. lia.
    + rewrite Hs. split.
      * intros (ev & Hev & Heq). exists ev. split; [by apply lookup_app_l_Some|done].
      * intros (ev & Hev & Heq). exists ev. split; [|done].
        apply lookup_app_Some in Hev as [Hev|[Hle Hev]]; [done|].
        apply list_lookup_singleton_Some in Hev as [_ <-]. done.
  - intros ev [Hin|Hin%list_elem_of_singleton]%elem_of_app.
    + rewrite summary_snoc_ne by (rewrite He; apply not_eq_sym; by apply Hfresh). by apply Hsum.
    + subst ev. cbn [ev_fd kq_merge]. by rewrite summary_snoc_eq, Hempty.
  - intros fd'. rewrite fmap_app, elem_of_app, <-Hf.
    change (ke_ident <$> [e]) with [ke_ident e]. rewrite list_elem_of_singleton, He. split.
    + intros (ev & [Hin|Hin%list_elem_of_singleton]%elem_of_app & <-); [eauto|].
      subst ev. by right.
    + intros [(ev & Hin & <-)| ->]; [exists ev; rewrite elem_of_app; auto|].
      eexists. rewrite elem_of_app, list_elem_of_singleton. split; [by right|done].
Qed.

Lemma kq_coalesce_spec events pre seen out :
  coalesced pre seen out →
  ∃ out' seen', kq_coalesce events seen out = Done out' ∧ coalesced (pre ++ events) seen' out'.
Proof.
  revert pre seen out. induction events as [|e events IH]; intros pre seen out Hco.
  { exists out, seen. by rewrite app_nil_r. }
  cbn [kq_coalesce]. cbv zeta. replace (pre ++ e :: events) with ((pre ++ [e]) ++ events)
    by (by rewrite <-app_assoc).
  destruct (seen !! ke_ident e) as [i|] eqn:Hi.
  - assert (∃ ev, out !! i = Some ev) as [ev Hev].
    { apply (co_seen _ _ _ Hco) in Hi as (ev & ? & _). eauto. }
    rewrite Hev. apply IH. by apply coalesced_seen.
  - rewrite (list_lookup_middle out []) by done. rewrite insert_app_r_alt, Nat.sub_diag by lia.
    apply IH. by apply coalesced_new.
Qed.

(** ** Waiting *)

Lemma store_revents_lookup v revs i e :
  length revs = length v →
  store_revents v revs !! i = Some e ↔
  ∃ p, v !! i = Some p ∧ pfd_fd e = pfd_fd p ∧ pfd_events e = pfd_events p
       ∧ revs !! i = Some (pfd_revents e).
Proof.
  intros Hlen. unfold store_revents. rewrite lookup_zip_with_Some. split.
  - intros (p & r & -> & Hp & Hr). eauto.
  - intros (p & Hp & Hfd & Hev & Hr). exists p, (pfd_revents e). split_and!; [|done..].
    destruct e; simpl in *. by subst.
Qed.

Lemma store_revents_wf l revs :
  length revs = length (pollfds_ l) → poll_wf l →
  let l' := set_poll l (store_revents (pollfds_ l) revs) (poll_index_ l) in
  poll_wf l' ∧ ∀ fd, poll_interest l' fd = poll_interest l fd.
Proof.
  intros Hlen Hwf l'.
  assert (∀ i p, pollfds_ l !! i = Some p → ∃ e, pollfds_ l' !! i = Some e
            ∧ pfd_fd e = pfd_fd p ∧ pfd_events e = pfd_events p) as Hto.
  { intros i p Hp. apply lookup_lt_Some in Hp as Hlt.
    destruct (lookup_lt_is_Some_2 revs i) as [r Hr]; [lia|].
    exists (mkPollfd (pfd_fd p) (pfd_events p) r). split_and!; [|done..].
    apply store_revents_lookup; [done|]. eauto. }
  assert (poll_wf l') as Hwf'.
  { intros fd i. cbn [l' poll_index_ set_poll]. rewrite (Hwf fd i). split.
    - intros (p & Hp & Hfd). destruct (Hto i p Hp) as (e & He & Hfd' & _).
      exists e. split; [done|congruence].
    - intros (e & He & Hfd). apply store_revents_lookup in He as (p & Hp & Hfd' & _); [|done].
      exists p. split; [done|congruence]. }
  split; [done|]. intros fd. unfold poll_interest. cbn [l' poll_index_ set_poll].
  destruct (poll_index_ l !! fd) as [i|] eqn:Hi; simpl; [|done].
  destruct (poll_wf_slot l fd i Hwf Hi) as (p & Hp & _). rewrite Hp. simpl.
  destruct (Hto i p Hp) as (e & He & _ & Hev). cbn [l' pollfds_ set_poll] in He.
  rewrite He. simpl. by rewrite Hev.
Qed.

Lemma poll_wf_NoDup l : poll_wf l → NoDup (pfd_fd <$> pollfds_ l).
Proof.
  intros Hwf. apply NoDup_alt. intros i j fd Hi Hj.
  rewrite list_lookup_fmap in Hi, Hj.
  destruct (pollfds_ l !! i) as [p|] eqn:Hp; [|done].
  destruct (pollfds_ l !! j) as [p'|] eqn:Hp'; [|done]. simplify_eq/=.
  assert (poll_index_ l !! pfd_fd p = Some i) by (apply Hwf; eauto).
  assert (poll_index_ l !! pfd_fd p = Some j) by (apply Hwf; eauto). congruence.
Qed.

Section Interface.
Context `{!Kernel K, !KernelView K}.

(** What the loop promises to the server. *)
Class EventLoopI (L : Type) : Type := {
  loop_add : L → Z → bool → bool → K → outcome (bool * L * K);
  loop_update : L → Z → bool → bool → K → outcome (bool * L * K);
  loop_remove : L → Z → K → outcome (L * K);
  loop_wait : L → Z → K → outcome (Z * list Event * L * K);
  loop_backend : L → Backend;
  loop_wf : L → Prop;
  (* the back end does not fail to change interest *)
  loop_steady : L → Prop;
  loop_interest : L → Z → option (bool * bool)
}.

Class EventLoopLaws (L : Type) `{!EventLoopI L} : Prop := {
  law_loop_add (l : L) fd r w (k : K) :
    loop_wf l →
    ∃ ok l' k', loop_add l fd r w k = Done (ok, l', k') ∧ loop_wf l' ∧ quiet k k'
      ∧ (∀ fd', fd' ≠ fd → loop_interest l' fd' = loop_interest l fd')
      ∧ (ok = true → loop_interest l' fd = Some (r, w)) ∧ (loop_steady l' ↔ loop_steady l);
  law_loop_update (l : L) fd r w (k : K) :
    loop_wf l →
    ∃ ok l' k', loop_update l fd r w k = Done (ok, l', k') ∧ loop_wf l' ∧ quiet k k'
      ∧ (∀ fd', fd' ≠ fd → loop_interest l' fd' = loop_interest l fd')
      ∧ (loop_steady l → loop_interest l' fd = Some (r, w)) ∧ (loop_steady l' ↔ loop_steady l);
  law_loop_remove (l : L) fd (k : K) :
    loop_wf l →
    ∃ l' k', loop_remove l fd k = Done (l', k') ∧ loop_wf l' ∧ quiet k k'
      ∧ (∀ fd', fd' ≠ fd → loop_interest l' fd' = loop_interest l fd')
      ∧ loop_interest l' fd = None ∧ (loop_steady l' ↔ loop_steady l);
  law_loop_wait (l : L) t (k : K) :
    loop_wf l →
    ∃ n evs l' k', loop_wait l t k = Done (n, evs, l', k') ∧ loop_wf l'
      ∧ (∀ fd, loop_interest l' fd = loop_interest l fd)
      ∧ open_fds k' = open_fds k ∧ (∀ fd, sent k' fd = sent k fd ∧ received k' fd = received k fd)
      ∧ (loop_steady l' ↔ loop_steady l)
}.

End Interface.
Arguments EventLoopI K L : clear implicits.
Arguments EventLoopLaws K {_ _} L {_}.

Section Instances.
Context `{!Kernel K, !KernelView K, !KernelLaws K} {P : Platform}.

Definition event_loop_wf (l : EventLoop) : Prop :=
  match backend_ l with
  | Poll => poll_wf l
  | Kqueue => have_kqueue = true
  end.

(** Always so with poll(2). *)
Definition event_loop_steady (l : EventLoop) : Prop :=
  backend_ l = Kqueue → kq_never_fails (K := K) (kq_ l).

Lemma steady_same l l' :
  backend_ l' = backend_ l → kq_ l' = kq_ l → event_loop_steady l' ↔ event_loop_steady l.
Proof. unfold event_loop_steady. by intros -> ->. Qed.

Definition registered (l : EventLoop) (fd : Z) : option (bool * bool) :=
  match backend_ l with
  | Poll => poll_interest l fd
  | Kqueue => kq_interest_ l !! fd
  end.

#[global] Instance event_loop_i : EventLoopI K EventLoop := {
  loop_add := add;
  loop_update := update;
  loop_remove := remove;
  loop_wait := wait;
  loop_backend := backend_;
  loop_wf := event_loop_wf;
  loop_steady := event_loop_steady;
  loop_interest := registered
}.

(** The table after a successful or failed change, in both back ends. *)
Definition reg_table (m : option (bool * bool)) (ok : bool) (r w : bool) : bool * bool :=
  if ok then (r, w) else default (false, false) m.

Lemma event_loop_update l fd r w (k : K) :
  event_loop_wf l →
  ∃ ok l' k', update l fd r w k = Done (ok, l', k') ∧ event_loop_wf l' ∧ quiet k k'
    ∧ (∀ fd', fd' ≠ fd → registered l' fd' = registered l fd')
    ∧ registered l' fd = Some (reg_table (registered l fd) ok r w)
    ∧ (event_loop_steady l → ok = true) ∧ (event_loop_steady l' ↔ event_loop_steady l)
    ∧ backend_ l' = backend_ l ∧ (backend_ l = Poll → ok = true)
    ∧ (backend_ l = Kqueue →
       ok = false ↔ change_fails (kq_ l) (changes_for fd (interest_of l fd) (r, w)) k).
Proof.
  unfold event_loop_wf, registered, update, event_loop_steady. destruct (backend_ l) eqn:Hb.
  - intros Hwf. destruct (poll_update_spec l fd r w Hwf) as (l' & -> & Hb' & Hwf' & Hi).
    exists true, l', k. rewrite Hb', Hb. split_and!; try done.
    + intros fd' Hne. by rewrite Hi, decide_False.
    + by rewrite Hi, decide_True.
  - intros Hk. rewrite Hk. destruct (kq_apply l fd r w k) as [[ok l'] k'] eqn:Hap.
    destruct (kq_apply_spec _ _ _ _ _ _ _ _ Hap) as (Hb' & Hkq & Hq & Ho & Hs & Hr).
    exists ok, l', k'. rewrite Hb', Hb, Hkq. split_and!; try done; [auto|]. intros _.
    destruct (kq_apply_cases l fd r w k) as [[Hf H]|[Hf H]]; rewrite H in Hap; injection Hap as <- _ _; done.
Qed.

Lemma event_loop_remove l fd (k : K) :
  event_loop_wf l →
  ∃ l' k', remove l fd k = Done (l', k') ∧ event_loop_wf l' ∧ quiet k k'
    ∧ (∀ fd', fd' ≠ fd → registered l' fd' = registered l fd')
    ∧ registered l' fd = None ∧ (event_loop_steady l' ↔ event_loop_steady l) ∧ backend_ l' = backend_ l.
Proof.
  unfold event_loop_wf, registered, remove, event_loop_steady. destruct (backend_ l) eqn:Hb.
  - intros Hwf. destruct (poll_remove_spec l fd Hwf) as (l' & -> & Hb' & Hwf' & Hi).
    exists l', k. rewrite Hb', Hb. split_and!; try done.
    + intros fd' Hne. by rewrite Hi, decide_False.
    + by rewrite Hi, decide_True.
  - intros Hk. rewrite Hk. destruct (kq_remove l fd k) as [l' k'] eqn:Hap.
    destruct (kq_remove_spec _ _ _ _ _ Hap) as (Hb' & Hkq & Hq & Hn & Ho).
    exists l', k'. rewrite Hb', Hb, Hkq. done.
Qed.

Lemma poll_wait_spec l t (k : K) n evs l' k' :
  poll_wf l → poll_wait l t k = (n, evs, l', k') →
  backend_ l' = backend_ l ∧ poll_wf l' ∧ (∀ fd, poll_interest l' fd = poll_interest l fd)
  ∧ open_fds k' = open_fds k ∧ (∀ fd, sent k' fd = sent k fd ∧ received k' fd = received k fd)
  ∧ ((0 < n)%Z → evs = poll_event <$> filter (λ p, pfd_revents p ≠ 0%Z) (pollfds_ l')
                 ∧ n = Z.of_nat (length evs))
  ∧ ((n ≤ 0)%Z → evs = []).
Proof.
  intros Hwf. unfold poll_wait. destruct (pollfds_ l) as [|p v] eqn:Hv.
  { intros [= <- <- <- <-]. split_and!; done || lia. }
  destruct (sys_poll (p :: v) t k) as [[ready revs] k1] eqn:Hp.
  destruct (law_poll _ _ _ _ _ _ Hp) as (Ho & Hs & Hr & Hlen).
  destruct (store_revents_wf l revs) as [Hwf' Hi]; [by rewrite Hv|done|].
  rewrite Hv in Hwf', Hi.
  destruct (ready <? 0)%Z; [intros [= <- <- <- <-]; split_and!; try done; by case_decide|].
  destruct (ready =? 0)%Z; intros [= <- <- <- <-]; split_and!; try done; try lia.
  intros Hle. apply nil_length_inv. lia.
Qed.

Lemma event_loop_wait l t (k : K) :
  event_loop_wf l →
  ∃ n evs l' k', wait l t k = Done (n, evs, l', k') ∧ event_loop_wf l'
    ∧ (∀ fd, registered l' fd = registered l fd)
    ∧ open_fds k' = open_fds k ∧ (∀ fd, sent k' fd = sent k fd ∧ received k' fd = received k fd)
    ∧ (event_loop_steady l' ↔ event_loop_steady l).
Proof.
  unfold event_loop_wf, registered, wait, event_loop_steady. destruct (backend_ l) eqn:Hb.
  - intros Hwf. destruct (poll_wait l t k) as [[[n evs] l'] k'] eqn:Hw.
    destruct (poll_wait_spec _ _ _ _ _ _ _ Hwf Hw) as (Hb' & ? & ? & ? & ? & _).
    exists n, evs, l', k'. rewrite Hb', Hb. done.
  - intros Hk. rewrite Hk. unfold kq_wait. case_decide as He.
    { exists 0%Z, [], l, k. by rewrite Hb. }
    destruct (sys_kevent_wait _ _ _ k) as [[ready events] k1] eqn:Hw.
    destruct (law_kevent_wait _ _ _ _ _ _ _ Hw) as (Ho & Hs & Hr & _).
    destruct (ready <? 0)%Z; [eexists _, [], l, k1; by rewrite Hb|].
    destruct (kq_coalesce_spec events [] ∅ []) as (out & seen & -> & _).
    { split; [|set_solver|set_solver]. intros fd i. rewrite lookup_empty. set_solver. }
    eexists _, out, l, k1. by rewrite Hb.
Qed.

Lemma add_update l fd r w (k : K) : add l fd r w k = update l fd r w k.
Proof. unfold add, update. by rewrite poll_add_update. Qed.

#[global] Instance event_loop_laws : EventLoopLaws K EventLoop.
Proof.
  split.
  - intros l fd r w k Hwf. change (loop_add (L := EventLoop)) with (add (K := K)). rewrite add_update.
    destruct (event_loop_update l fd r w k Hwf) as (ok & l' & k' & ? & ? & ? & ? & Hreg & ? & ? & _).
    exists ok, l', k'. split_and!; try done. by intros ->.
  - intros l fd r w k Hwf.
    destruct (event_loop_update l fd r w k Hwf) as (ok & l' & k' & ? & ? & ? & ? & Hreg & Hok & ? & _).
    exists ok, l', k'. split_and!; try done. intros Hs. cbn [loop_interest event_loop_i]. by rewrite Hreg, (Hok Hs).
  - intros l fd k Hwf. destruct (event_loop_remove l fd k Hwf) as (l' & k' & ? & ? & ? & ? & ? & ? & _).
    by exists l', k'.
  - apply event_loop_wait.
Qed.

End Instances.

(** ** Registration as a finite map *)

Inductive reg_op : Type :=
| RegAdd (fd : Z) (r w : bool)
| RegUpdate (fd : Z) (r w : bool)
| RegRemove (fd : Z).

(** An operation with the answer of the loop.  A refused registration leaves
    the interest of the descriptor as it was, and the descriptor known. *)
Definition spec_reg (m : gmap Z (bool * bool)) (op : reg_op * bool) : gmap Z (bool * bool) :=
  match op with
  | (RegAdd fd r w, ok) | (RegUpdate fd r w, ok) =>
      <[fd := if ok then (r, w) else default (false, false) (m !! fd)]> m
  | (RegRemove fd, _) => delete fd m
  end.

Section Runs.
Context `{!Kernel K, !KernelView K, !KernelLaws K} {P : Platform}.

Definition run_reg (s : EventLoop * K) (op : reg_op) : outcome (bool * (EventLoop * K)) :=
  let '(l, k) := s in
  match op with
  | RegAdd fd r w => obind (add l fd r w k) (λ '(ok, l, k), Done (ok, (l, k)))
  | RegUpdate fd r w => obind (update l fd r w k) (λ '(ok, l, k), Done (ok, (l, k)))
  | RegRemove fd => obind (remove l fd k) (λ '(l, k), Done (true, (l, k)))
  end.

Fixpoint run_regs (s : EventLoop * K) (ops : list reg_op) : outcome (list bool * (EventLoop * K)) :=
  match ops with
  | [] => Done ([], s)
  | op :: ops' =>
      obind (run_reg s op) (λ '(ok, s'), obind (run_regs s' ops') (λ '(oks, s''), Done (ok :: oks, s'')))
  end.

Lemma run_reg_spec l k (m : gmap Z (bool * bool)) op :
  event_loop_wf l → (∀ fd, registered l fd = m !! fd) →
  ∃ ok l' k', run_reg (l, k) op = Done (ok, (l', k')) ∧ event_loop_wf l'
    ∧ (∀ fd, registered l' fd = spec_reg m (op, ok) !! fd)
    ∧ (event_loop_steady (K := K) l → ok = true) ∧ (event_loop_steady (K := K) l' ↔ event_loop_steady (K := K) l).
Proof.
  intros Hwf Hm.
  assert (∀ fd r w, ∃ ok l' k', obind (update l fd r w k) (λ '(ok, l, k), Done (ok, (l, k))) = Done (ok, (l', k'))
    ∧ event_loop_wf l'
    ∧ (∀ fd', registered l' fd' = <[fd := if ok then (r, w) else default (false, false) (m !! fd)]> m !! fd')
    ∧ (event_loop_steady (K := K) l → ok = true)
    ∧ (event_loop_steady (K := K) l' ↔ event_loop_steady (K := K) l)) as Hup.
  { intros fd r w.
    destruct (event_loop_update l fd r w k Hwf) as (ok & l' & k' & -> & Hwf' & _ & Ho & Hs & Hok & Hst & _).
    exists ok, l', k'. split_and!; try done. intros fd'. rewrite lookup_insert.
    case_decide; [subst; rewrite Hs, Hm; by destruct ok|]. rewrite Ho by done. apply Hm. }
  destruct op as [fd r w|fd r w|fd]; cbn [run_reg spec_reg].
  - rewrite add_update. apply Hup.
  - apply Hup.
  - destruct (event_loop_remove l fd k Hwf) as (l' & k' & -> & Hwf' & _ & Ho & Hs & Hst & _).
    exists true, l', k'. split_and!; try done. intros fd'. rewrite lookup_delete.
    case_decide; [by subst|]. rewrite Ho by done. apply Hm.
Qed.

Lemma registered_size l (m : gmap Z (bool * bool)) :
  event_loop_wf l → (∀ fd, registered l fd = m !! fd) → loop_size l = base.size m.
Proof.
  unfold event_loop_wf, registered, loop_size. destruct (backend_ l).
  - intros Hwf Hm. rewrite <-size_dom.
    replace (dom m) with (list_to_set (C := gset Z) (pfd_fd <$> pollfds_ l)).
    { rewrite size_list_to_set by (by apply poll_wf_NoDup). by rewrite length_fmap. }
    apply set_eq. intros fd. rewrite elem_of_list_to_set, elem_of_dom, <-Hm, list_elem_of_fmap.
    split.
    + intros (p & -> & [i Hp]%list_elem_of_lookup). eexists. apply poll_interest_entry; eauto.
    + intros [x Hx]. apply poll_interest_entry in Hx as (i & e & He & Hfd & _); [|done].
      exists e. split; [done|]. apply list_elem_of_lookup. eauto.
  - intros _ Hm. f_equal. by apply map_eq.
Qed.

Lemma run_regs_spec l k (m : gmap Z (bool * bool)) ops :
  event_loop_wf l → (∀ fd, registered l fd = m !! fd) →
  ∃ oks l' k', run_regs (l, k) ops = Done (oks, (l', k')) ∧ length oks = length ops ∧ event_loop_wf l'
    ∧ (∀ fd, registered l' fd = fold_left spec_reg (zip ops oks) m !! fd)
    ∧ (event_loop_steady (K := K) l → Forall (λ ok, ok = true) oks).
Proof.
  revert l k m. induction ops as [|op ops IH]; intros l k m Hwf Hm.
  { by exists [], l, k. }
  destruct (run_reg_spec l k m op Hwf Hm) as (ok & l1 & k1 & H1 & Hwf1 & Hm1 & Hok & Hst).
  destruct (IH l1 k1 _ Hwf1 Hm1) as (oks & l' & k' & H2 & Hlen & Hwf2 & Hm2 & Hoks).
  exists (ok :: oks), l', k'. cbn [run_regs]. rewrite H1. cbn [obind]. rewrite H2. cbn.
  split_and!; try done; [lia|]. intros Hs. constructor; tauto.
Qed.

(** A new loop is well formed and has nothing registered. *)
Lemma new_loop_wf backend (k k1 : K) l :
  new_loop backend k = (l, k1) → event_loop_wf l ∧ ∀ fd, registered l fd = None.
Proof.
  intros Hnew. unfold new_loop in Hnew. unfold event_loop_wf, registered.
  assert (poll_wf (mkLoop Poll [] ∅ (-1) ∅)) as Hp.
  { intros fd i. cbn. rewrite lookup_empty. set_solver. }
  destruct have_kqueue eqn:Hk; [destruct backend; [|destruct (sys_kqueue k) as [kq k2];
    destruct (kq <? 0)%Z]|]; injection Hnew as <- <-; cbn; split; done.
Qed.

(** C30: refinement: on either back end and whatever the kernel answers, any
    sequence of [add], [update] and [remove] from a new loop runs without an
    out-of-range vector access, and the registered interest is that of a
    finite map: an accepted registration inserts, a refused one leaves the
    interest of the descriptor as it was (but the descriptor known), a removal
    deletes; the number of entries is the number of registered descriptors, so
    the swap-with-last removal never leaves a stale or duplicate entry.  With
    poll(2) every registration is accepted; with kqueue(2) every one is if no
    change call on the queue fails. *)
Theorem loop_refines_map backend (k : K) ops :
  let '(l, k1) := new_loop backend k in
  ∃ oks l' k', run_regs (l, k1) ops = Done (oks, (l', k')) ∧ length oks = length ops
    ∧ (∀ fd, registered l' fd = fold_left spec_reg (zip ops oks) ∅ !! fd)
    ∧ loop_size l' = base.size (fold_left spec_reg (zip ops oks) ∅)
    ∧ (backend_ l = Poll ∨ kq_never_fails (K := K) (kq_ l) → Forall (λ ok, ok = true) oks).
Proof.
  destruct (new_loop backend k) as [l k1] eqn:Hnew.
  destruct (new_loop_wf _ _ _ _ Hnew) as [Hwf Hm].
  destruct (run_regs_spec l k1 ∅ ops Hwf) as (oks & l' & k' & Hrun & Hlen & Hwf' & Hm' & Hoks);
    [intros fd; by rewrite lookup_empty|].
  exists oks, l', k'. split_and!; [done|done|done|by apply registered_size|]. intros Hs. apply Hoks.
  intros Hk. destruct Hs; [congruence|done].
Qed.

End Runs.

(** *** What [poll_wait] reports *)

Lemma land_pow2 r n : (0 ≤ n)%Z → negb (Z.land r (2 ^ n) =? 0)%Z = Z.testbit r n.
Proof.
  intros Hn. assert (Z.land r (2 ^ n) = if Z.testbit r n then 2 ^ n else 0)%Z as ->.
  { apply Z.bits_inj'. intros m Hm. rewrite Z.land_spec, Z.pow2_bits_eqb by done.
    destruct (Z.eqb_spec n m) as [->|Hne].
    - destruct (Z.testbit r m); [by rewrite Z.pow2_bits_true|by rewrite Z.bits_0].
    - rewrite andb_false_r. destruct (Z.testbit r n); [by rewrite Z.pow2_bits_false by lia|by rewrite Z.bits_0]. }
  pose proof (Z.pow_pos_nonneg 2 n). destruct (Z.testbit r n); [|done].
  by rewrite (proj2 (Z.eqb_neq _ _)) by lia.
Qed.

Lemma land_lor_nonzero r a b :
  negb (Z.land r (Z.lor a b) =? 0)%Z = negb (Z.land r a =? 0)%Z || negb (Z.land r b =? 0)%Z.
Proof.
  rewrite Z.land_lor_distr_r, <-negb_andb. f_equal. apply eq_true_iff_eq.
  by rewrite andb_true_iff, !Z.eqb_eq, Z.lor_eq_0_iff.
Qed.

(** What the bits of [revents] say of a descriptor: bit 0 is POLLIN, 2 POLLOUT,
    3 POLLERR, 4 POLLHUP and 5 POLLNVAL. *)
Definition decoded (fd r : Z) : Event :=
  mkEvent fd (Z.testbit r 0 || Z.testbit r 4) (Z.testbit r 2) (Z.testbit r 3 || Z.testbit r 5).

Lemma poll_event_decoded p : poll_event p = decoded (pfd_fd p) (pfd_revents p).
Proof.
  unfold poll_event, decoded. rewrite !land_lor_nonzero.
  by rewrite <-!land_pow2 by lia.
Qed.

Section Waiting.
Context `{!Kernel K, !KernelView K, !KernelLaws K}.

Lemma poll_wait_once l t (k : K) :
  poll_wf l → pollfds_ l ≠ [] →
  let '(ready, revs, k1) := sys_poll (pollfds_ l) t k in
  ∃ n evs l', poll_wait l t k = (n, evs, l', k1)
    ∧ (∀ fd, poll_interest l' fd = poll_interest l fd)
    ∧ if (ready <? 0)%Z then evs = [] ∧ n = (if decide (sys_errno k1 = EINTR) then 0 else -1)%Z
      else if (ready =? 0)%Z then evs = [] ∧ n = 0%Z
      else n = Z.of_nat (length evs) ∧ NoDup (ev_fd <$> evs)
           ∧ (∀ ev, ev ∈ evs ↔ ∃ i p r, pollfds_ l !! i = Some p ∧ revs !! i = Some r ∧ r ≠ 0%Z
                                         ∧ ev = decoded (pfd_fd p) r)
           ∧ ∀ ev, ev ∈ evs → is_Some (poll_interest l (ev_fd ev)).
Proof.
  intros Hwf Hne. destruct (sys_poll (pollfds_ l) t k) as [[ready revs] k1] eqn:Hp.
  destruct (law_poll _ _ _ _ _ _ Hp) as (_ & _ & _ & Hlen).
  destruct (store_revents_wf l revs Hlen Hwf) as [Hwf' Hi]. cbv zeta in Hwf', Hi.
  unfold poll_wait. destruct (pollfds_ l) as [|p0 v] eqn:Hv; [done|]. rewrite Hp. rewrite <-Hv in *.
  destruct (ready <? 0)%Z; [by eexists _, _, _|]. destruct (ready =? 0)%Z; [by eexists _, _, _|].
  eexists _, _, _. split; [done|]. split; [done|].
  set (v' := store_revents (pollfds_ l) revs) in *. set (l' := set_poll l v' (poll_index_ l)) in *.
  assert (∀ ev, ev ∈ poll_event <$> filter (λ p, pfd_revents p ≠ 0%Z) v' ↔
    ∃ i p r, pollfds_ l !! i = Some p ∧ revs !! i = Some r ∧ r ≠ 0%Z ∧ ev = decoded (pfd_fd p) r) as Hin.
  { intros ev. rewrite list_elem_of_fmap. setoid_rewrite list_elem_of_filter. setoid_rewrite list_elem_of_lookup.
    pose proof (λ i e, store_revents_lookup (pollfds_ l) revs i e Hlen) as Hst. fold v' in Hst. split.
    - intros (e & -> & He & i & (p & Hpi & Hfd & _ & Hr)%Hst). exists i, p, (pfd_revents e).
      by rewrite poll_event_decoded, Hfd.
    - intros (i & p & r & Hpi & Hr & Hnz & ->). exists (mkPollfd (pfd_fd p) (pfd_events p) r).
      rewrite poll_event_decoded. cbn. split_and!; [done..|]. exists i. apply Hst. by exists p. }
  split_and!; [done| |exact Hin|].
  - rewrite <-list_fmap_compose. change (ev_fd ∘ poll_event) with pfd_fd.
    eapply sublist_NoDup; [apply (poll_wf_NoDup l' Hwf')|]. apply fmap_sublist, filter_sublist.
  - intros ev (i & p & r & Hpi & _ & _ & ->)%Hin. eexists. apply poll_interest_entry; [done|]. by exists i, p.
Qed.

(** *** What [kq_wait] reports

    The result of coalescing has at
    most one event per descriptor, an event for every reported descriptor,
    and that event is readable iff a read filter or an EOF was reported for
    the descriptor, writable iff a write filter was, and a hangup iff an
    error flag was; the slot table never leads outside the vector. *)
Lemma kq_coalesce_once events :
  ∃ out, kq_coalesce events ∅ [] = Done out
    ∧ NoDup (ev_fd <$> out)
    ∧ (∀ ev, ev ∈ out → ev = summary (ev_fd ev) events)
    ∧ ∀ fd, fd ∈ ev_fd <$> out ↔ fd ∈ ke_ident <$> events.
Proof.
  destruct (kq_coalesce_spec events [] ∅ []) as (out & seen & Hrun & [Hs Hsum Hf]).
  { split; [|set_solver|set_solver]. intros fd i. rewrite lookup_empty. set_solver. }
  exists out. split_and!; [done| |done|].
  - apply NoDup_alt. intros i j fd Hi Hj. rewrite list_lookup_fmap in Hi, Hj.
    destruct (out !! i) as [ev|] eqn:Hevi; [|done].
    destruct (out !! j) as [ev'|] eqn:Hevj; [|done]. simplify_eq/=.
    assert (seen !! ev_fd ev = Some i) by (apply Hs; eauto).
    assert (seen !! ev_fd ev = Some j) by (apply Hs; eauto). congruence.
  - intros fd. rewrite <-Hf, list_elem_of_fmap. naive_solver.
Qed.

Lemma kq_wait_once l t (k : K) :
  kq_interest_ l ≠ ∅ →
  let timeout := if (0 <=? t)%Z then Some (t `quot` 1000, t `rem` 1000 * 1000000)%Z else None in
  let '(ready, events, k1) :=
    sys_kevent_wait (kq_ l) (Z.of_nat (base.size (kq_interest_ l)) * 2 + 8) timeout k in
  if (ready <? 0)%Z
  then kq_wait l t k = Done ((if decide (sys_errno k1 = EINTR) then 0 else -1)%Z, [], l, k1)
  else ∃ out, kq_wait l t k = Done (Z.of_nat (length out), out, l, k1)
    ∧ NoDup (ev_fd <$> out)
    ∧ (∀ ev, ev ∈ out → ev = summary (ev_fd ev) events)
    ∧ ∀ fd, fd ∈ ev_fd <$> out ↔ fd ∈ ke_ident <$> events.
Proof.
  intros Hne timeout. destruct (sys_kevent_wait _ _ _ k) as [[ready events] k1] eqn:Hw.
  unfold kq_wait. rewrite decide_False by done. cbv zeta. fold timeout. rewrite Hw.
  destruct (ready <? 0)%Z; [done|]. destruct (kq_coalesce_once events) as (out & -> & Hout). by exists out.
Qed.

End Waiting.


(** ** The mirror of the kernel's filters *)

Section Mirror.
Context `{!Kernel K}.

(** The filters registered with the kernel, and kevent(2)'s documented effect
    on them: changes are applied in order; deleting a filter that is not
    registered is the only cause of ENOENT. *)
Class KqueueLaws (filters : K → gset (Z * Z)) : Prop := {
  kqlaw_ok kq cs k n k' :
    sys_kevent_change kq cs k = (n, k') → (0 ≤ n)%Z → filters k' = apply_changes cs (filters k);
  kqlaw_enoent kq cs k n k' :
    sys_kevent_change kq cs k = (n, k') → (n < 0)%Z → sys_errno k' = ENOENT →
    ∃ pre c suf, cs = pre ++ c :: suf ∧ ke_flags c = EV_DELETE
      ∧ (ke_ident c, ke_filter c) ∉ apply_changes pre (filters k)
}.

Context (filters : K → gset (Z * Z)) `{!KqueueLaws filters}.

Definition kq_mirror (l : EventLoop) (k : K) : Prop :=
  ∀ fd, ((fd, EVFILT_READ) ∈ filters k ↔ (default (false, false) (kq_interest_ l !! fd)).1 = true)
      ∧ ((fd, EVFILT_WRITE) ∈ filters k ↔ (default (false, false) (kq_interest_ l !! fd)).2 = true).

Lemma changes_no_enoent l k fd new pre c suf :
  kq_mirror l k →
  changes_for fd (default (false, false) (kq_interest_ l !! fd)) new = pre ++ c :: suf →
  ke_flags c = EV_DELETE →
  (ke_ident c, ke_filter c) ∈ apply_changes pre (filters k).
Proof.
  intros Hm. destruct (Hm fd) as [Hr Hw].
  destruct (default (false, false) (kq_interest_ l !! fd)) as [ir iw], new as [r w].
  unfold changes_for. cbn [fst snd] in *.
  assert ((fd, EVFILT_WRITE) ≠ (fd, EVFILT_READ)) by done.
  destruct r, ir, w, iw; cbn [Bool.eqb app]; destruct pre as [|c1 [|c2 pre]]; cbn; intros Heq Hd;
    try (destruct pre; discriminate); simplify_eq/=; try discriminate;
    unfold apply_changes, apply_change; cbn; repeat case_decide; try discriminate; set_solver.
Qed.

Lemma changes_filters fd old new fs :
  let fs' := apply_changes (changes_for fd old new) fs in
  ((fd, EVFILT_READ) ∈ fs ↔ old.1 = true) → ((fd, EVFILT_WRITE) ∈ fs ↔ old.2 = true) →
  ((fd, EVFILT_READ) ∈ fs' ↔ new.1 = true) ∧ ((fd, EVFILT_WRITE) ∈ fs' ↔ new.2 = true)
  ∧ ∀ fd' f, fd' ≠ fd → (fd', f) ∈ fs' ↔ (fd', f) ∈ fs.
Proof.
  destruct old as [ir iw], new as [r w]. cbn zeta. unfold changes_for. cbn [fst snd].
  intros Hr Hw. assert ((fd, EVFILT_WRITE) ≠ (fd, EVFILT_READ)) by done.
  destruct r, ir, w, iw; cbn [Bool.eqb app]; unfold apply_changes, apply_change;
    cbn [fold_left ke_flags ke_ident ke_filter kq_change];
    rewrite ?(decide_True (P := EV_ADD = EV_ADD)), ?(decide_False (P := EV_DELETE = EV_ADD)) by done;
    (split_and!; [set_solver|set_solver|]); intros fd' f Hne;
    assert (∀ g, (fd', f) ≠ (fd, g)) by congruence; set_solver.
Qed.

(** Under the mirror no change the loop asks for can meet a missing filter. *)
Lemma mirror_no_enoent l k fd new :
  kq_mirror l k →
  let call := sys_kevent_change (kq_ l) (changes_for fd (interest_of l fd) new) k in
  (call.1 < 0)%Z → sys_errno call.2 ≠ ENOENT.
Proof.
  intros Hm call Hn He. destruct call as [n k'] eqn:Hc.
  destruct (kqlaw_enoent _ _ _ _ _ Hc Hn He) as (pre & c & suf & Heq & Hd & Hni).
  destruct Hni. by eapply changes_no_enoent.
Qed.

Lemma mirror_after l k fd new k' m :
  kq_mirror l k →
  filters k' = apply_changes (changes_for fd (default (false, false) (kq_interest_ l !! fd)) new)
                 (filters k) →
  (default (false, false) (m !! fd)) = new →
  (∀ fd', fd' ≠ fd → m !! fd' = kq_interest_ l !! fd') →
  kq_mirror (set_kq l m) k'.
Proof.
  intros Hm Hf Hnew Hother fd'. destruct (Hm fd) as [Hr Hw].
  destruct (changes_filters fd _ new _ Hr Hw) as (H1 & H2 & H3).
  rewrite <-Hf in H1, H2, H3. cbn [kq_interest_ set_kq].
  destruct (decide (fd' = fd)) as [->|Hne]; [by rewrite Hnew|].
  rewrite !H3 by done. rewrite Hother by done. apply Hm.
Qed.

(** The filters once a change list has been submitted successfully; an empty
    one is not submitted. *)
Lemma filters_after kq cs k :
  cs = [] ∨ (0 ≤ (sys_kevent_change kq cs k).1)%Z →
  filters (match cs with [] => k | _ => (sys_kevent_change kq cs k).2 end) = apply_changes cs (filters k).
Proof.
  destruct cs as [|c cs]; [done|]. intros [?|Hn]; [done|].
  destruct (sys_kevent_change kq (c :: cs) k) as [n k'] eqn:Hc. by apply (kqlaw_ok _ _ _ _ _ Hc).
Qed.

Lemma kq_remove_changes l fd k :
  let cs := changes_for fd (interest_of l fd) (false, false) in
  kq_remove l fd k = (set_kq l (delete fd (kq_interest_ l)),
                      match cs with [] => k | _ => (sys_kevent_change (kq_ l) cs k).2 end).
Proof.
  unfold kq_remove, interest_of. destruct (kq_interest_ l !! fd) as [[ir iw]|] eqn:Hi.
  - by destruct ir, iw.
  - cbn. rewrite delete_id by done. by destruct l.
Qed.

(** C31: kqueue mirror: while [kq_interest_] equals the filters registered with
    the kernel, the ENOENT case that [kq_apply] tolerates and [kq_remove]
    ignores never arises: a change call either of them makes may fail, but not
    for a missing filter.  [kq_apply] succeeds exactly when it has nothing to
    change or its call succeeds, and the mirror holds again afterwards; after
    [kq_remove] it holds if there was nothing to delete or the call
    succeeded.  (After a call that fails the kernel may have taken part of the
    change list.) *)
Theorem kq_mirror_kept l fd r w (k : K) :
  kq_mirror l k →
  let on := changes_for fd (interest_of l fd) (r, w) in
  let off := changes_for fd (interest_of l fd) (false, false) in
  (((sys_kevent_change (kq_ l) on k).1 < 0)%Z → sys_errno (sys_kevent_change (kq_ l) on k).2 ≠ ENOENT)
  ∧ (((sys_kevent_change (kq_ l) off k).1 < 0)%Z → sys_errno (sys_kevent_change (kq_ l) off k).2 ≠ ENOENT)
  ∧ (let '(ok, l', k') := kq_apply l fd r w k in
     (ok = true ↔ on = [] ∨ (0 ≤ (sys_kevent_change (kq_ l) on k).1)%Z)
     ∧ (ok = true → kq_mirror l' k'))
  ∧ (off = [] ∨ (0 ≤ (sys_kevent_change (kq_ l) off k).1)%Z →
     let '(l', k') := kq_remove l fd k in kq_mirror l' k').
Proof.
  intros Hm on off. pose proof (mirror_no_enoent l k fd (r, w) Hm) as Hon.
  split; [exact Hon|]. split; [by apply mirror_no_enoent|]. split.
  - assert (change_fails (kq_ l) on k ↔ ¬ (on = [] ∨ (0 ≤ (sys_kevent_change (kq_ l) on k).1)%Z)) as Hiff.
    { unfold change_fails. split; [intros (? & ? & _) [|]; [done|lia]|]. intros Hn.
      assert ((sys_kevent_change (kq_ l) on k).1 < 0)%Z by (destruct (decide (0 ≤ (sys_kevent_change (kq_ l) on k).1)%Z); [tauto|lia]).
      split_and!; [tauto|done|by apply Hon]. }
    assert (Decision (on = [] ∨ (0 ≤ (sys_kevent_change (kq_ l) on k).1)%Z)) as Hdec by apply _.
    destruct (kq_apply_cases l fd r w k) as [[Hf ->]|[Hf ->]]; fold on in Hf |- *.
    + apply Hiff in Hf. done.
    + rewrite Hiff in Hf. apply dec_stable in Hf. split; [done|]. intros _.
      apply (mirror_after l k fd (r, w)); [done|by apply filters_after|by rewrite lookup_insert_eq|].
      intros fd' Hne. by rewrite lookup_insert_ne.
  - intros Hoff. rewrite kq_remove_changes. fold off.
    apply (mirror_after l k fd (false, false)); [done|by apply filters_after|by rewrite lookup_delete_eq|].
    intros fd' Hne. by rewrite lookup_delete_ne.
Qed.

End Mirror.

(** ** The scripted kernel has such a kqueue *)

Lemma script_changes_spec cs fs ok fs' :
  script_changes cs fs = (ok, fs') →
  if ok then fs' = apply_changes cs fs
  else ∃ pre c suf, cs = pre ++ c :: suf ∧ ke_flags c = EV_DELETE
         ∧ (ke_ident c, ke_filter c) ∉ apply_changes pre fs.
Proof.
  revert fs. induction cs as [|c cs IH]; intros fs; cbn [script_changes]; [by intros [= <- <-]|].
  case_decide as Hd.
  - intros [= <- <-]. exists [], c, cs. destruct Hd. done.
  - intros Hrec. specialize (IH _ Hrec). destruct ok; [done|].
    destruct IH as (pre & c' & suf & -> & Hdel & Hni). by exists (c :: pre), c', suf.
Qed.

Lemma script_reliable kq : kq_never_fails (K := Script) kq.
Proof.
  intros cs k n k'. unfold sys_kevent_change; cbn [script_kernel]. unfold script_kevent_change.
  destruct (script_changes cs (sc_filters k)) as [[] fs]; intros [= <- <-]; [left; lia|by right].
Qed.

#[global] Instance script_kqueue : KqueueLaws sc_filters.
Proof.
  split; intros kq cs k n k'; unfold sys_kevent_change; cbn [script_kernel];
    unfold script_kevent_change;
    destruct (script_changes cs (sc_filters k)) as [ok fs] eqn:Hs; apply script_changes_spec in Hs;
    destruct ok; intros [= <- <-]; try done; lia.
Qed.

Definition idle_script : Script :=
  mkScript EAGAIN {[4%Z]} ∅ [] [] [] [] [] 0 [] ∅.

Lemma loop_refines_map_witness :
  let '(l, k1) := new_loop (P := true) Kqueue idle_script in
  backend_ l = Kqueue ∧ ∃ l' k', run_regs (P := true) (l, k1)
      [RegAdd 4 true false; RegAdd 5 true false; RegAdd 6 true true; RegUpdate 5 false true;
       RegRemove 4] = Done ([true; true; true; true; true], (l', k'))
    ∧ registered l' 5 = Some (false, true) ∧ registered l' 4 = None ∧ loop_size l' = 2.
Proof.
  pose proof (loop_refines_map (P := true) Kqueue idle_script
      [RegAdd 4 true false; RegAdd 5 true false; RegAdd 6 true true; RegUpdate 5 false true;
       RegRemove 4]) as H.
  destruct (new_loop (P := true) Kqueue idle_script) as [l k1] eqn:Hnew.
  destruct H as (oks & l' & k' & Hrun & Hlen & Hreg & Hsize & Hoks).
  specialize (Hoks (or_intror (script_reliable _))).
  assert (oks = [true; true; true; true; true]) as ->.
  { destruct oks as [|? [|? [|? [|? [|? [|]]]]]]; try discriminate.
    repeat (apply Forall_cons in Hoks as [-> Hoks]). reflexivity. }
  split; [vm_compute in Hnew; by injection Hnew as <- <-|].
  exists l', k'. split; [exact Hrun|]. rewrite !Hreg, Hsize. vm_compute. auto.
Defined.

Definition demo_loop : EventLoop :=
  mkLoop Poll [mkPollfd 4 1 0; mkPollfd 5 5 0] {[4%Z := 0; 5%Z := 1]} (-1) ∅.

Lemma demo_loop_wf : poll_wf demo_loop.
Proof.
  intros fd i. cbn [demo_loop poll_index_ pollfds_].
  destruct (decide (fd = 4%Z)) as [->|H4]; [|destruct (decide (fd = 5%Z)) as [->|H5]].
  - change ({[4%Z := 0; 5%Z := 1]} !! 4%Z) with (Some 0).
    destruct i as [|[|i]]; cbn; split; naive_solver.
  - change ({[4%Z := 0; 5%Z := 1]} !! 5%Z) with (Some 1).
    destruct i as [|[|i]]; cbn; split; naive_solver.
  - rewrite lookup_insert_ne, lookup_singleton_ne by done.
    destruct i as [|[|i]]; cbn; split; naive_solver.
Qed.


Lemma kq_mirror_kept_witness :
  let l := mkLoop Kqueue [] ∅ 3 {[5%Z := (true, false)]} in
  let k := mkScript EAGAIN ∅ ∅ [] [] [] [] [] 0 [] {[(5%Z, EVFILT_READ)]} in
  let '(ok, l', k') := kq_apply l 5 false true k in ok = true ∧ kq_mirror sc_filters l' k'.
Proof.
  intros l k. assert (kq_mirror sc_filters l k) as Hm.
  { intros fd. cbn [kq_interest_ l k sc_filters].
    destruct (decide (fd = 5%Z)) as [->|Hne].
    - change (default (false, false) ({[5%Z := (true, false)]} !! 5%Z)) with (true, false).
      split; [set_solver|]. split; [|done].
      intros H. apply elem_of_singleton in H. discriminate H.
    - rewrite lookup_singleton_ne by done. cbn.
      split; (split; [|done]); intros H; apply elem_of_singleton in H; congruence. }
  destruct (kq_mirror_kept sc_filters l 5 false true k Hm) as (_ & _ & H & _).
  destruct (kq_apply l 5 false true k) as [[ok l'] k'] eqn:Hk. destruct H as [_ H].
  assert (ok = true) as Hok by (vm_compute in Hk; congruence). auto.
Defined.
