(* ===== verification/SocketUtils.v ===== *)
(** * SocketUtils: sockets and their options (src/network/socket_utils.{hpp,cpp})

    Options of connected sockets, and the creation of listening and connected
    sockets with their error paths.  The calls that only these functions make
    (socket, bind, listen, connect, name resolution, resource limits) are a
    class of their own, [SocketCalls], with [SocketLaws] as the documented
    behaviour. *)

From S2P Require Import Prelude CxxString Kernel EventLoop.

(** Byte order of ports on a little-endian machine. *)
Definition ntohs (p : Z) : Z := Z.lor (Z.shiftl (Z.land p 255) 8) (Z.shiftr p 8).

(** [htons(static_cast<uint16_t>(port))] *)
Definition htons (port : Z) : Z := ntohs (port `mod` 65536).

Class SocketCalls (K : Type) : Type := {
  (* socket(AF_INET, SOCK_STREAM, 0) *)
  sys_socket : K → Z * K;
  sys_bind : Z → sockaddr → K → Z * K;
  sys_listen : Z → Z → K → Z * K;
  sys_connect : Z → sockaddr → K → Z * K;
  (* the address of a dotted quad *)
  sys_inet_pton : bytes → option Z;
  (* the return code and the address of the first result, if any *)
  sys_getaddrinfo : bytes → K → Z * option Z * K;
  sys_gai_strerror : Z → bytes;
  sys_getpeername : Z → K → Z * sockaddr * K;
  (* the return code and the soft and hard limit *)
  sys_getrlimit : K → Z * Z * Z * K;
  sys_setrlimit : Z → Z → K → Z * K
}.

Class SocketLaws (K : Type) `{!Kernel K, !KernelView K, !SocketCalls K} : Prop := {
  law_socket k n k' :
    sys_socket k = (n, k') → newly_opened k n k';
  law_bind fd addr k : quiet k (sys_bind fd addr k).2;
  law_listen fd backlog k : quiet k (sys_listen fd backlog k).2;
  law_connect fd addr k : quiet k (sys_connect fd addr k).2;
  law_getaddrinfo host k : quiet k (sys_getaddrinfo host k).2;
  law_getrlimit k : quiet k (sys_getrlimit k).2;
  law_setrlimit cur max k : quiet k (sys_setrlimit cur max k).2
}.

Section Sockets.
Context `{!Kernel K}.

Definition set_nonblocking (fd : Z) (k : K) : bool * K :=
  let '(flags, k) := sys_getfl fd k in
  if (flags =? -1)%Z then (false, k)
  else let '(r, k) := sys_setfl fd (Z.lor flags O_NONBLOCK) k in (negb (r =? -1)%Z, k).

Definition set_tcp_nodelay (fd : Z) (k : K) : bool * K :=
  let '(r, k) := sys_setsockopt fd IPPROTO_TCP TCP_NODELAY 1 k in ((r =? 0)%Z, k).

Definition set_send_buffer (fd bytes : Z) (k : K) : Z * K :=
  let '(r, k) := sys_setsockopt fd SOL_SOCKET SO_SNDBUF bytes k in
  if negb (r =? 0)%Z then ((-1)%Z, k)
  else let '(r, applied, k) := sys_getsockopt fd SOL_SOCKET SO_SNDBUF k in
       if negb (r =? 0)%Z then ((-1)%Z, k) else (applied, k).

End Sockets.

Section Creation.
Context `{!Kernel K, !SocketCalls K}.

Definition INADDR_ANY : Z := 0.

(** The address, or the error text. *)
Definition resolve_ipv4 (host : bytes) (k : K) : (Z + bytes) * K :=
  if bool_decide (host = []) || bool_decide (host = lit "*") then (inl INADDR_ANY, k)
  else
    match sys_inet_pton (c_str host) with
    | Some addr => (inl addr, k)
    | None =>
        let '(rc, res, k) := sys_getaddrinfo (c_str host) k in
        match res with
        | Some addr =>
            if negb (rc =? 0)%Z
            then (inr (lit "cannot resolve host '" ++ host ++ lit "': " ++ sys_gai_strerror rc), k)
            else (inl addr, k)
        | None => (inr (lit "cannot resolve host '" ++ host ++ lit "': " ++ sys_gai_strerror rc), k)
        end
    end.

(** [std::string(call) + std::strerror(errno)] *)
Definition call_failed (call : bytes) (k : K) : bytes := call ++ sys_strerror (sys_errno k).

(** The descriptor or -1, and the value of [err] if it is assigned. *)
Definition create_listening_socket (host : bytes) (port backlog : Z) (k : K)
    : Z * option bytes * K :=
  let '(address, k) := resolve_ipv4 host k in
  match address with
  | inr e => ((-1)%Z, Some e, k)
  | inl address =>
      let '(fd, k) := sys_socket k in
      if (fd <? 0)%Z then ((-1)%Z, Some (call_failed (lit "socket() failed: ") k), k)
      else
        let '(_, k) := sys_setsockopt fd SOL_SOCKET SO_REUSEADDR 1 k in
        let '(rc, k) := sys_bind fd (mkSockaddr address (htons port)) k in
        if (rc <? 0)%Z then
          ((-1)%Z, Some (call_failed (lit "bind() failed: ") k), sys_close fd k)
        else
          let '(rc, k) := sys_listen fd backlog k in
          if (rc <? 0)%Z then
            ((-1)%Z, Some (call_failed (lit "listen() failed: ") k), sys_close fd k)
          else
            let '(nonblocking, k) := set_nonblocking fd k in
            if negb nonblocking then
              ((-1)%Z, Some (call_failed (lit "fcntl(O_NONBLOCK) failed: ") k), sys_close fd k)
            else (fd, None, k)
  end.

Definition connect_to (host : bytes) (port : Z) (k : K) : Z * option bytes * K :=
  let host := match host with [] => lit "127.0.0.1" | _ => host end in
  let '(address, k) := resolve_ipv4 host k in
  match address with
  | inr e => ((-1)%Z, Some e, k)
  | inl address =>
      let '(fd, k) := sys_socket k in
      if (fd <? 0)%Z then ((-1)%Z, Some (call_failed (lit "socket() failed: ") k), k)
      else
        let '(rc, k) := sys_connect fd (mkSockaddr address (htons port)) k in
        if (rc <? 0)%Z then
          ((-1)%Z, Some (call_failed (lit "connect() failed: ") k), sys_close fd k)
        else (fd, None, k)
  end.

Definition peer_name (fd : Z) (k : K) : bytes * K :=
  let '(rc, addr, k) := sys_getpeername fd k in
  if negb (rc =? 0)%Z then (lit "<unknown>", k)
  else
    match sys_inet_ntop (sin_addr addr) with
    | None => (lit "<unknown>", k)
    | Some text => (text ++ lit ":" ++ to_string (ntohs (sin_port addr)), k)
    end.

Definition raise_fd_limit (k : K) : Z * K :=
  let '(rc, cur, max, k) := sys_getrlimit k in
  if negb (rc =? 0)%Z then ((-1)%Z, k)
  else if (cur <? max)%Z then
    let '(_, k) := sys_setrlimit max max k in
    let '(rc, cur', _, k) := sys_getrlimit k in
    (* a failing call leaves the structure, where the soft limit is [max] *)
    ((if (rc =? 0)%Z then cur' else max), k)
  else (cur, k).

End Creation.

Section Laws.
Context `{!Kernel K, !KernelView K, !KernelLaws K}.

Lemma set_nonblocking_quiet fd (k : K) : quiet k (set_nonblocking fd k).2.
Proof.
  unfold set_nonblocking. pose proof (law_getfl fd k) as H1.
  destruct (sys_getfl fd k) as [flags k1]; simpl in *. destruct (flags =? -1)%Z; [done|].
  pose proof (law_setfl fd (Z.lor flags O_NONBLOCK) k1) as H2.
  destruct (sys_setfl fd _ k1) as [r k2]; simpl in *. by etrans.
Qed.

Lemma set_tcp_nodelay_quiet fd (k : K) : quiet k (set_tcp_nodelay fd k).2.
Proof.
  unfold set_tcp_nodelay. pose proof (law_setsockopt fd IPPROTO_TCP TCP_NODELAY 1 k) as H1.
  by destruct (sys_setsockopt fd _ _ _ k) as [r k1].
Qed.

Lemma set_send_buffer_quiet fd b (k : K) : quiet k (set_send_buffer fd b k).2.
Proof.
  unfold set_send_buffer. pose proof (law_setsockopt fd SOL_SOCKET SO_SNDBUF b k) as H1.
  destruct (sys_setsockopt fd _ _ _ k) as [r k1]; simpl in *. destruct (negb _); [done|].
  pose proof (law_getsockopt fd SOL_SOCKET SO_SNDBUF k1) as H2.
  destruct (sys_getsockopt fd _ _ k1) as [[r' a] k2]; simpl in *.
  destruct (negb _); by etrans.
Qed.

(** What creating a socket leaves behind: a fresh open descriptor, or nothing. *)
Definition created (k : K) (fd : Z) (err : option bytes) (k' : K) : Prop :=
  ((0 ≤ fd)%Z ∧ err = None ∧ fd ∉ open_fds k ∧ open_fds k' = {[fd]} ∪ open_fds k ∧ sent k' fd = []
   ∧ received k' fd = []
   ∨ fd = (-1)%Z ∧ (∃ e, err = Some e ∧ e ≠ []) ∧ open_fds k' = open_fds k)
  ∧ ∀ f, f ∈ open_fds k → sent k' f = sent k f.

Context `{!SocketCalls K, !SocketLaws K}.

Lemma raise_fd_limit_quiet (k : K) : quiet k (raise_fd_limit k).2.
Proof.
  unfold raise_fd_limit. pose proof (law_getrlimit k) as H1.
  destruct (sys_getrlimit k) as [[[rc cur] max] k1]. cbn [snd] in H1. destruct (negb _); [done|].
  destruct (cur <? max)%Z; [|done]. pose proof (law_setrlimit max max k1) as H2.
  destruct (sys_setrlimit max max k1) as [r k2]. cbn [snd] in H2. pose proof (law_getrlimit k2) as H3.
  destruct (sys_getrlimit k2) as [[[rc' cur'] max'] k3]. cbn [snd] in *. by do 2 (etrans; [eassumption|]).
Qed.

Lemma resolve_quiet host (k : K) : quiet k (resolve_ipv4 host k).2.
Proof.
  unfold resolve_ipv4. destruct (_ || _); [done|]. destruct (sys_inet_pton _); [done|].
  pose proof (law_getaddrinfo (c_str host) k) as H. destruct (sys_getaddrinfo _ k) as [[rc [a|]] k1]; [|done].
  by destruct (negb _).
Qed.

Lemma resolve_error host (k : K) e : (resolve_ipv4 host k).1 = inr e → e ≠ [].
Proof.
  unfold resolve_ipv4. destruct (_ || _); [done|]. destruct (sys_inet_pton _); [done|].
  destruct (sys_getaddrinfo _ k) as [[rc [a|]] k1]; [destruct (negb _)|]; cbn; try done; by intros [= <-].
Qed.

(** The tail of both functions, once socket(2) has returned [fd]: closing it
    again undoes the creation. *)
Lemma created_failed (k k1 k2 : K) fd call :
  quiet k k1 → fd ∉ open_fds k → open_fds k2 = {[fd]} ∪ open_fds k →
  (∀ f, f ∈ open_fds k → sent k2 f = sent k f) → call ≠ [] →
  created k (-1) (Some (call_failed call k2)) (sys_close fd k2).
Proof.
  intros Hq Hfresh Ho Hs Hcall. destruct (law_close fd k2) as (Ho' & Hs' & _). split.
  - right. split_and!; [done| |rewrite Ho', Ho; set_solver].
    eexists. split; [done|]. unfold call_failed. by destruct call.
  - intros f Hf. by rewrite Hs', Hs.
Qed.

(** An open socket after calls that open and close nothing. *)
Definition opened (k : K) (fd : Z) (k' : K) : Prop :=
  (0 ≤ fd)%Z ∧ fd ∉ open_fds k ∧ open_fds k' = {[fd]} ∪ open_fds k ∧ sent k' fd = []
  ∧ received k' fd = [] ∧ ∀ f, f ∈ open_fds k → sent k' f = sent k f.

Lemma socket_opened (k0 k k' : K) fd :
  quiet k0 k → sys_socket k = (fd, k') →
  (fd < 0)%Z ∧ quiet k0 k' ∨ opened k0 fd k'.
Proof.
  intros Hq0 [[Hneg Hq]|(Hpos & Hfresh & Ho & _ & Hnil & Hnew & Hs)]%law_socket.
  - left. split; [done|]. by etrans.
  - right. destruct Hq0 as (Ho0 & Hs0 & _). rewrite Ho0 in Hfresh, Ho. split_and!; [done..|].
    intros f Hf. rewrite <-Hs0. apply Hs. by intros ->.
Qed.

Lemma opened_quiet (k k1 k2 : K) fd : opened k fd k1 → quiet k1 k2 → opened k fd k2.
Proof.
  intros (? & ? & Ho & Hn & Hr & Hs) (Ho' & Hs' & _ & Hr'). split_and!; [done|done| | | |].
  - by rewrite Ho'.
  - by rewrite Hs'.
  - by rewrite Hr'.
  - intros f Hf. by rewrite Hs', Hs.
Qed.

Lemma opened_created (k k' : K) fd : opened k fd k' → created k fd None k'.
Proof. intros (? & ? & ? & ? & ? & ?). split; [left; by split_and!|done]. Qed.

Lemma opened_closed (k k' : K) fd call :
  opened k fd k' → call ≠ [] → created k (-1) (Some (call_failed call k')) (sys_close fd k').
Proof. intros (? & ? & ? & ? & _ & ?) Hcall. by eapply (created_failed k k). Qed.

Lemma create_listening_created host port backlog (k : K) fd err k' :
  create_listening_socket host port backlog k = (fd, err, k') → created k fd err k'.
Proof.
  unfold create_listening_socket. pose proof (resolve_quiet host k) as Hq.
  pose proof (resolve_error host k) as He.
  destruct (resolve_ipv4 host k) as [[addr|e] k1]; cbn [fst snd] in *.
  2: { intros [= <- <- <-]. destruct Hq as (Ho & Hs & _). split; [right|done].
       split_and!; [done| |done]. exists e. split; [done|]. by apply He. }
  destruct (sys_socket k1) as [n k2] eqn:Hsock.
  destruct (socket_opened k k1 k2 n Hq Hsock) as [[Hneg (Ho & Hs & _)]|Hop].
  { rewrite (proj2 (Z.ltb_lt n 0)) by done. intros [= <- <- <-]. split; [right|done].
    split_and!; [done| |done]. by eexists. }
  rewrite (proj2 (Z.ltb_ge n 0)) by apply Hop.
  pose proof (law_setsockopt n SOL_SOCKET SO_REUSEADDR 1 k2) as H3.
  destruct (sys_setsockopt n _ _ _ k2) as [r3 k3]. eapply opened_quiet in Hop; [|exact H3].
  pose proof (law_bind n (mkSockaddr addr (htons port)) k3) as H4.
  destruct (sys_bind n _ k3) as [r4 k4]. eapply opened_quiet in Hop; [|exact H4].
  destruct (r4 <? 0)%Z; [intros [= <- <- <-]; by apply opened_closed|].
  pose proof (law_listen n backlog k4) as H5.
  destruct (sys_listen n backlog k4) as [r5 k5]. eapply opened_quiet in Hop; [|exact H5].
  destruct (r5 <? 0)%Z; [intros [= <- <- <-]; by apply opened_closed|].
  pose proof (set_nonblocking_quiet n k5) as H6.
  destruct (set_nonblocking n k5) as [ok k6]. eapply opened_quiet in Hop; [|exact H6].
  destruct (negb ok); intros [= <- <- <-]; [by apply opened_closed|by apply opened_created].
Qed.

Lemma connect_to_created host port (k : K) fd err k' :
  connect_to host port k = (fd, err, k') → created k fd err k'.
Proof.
  unfold connect_to. set (h := match host with [] => _ | _ => host end).
  pose proof (resolve_quiet h k) as Hq. pose proof (resolve_error h k) as He.
  destruct (resolve_ipv4 h k) as [[addr|e] k1]; cbn [fst snd] in *.
  2: { intros [= <- <- <-]. destruct Hq as (Ho & Hs & _). split; [right|done].
       split_and!; [done| |done]. exists e. split; [done|]. by apply He. }
  destruct (sys_socket k1) as [n k2] eqn:Hsock.
  destruct (socket_opened k k1 k2 n Hq Hsock) as [[Hneg (Ho & Hs & _)]|Hop].
  { rewrite (proj2 (Z.ltb_lt n 0)) by done. intros [= <- <- <-]. split; [right|done].
    split_and!; [done| |done]. by eexists. }
  rewrite (proj2 (Z.ltb_ge n 0)) by apply Hop.
  pose proof (law_connect n (mkSockaddr addr (htons port)) k2) as H4.
  destruct (sys_connect n _ k2) as [r4 k4]. eapply opened_quiet in Hop; [|exact H4].
  destruct (r4 <? 0)%Z; intros [= <- <- <-]; [by apply opened_closed|by apply opened_created].
Qed.

(** C36: creating sockets is leak-free, for servers and clients: on success a
    newly opened descriptor is returned; on every failure (resolution, socket,
    bind, listen, fcntl or connect) the result is -1 with a non-empty reason,
    and exactly the descriptors that were open before are open after. *)
Theorem sockets_leak_free host port backlog (k : K) fd err k' :
  create_listening_socket host port backlog k = (fd, err, k') ∨ connect_to host port k = (fd, err, k') →
  created k fd err k'.
Proof. intros [H|H]; [by eapply create_listening_created|by eapply connect_to_created]. Qed.

End Laws.

(** ** The scripted kernel *)

#[global] Instance script_sockets : SocketCalls Script := {
  sys_socket := script_opening;
  sys_bind := λ fd addr k, ((if (sin_port addr =? 0)%Z then -1 else 0)%Z, k);
  sys_listen := λ _ _ k, (0%Z, k);
  sys_connect := λ fd addr k, ((if (sin_port addr =? 0)%Z then -1 else 0)%Z, k);
  sys_inet_pton := λ _, Some 16777343%Z;
  sys_getaddrinfo := λ _ k, (8%Z, None, k);
  sys_gai_strerror := λ _, lit "unknown host";
  sys_getpeername := λ _ k, (0%Z, mkSockaddr 16777343 34835, k);
  sys_getrlimit := λ k, (0%Z, 1024%Z, 4096%Z, k);
  sys_setrlimit := λ _ _ k, (0%Z, k)
}.

#[global] Instance script_socket_laws : SocketLaws Script.
Proof.
  split; try done. exact script_opening_law.
Qed.

Lemma sockets_leak_free_witness :
  created idle_script (-1) (Some (lit "bind() failed: error"))
    (create_listening_socket (lit "127.0.0.1") 0 128 idle_script).2
  ∧ created idle_script (connect_to [] 5000 idle_script).1.1 None (connect_to [] 5000 idle_script).2.
Proof.
  split.
  - apply (sockets_leak_free (lit "127.0.0.1") 0 128 idle_script). left. vm_compute. reflexivity.
  - apply (sockets_leak_free [] 5000 128 idle_script). right. vm_compute. reflexivity.
Defined.
