(* ===== verification/Signals.v ===== *)
(** * Signals: what the programs do about signals

    The server, the client shell and the connection generator begin alike:
    they ignore SIGPIPE and have SIGINT and SIGTERM set the flag [g_stop].
    Changing a disposition is a call of its own, [SignalCalls].  [Process]
    adds to a kernel what a process has to do with signals: the dispositions,
    the flag, and whether a signal has ended the process.  It is a kernel
    again, so the programs run on it; reading the flag is its [sys_stopped].

    A handler does nothing but set the flag and the flag is only read by
    [sys_stopped], so when exactly a signal arrives between two readings
    cannot be observed: those that have arrived are delivered at the next
    one. *)

From S2P Require Import Prelude CxxString Kernel EventLoop SocketUtils.

Inductive signal : Type := SIGINT | SIGTERM | SIGPIPE.

(** [OnSignal]: the handler [on_signal]. *)
Inductive disposition : Type := SIG_DFL | SIG_IGN | OnSignal.

#[global] Instance signal_eq_dec : EqDecision signal.
Proof. solve_decision. Defined.

#[global] Instance disposition_eq_dec : EqDecision disposition.
Proof. solve_decision. Defined.

(** signal(2) and sigaction(2) *)
Class SignalCalls (K : Type) : Type := sys_sigaction : signal → disposition → K → K.

Class SignalLaws (K : Type) `{!Kernel K, !KernelView K, !SignalCalls K} : Prop :=
  law_sigaction sig d k : quiet k (sys_sigaction sig d k).

(** The beginning of each program. *)
Definition install_handlers `{!SignalCalls K} (k : K) : K :=
  let k := sys_sigaction SIGPIPE SIG_IGN k in
  let k := sys_sigaction SIGINT OnSignal k in
  sys_sigaction SIGTERM OnSignal k.

Lemma install_quiet `{!Kernel K, !KernelView K, !SignalCalls K, !SignalLaws K} (k : K) : quiet k (install_handlers k).
Proof. unfold install_handlers. repeat (etrans; [|apply law_sigaction]). reflexivity. Qed.

#[global] Instance script_signals : SignalCalls Script := λ _ _ k, k.

#[global] Instance script_signal_laws : SignalLaws Script.
Proof. done. Qed.

(** ** Processes *)

Record Process (K : Type) : Type := mkProcess {
  p_kern : K;
  p_handler : signal → disposition;
  g_stop : bool;
  p_killed : bool
}.

Arguments mkProcess {K}.
Arguments p_kern {K} _.
Arguments p_handler {K} _ _.
Arguments g_stop {K} _.
Arguments p_killed {K} _.

(** The signals that have arrived since the last time. *)
Class Arrivals (K : Type) : Type := sys_arrived : K → list signal * K.

Class ArrivalLaws (K : Type) `{!Kernel K, !KernelView K, !Arrivals K} : Prop :=
  law_arrived k : quiet k (sys_arrived k).2.

(** Whether the headers define MSG_NOSIGNAL; otherwise the sources define it as
    0. *)
Class SendFlags : Type := msg_nosignal : bool.

Section Process.
Context {K : Type}.

Abbreviation process := (Process K).

Definition p_set_kern (k : K) (p : process) : process := mkProcess k (p_handler p) (g_stop p) (p_killed p).

(** [on_signal(int)] *)
Definition on_signal (p : process) : process := mkProcess (p_kern p) (p_handler p) true (p_killed p).

(** The default action of all three signals is to end the process. *)
Definition deliver (p : process) (sig : signal) : process :=
  match p_handler p sig with
  | SIG_DFL => mkProcess (p_kern p) (p_handler p) (g_stop p) true
  | SIG_IGN => p
  | OnSignal => on_signal p
  end.

(** A process that has just started. *)
Definition new_process (k : K) : process := mkProcess k (λ _, SIG_DFL) false false.

(** A call of the kernel below. *)
Definition below {A : Type} (f : K → A * K) (p : process) : A * process :=
  let '(a, k) := f (p_kern p) in (a, p_set_kern k p).

Definition below_ (f : K → K) (p : process) : process := p_set_kern (f (p_kern p)) p.

Context `{!Kernel K, !Arrivals K} {F : SendFlags}.

(** send(2) to a peer that is gone raises SIGPIPE, unless told not to. *)
Definition process_send (fd : Z) (data : bytes) (p : process) : Z * process :=
  let '(n, p) := below (sys_send fd data) p in
  (n, if (n <? 0)%Z && bool_decide (sys_errno (p_kern p) = EPIPE) && negb msg_nosignal
      then deliver p SIGPIPE else p).

(** Reading [g_stop], after what has arrived has been delivered. *)
Definition process_stopped (p : process) : bool * process :=
  let '(sigs, p) := below sys_arrived p in
  let p := fold_left deliver sigs p in (g_stop p, p).

#[global] Instance process_kernel : Kernel process := {
  sys_errno := λ p, sys_errno (p_kern p);
  sys_strerror := λ e, sys_strerror (K := K) e;
  sys_send := process_send;
  sys_recv := λ fd cap, below (sys_recv fd cap);
  sys_accept := λ fd, below (sys_accept fd);
  sys_close := λ fd, below_ (sys_close fd);
  sys_shutdown := λ fd how, below_ (sys_shutdown fd how);
  sys_getfl := λ fd, below (sys_getfl fd);
  sys_setfl := λ fd flags, below (sys_setfl fd flags);
  sys_setsockopt := λ fd level opt v, below (sys_setsockopt fd level opt v);
  sys_getsockopt := λ fd level opt, below (sys_getsockopt fd level opt);
  sys_inet_ntop := λ a, sys_inet_ntop (K := K) a;
  sys_clock_gettime := below sys_clock_gettime;
  sys_stopped := process_stopped;
  sys_poll := λ fds timeout, below (sys_poll fds timeout);
  sys_kqueue := below sys_kqueue;
  sys_kevent_change := λ kq cs, below (sys_kevent_change kq cs);
  sys_kevent_wait := λ kq cap ts, below (sys_kevent_wait kq cap ts);
  sys_work := λ p, sys_work (p_kern p)
}.

#[global] Instance process_sockets `{!SocketCalls K} : SocketCalls process := {
  sys_socket := below sys_socket;
  sys_bind := λ fd addr, below (sys_bind fd addr);
  sys_listen := λ fd backlog, below (sys_listen fd backlog);
  sys_connect := λ fd addr, below (sys_connect fd addr);
  sys_inet_pton := sys_inet_pton (K := K);
  sys_getaddrinfo := λ host, below (sys_getaddrinfo host);
  sys_gai_strerror := sys_gai_strerror (K := K);
  sys_getpeername := λ fd, below (sys_getpeername fd);
  sys_getrlimit := below sys_getrlimit;
  sys_setrlimit := λ cur max, below (sys_setrlimit cur max)
}.

#[global] Instance process_signals : SignalCalls process := λ sig d p,
  mkProcess (p_kern p) (λ s, if decide (s = sig) then d else p_handler p s) (g_stop p) (p_killed p).

#[global] Instance process_view `{!KernelView K} : KernelView process := {
  open_fds := λ p, open_fds (p_kern p);
  sent := λ p, sent (p_kern p);
  received := λ p, received (p_kern p)
}.

End Process.

(** ** A process is a kernel *)

Section Laws.
Context `{!Kernel K, !KernelView K, !KernelLaws K, !SocketCalls K, !SocketLaws K, !Arrivals K, !ArrivalLaws K}.
Context {F : SendFlags}.

Abbreviation process := (Process K).
Implicit Types p : process.

Lemma below_inv {A} (f : K → A * K) p a p' : below f p = (a, p') → f (p_kern p) = (a, p_kern p').
Proof. unfold below. destruct (f (p_kern p)) as [a' k]. by intros [= <- <-]. Qed.

Lemma below_quiet {A} (f : K → A * K) p : (∀ k, quiet k (f k).2) → quiet p (below f p).2.
Proof. intros Hf. specialize (Hf (p_kern p)). unfold below. by destruct (f (p_kern p)). Qed.

Lemma deliver_kern p sig : p_kern (deliver p sig) = p_kern p.
Proof. unfold deliver. by destruct (p_handler p sig). Qed.

Lemma delivered_kern sigs p : p_kern (fold_left deliver sigs p) = p_kern p.
Proof. revert p. induction sigs as [|sig sigs IH]; intros p; cbn; [done|]. by rewrite IH, deliver_kern. Qed.

Lemma process_send_inv fd data p n p' :
  process_send fd data p = (n, p') → sys_send fd data (p_kern p) = (n, p_kern p').
Proof.
  unfold process_send. destruct (below (sys_send fd data) p) as [m p1] eqn:Hb. apply below_inv in Hb.
  intros [= <- <-]. rewrite Hb. by destruct (_ && _); rewrite ?deliver_kern.
Qed.

#[global] Instance process_laws : KernelLaws process.
Proof.
  split.
  - intros fd data p n p' H%process_send_inv. apply (law_send _ _ _ _ _ H).
  - intros fd cap p n buf p' H%below_inv. apply (law_recv _ _ _ _ _ _ H).
  - intros lfd p n addr p' H%below_inv. apply (law_accept _ _ _ _ _ H).
  - intros fd p. apply (law_close fd (p_kern p)).
  - intros fd how p. apply (law_shutdown fd how (p_kern p)).
  - intros fd p. apply below_quiet, law_getfl.
  - intros fd flags p. apply below_quiet, law_setfl.
  - intros fd level opt v p. apply below_quiet. intros k. apply law_setsockopt.
  - intros fd level opt p. apply below_quiet. intros k. apply law_getsockopt.
  - intros p. split; [apply below_quiet; intros k; apply law_clock_gettime|].
    cbn [sys_clock_gettime process_kernel]. unfold below. pose proof (law_clock_gettime (p_kern p)) as [_ H].
    destruct (sys_clock_gettime (p_kern p)) as [tv k]. exact H.
  - intros p. cbn [sys_stopped process_kernel]. unfold process_stopped, below.
    pose proof (law_arrived (p_kern p)) as H. destruct (sys_arrived (p_kern p)) as [sigs k].
    unfold quiet. cbn. rewrite delivered_kern. exact H.
  - intros kq cs p. apply below_quiet, law_kevent_change.
  - intros p n p' H%below_inv. apply (law_kqueue _ _ _ H).
  - intros fds timeout p n revs p' H%below_inv. apply (law_poll _ _ _ _ _ _ H).
  - intros kq cap ts p n evs p' H%below_inv. apply (law_kevent_wait _ _ _ _ _ _ _ H).
Qed.

#[global] Instance process_socket_laws : SocketLaws process.
Proof.
  split.
  - intros p n p' H%below_inv. apply (law_socket _ _ _ H).
  - intros fd addr p. apply below_quiet, law_bind.
  - intros fd backlog p. apply below_quiet, law_listen.
  - intros fd addr p. apply below_quiet, law_connect.
  - intros host p. apply below_quiet, law_getaddrinfo.
  - intros p. apply below_quiet, law_getrlimit.
  - intros cur max p. apply below_quiet, law_setrlimit.
Qed.

#[global] Instance process_signal_laws : SignalLaws process.
Proof. done. Qed.

(** ** Handled signals

    The process lives, SIGPIPE is ignored, and the others have the handler. *)
Definition handled p : Prop :=
  p_killed p = false ∧ p_handler p SIGPIPE = SIG_IGN
  ∧ p_handler p SIGINT = OnSignal ∧ p_handler p SIGTERM = OnSignal.

Lemma install_handled p : p_killed p = false → handled (install_handlers p).
Proof. done. Qed.

(** The flag is set by the two, and never reset. *)
Lemma deliver_handled p sig :
  handled p → handled (deliver p sig)
              ∧ g_stop (deliver p sig) = g_stop p || negb (bool_decide (sig = SIGPIPE)).
Proof.
  intros (Hk & Hpipe & Hint & Hterm). unfold deliver. destruct sig; rewrite ?Hpipe, ?Hint, ?Hterm; cbn;
    rewrite ?orb_true_r, ?orb_false_r; done.
Qed.

Lemma delivered_handled sigs p :
  handled p → handled (fold_left deliver sigs p)
              ∧ g_stop (fold_left deliver sigs p)
                = g_stop p || existsb (λ sig, negb (bool_decide (sig = SIGPIPE))) sigs.
Proof.
  revert p. induction sigs as [|sig sigs IH]; intros p Hp; cbn; [by rewrite orb_false_r|].
  destruct (deliver_handled p sig Hp) as [H1 Hs]. destruct (IH _ H1) as [H2 Hs2].
  split; [done|]. by rewrite Hs2, Hs, orb_assoc.
Qed.

(** A request to stop has been seen, or is seen at the next look. *)
Definition told_to_stop p : Prop :=
  g_stop p = true ∨ ∃ sig, sig ∈ (sys_arrived (p_kern p)).1 ∧ sig ≠ SIGPIPE.

Lemma told_stopped p : handled p → told_to_stop p ↔ (sys_stopped p).1 = true.
Proof.
  intros Hp. cbn [sys_stopped process_kernel]. unfold process_stopped, below, told_to_stop.
  destruct (sys_arrived (p_kern p)) as [sigs k]. cbn [fst].
  destruct (delivered_handled sigs (p_set_kern k p) Hp) as [_ ->]. cbn.
  rewrite orb_true_iff, existsb_exists. apply or_iff_compat_l. split.
  - intros (sig & Hin & Hne). exists sig. rewrite <-list_elem_of_In, negb_true_iff, bool_decide_eq_false. done.
  - intros (sig & Hin & Hne). exists sig. rewrite <-list_elem_of_In, negb_true_iff, bool_decide_eq_false in *. done.
Qed.

End Laws.

(** ** Invariants of the kernel

    A property of kernel states that the calls keep; those that take something
    from a connection or end it are apart. *)
Class KernelKept `{!Kernel K} (I : K → Prop) : Prop := {
  kk_send fd data k : I k → I (sys_send fd data k).2;
  kk_accept fd k : I k → I (sys_accept fd k).2;
  kk_getfl fd k : I k → I (sys_getfl fd k).2;
  kk_setfl fd flags k : I k → I (sys_setfl fd flags k).2;
  kk_setsockopt fd level opt v k : I k → I (sys_setsockopt fd level opt v k).2;
  kk_getsockopt fd level opt k : I k → I (sys_getsockopt fd level opt k).2;
  kk_clock_gettime k : I k → I (sys_clock_gettime k).2;
  kk_stopped k : I k → I (sys_stopped k).2;
  kk_poll fds timeout k : I k → I (sys_poll fds timeout k).2;
  kk_kqueue k : I k → I (sys_kqueue k).2;
  kk_kevent_change kq cs k : I k → I (sys_kevent_change kq cs k).2;
  kk_kevent_wait kq cap ts k : I k → I (sys_kevent_wait kq cap ts k).2
}.

Class FdKept `{!Kernel K} (I : K → Prop) : Prop := {
  fk_recv fd cap k : I k → I (sys_recv fd cap k).2;
  fk_close fd k : I k → I (sys_close fd k);
  fk_shutdown fd how k : I k → I (sys_shutdown fd how k)
}.

Class SocketKept `{!Kernel K, !SocketCalls K} (I : K → Prop) : Prop := {
  sk_socket k : I k → I (sys_socket k).2;
  sk_bind fd addr k : I k → I (sys_bind fd addr k).2;
  sk_listen fd backlog k : I k → I (sys_listen fd backlog k).2;
  sk_connect fd addr k : I k → I (sys_connect fd addr k).2;
  sk_getaddrinfo host k : I k → I (sys_getaddrinfo host k).2;
  sk_getrlimit k : I k → I (sys_getrlimit k).2;
  sk_setrlimit cur max k : I k → I (sys_setrlimit cur max k).2
}.

Section Kept.
Context `{!Kernel K, !SocketCalls K, !Arrivals K} {F : SendFlags}.

(** Living with handled signals, and having been told to stop ([stop]). *)
Definition ready (stop : bool) (p : Process K) : Prop := handled p ∧ (stop = true → g_stop p = true).

Lemma below_ready {A} stop (f : K → A * K) p : ready stop p → ready stop (below f p).2.
Proof. unfold below. by destruct (f (p_kern p)). Qed.

Lemma deliver_ready stop p sig : ready stop p → ready stop (deliver p sig).
Proof.
  intros [Hp Hs]. destruct (deliver_handled p sig Hp) as [Hp' Hs']. split; [done|]. intros ->. by rewrite Hs', Hs.
Qed.

#[global] Instance ready_kept stop : KernelKept (ready stop).
Proof.
  split; intros; try by apply below_ready.
  - cbn [sys_send process_kernel]. unfold process_send. pose proof (below_ready stop (sys_send fd data) k H) as H1.
    destruct (below _ k) as [n p]. cbn in *. by destruct (_ && _); [apply deliver_ready|].
  - cbn [sys_stopped process_kernel]. unfold process_stopped. pose proof (below_ready stop sys_arrived k H) as H1.
    destruct (below _ k) as [sigs p]. cbn in *. revert p H1.
    induction sigs as [|sig sigs IH]; intros p H1; cbn; [done|]. by apply IH, deliver_ready.
Qed.

#[global] Instance ready_fds_kept stop : FdKept (ready stop).
Proof. split; intros; [by apply below_ready|done..]. Qed.

#[global] Instance ready_sockets_kept stop : SocketKept (ready stop).
Proof. split; intros; by apply below_ready. Qed.

(** A process that has been told to stop sees it. *)
Lemma ready_stopped p : ready true p → (sys_stopped p).1 = true.
Proof.
  intros H. pose proof (kk_stopped (I := ready true) p H) as [_ Hs]. revert Hs.
  cbn [sys_stopped process_kernel]. unfold process_stopped. destruct (below sys_arrived p). cbn. auto.
Qed.

End Kept.
