(* ===== verification/KeptCalls.v ===== *)
(** * KeptCalls: invariants of the kernel, through the socket utilities

    What the system calls keep ([KernelKept], [FdKept] and [SocketKept] of
    Signals.v) the functions of socket_utils.cpp keep, with the tactics that
    go through the calls of a function one after the other. *)

From S2P Require Import Prelude CxxString Kernel EventLoop SocketUtils Signals.

Create HintDb kernel_kept.

(** One call. *)
Ltac kernel_call :=
  lazymatch goal with
  | |- ?I _ =>
      first [ refine (kk_send (I := I) _ _ _ _) | refine (fk_recv (I := I) _ _ _ _) | refine (kk_accept (I := I) _ _ _)
            | refine (fk_close (I := I) _ _ _) | refine (fk_shutdown (I := I) _ _ _ _) | refine (kk_getfl (I := I) _ _ _)
            | refine (kk_setfl (I := I) _ _ _ _) | refine (kk_setsockopt (I := I) _ _ _ _ _ _)
            | refine (kk_getsockopt (I := I) _ _ _ _ _) | refine (kk_clock_gettime (I := I) _ _)
            | refine (kk_stopped (I := I) _ _) | refine (kk_poll (I := I) _ _ _ _) | refine (kk_kqueue (I := I) _ _)
            | refine (kk_kevent_change (I := I) _ _ _ _) | refine (kk_kevent_wait (I := I) _ _ _ _ _)
            | refine (sk_socket (I := I) _ _) | refine (sk_bind (I := I) _ _ _ _) | refine (sk_listen (I := I) _ _ _ _)
            | refine (sk_connect (I := I) _ _ _ _) | refine (sk_getaddrinfo (I := I) _ _ _)
            | refine (sk_getrlimit (I := I) _ _) | refine (sk_setrlimit (I := I) _ _ _ _) ]
  end.

#[export] Hint Extern 1 => kernel_call : kernel_kept.

(** Goes through the calls that a function makes, one after the other. *)
Ltac through_calls I :=
  repeat first
    [ match goal with
      | |- context [match ?call with pair _ _ => _ end] =>
          lazymatch call with pair _ _ => fail | _ => idtac end;
          let H := fresh "Hkept" in
          assert (I (snd call)) as H by eauto with kernel_kept;
          let a := fresh "a" in let k := fresh "k" in
          destruct call as [a k]; cbn [snd] in H
      | |- context [match ?x with inl _ => _ | inr _ => _ end] => destruct x
      | |- context [match ?x with Some _ => _ | None => _ end] => destruct x
      | |- context [match ?x with pair _ _ => _ end] => destruct x
      | |- context [if ?b then _ else _] => destruct b
      end; cbn [snd fst] ];
  eauto with kernel_kept.

Section Calls.
Context `{!Kernel K} (I : K → Prop) `{!KernelKept I}.

Lemma nonblocking_kept fd k : I k → I (set_nonblocking fd k).2.
Proof. intros Hk. unfold set_nonblocking. through_calls I. Qed.

Lemma nodelay_kept fd k : I k → I (set_tcp_nodelay fd k).2.
Proof. intros Hk. unfold set_tcp_nodelay. through_calls I. Qed.

Lemma send_buffer_kept fd n k : I k → I (set_send_buffer fd n k).2.
Proof. intros Hk. unfold set_send_buffer. through_calls I. Qed.

End Calls.

(** One of these functions. *)
Ltac option_call :=
  lazymatch goal with
  | |- ?I (set_nonblocking _ _).2 => refine (nonblocking_kept I _ _ _)
  | |- ?I (set_tcp_nodelay _ _).2 => refine (nodelay_kept I _ _ _)
  | |- ?I (set_send_buffer _ _ _).2 => refine (send_buffer_kept I _ _ _ _)
  end.

#[export] Hint Extern 1 => option_call : kernel_kept.

Section Sockets.
Context `{!Kernel K, !SocketCalls K} (I : K → Prop) `{!KernelKept I, !FdKept I, !SocketKept I}.

Lemma resolve_kept host k : I k → I (resolve_ipv4 host k).2.
Proof. intros Hk. unfold resolve_ipv4. through_calls I. Qed.

Lemma create_listening_kept host port backlog k : I k → I (create_listening_socket host port backlog k).2.
Proof.
  intros Hk. unfold create_listening_socket. pose proof (resolve_kept host k Hk) as H1.
  destruct (resolve_ipv4 host k) as [r k1]. through_calls I.
Qed.

Lemma connect_kept host port k : I k → I (connect_to host port k).2.
Proof.
  intros Hk. unfold connect_to. cbv zeta. pose proof (resolve_kept (match host with [] => lit "127.0.0.1" | _ => host end) k Hk) as H1.
  destruct (resolve_ipv4 _ k) as [r k1]. through_calls I.
Qed.

Lemma raise_fd_limit_kept k : I k → I (raise_fd_limit k).2.
Proof. intros Hk. unfold raise_fd_limit. through_calls I. Qed.

End Sockets.

Ltac socket_call :=
  lazymatch goal with
  | |- ?I (connect_to _ _ _).2 => refine (connect_kept I _ _ _ _)
  | |- ?I (raise_fd_limit _).2 => refine (raise_fd_limit_kept I _ _)
  end.

#[export] Hint Extern 1 => socket_call : kernel_kept.
