(* ===== verification/ClientSession.v ===== *)
(** * ClientSession: per-connection state (src/network/client_session.hpp)

    The record, its accounting of unwritten output on [std::size_t], and the
    well-formedness that makes this accounting exact. *)

From S2P Require Import Prelude CxxString.

Inductive ClientRole : Type := Role_UNKNOWN | Role_TRADER | Role_MARKET_DATA.

#[global] Instance ClientRole_eq_dec : EqDecision ClientRole.
Proof. solve_decision. Defined.

Record ClientSession : Type := mkSession {
  cs_fd : Z;
  cs_role : ClientRole;
  cs_inbuf : bytes;
  cs_outbuf : bytes;
  cs_out_start : Z;
  cs_closing : bool;
  cs_backlogged : bool;
  cs_write_interest : bool;
  cs_read_interest : bool;
  cs_peer : bytes;
  cs_username : bytes;
  cs_logged_in : bool;
  cs_subscriptions : gset bytes
}.

(** [ClientSession(int file_descriptor)] *)
Definition new_session (fd : Z) : ClientSession :=
  mkSession fd Role_UNKNOWN [] [] 0 false false false true [] [] false ∅.

(** [ClientSession()], what [sessions_[fd]] creates for an absent key. *)
Definition default_session : ClientSession := new_session (-1).

(** Assignments to the fields. *)
Definition set_role (v : ClientRole) (s : ClientSession) : ClientSession :=
  mkSession (cs_fd s) v (cs_inbuf s) (cs_outbuf s) (cs_out_start s) (cs_closing s) (cs_backlogged s)
    (cs_write_interest s) (cs_read_interest s) (cs_peer s) (cs_username s) (cs_logged_in s)
    (cs_subscriptions s).

Definition set_inbuf (v : bytes) (s : ClientSession) : ClientSession :=
  mkSession (cs_fd s) (cs_role s) v (cs_outbuf s) (cs_out_start s) (cs_closing s) (cs_backlogged s)
    (cs_write_interest s) (cs_read_interest s) (cs_peer s) (cs_username s) (cs_logged_in s)
    (cs_subscriptions s).

Definition set_out (v : bytes) (n : Z) (s : ClientSession) : ClientSession :=
  mkSession (cs_fd s) (cs_role s) (cs_inbuf s) v n (cs_closing s) (cs_backlogged s) (cs_write_interest
    s) (cs_read_interest s) (cs_peer s) (cs_username s) (cs_logged_in s) (cs_subscriptions s).

Definition set_closing (v : bool) (s : ClientSession) : ClientSession :=
  mkSession (cs_fd s) (cs_role s) (cs_inbuf s) (cs_outbuf s) (cs_out_start s) v (cs_backlogged s)
    (cs_write_interest s) (cs_read_interest s) (cs_peer s) (cs_username s) (cs_logged_in s)
    (cs_subscriptions s).

Definition set_backlogged (v : bool) (s : ClientSession) : ClientSession :=
  mkSession (cs_fd s) (cs_role s) (cs_inbuf s) (cs_outbuf s) (cs_out_start s) (cs_closing s) v
    (cs_write_interest s) (cs_read_interest s) (cs_peer s) (cs_username s) (cs_logged_in s)
    (cs_subscriptions s).

Definition set_interest (w : bool) (r : bool) (s : ClientSession) : ClientSession :=
  mkSession (cs_fd s) (cs_role s) (cs_inbuf s) (cs_outbuf s) (cs_out_start s) (cs_closing s)
    (cs_backlogged s) w r (cs_peer s) (cs_username s) (cs_logged_in s) (cs_subscriptions s).

Definition set_peer (v : bytes) (s : ClientSession) : ClientSession :=
  mkSession (cs_fd s) (cs_role s) (cs_inbuf s) (cs_outbuf s) (cs_out_start s) (cs_closing s)
    (cs_backlogged s) (cs_write_interest s) (cs_read_interest s) v (cs_username s)
    (cs_logged_in s) (cs_subscriptions s).

Definition set_login (u : bytes) (v : bool) (s : ClientSession) : ClientSession :=
  mkSession (cs_fd s) (cs_role s) (cs_inbuf s) (cs_outbuf s) (cs_out_start s) (cs_closing s)
    (cs_backlogged s) (cs_write_interest s) (cs_read_interest s) (cs_peer s) u v
    (cs_subscriptions s).

Definition set_subscriptions (v : gset bytes) (s : ClientSession) : ClientSession :=
  mkSession (cs_fd s) (cs_role s) (cs_inbuf s) (cs_outbuf s) (cs_out_start s) (cs_closing s)
    (cs_backlogged s) (cs_write_interest s) (cs_read_interest s) (cs_peer s) (cs_username s)
    (cs_logged_in s) v.

(** [pending_bytes] and [has_pending_output]; the subtraction is on [size_t]. *)
Definition pending_bytes (s : ClientSession) : Z :=
  wrap_size (str_size (cs_outbuf s) - cs_out_start s).

Definition has_pending_output (s : ClientSession) : bool := (0 <? pending_bytes s)%Z.

(** The bytes from [outbuf.data() + out_start] on. *)
Definition pending (s : ClientSession) : bytes := drop (Z.to_nat (cs_out_start s)) (cs_outbuf s).

Definition label (s : ClientSession) : bytes :=
  lit "fd " ++ to_string (cs_fd s)
  ++ match cs_username s with
     | [] => []
     | _ => lit " (" ++ cs_username s ++ lit ")"
     end.

(** The write offset is within the buffer, and the buffer is within memory. *)
Definition out_wf (s : ClientSession) : Prop :=
  (0 ≤ cs_out_start s ≤ str_size (cs_outbuf s))%Z ∧ (str_size (cs_outbuf s) < 2 ^ 64)%Z.

Lemma out_wf_pending s : out_wf s → pending_bytes s = str_size (pending s).
Proof.
  intros [Ho Hs]. unfold pending_bytes, pending, str_size in *.
  rewrite length_drop, wrap_size_id; lia.
Qed.

Lemma has_pending_spec s : out_wf s → has_pending_output s = bool_decide (pending s ≠ []).
Proof.
  intros Hwf. unfold has_pending_output. rewrite out_wf_pending by done.
  unfold str_size. destruct (pending s); case_bool_decide; simpl; lia || done.
Qed.
