(* ===== verification/TcpServer.v ===== *)
(** * TcpServer: the listening socket (src/network/tcp_server.{hpp,cpp})

    [accept_connection] classifies every outcome of accept(2): a connection,
    nothing left to accept, a resource limit, or another failure.  The
    theorem: its answer determines which of these happened, and a descriptor
    is left open exactly when it is returned. *)

From S2P Require Import Prelude CxxString Kernel SocketUtils.

Record TCPServer : Type := mkTCPServer {
  ts_host : bytes;
  ts_port : Z;
  ts_fd : Z;
  ts_error : bytes
}.

Definition ts_set_error (t : TCPServer) (e : bytes) : TCPServer :=
  mkTCPServer (ts_host t) (ts_port t) (ts_fd t) e.

Section Sockets.
Context `{!Kernel K}.

(** [TCPServer(host, port)], and [start]: create the listening socket. *)
Definition new_tcp_server (host : bytes) (port : Z) : TCPServer := mkTCPServer host port (-1) [].

Definition start_listening `{!SocketCalls K} (backlog : Z) (t : TCPServer) (k : K) : bool * TCPServer * K :=
  let '(fd, e, k) := create_listening_socket (ts_host t) (ts_port t) backlog k in
  ((0 <=? fd)%Z, mkTCPServer (ts_host t) (ts_port t) fd (default (ts_error t) e), k).

(** [~TCPServer] *)
Definition destroy_tcp_server (t : TCPServer) (k : K) : K :=
  if (0 <=? ts_fd t)%Z then sys_close (ts_fd t) k else k.

(** The answer of [accept_connection]: the descriptor or -1, [*again],
    [*peer] and [*exhausted]. *)
Record AcceptResult : Type := mkAccept {
  ac_fd : Z;
  ac_again : bool;
  ac_peer : bytes;
  ac_exhausted : bool
}.

Definition accept_failure (e : errno) : bytes := lit "accept() failed: " ++ sys_strerror e.

Definition out_of_resources (e : errno) : bool :=
  bool_decide (e = EMFILE) || bool_decide (e = ENFILE) || bool_decide (e = ENOBUFS)
  || bool_decide (e = ENOMEM).

Definition accept_connection (t : TCPServer) (k : K) : AcceptResult * TCPServer * K :=
  let '(client_fd, address, k) := sys_accept (ts_fd t) k in
  if (client_fd <? 0)%Z then
    let e := sys_errno k in
    if would_block e then (mkAccept (-1) true [] false, t, k)
    else if bool_decide (e = ECONNABORTED) || bool_decide (e = EINTR)
    then (mkAccept (-1) false [] false, t, k)
    else if out_of_resources e
    then (mkAccept (-1) false [] true, ts_set_error t (accept_failure e), k)
    else (mkAccept (-1) false [] false, ts_set_error t (accept_failure e), k)
  else
    let '(nonblocking, k) := set_nonblocking client_fd k in
    if negb nonblocking then
      let t := ts_set_error t (lit "fcntl(O_NONBLOCK) failed: " ++ sys_strerror (sys_errno k)) in
      (mkAccept (-1) false [] false, t, sys_close client_fd k)
    else
      let '(_, k) := set_tcp_nodelay client_fd k in
      let peer := match sys_inet_ntop (sin_addr address) with
                  | Some text => text ++ lit ":" ++ to_string (ntohs (sin_port address))
                  | None => lit "<unknown>"
                  end in
      (mkAccept client_fd false peer false, t, k).

End Sockets.

Section Laws.
Context `{!Kernel K, !KernelView K, !KernelLaws K}.

(** An accepted descriptor was not open before, and is the only one opened. *)
Lemma accept_connection_spec t (k : K) a t' k' :
  accept_connection t k = (a, t', k') →
  ts_fd t' = ts_fd t ∧ (∀ fd, fd ∈ open_fds k → sent k' fd = sent k fd ∧ received k' fd = received k fd) ∧
  (((ac_fd a < 0)%Z ∧ open_fds k' = open_fds k ∧ sys_work k' ≤ sys_work k)
   ∨ ((0 ≤ ac_fd a)%Z ∧ ac_fd a ∉ open_fds k ∧ open_fds k' = {[ac_fd a]} ∪ open_fds k
      ∧ sys_work k' < sys_work k
      ∧ sent k' (ac_fd a) = [] ∧ received k' (ac_fd a) = [])).
Proof.
  unfold accept_connection. destruct (sys_accept (ts_fd t) k) as [[n addr] k1] eqn:Ha.
  apply law_accept in Ha as [[Hneg (Ho & Hs & Hw & Hr)]|(Hpos & Hfresh & Ho & Hw & Hnil & Hnilr & Hs)].
  - rewrite (proj2 (Z.ltb_lt n 0)) by done.
    destruct (would_block _); [|destruct (_ || _); [|destruct (out_of_resources _)]];
      intros [= <- <- <-]; cbn; (split_and!; [done|done|left; split_and!; done || lia]).
  - rewrite (proj2 (Z.ltb_ge n 0)) by done.
    pose proof (set_nonblocking_quiet n k1) as (Ho1 & Hs1 & Hw1 & Hr1).
    destruct (set_nonblocking n k1) as [nb k2]; cbn [snd] in *.
    assert (∀ fd, fd ∈ open_fds k → fd ≠ n) as Hne by (intros fd Hin ->; done).
    destruct nb; cbn [negb].
    + pose proof (set_tcp_nodelay_quiet n k2) as (Ho2 & Hs2 & Hw2 & Hr2).
      destruct (set_tcp_nodelay n k2) as [b k3]; cbn [snd] in *.
      intros [= <- <- <-]. cbn. split_and!; [done| |].
      * intros fd Hin. rewrite Hs2, Hs1, Hr2, Hr1. apply Hs. by apply Hne.
      * right. split_and!; [done|done|congruence|lia|by rewrite Hs2, Hs1|by rewrite Hr2, Hr1].
    + intros [= <- <- <-]. destruct (law_close n k2) as (Ho2 & Hs2 & Hr2 & Hw2). cbn.
      split_and!; [done| |].
      * intros fd Hin. rewrite Hs2, Hs1, Hr2, Hr1. apply Hs. by apply Hne.
      * left. split_and!; [lia| |lia]. rewrite Ho2, Ho1, Ho. set_solver.
Qed.

(** The errors of accept(2) that mean the process or the system is out of
    descriptors or memory. *)
Definition resource_limit (e : errno) : Prop := e ∈ [EMFILE; ENFILE; ENOBUFS; ENOMEM].

#[global] Instance resource_limit_dec e : Decision (resource_limit e).
Proof. apply _. Defined.

Lemma out_of_resources_spec e : out_of_resources e = bool_decide (resource_limit e).
Proof. by destruct e. Qed.

(** [*exhausted] is set exactly by those, and then nothing else happened. *)
Lemma accept_connection_exhausted t (k : K) a t' k' :
  accept_connection t k = (a, t', k') →
  let '(n, _, k1) := sys_accept (ts_fd t) k in
  (ac_exhausted a = true ↔ (n < 0)%Z ∧ resource_limit (sys_errno k1))
  ∧ (ac_exhausted a = true → (ac_fd a < 0)%Z ∧ ac_again a = false ∧ k' = k1).
Proof.
  unfold accept_connection. destruct (sys_accept (ts_fd t) k) as [[n addr] k1].
  destruct (Z.ltb_spec n 0) as [Hn|Hn].
  - rewrite out_of_resources_spec. unfold resource_limit.
    destruct (sys_errno k1); intros [= <- <- <-]; cbn; (split; [|done]);
      (split; [intros Htrue; first [done|split; [done|set_solver]]|intros [_ Hin]; first [done|set_solver]]).
  - destruct (set_nonblocking n k1) as [nb k2]. destruct nb; cbn [negb];
      [destruct (set_tcp_nodelay n k2)|]; intros [= <- <- <-]; cbn; (split; [|done]); split; try done; lia.
Qed.

End Laws.
