(* ===== verification/ExchangeServer.v ===== *)
(** * ExchangeServer: the server (class [ExchangeServer] of src/exchange_server.cpp)

    The members of the class are the fields of [Server]; the kernel and the
    text printed so far are two more.  Every member function is a program in
    the state monad of Prelude.v.  A [ClientSession&] is the key of its entry
    in [sessions_]: reading or writing through it when the entry has been
    erased is [Dangling].  Loops whose length depends on what the kernel
    answers run on a fuel that ServerLoop.v proves sufficient. *)

From S2P Require Import Prelude CxxString MessageParser OrderBook Kernel EventLoop.
From S2P Require Import SocketUtils ClientSession TcpServer.

Definition kMaxLineBytes : Z := 64 * 1024.
Definition kMaxOutputBytes : Z := 16 * 1024 * 1024.
Definition kReadChunk : Z := 65536.
Definition kVerboseConnectionLimit : Z := 64.
Definition kConnectionLogInterval : Z := 1000.

(** [kAcceptBackoffSeconds], in nanoseconds. *)
Definition kAcceptBackoff : Z := 1000000000.

Record Server (L K : Type) : Type := mkServer {
  listener_ : TCPServer;
  loop_ : L;
  verbose_ : bool;
  send_buffer_bytes_ : Z;
  sessions_ : gmap Z ClientSession;
  subscribers_ : gmap bytes (gset Z);
  usernames_ : gset bytes;
  closed_fds_ : list Z;
  book_ : OrderBook;
  accept_resume_at_ : Z;
  kern : K;
  log_ : list printed
}.

Arguments mkServer {L K}.
Arguments listener_ {L K} _.
Arguments loop_ {L K} _.
Arguments verbose_ {L K} _.
Arguments send_buffer_bytes_ {L K} _.
Arguments sessions_ {L K} _.
Arguments subscribers_ {L K} _.
Arguments usernames_ {L K} _.
Arguments closed_fds_ {L K} _.
Arguments book_ {L K} _.
Arguments accept_resume_at_ {L K} _.
Arguments kern {L K} _.
Arguments log_ {L K} _.

(** The order in which the standard library's hash tables enumerate their
    elements is unspecified: it is a function of the whole server state about
    which only [HashOrderLaws] is known. *)
Class HashOrder (S : Type) : Type := {
  fd_order : S → gset Z → list Z;
  name_order : S → gset bytes → list bytes
}.

Class HashOrderLaws (S : Type) `{!HashOrder S} : Prop := {
  fd_order_perm (s : S) X : fd_order s X ≡ₚ elements X;
  name_order_perm (s : S) X : name_order s X ≡ₚ elements X
}.

(** [monotonic_seconds()], in nanoseconds. *)
Definition monotonic_seconds `{!Kernel K} (k : K) : Z * K :=
  let '((sec, nsec), k) := sys_clock_gettime k in (sec * 1000000000 + nsec, k)%Z.

Lemma law_clock `{!Kernel K, !KernelView K, !KernelLaws K} (k : K) :
  quiet k (monotonic_seconds k).2 ∧ (0 ≤ (monotonic_seconds k).1)%Z.
Proof.
  unfold monotonic_seconds. pose proof (law_clock_gettime k) as [Hq Ht].
  destruct (sys_clock_gettime k) as [[sec nsec] k']. cbn in *. split; [done|lia].
Qed.

Section Server.
Context {L K : Type}.

Abbreviation server := (Server L K).

Definition set_listener (v : TCPServer) (s : server) : server :=
  mkServer v (loop_ s) (verbose_ s) (send_buffer_bytes_ s) (sessions_ s) (subscribers_ s)
    (usernames_ s) (closed_fds_ s) (book_ s) (accept_resume_at_ s) (kern s) (log_ s).

Definition set_loop (v : L) (s : server) : server :=
  mkServer (listener_ s) v (verbose_ s) (send_buffer_bytes_ s) (sessions_ s) (subscribers_ s)
    (usernames_ s) (closed_fds_ s) (book_ s) (accept_resume_at_ s) (kern s) (log_ s).

Definition set_sessions (v : gmap Z ClientSession) (s : server) : server :=
  mkServer (listener_ s) (loop_ s) (verbose_ s) (send_buffer_bytes_ s) v (subscribers_ s)
    (usernames_ s) (closed_fds_ s) (book_ s) (accept_resume_at_ s) (kern s) (log_ s).

Definition set_subscribers (v : gmap bytes (gset Z)) (s : server) : server :=
  mkServer (listener_ s) (loop_ s) (verbose_ s) (send_buffer_bytes_ s) (sessions_ s) v
    (usernames_ s) (closed_fds_ s) (book_ s) (accept_resume_at_ s) (kern s) (log_ s).

Definition set_usernames (v : gset bytes) (s : server) : server :=
  mkServer (listener_ s) (loop_ s) (verbose_ s) (send_buffer_bytes_ s) (sessions_ s)
    (subscribers_ s) v (closed_fds_ s) (book_ s) (accept_resume_at_ s) (kern s) (log_ s).

Definition set_closed (v : list Z) (s : server) : server :=
  mkServer (listener_ s) (loop_ s) (verbose_ s) (send_buffer_bytes_ s) (sessions_ s)
    (subscribers_ s) (usernames_ s) v (book_ s) (accept_resume_at_ s) (kern s) (log_ s).

Definition set_book (v : OrderBook) (s : server) : server :=
  mkServer (listener_ s) (loop_ s) (verbose_ s) (send_buffer_bytes_ s) (sessions_ s)
    (subscribers_ s) (usernames_ s) (closed_fds_ s) v (accept_resume_at_ s) (kern s) (log_ s).

Definition set_resume (v : Z) (s : server) : server :=
  mkServer (listener_ s) (loop_ s) (verbose_ s) (send_buffer_bytes_ s) (sessions_ s)
    (subscribers_ s) (usernames_ s) (closed_fds_ s) (book_ s) v (kern s) (log_ s).

Definition set_kern (v : K) (s : server) : server :=
  mkServer (listener_ s) (loop_ s) (verbose_ s) (send_buffer_bytes_ s) (sessions_ s)
    (subscribers_ s) (usernames_ s) (closed_fds_ s) (book_ s) (accept_resume_at_ s) v (log_ s).

Definition set_log (v : list printed) (s : server) : server :=
  mkServer (listener_ s) (loop_ s) (verbose_ s) (send_buffer_bytes_ s) (sessions_ s)
    (subscribers_ s) (usernames_ s) (closed_fds_ s) (book_ s) (accept_resume_at_ s) (kern s) v.

Abbreviation SM := (M server).

(** A call that only touches the kernel. *)
Definition sys {A : Type} (call : K → A * K) : SM A :=
  λ s, let '(a, k) := call (kern s) in Done (a, set_kern k s).

Definition print (text : bytes) : SM unit := modify (λ s, set_log (log_ s ++ [Stdout text]) s).
Definition eprint (text : bytes) : SM unit := modify (λ s, set_log (log_ s ++ [Stderr text]) s).

(** [sessions_.find(fd) != sessions_.end()] *)
Definition is_session (fd : Z) : SM bool := gets (λ s, bool_decide (is_Some (sessions_ s !! fd))).

(** Reading through a [ClientSession&], and writing through it. *)
Definition deref_session (fd : Z) : SM ClientSession :=
  λ s, match sessions_ s !! fd with Some c => Done (c, s) | None => Dangling end.

Definition assign (fd : Z) (f : ClientSession → ClientSession) : SM unit :=
  λ s, match sessions_ s !! fd with
       | Some c => Done (tt, set_sessions (<[fd := f c]> (sessions_ s)) s)
       | None => Dangling
       end.

(** [sessions_[fd]], which creates an absent entry. *)
Definition session_ref (fd : Z) : SM ClientSession :=
  λ s, match sessions_ s !! fd with
       | Some c => Done (c, s)
       | None => Done (default_session, set_sessions (<[fd := default_session]> (sessions_ s)) s)
       end.

Definition sessions_size (s : server) : Z := Z.of_nat (base.size (sessions_ s)).

Context `{!Kernel K, !EventLoopI K L, !HashOrder server}.

Definition errno_now : SM errno := gets (λ s, sys_errno (kern s)).

Definition lift_add (fd : Z) (r w : bool) : SM bool :=
  λ s, obind (loop_add (loop_ s) fd r w (kern s))
             (λ '(ok, l, k), Done (ok, set_kern k (set_loop l s))).

Definition lift_update (fd : Z) (r w : bool) : SM bool :=
  λ s, obind (loop_update (loop_ s) fd r w (kern s))
             (λ '(ok, l, k), Done (ok, set_kern k (set_loop l s))).

Definition lift_remove (fd : Z) : SM unit :=
  λ s, obind (loop_remove (loop_ s) fd (kern s))
             (λ '(l, k), Done (tt, set_kern k (set_loop l s))).

Definition lift_wait (timeout : Z) : SM (Z * list Event) :=
  λ s, obind (loop_wait (loop_ s) timeout (kern s))
             (λ '(n, evs, l, k), Done (n, evs, set_kern k (set_loop l s))).

Definition lift_accept : SM AcceptResult :=
  λ s, let '(a, t, k) := accept_connection (listener_ s) (kern s) in
       Done (a, set_kern k (set_listener t s)).

(** [close(fd)] *)
Definition close_fd (fd : Z) : SM unit := sys (λ k, (tt, sys_close fd k)).

(** [book_.remove_orders_of(fd)] *)
Definition lift_remove_orders (fd : Z) : SM unit :=
  λ s, obind (remove_orders_of (book_ s) fd) (λ b, Done (tt, set_book b s)).

(** *** Connection lifecycle *)

Definition log_connection_count (message : bytes) (clients : Z) : SM unit :=
  let verbose_scale := (clients <=? kVerboseConnectionLimit)%Z in
  if negb verbose_scale && negb (clients `mod` kConnectionLogInterval =? 0)%Z then ret tt
  else print (c_str message ++ lit " (" ++ to_string clients ++ lit " clients)" ++ [LF]).

Definition pause_accepting : SM unit :=
  let* s := get in
  if negb (accept_resume_at_ s =? 0)%Z then ret tt
  else
    let* now := sys monotonic_seconds in
    modify (set_resume (now + kAcceptBackoff)) ;;;
    let* _ := lift_update (ts_fd (listener_ s)) false false in
    let* s := get in
    eprint (lit "exchange_server: " ++ c_str (ts_error (listener_ s))
            ++ lit "; not accepting for 1s (" ++ to_string (sessions_size s)
            ++ lit " clients connected)" ++ [LF]).

Definition resume_accepting_if_due : SM unit :=
  let* s := get in
  if (accept_resume_at_ s =? 0)%Z then ret tt
  else
    let* now := sys monotonic_seconds in
    if (now <? accept_resume_at_ s)%Z then ret tt
    else
      modify (set_resume 0) ;;;
      let* _ := lift_update (ts_fd (listener_ s)) true false in
      ret tt.

(** The rest of a pass of the loop in [accept_pending], for a descriptor
    that accept(2) returned. *)
Definition admit_client (fd : Z) (peer : bytes) : SM unit :=
  let* size := gets send_buffer_bytes_ in
  when (0 <? size)%Z (let* _ := sys (set_send_buffer fd size) in ret tt) ;;;
  let session := set_peer peer (new_session fd) in
  (* emplace leaves an existing entry alone *)
  modify (λ s, match sessions_ s !! fd with
               | Some _ => s
               | None => set_sessions (<[fd := session]> (sessions_ s)) s
               end) ;;;
  let* ok := lift_add fd true false in
  if negb ok then
    modify (λ s, set_sessions (delete fd (sessions_ s)) s) ;;;
    close_fd fd
  else
    let* c := session_ref fd in
    let* n := gets sessions_size in
    log_connection_count (lit "[+] connection accepted: fd " ++ to_string fd
                          ++ lit " from " ++ cs_peer c) n.

Fixpoint accept_loop (fuel : nat) : SM unit :=
  match fuel with
  | O => out_of_fuel
  | S fuel =>
      let* a := lift_accept in
      if (ac_fd a <? 0)%Z then
        if ac_again a then ret tt
        else if ac_exhausted a then pause_accepting
        else
          let* e := gets (λ s, ts_error (listener_ s)) in
          when (negb (bool_decide (e = [])))
            (eprint (lit "exchange_server: " ++ c_str e ++ [LF]))
      else
        admit_client (ac_fd a) (ac_peer a) ;;;
        accept_loop fuel
  end.

Definition accept_pending : SM unit :=
  let* k := gets kern in accept_loop (S (sys_work k)).

(** [subscribers_[instrument].erase(fd)] *)
Definition erase_subscriber (fd : Z) (instrument : bytes) : SM unit :=
  modify (λ s, set_subscribers
    (<[instrument := default ∅ (subscribers_ s !! instrument) ∖ {[fd]}]> (subscribers_ s)) s).

Definition drop_session (fd : Z) (reason : bytes) : SM unit :=
  let* s := get in
  match sessions_ s !! fd with
  | None => ret tt
  | Some session =>
      for_each (name_order s (cs_subscriptions session)) (erase_subscriber fd) ;;;
      when (cs_logged_in session)
        (modify (λ s, set_usernames (usernames_ s ∖ {[cs_username session]}) s)) ;;;
      lift_remove_orders fd ;;;
      let* n := gets sessions_size in
      log_connection_count
        (lit "[-] connection closed: " ++ label session ++ lit " - " ++ reason)
        (wrap_size (n - 1)) ;;;
      modify (λ s, set_sessions (delete fd (sessions_ s)) s) ;;;
      lift_remove fd ;;;
      modify (λ s, set_closed (closed_fds_ s ++ [fd]) s)
  end.

Definition reap_closed : SM unit :=
  let* s := get in
  for_each (closed_fds_ s) close_fd ;;;
  modify (set_closed []).

Definition shutdown_all : SM unit :=
  let* s := get in
  print (lit "Exchange Server shutting down; closing " ++ to_string (sessions_size s)
         ++ lit " connection(s)." ++ [LF]) ;;;
  for_each (fd_order s (dom (sessions_ s)))
    (λ fd, sys (λ k, (tt, sys_shutdown fd SHUT_RDWR k)) ;;; close_fd fd) ;;;
  modify (set_sessions ∅) ;;;
  reap_closed.

(** *** Output path *)

(** The loop of [flush]; [false] when the session was dropped.  The pointer
    given to send(2) must stay inside the buffer. *)
Fixpoint flush_loop (fuel : nat) (fd : Z) : SM bool :=
  match fuel with
  | O => out_of_fuel
  | S fuel =>
      let* session := deref_session fd in
      if has_pending_output session then
        if negb (pending_bytes session =? str_size (pending session))%Z then dangling
        else
        let* written := sys (sys_send (cs_fd session) (pending session)) in
        let* e := errno_now in
        if (0 <? written)%Z then
          assign fd (λ c, set_out (cs_outbuf c) (wrap_size (cs_out_start c + written)) c) ;;;
          flush_loop fuel fd
        else if (written <? 0)%Z && bool_decide (e = EINTR) then flush_loop fuel fd
        else if (written <? 0)%Z && would_block e then ret true
        else
          drop_session (cs_fd session) (lit "send() failed: " ++ sys_strerror e) ;;;
          ret false
      else ret true
  end.

(** Reclaiming the consumed prefix. *)
Definition reclaim (c : ClientSession) : ClientSession :=
  if negb (has_pending_output c) then set_out [] 0 c
  else if (kReadChunk <? cs_out_start c)%Z
       then set_out (erase0 (cs_outbuf c) (Z.to_nat (cs_out_start c))) 0 c
       else c.

Definition overflow_reason : bytes :=
  lit "output backlog exceeded " ++ to_string kMaxOutputBytes
  ++ lit " bytes (client is not reading)".

(** Reporting that a backlog appeared or went away. *)
Definition note_backlog (fd : Z) (session : ClientSession) (pending : Z) : SM unit :=
  if (0 <? pending)%Z && negb (cs_backlogged session) then
    assign fd (set_backlogged true) ;;;
    print (lit "[!] " ++ c_str (label session)
           ++ lit " is not draining its socket; buffering output (backlog now "
           ++ to_string pending ++ lit " bytes)" ++ [LF])
  else if (pending =? 0)%Z && cs_backlogged session then
    assign fd (set_backlogged false) ;;;
    print (lit "[ ] " ++ c_str (label session) ++ lit " drained its backlog" ++ [LF])
  else ret tt.

(** The end of [flush], when the backlog is within its limit. *)
Definition settle (fd : Z) (session : ClientSession) (pending : Z) : SM unit :=
  note_backlog fd session pending ;;;
  if (pending =? 0)%Z && cs_closing session then
    drop_session (cs_fd session) (lit "orderly close completed after flushing output")
  else
    let want_read := negb (cs_closing session) in
    let want_write := (0 <? pending)%Z in
    when (negb (Bool.eqb want_read (cs_read_interest session))
          || negb (Bool.eqb want_write (cs_write_interest session)))
      (assign fd (set_interest want_write want_read) ;;;
       let* _ := lift_update (cs_fd session) want_read want_write in ret tt).

(** The part of [flush] after the loop. *)
Definition flush_finish (fd : Z) : SM unit :=
  assign fd reclaim ;;;
  let* session := deref_session fd in
  let pending := pending_bytes session in
  if (kMaxOutputBytes <? pending)%Z then drop_session (cs_fd session) overflow_reason
  else settle fd session pending.

Definition flush (fd : Z) : SM unit :=
  let* session := deref_session fd in
  let* k := gets kern in
  let* alive := flush_loop (S (length (pending session) + sys_work k)) fd in
  when alive (flush_finish fd).

Definition send_to (fd : Z) (message : bytes) : SM unit :=
  let* found := is_session fd in
  when found
    (assign fd (λ c, set_out (cs_outbuf c ++ message) (cs_out_start c) c) ;;; flush fd).

Definition on_writable (fd : Z) : SM unit :=
  let* found := is_session fd in when found (flush fd).

(** *** Protocol *)

Definition begin_orderly_close (fd : Z) (reason : bytes) : SM unit :=
  let* found := is_session fd in
  when found
    (assign fd (λ c, set_inbuf [] (set_closing true c)) ;;;
     let* session := deref_session fd in
     if negb (has_pending_output session) then drop_session fd reason
     else
       sys (λ k, (tt, sys_shutdown fd SHUT_RD k)) ;;;
       assign fd (set_interest true false) ;;;
       let* _ := lift_update fd false true in ret tt).

Definition reject_wrong_role (fd : Z) (required : ClientRole) (type : CommandType) : SM bool :=
  let* session := session_ref fd in
  if bool_decide (cs_role session = Role_UNKNOWN) || bool_decide (cs_role session = required)
  then ret false
  else
    let actual := if decide (cs_role session = Role_TRADER) then lit "trader"
                  else lit "market-data" in
    send_to fd (error (verb type ++ lit " is not permitted for a " ++ actual ++ lit " client")) ;;;
    ret true.

Definition handle_login (fd : Z) (cmd : ParsedCommand) : SM unit :=
  let* rejected := reject_wrong_role fd Role_TRADER (cmd_type cmd) in
  if (rejected : bool) then ret tt
  else
    let* session := session_ref fd in
    if cs_logged_in session then
      send_to fd (error (lit "Already logged in as " ++ cs_username session))
    else
      match cmd_args cmd with
      | [] => dangling (* args[0] of an empty vector *)
      | username :: _ =>
          let* names := gets usernames_ in
          if bool_decide (username ∈ names) then
            send_to fd (error (lit "Username " ++ username ++ lit " is already in use"))
          else
            assign fd (λ c, set_login username true (set_role Role_TRADER c)) ;;;
            modify (λ s, set_usernames ({[username]} ∪ usernames_ s) s) ;;;
            print (lit "[=] fd " ++ to_string fd ++ lit " is trader '" ++ c_str username
                   ++ lit "'" ++ [LF]) ;;;
            send_to fd ok
      end.

Definition handle_subscription (fd : Z) (cmd : ParsedCommand) : SM unit :=
  let* rejected := reject_wrong_role fd Role_MARKET_DATA (cmd_type cmd) in
  if (rejected : bool) then ret tt
  else
    let* session := session_ref fd in
    let subscribing := bool_decide (cmd_type cmd = SUBSCRIBE) in
    if negb subscribing && negb (bool_decide (cmd_instrument cmd ∈ cs_subscriptions session)) then
      send_to fd (error (lit "Not subscribed to " ++ cmd_instrument cmd))
    else
      when (bool_decide (cs_role session = Role_UNKNOWN))
        (assign fd (set_role Role_MARKET_DATA) ;;;
         print (lit "[=] fd " ++ to_string fd ++ lit " is a market-data client" ++ [LF])) ;;;
      (if subscribing then
         assign fd (λ c, set_subscriptions ({[cmd_instrument cmd]} ∪ cs_subscriptions c) c) ;;;
         modify (λ s, set_subscribers
           (<[cmd_instrument cmd :=
               {[fd]} ∪ default ∅ (subscribers_ s !! cmd_instrument cmd)]> (subscribers_ s)) s)
       else
         assign fd (λ c, set_subscriptions (cs_subscriptions c ∖ {[cmd_instrument cmd]}) c) ;;;
         erase_subscriber fd (cmd_instrument cmd)) ;;;
      send_to fd ok.

Definition require_logged_in_trader (fd : Z) (type : CommandType) : SM bool :=
  let* rejected := reject_wrong_role fd Role_TRADER type in
  if (rejected : bool) then ret false
  else
    let* session := session_ref fd in
    if negb (cs_logged_in session) then
      send_to fd (error (lit "Not logged in: send LOGIN <username> before trading")) ;;;
      ret false
    else ret true.

Definition publish (execution : TradeExecution) : SM unit :=
  send_to (x_buyer_fd execution)
    (bought (x_instrument execution) (x_quantity execution) (x_price execution)) ;;;
  send_to (x_seller_fd execution)
    (sold (x_instrument execution) (x_quantity execution) (x_price execution)) ;;;
  let update := trade (x_instrument execution) (x_quantity execution) (x_price execution) in
  let* s := get in
  match subscribers_ s !! x_instrument execution with
  | None => ret tt
  | Some set => for_each (fd_order s set) (λ subscriber_fd, send_to subscriber_fd update)
  end.

(** The loop of [handle_order] over the executions. *)
Fixpoint publish_all (fd : Z) (executions : list TradeExecution) : SM unit :=
  match executions with
  | [] => ret tt
  | execution :: executions =>
      publish execution ;;;
      let* found := is_session fd in
      if negb found then ret tt else publish_all fd executions
  end.

Definition lift_add_order (fd : Z) (instrument : bytes) (side : Side) (quantity price : Z)
    : SM (Z * list TradeExecution) :=
  λ s, obind (add_order (book_ s) fd instrument side quantity price)
             (λ '(id, b, xs), Done (id, xs, set_book b s)).

Definition handle_order (fd : Z) (cmd : ParsedCommand) : SM unit :=
  let* allowed := require_logged_in_trader fd (cmd_type cmd) in
  if negb allowed then ret tt
  else
    let side := if decide (cmd_type cmd = BUY) then Side_BUY else Side_SELL in
    let* r := lift_add_order fd (cmd_instrument cmd) side (cmd_quantity cmd) (cmd_price cmd) in
    send_to fd (order_accepted r.1) ;;;
    publish_all fd r.2.

Definition handle_cancel (fd : Z) (cmd : ParsedCommand) : SM unit :=
  let* allowed := require_logged_in_trader fd (cmd_type cmd) in
  if negb allowed then ret tt
  else
    let* r := (λ s, obind (cancel_order (book_ s) (cmd_order_id cmd) fd)
                          (λ r, Done (r, match r with inr b => set_book b s | inl _ => s end))) in
    match r with
    | inr _ => send_to fd (order_cancelled (cmd_order_id cmd))
    | inl e => send_to fd (error e)
    end.

Definition handle_message (fd : Z) (line : bytes) : SM unit :=
  let cmd := parse line in
  if negb (cmd_valid cmd) then send_to fd (error (cmd_error cmd))
  else
    match cmd_type cmd with
    | QUIT => begin_orderly_close fd (lit "client sent QUIT")
    | LOGIN => handle_login fd cmd
    | SUBSCRIBE | UNSUBSCRIBE => handle_subscription fd cmd
    | BUY | SELL => handle_order fd cmd
    | CANCEL => handle_cancel fd cmd
    | UNKNOWN => send_to fd (error (lit "Unknown command"))
    end.

(** *** Input path *)

Definition oversized_text : bytes :=
  lit "Message exceeds " ++ to_string kMaxLineBytes ++ lit " bytes without a newline".

Definition quote : ascii := ascii_of_nat 34.

(** Taking the line that ends at [newline] out of the buffer and handling it. *)
Definition handle_line (fd : Z) (session : ClientSession) (newline : nat) : SM unit :=
  let line := chomp_cr (substr0 (cs_inbuf session) newline) in
  assign fd (λ c, set_inbuf (erase0 (cs_inbuf c) (newline + 1)) c) ;;;
  let* verbose := gets verbose_ in
  when verbose
    (print (lit "[msg ] " ++ c_str (label session) ++ lit ": complete message "
            ++ c_str (quote :: line ++ [quote]) ++ [LF])) ;;;
  handle_message fd line.

Fixpoint consume_loop (fuel : nat) (fd : Z) : SM bool :=
  match fuel with
  | O => out_of_fuel
  | S fuel =>
      let* found := is_session fd in
      if negb found then ret false
      else
        let* session := deref_session fd in
        match find_char LF (cs_inbuf session) with
        | None =>
            if (kMaxLineBytes <? str_size (cs_inbuf session))%Z then
              send_to fd (error oversized_text) ;;;
              begin_orderly_close fd (lit "oversized application message") ;;;
              ret false
            else ret true
        | Some newline =>
            handle_line fd session newline ;;;
            let* found := is_session fd in
            if negb found then ret false
            else
              let* session := session_ref fd in
              if cs_closing session then ret true else consume_loop fuel fd
        end
  end.

Definition consume_messages (fd : Z) : SM bool :=
  let* s := get in
  consume_loop (S (length (default [] (cs_inbuf <$> sessions_ s !! fd)))) fd.

Fixpoint read_loop (fuel : nat) (fd : Z) : SM unit :=
  match fuel with
  | O => out_of_fuel
  | S fuel =>
      let* found := is_session fd in
      if negb found then ret tt
      else
        let* session := deref_session fd in
        if cs_closing session then ret tt
        else
          let* r := sys (sys_recv fd kReadChunk) in
          let* e := errno_now in
          let '(received, buffer) := r in
          if (0 <? received)%Z then
            let* verbose := gets verbose_ in
            when verbose
              (print (lit "[recv] " ++ c_str (label session) ++ lit ": " ++ to_string received
                      ++ lit " byte(s) from the TCP stream" ++ [LF])) ;;;
            assign fd (λ c, set_inbuf (cs_inbuf c ++ buffer) c) ;;;
            let* more := consume_messages fd in
            if negb more then ret tt
            else if (received <? kReadChunk)%Z then ret tt
            else read_loop fuel fd
          else if (received =? 0)%Z then
            begin_orderly_close fd (lit "peer closed its sending direction (FIN)")
          else if bool_decide (e = EINTR) then read_loop fuel fd
          else if would_block e then ret tt
          else drop_session fd (lit "recv() failed: " ++ sys_strerror e)
  end.

Definition on_readable (fd : Z) : SM unit :=
  let* k := gets kern in read_loop (S (sys_work k)) fd.

(** *** The main loop *)

(** The body of the loop over the events, after the test of the stop flag. *)
Definition handle_event (event : Event) : SM unit :=
  let* lfd := gets (λ s, ts_fd (listener_ s)) in
  if (ev_fd event =? lfd)%Z then accept_pending
  else
    let* found := is_session (ev_fd event) in
    if negb found then ret tt
    else
      when (ev_writable event) (on_writable (ev_fd event)) ;;;
      let* found := is_session (ev_fd event) in
      if negb found then ret tt
      else
        when (ev_readable event) (on_readable (ev_fd event)) ;;;
        let* found := is_session (ev_fd event) in
        if negb found then ret tt
        else
          when (ev_hangup event)
            (drop_session (ev_fd event) (lit "socket error reported by the event loop")).

Fixpoint handle_events (events : list Event) : SM unit :=
  match events with
  | [] => ret tt
  | event :: events =>
      let* stop := sys sys_stopped in
      if (stop : bool) then ret tt else handle_event event ;;; handle_events events
  end.

(** One pass of [while (!g_stop)]; [false] leaves the loop. *)
Definition iteration : SM bool :=
  let* stop := sys sys_stopped in
  if (stop : bool) then ret false
  else
    let* r := lift_wait 1000 in
    let '(ready, events) := r in
    let* e := errno_now in
    if (ready <? 0)%Z then
      if bool_decide (e = EINTR) then ret true
      else
        eprint (lit "exchange_server: event wait failed: " ++ sys_strerror e ++ [LF]) ;;;
        ret false
    else
      resume_accepting_if_due ;;;
      handle_events events ;;;
      reap_closed ;;;
      ret true.

Fixpoint run_loop (fuel : nat) : SM unit :=
  match fuel with
  | O => out_of_fuel
  | S fuel =>
      let* continue := iteration in
      if (continue : bool) then run_loop fuel else ret tt
  end.

Definition run (fuel : nat) : SM unit := run_loop fuel ;;; shutdown_all.

End Server.
