(* ===== verification/ServerKept.v ===== *)
(** * ServerKept: invariants of the server's code, operation by operation

    A property of server states that the small steps of the code maintain is
    maintained by its member functions and by the main loop.  [Kept P speaks
    leaves] says which small steps maintain [P]; requests are only handled for
    clients in [speaks], and only clients in [leaves] may be read from, closed
    or dropped.  The lemmas go through the code once, for every such [P];
    ServerResources.v, ServerProcess.v and ServerService.v use them.

    These are statements of partial correctness ([ensures]); that the code
    returns is proved in ServerLoop.v. *)

From S2P Require Import Prelude CxxString MessageParser OrderBook Kernel EventLoop SocketUtils ClientSession.
From S2P Require Import TcpServer ExchangeServer.

Section Kept.
Context `{!Kernel K} `{!EventLoopI K L} `{!HashOrder (Server L K)}.

Abbreviation server := (Server L K).
Implicit Types (s : server) (P : server → Prop) (c : ClientSession).

(** The part of a state that a change of tables, book, counters or log leaves
    alone. *)
Definition wiring s : gmap Z ClientSession * L * K * list Z * TCPServer :=
  (sessions_ s, loop_ s, kern s, closed_fds_ s, listener_ s).

(** The part of a session that the input and output paths work on. *)
Definition wire_part c : Z * bytes * bytes * Z * bool :=
  (cs_fd c, cs_inbuf c, cs_outbuf c, cs_out_start c, cs_closing c).

Class Kept P (speaks leaves : Z → Prop) : Prop := {
  kept_wiring s s' : wiring s' = wiring s → P s → P s';
  kept_assign fd g : (∀ c, wire_part (g c) = wire_part c) → maintains P (assign fd g);
  kept_ref fd : speaks fd → maintains P (session_ref fd);
  kept_send fd m : maintains P (send_to fd m);
  kept_writable fd : maintains P (on_writable fd);
  kept_update fd r w : maintains P (lift_update fd r w);
  kept_clock : maintains P (sys monotonic_seconds);
  kept_stopped : maintains P (sys sys_stopped);
  kept_accept : maintains P accept_pending;
  kept_recv fd : leaves fd → maintains P (sys (sys_recv fd kReadChunk));
  kept_inbuf fd g : leaves fd → maintains P (assign fd (λ c, set_inbuf (g c) c));
  kept_close fd reason : leaves fd → maintains P (begin_orderly_close fd reason);
  kept_drop fd reason : leaves fd → maintains P (drop_session fd reason);
  kept_reap : maintains P reap_closed
}.

(** A change of the kernel, and one of tables, book, counters or log. *)
Lemma maintains_sys {A} P (f : K → A * K) :
  (∀ s, P s → P (set_kern (f (kern s)).2 s)) → maintains P (sys f).
Proof.
  intros Hf s a s' Hrun HP. apply Hf in HP. unfold sys in Hrun. destruct (f (kern s)). by injection Hrun as _ <-.
Qed.

Lemma maintains_wiring {A} P (m : M server A) :
  (∀ s s', wiring s' = wiring s → P s → P s') → keeps wiring m → maintains P m.
Proof. intros HP Hm. by eapply keeps_maintains. Qed.

(** What dropping a client does to the wiring. *)
Lemma drop_session_cases fd reason s a s' :
  drop_session fd reason s = Done (a, s') →
  (sessions_ s !! fd = None ∧ s' = s)
  ∨ (is_Some (sessions_ s !! fd) ∧ ∃ l k, loop_remove (loop_ s) fd (kern s) = Done (l, k)
     ∧ wiring s' = (delete fd (sessions_ s), l, k, closed_fds_ s ++ [fd], listener_ s)).
Proof.
  unfold drop_session. unfold bind at 1. cbn [get]. destruct (sessions_ s !! fd) as [c|] eqn:Hfd; cbn.
  2: { rewrite Hfd. intros [= _ <-]. by left. }
  rewrite Hfd. intros Hrun. right. split; [done|].
  set (W := λ s1, wiring s1 = wiring s).
  assert (∀ A (m : M server A), keeps wiring m → maintains W m) as Hk.
  { intros A m Hm. eapply keeps_maintains; [exact Hm|]. unfold W. by intros s1 s2 ->. }
  refine (ensures_bind W (λ s', ∃ l k, loop_remove (loop_ s) fd (kern s) = Done (l, k) ∧ wiring s' = _)
    W _ _ _ _ s a s' Hrun eq_refl).
  { apply Hk. unfold erase_subscriber. auto with keeps. }
  intros _. apply (ensures_bind _ _ W); [apply Hk; auto with keeps|]. intros _.
  apply (ensures_bind _ _ W).
  { apply Hk. intros s1 b s2. unfold lift_remove_orders. destruct (remove_orders_of _ _); try done. by intros [= _ <-]. }
  intros _. apply (ensures_bind _ _ W); [apply Hk; auto with keeps|]. intros n.
  apply (ensures_bind _ _ W); [apply Hk; unfold log_connection_count, print; auto with keeps|]. intros _.
  intros s1 b s2. unfold bind, modify, lift_remove. cbn. intros Hrest [= Hs Hl Hkn Hc Ht].
  rewrite Hl, Hkn in Hrest. destruct (loop_remove (loop_ s) fd (kern s)) as [[l k]| | |]; try done.
  injection Hrest as _ <-. exists l, k. split; [done|]. unfold wiring. cbn. by rewrite Hs, Hc, Ht.
Qed.

Section Handlers.
Context P speaks leaves `{!Kept P speaks leaves}.

Lemma kept_keeps {A} (m : M server A) : keeps wiring m → maintains P m.
Proof. apply maintains_wiring, kept_wiring. Qed.

Lemma kept_print t : maintains P (print t).
Proof. apply kept_keeps. unfold print. auto with keeps. Qed.

Lemma kept_eprint t : maintains P (eprint t).
Proof. apply kept_keeps. unfold eprint. auto with keeps. Qed.

Lemma kept_erase_subscriber fd i : maintains P (erase_subscriber fd i).
Proof. apply kept_keeps. unfold erase_subscriber. auto with keeps. Qed.

Lemma kept_add_order fd i side q p : maintains P (lift_add_order fd i side q p).
Proof.
  apply kept_keeps. intros s a s'. unfold lift_add_order. destruct (add_order _ _ _ _ _ _) as [[[id b] xs]| | |]; try done.
  by intros [= _ <-].
Qed.

Lemma kept_cancel id fd :
  maintains P (λ s, obind (cancel_order (book_ s) id fd)
                          (λ r, Done (r, match r with inr b => set_book b s | inl _ => s end))).
Proof.
  apply kept_keeps. intros s a s'. destruct (cancel_order _ _ _) as [[e|b]| | |]; try done; by intros [= _ <-].
Qed.

Lemma kept_is_session fd : maintains P (is_session fd).
Proof. apply maintains_gets. Qed.

Lemma kept_deref fd : maintains P (deref_session fd).
Proof. intros s c s'. unfold deref_session. destruct (sessions_ s !! fd); [by intros [= _ <-]|done]. Qed.

Lemma kept_errno : maintains P errno_now.
Proof. apply maintains_gets. Qed.

(** The steps that maintain [P] by assumption. *)
Ltac kept_step :=
  first [ apply kept_send | apply kept_writable | apply kept_update | apply kept_clock | apply kept_stopped
        | apply kept_accept | apply kept_reap | apply kept_assign; intros; reflexivity
        | apply kept_ref; assumption | apply kept_recv; assumption | apply kept_inbuf; assumption
        | apply kept_close; assumption | apply kept_drop; assumption ].

Hint Extern 1 (ensures P _ P) => kept_step : maintains.
Hint Resolve kept_print kept_eprint kept_erase_subscriber kept_add_order kept_cancel kept_is_session kept_deref
  kept_errno : maintains.

(** Changes of the tables. *)
Hint Extern 2 (ensures _ (modify _) _) => (apply kept_keeps; apply keeps_modify; reflexivity) : maintains.

Lemma kept_reject_wrong_role fd required type : speaks fd → maintains P (reject_wrong_role fd required type).
Proof. intros Hs. unfold reject_wrong_role. auto 20 with maintains. Qed.

Hint Resolve kept_reject_wrong_role : maintains.

Lemma kept_login fd cmd : speaks fd → maintains P (handle_login fd cmd).
Proof. intros Hs. unfold handle_login. auto 20 with maintains. Qed.

Lemma kept_subscription fd cmd : speaks fd → maintains P (handle_subscription fd cmd).
Proof. intros Hs. unfold handle_subscription. auto 20 with maintains. Qed.

Lemma kept_require fd type : speaks fd → maintains P (require_logged_in_trader fd type).
Proof. intros Hs. unfold require_logged_in_trader. auto 20 with maintains. Qed.

Lemma kept_publish x : maintains P (publish x).
Proof. unfold publish. auto 20 with maintains. Qed.

Hint Resolve kept_require kept_publish : maintains.

Lemma kept_publish_all fd xs : maintains P (publish_all fd xs).
Proof. induction xs as [|x xs IH]; cbn [publish_all]; auto 20 with maintains. Qed.

Hint Resolve kept_publish_all : maintains.

Lemma kept_order fd cmd : speaks fd → maintains P (handle_order fd cmd).
Proof. intros Hs. unfold handle_order. auto 20 with maintains. Qed.

Lemma kept_handle_cancel fd cmd : speaks fd → maintains P (handle_cancel fd cmd).
Proof. intros Hs. unfold handle_cancel. auto 20 with maintains. Qed.

Hint Resolve kept_login kept_subscription kept_order kept_handle_cancel : maintains.

(** A request that is not QUIT. *)
Lemma kept_request fd line :
  speaks fd → cmd_valid (parse line) && bool_decide (cmd_type (parse line) = QUIT) = false →
  maintains P (handle_message fd line).
Proof.
  intros Hs Hq. unfold handle_message. destruct (cmd_valid (parse line)); cbn in Hq |- *; [|auto with maintains].
  apply bool_decide_eq_false in Hq. destruct (cmd_type (parse line)); by auto with maintains.
Qed.

Lemma kept_message fd line : speaks fd → leaves fd → maintains P (handle_message fd line).
Proof. intros Hs Hl. unfold handle_message. auto 20 with maintains. Qed.

Hint Resolve kept_message : maintains.

Lemma kept_line fd c n : speaks fd → leaves fd → maintains P (handle_line fd c n).
Proof. intros Hs Hl. unfold handle_line. auto 20 with maintains. Qed.

Hint Resolve kept_line : maintains.

Lemma kept_consume fd : speaks fd → leaves fd → maintains P (consume_messages fd).
Proof.
  intros Hs Hl. assert (∀ fuel, maintains P (consume_loop fuel fd)) as Hloop.
  { induction fuel as [|fuel IH]; cbn [consume_loop]; auto 20 with maintains. }
  unfold consume_messages. auto with maintains.
Qed.

Hint Resolve kept_consume : maintains.

Lemma kept_readable fd : speaks fd → leaves fd → maintains P (on_readable fd).
Proof.
  intros Hs Hl. assert (∀ fuel, maintains P (read_loop fuel fd)) as Hloop.
  { induction fuel as [|fuel IH]; cbn [read_loop]; auto 20 with maintains. }
  unfold on_readable. auto with maintains.
Qed.

Hint Resolve kept_readable : maintains.

Lemma kept_resume : maintains P resume_accepting_if_due.
Proof. unfold resume_accepting_if_due. auto 20 with maintains. Qed.

(** An event of a client in [speaks] and [leaves]. *)
Lemma kept_event_of e : speaks (ev_fd e) → leaves (ev_fd e) → maintains P (handle_event e).
Proof. intros Hs Hl. unfold handle_event. auto 20 with maintains. Qed.

(** An event, if connected clients are in [speaks] and [leaves]. *)
Lemma kept_event e :
  (∀ s fd, P s → is_Some (sessions_ s !! fd) → speaks fd ∧ leaves fd) → maintains P (handle_event e).
Proof.
  intros Hpres s a s' Hrun HP.
  destruct (sessions_ s !! ev_fd e) as [c|] eqn:Hfd.
  - destruct (Hpres s (ev_fd e) HP) as [Hs Hl]; [by rewrite Hfd|]. by eapply (kept_event_of e Hs Hl).
  - revert Hrun. unfold handle_event, bind, gets, is_session. cbn. destruct (_ =? _)%Z.
    + intros Hrun. by eapply (kept_accept (Kept := Kept0)).
    + rewrite Hfd. cbn. by intros [= _ <-].
Qed.

Lemma kept_events es : (∀ e, e ∈ es → maintains P (handle_event e)) → maintains P (handle_events es).
Proof.
  induction es as [|e es IH]; intros He; cbn [handle_events]; [auto with maintains|].
  apply maintains_bind; [auto with maintains|]. intros stop. apply ensures_if; [auto with maintains|].
  apply maintains_bind; [apply He; left|]. intros _. apply IH. intros e' He'. apply He. by right.
Qed.

(** A pass of the main loop, for a wait that keeps [P] and reports events that
    do. *)
Lemma kept_iteration :
  (∀ s n es s', lift_wait 1000 s = Done (n, es, s') → P s → P s' ∧ ∀ e, e ∈ es → maintains P (handle_event e)) →
  maintains P iteration.
Proof.
  intros Hwait. unfold iteration. apply maintains_bind; [auto with maintains|]. intros stop.
  apply ensures_if; [auto with maintains|]. intros s b s' Hrun HP. unfold bind at 1, obind in Hrun.
  destruct (lift_wait 1000 s) as [[[n es] s1]| | |] eqn:Hw; try done.
  destruct (Hwait s n es s1 Hw HP) as [HP1 Hes]. refine (_ s1 b s' Hrun HP1).
  apply maintains_bind; [auto with maintains|]. intros e. apply ensures_if; [auto with maintains|].
  apply maintains_bind; [apply kept_resume|]. intros _.
  apply maintains_bind; [by apply kept_events|]. auto with maintains.
Qed.

End Handlers.

(** ** Properties that survive the loss of a client

    If dropping the client [fd] and sending to it maintain [P], so does the
    whole output path. *)
Section Output.
Context P (fd : Z) (safe : Z → Prop) (H_wiring : ∀ s s', wiring s' = wiring s → P s → P s').
Context (H_safe : ∀ s c, P s → sessions_ s !! fd = Some c → safe (cs_fd c)).
Context (H_assign : ∀ g, (∀ c, cs_fd (g c) = cs_fd c) → maintains P (assign fd g)).
Context (H_drop : ∀ f reason, safe f → maintains P (drop_session f reason)).
Context (H_send : ∀ f data, maintains P (sys (sys_send f data))).
Context (H_update : ∀ f r w, maintains P (lift_update f r w)).

(** The client that is read from the table may be dropped. *)
Lemma robust_deref {A} (g : ClientSession → M server A) :
  (∀ c, safe (cs_fd c) → maintains P (g c)) → maintains P (let* c := deref_session fd in g c).
Proof.
  intros Hg s a s' Hrun HP. unfold bind, deref_session in Hrun. destruct (sessions_ s !! fd) as [c|] eqn:Hfd; [|done].
  exact (Hg c (H_safe s c HP Hfd) s a s' Hrun HP).
Qed.

Hint Resolve robust_deref kept_is_session kept_errno H_drop H_send H_update : maintains.
Hint Extern 1 (ensures P (assign _ _) P) => (apply H_assign; intros; reflexivity) : maintains.

Lemma robust_print t : maintains P (print t).
Proof. apply maintains_wiring; [done|]. unfold print. auto with keeps. Qed.

Hint Resolve robust_print : maintains.

Lemma reclaim_fd c : cs_fd (reclaim c) = cs_fd c.
Proof. unfold reclaim. destruct (negb _); [done|]. by destruct (_ <? _)%Z. Qed.

Lemma robust_flush_loop fuel : maintains P (flush_loop fuel fd).
Proof.
  induction fuel as [|fuel IH]; cbn [flush_loop]; [auto with maintains|]. apply robust_deref. intros c Hc.
  auto 20 with maintains.
Qed.

Lemma robust_settle c n : safe (cs_fd c) → maintains P (settle fd c n).
Proof. intros Hc. unfold settle, note_backlog. auto 20 with maintains. Qed.

Lemma robust_finish : maintains P (flush_finish fd).
Proof.
  unfold flush_finish. apply maintains_bind; [apply H_assign, reclaim_fd|]. intros _. apply robust_deref. intros c Hc.
  cbv zeta. apply ensures_if; auto using robust_settle.
Qed.

Lemma robust_flush : maintains P (flush fd).
Proof.
  pose proof robust_flush_loop. pose proof robust_finish. unfold flush. apply robust_deref. auto 20 with maintains.
Qed.

Lemma robust_send_to m : maintains P (send_to fd m).
Proof. pose proof robust_flush. unfold send_to. auto 20 with maintains. Qed.

Lemma robust_writable : maintains P (on_writable fd).
Proof. pose proof robust_flush. unfold on_writable. auto with maintains. Qed.

Lemma robust_close reason :
  safe fd → (∀ how, maintains P (sys (λ k, (tt, sys_shutdown fd how k)))) → maintains P (begin_orderly_close fd reason).
Proof.
  intros Hs Hsh. unfold begin_orderly_close. apply maintains_bind; [auto with maintains|]. intros found.
  apply maintains_when, maintains_bind; [auto with maintains|]. intros _. apply robust_deref. auto 20 with maintains.
Qed.

End Output.
End Kept.
