(* ===== verification/ExchangeSpec.v ===== *)
(** * ExchangeSpec: what the exchange promises its clients

    An abstract exchange without sockets, buffers, descriptors to close or
    redundant tables: the connected clients with role, login and
    subscriptions, and the price-level book of OrderBookSpec.v.  [serves]
    says what one request does to it and which bytes every client gets. *)

From S2P Require Import Prelude CxxString MessageParser OrderBook OrderBookSpec ClientSession.

Record Client : Type := mkClient {
  cl_role : ClientRole;
  cl_login : option bytes;
  cl_subs : gset bytes
}.

Record Exchange : Type := mkExchange {
  ex_clients : gmap Z Client;
  ex_book : LevelBook
}.

(** Bytes per client. *)
Definition nothing : Z → bytes := λ _, [].
Definition just (fd : Z) (m : bytes) : Z → bytes := λ fd', if decide (fd' = fd) then m else [].
Definition also (d d' : Z → bytes) : Z → bytes := λ fd, d fd ++ d' fd.

Lemma just_nil fd fd' : just fd [] fd' = [].
Proof. unfold just. by case_decide. Qed.

Definition subscribed (x : Exchange) (i : bytes) (fd : Z) : bool :=
  match ex_clients x !! fd with
  | Some cl => bool_decide (i ∈ cl_subs cl)
  | None => false
  end.

(** What a client hears of an execution: its own side or sides of it, then
    the public trade if it subscribes to the instrument. *)
Definition notice (x : Exchange) (e : TradeExecution) : Z → bytes :=
  also (just (x_buyer_fd e) (bought (x_instrument e) (x_quantity e) (x_price e)))
    (also (just (x_seller_fd e) (sold (x_instrument e) (x_quantity e) (x_price e)))
       (λ fd, if subscribed x (x_instrument e) fd
              then trade (x_instrument e) (x_quantity e) (x_price e) else [])).

Definition notices (x : Exchange) (xs : list TradeExecution) : Z → bytes :=
  λ fd, concat ((λ e, notice x e fd) <$> xs).

Definition with_client (x : Exchange) (fd : Z) (cl : Client) : Exchange :=
  mkExchange (<[fd := cl]> (ex_clients x)) (ex_book x).

Definition with_book (x : Exchange) (lb : LevelBook) : Exchange :=
  mkExchange (ex_clients x) lb.

(** *** Error texts *)

Definition role_name (r : ClientRole) : bytes :=
  match r with Role_TRADER => lit "trader" | _ => lit "market-data" end.

Definition not_permitted (type : CommandType) (r : ClientRole) : bytes :=
  error (verb type ++ lit " is not permitted for a " ++ role_name r ++ lit " client").
Definition already_logged_in (u : bytes) : bytes := error (lit "Already logged in as " ++ u).
Definition name_in_use (u : bytes) : bytes :=
  error (lit "Username " ++ u ++ lit " is already in use").
Definition not_subscribed (i : bytes) : bytes := error (lit "Not subscribed to " ++ i).
Definition not_logged_in : bytes :=
  error (lit "Not logged in: send LOGIN <username> before trading").

Definition side_of (type : CommandType) : Side :=
  if decide (type = BUY) then Side_BUY else Side_SELL.

(** *** Requests

    [serves x fd cl cmd x' d lost]: client [fd], whose record is [cl], sends
    [cmd]; the exchange goes from [x] to [x'] and the clients get [d].  The
    executions [lost] happen in the book but are announced to nobody. *)
Inductive serves (x : Exchange) (fd : Z) (cl : Client)
    : ParsedCommand → Exchange → (Z → bytes) → list TradeExecution → Prop :=
| serve_invalid cmd :
    cmd_valid cmd = false → serves x fd cl cmd x (just fd (error (cmd_error cmd))) []
| serve_quit cmd :
    cmd_valid cmd = true → cmd_type cmd = QUIT → serves x fd cl cmd x nothing []
(* a client keeps the role its first accepted command gave it *)
| serve_market_data_trades cmd :
    cmd_valid cmd = true → cmd_type cmd ∈ [LOGIN; BUY; SELL; CANCEL] →
    cl_role cl = Role_MARKET_DATA →
    serves x fd cl cmd x (just fd (not_permitted (cmd_type cmd) Role_MARKET_DATA)) []
| serve_trader_subscribes cmd :
    cmd_valid cmd = true → cmd_type cmd ∈ [SUBSCRIBE; UNSUBSCRIBE] → cl_role cl = Role_TRADER →
    serves x fd cl cmd x (just fd (not_permitted (cmd_type cmd) Role_TRADER)) []
| serve_login_again cmd u :
    cmd_valid cmd = true → cmd_type cmd = LOGIN → cl_role cl ≠ Role_MARKET_DATA →
    cl_login cl = Some u → serves x fd cl cmd x (just fd (already_logged_in u)) []
| serve_login_taken cmd u fd' cl' :
    cmd_valid cmd = true → cmd_type cmd = LOGIN → cl_role cl ≠ Role_MARKET_DATA →
    cl_login cl = None → cmd_args cmd = [u] →
    ex_clients x !! fd' = Some cl' → cl_login cl' = Some u →
    serves x fd cl cmd x (just fd (name_in_use u)) []
| serve_login cmd u :
    cmd_valid cmd = true → cmd_type cmd = LOGIN → cl_role cl ≠ Role_MARKET_DATA →
    cl_login cl = None → cmd_args cmd = [u] →
    (∀ fd' cl', ex_clients x !! fd' = Some cl' → cl_login cl' ≠ Some u) →
    serves x fd cl cmd
      (with_client x fd (mkClient Role_TRADER (Some u) (cl_subs cl))) (just fd ok) []
| serve_subscribe cmd :
    cmd_valid cmd = true → cmd_type cmd = SUBSCRIBE → cl_role cl ≠ Role_TRADER →
    serves x fd cl cmd
      (with_client x fd (mkClient Role_MARKET_DATA (cl_login cl)
                           ({[cmd_instrument cmd]} ∪ cl_subs cl))) (just fd ok) []
| serve_unsubscribe_unknown cmd :
    cmd_valid cmd = true → cmd_type cmd = UNSUBSCRIBE → cl_role cl ≠ Role_TRADER →
    cmd_instrument cmd ∉ cl_subs cl →
    serves x fd cl cmd x (just fd (not_subscribed (cmd_instrument cmd))) []
| serve_unsubscribe cmd :
    cmd_valid cmd = true → cmd_type cmd = UNSUBSCRIBE → cl_role cl ≠ Role_TRADER →
    cmd_instrument cmd ∈ cl_subs cl →
    serves x fd cl cmd
      (with_client x fd (mkClient Role_MARKET_DATA (cl_login cl)
                           (cl_subs cl ∖ {[cmd_instrument cmd]}))) (just fd ok) []
| serve_not_logged_in cmd :
    cmd_valid cmd = true → cmd_type cmd ∈ [BUY; SELL; CANCEL] → cl_role cl ≠ Role_MARKET_DATA →
    cl_login cl = None → serves x fd cl cmd x (just fd not_logged_in) []
| serve_order cmd u id lb announced lost :
    cmd_valid cmd = true → cmd_type cmd ∈ [BUY; SELL] → cl_login cl = Some u →
    spec_add (ex_book x) fd (cmd_instrument cmd) (side_of (cmd_type cmd))
      (cmd_quantity cmd) (cmd_price cmd) = (id, lb, announced ++ lost) →
    serves x fd cl cmd (with_book x lb)
      (also (just fd (order_accepted id)) (notices x announced)) lost
| serve_cancel_refused cmd u e :
    cmd_valid cmd = true → cmd_type cmd = CANCEL → cl_login cl = Some u →
    spec_cancel (ex_book x) (cmd_order_id cmd) fd (inl e) →
    serves x fd cl cmd x (just fd (error e)) []
| serve_cancel cmd u lb :
    cmd_valid cmd = true → cmd_type cmd = CANCEL → cl_login cl = Some u →
    spec_cancel (ex_book x) (cmd_order_id cmd) fd (inr lb) →
    serves x fd cl cmd (with_book x lb) (just fd (order_cancelled (cmd_order_id cmd))) [].

(** The only thing an order of a logged-in trader can lead to. *)
Lemma serves_order x fd cl cmd u x' d lost :
  cmd_valid cmd = true → cmd_type cmd ∈ [BUY; SELL] → cl_login cl = Some u →
  cl_role cl = Role_TRADER → serves x fd cl cmd x' d lost →
  ∃ id lb announced,
    spec_add (ex_book x) fd (cmd_instrument cmd) (side_of (cmd_type cmd))
      (cmd_quantity cmd) (cmd_price cmd) = (id, lb, announced ++ lost)
    ∧ x' = with_book x lb ∧ d = also (just fd (order_accepted id)) (notices x announced).
Proof.
  rewrite !elem_of_cons, elem_of_nil. intros Hv Ht Hl Hr Hs.
  destruct Hs; try congruence; try (destruct Ht as [Ht|[Ht|[]]]; congruence).
  - rewrite !elem_of_cons, elem_of_nil in *. naive_solver congruence.
  - naive_solver.
Qed.

(** Only QUIT is QUIT. *)
Lemma not_quit cmd t :
  cmd_type cmd = t → t ≠ QUIT → cmd_valid cmd && bool_decide (cmd_type cmd = QUIT) = false.
Proof. intros -> Hne. by rewrite bool_decide_false, andb_false_r. Qed.

Lemma not_quit_in cmd (ts : list CommandType) :
  cmd_type cmd ∈ ts → QUIT ∉ ts → cmd_valid cmd && bool_decide (cmd_type cmd = QUIT) = false.
Proof. intros Hin Hni. eapply not_quit; [done|]. by intros Heq; rewrite Heq in Hin. Qed.
