(* ===== verification/ExchangeTrace.v ===== *)
(** * ExchangeTrace: what happens at the exchange over time

    The abstract exchange of ExchangeSpec.v as a labelled transition system:
    clients arrive, send requests, are refused and leave, one [event] at a
    time.  A history of events determines which requests a client has made
    and which bytes it has been sent since it connected. *)

From S2P Require Import Prelude CxxString Framing MessageParser OrderBook OrderBookSpec ClientSession.
From S2P Require Import ExchangeSpec.

(** [d] are the bytes a request led to for each client, [lost] the executions
    nobody was told of. *)
Inductive event : Type :=
| Arrived (fd : Z)
| Requested (fd : Z) (line : bytes) (d : Z → bytes) (lost : list TradeExecution)
| Refused (fd : Z)
| Departed (fds : gset Z).

Definition new_exchange : Exchange := mkExchange ∅ empty_levels.

Definition newcomer : Client := mkClient Role_UNKNOWN None ∅.

(** The reply to a line that does not end. *)
Definition line_too_long : bytes := error (lit "Message exceeds 65536 bytes without a newline").

(** From [y] to [x] some of the clients that [may] leave do so, with their
    orders. *)
Record leaving (may : Z → Prop) (y x : Exchange) : Prop := mkLeaving {
  lv_stay fd cl : ex_clients x !! fd = Some cl → ex_clients y !! fd = Some cl;
  lv_only fd : ¬ may fd → ex_clients x !! fd = ex_clients y !! fd;
  lv_book : level_equiv (ex_book x)
              (keep_levels (ex_book y) (λ e, is_Some (ex_clients x !! r_owner e)))
}.

(** Whom a request may cost its connection: the sender and those written to. *)
Definition addressed (fd : Z) (d : Z → bytes) (f : Z) : Prop := f = fd ∨ d f ≠ [].

Inductive step (x : Exchange) : event → Exchange → Prop :=
| step_arrive fd :
    ex_clients x !! fd = None → step x (Arrived fd) (with_client x fd newcomer)
| step_request fd cl line y d lost x' :
    ex_clients x !! fd = Some cl → serves x fd cl (parse line) y d lost →
    leaving (addressed fd d) y x' → (is_Some (ex_clients x' !! fd) → lost = []) →
    step x (Requested fd line d lost) x'
| step_refuse fd x' :
    leaving (λ f, f = fd) x x' → step x (Refused fd) x'
| step_leave fds x' :
    leaving (λ f, f ∈ fds) x x' → step x (Departed fds) x'.

(** Two presentations of the same exchange. *)
Definition exchange_equiv (x y : Exchange) : Prop :=
  ex_clients x = ex_clients y ∧ level_equiv (ex_book x) (ex_book y).

Inductive steps (x : Exchange) : list event → Exchange → Prop :=
| steps_nil y : exchange_equiv x y → steps x [] y
| steps_snoc tr e y z : steps x tr y → step y e z → steps x (tr ++ [e]) z.

(** ** Histories *)

(** What one event adds to the requests and to the output of [fd]; a new
    connection starts afresh. *)
Definition note (fd : Z) (h : list bytes * bytes) (e : event) : list bytes * bytes :=
  match e with
  | Arrived f => if decide (f = fd) then ([], []) else h
  | Requested f line d _ => (if decide (f = fd) then h.1 ++ [line] else h.1, h.2 ++ d fd)
  | Refused f => (h.1, h.2 ++ just f line_too_long fd)
  | Departed _ => h
  end.

Definition history (tr : list event) (fd : Z) : list bytes * bytes :=
  fold_left (note fd) tr ([], []).

Definition requests (tr : list event) (fd : Z) : list bytes := (history tr fd).1.
Definition output (tr : list event) (fd : Z) : bytes := (history tr fd).2.

(** A request to leave, which gets no reply. *)
Definition is_quit (line : bytes) : bool :=
  cmd_valid (parse line) && bool_decide (cmd_type (parse line) = QUIT).

(** How many replies a client is owed since it connected: one for each line
    that is not QUIT, and one for an endless line. *)
Definition owe (fd : Z) (n : nat) (e : event) : nat :=
  match e with
  | Arrived f => if decide (f = fd) then 0 else n
  | Requested f line _ _ => if decide (f = fd) then (if is_quit line then n else S n) else n
  | Refused f => if decide (f = fd) then S n else n
  | Departed _ => n
  end.

Definition owed (tr : list event) (fd : Z) : nat := fold_left (owe fd) tr 0.

Lemma owed_snoc tr e fd : owed (tr ++ [e]) fd = owe fd (owed tr fd) e.
Proof. unfold owed. by rewrite fold_left_app. Qed.

Lemma history_snoc tr e fd : history (tr ++ [e]) fd = note fd (history tr fd) e.
Proof. unfold history. by rewrite fold_left_app. Qed.

Lemma output_snoc tr e fd : output (tr ++ [e]) fd = (note fd (history tr fd) e).2.
Proof. unfold output. by rewrite history_snoc. Qed.

Lemma requests_snoc tr e fd : requests (tr ++ [e]) fd = (note fd (history tr fd) e).1.
Proof. unfold requests. by rewrite history_snoc. Qed.

(** ** What requests leave alone *)

Lemma serves_others x fd cl cmd y d lost f :
  serves x fd cl cmd y d lost → f ≠ fd → ex_clients y !! f = ex_clients x !! f.
Proof. intros Hs Hne. destruct Hs; try done; cbn; by apply lookup_insert_ne. Qed.
