(* ===== verification/ExchangeMessages.v ===== *)
(** * ExchangeMessages: the messages of the exchange and their types

    Everything the abstract exchange says to a client is a sequence of
    well-formed messages: replies ([OK], [ERROR], [ORDER_ACCEPTED],
    [ORDER_CANCELLED]), exactly one per request, and notices ([BOUGHT],
    [SOLD], [TRADE]) of executions of a listed instrument at a positive price
    and quantity.  [read_message] is a client's reading of a line; it gives back
    every message that the server formats. *)

From S2P Require Import Prelude CxxString Framing MessageParser OrderBook OrderBookSpec ClientSession.
From S2P Require Import ExchangeSpec ExchangeTrace.

Inductive message : Type :=
| MOk
| MError (reason : bytes)
| MAccepted (order_id : Z)
| MCancelled (order_id : Z)
| MBought (instrument : bytes) (quantity price : Z)
| MSold (instrument : bytes) (quantity price : Z)
| MTrade (instrument : bytes) (quantity price : Z).

(** The text of a message, without the end of line. *)
Definition render (m : message) : bytes :=
  let execution head i q p :=
    head ++ lit " " ++ i ++ lit " " ++ to_string q ++ lit " " ++ to_string p in
  match m with
  | MOk => lit "OK"
  | MError e => lit "ERROR " ++ e
  | MAccepted id => lit "ORDER_ACCEPTED " ++ to_string id
  | MCancelled id => lit "ORDER_CANCELLED " ++ to_string id
  | MBought i q p => execution (lit "BOUGHT") i q p
  | MSold i q p => execution (lit "SOLD") i q p
  | MTrade i q p => execution (lit "TRADE") i q p
  end.

(** The quantities and prices of the protocol: positive, at most 18 digits. *)
Definition in_range (z : Z) : Prop := (0 < z < 10 ^ 18)%Z.

Definition is_reply (m : message) : bool :=
  match m with MOk | MError _ | MAccepted _ | MCancelled _ => true | _ => false end.

Definition valid_message (m : message) : Prop :=
  match m with
  | MOk => True
  | MError e => e ≠ [] ∧ clean e
  | MAccepted id | MCancelled id => (0 < id)%Z
  | MBought i q p | MSold i q p | MTrade i q p => i ∈ kInstruments ∧ in_range q ∧ in_range p
  end.

Lemma render_clean m : valid_message m → clean (render m).
Proof. destruct m; cbn; intros Hm; destruct_and?; auto 9 with clean. Qed.

(** *** Reading messages back *)

(** The message as the server formats it. *)
Definition emit (m : message) : bytes :=
  match m with
  | MOk => ok
  | MError e => error e
  | MAccepted id => order_accepted id
  | MCancelled id => order_cancelled id
  | MBought i q p => bought i q p
  | MSold i q p => sold i q p
  | MTrade i q p => trade i q p
  end.

Lemma emit_render m : emit m = render m ++ [LF].
Proof. destruct m; cbn; try done; unfold bought, sold, trade, join; by rewrite <-!app_assoc. Qed.

Lemma emit_wire ms : concat (emit <$> ms) = wire (render <$> ms).
Proof.
  unfold wire. rewrite <-list_fmap_compose. f_equal. apply list_fmap_ext. intros i m _. apply emit_render.
Qed.

(** A client's reading of a line: the word it begins with, and its fields. *)
Definition read_number (t : bytes) : option Z :=
  if decide (t ≠ [] ∧ Forall (λ c, isdigit c = true) t) then Some (dec_value t) else None.

Definition read_message (line : bytes) : option message :=
  if decide (take 6 line = lit "ERROR ") then Some (MError (drop 6 line))
  else
    match tokens_of line with
    | [w] => if decide (w = lit "OK") then Some MOk else None
    | [w; t] =>
        n ← read_number t;
        if decide (w = lit "ORDER_ACCEPTED") then Some (MAccepted n)
        else if decide (w = lit "ORDER_CANCELLED") then Some (MCancelled n) else None
    | [w; i; tq; tp] =>
        q ← read_number tq; p ← read_number tp;
        if decide (w = lit "BOUGHT") then Some (MBought i q p)
        else if decide (w = lit "SOLD") then Some (MSold i q p)
        else if decide (w = lit "TRADE") then Some (MTrade i q p) else None
    | _ => None
    end.

(** The numbers fit in a [long]. *)
Definition fits (m : message) : Prop :=
  match m with MAccepted id | MCancelled id => (id ≤ LONG_MAX)%Z | _ => True end.

Lemma read_number_to_string z : (0 ≤ z < 10 ^ 20)%Z → read_number (to_string z) = Some z.
Proof.
  intros Hz. destruct (to_string_digits z Hz) as [Hd Hv]. destruct (to_string_token z Hz) as [Hne _].
  unfold read_number. by rewrite decide_True, Hv.
Qed.

Lemma read_render m : valid_message m → fits m → read_message (render m) = Some m.
Proof.
  assert (∀ w i q p, is_token w → is_token i → in_range q → in_range p →
    tokens_of (w ++ lit " " ++ i ++ lit " " ++ to_string q ++ lit " " ++ to_string p)
      = [w; i; to_string q; to_string p]) as Hfields.
  { intros w i q p Hw Hi [??] [??]. apply (tokens_of_unwords [w; i; to_string q; to_string p]).
    repeat apply Forall_cons_2; auto using Forall_nil_2; apply to_string_token; lia. }
  assert (∀ w z, is_token w → (0 < z ≤ LONG_MAX)%Z → tokens_of (w ++ lit " " ++ to_string z) = [w; to_string z])
    as Hone.
  { intros w z Hw Hz. apply (tokens_of_unwords [w; to_string z]). unfold LONG_MAX in Hz.
    repeat apply Forall_cons_2; auto using Forall_nil_2. apply to_string_token. lia. }
  assert (∀ w, bool_decide (is_token w) = true → is_token w) as Hdec by (by intros w ?%bool_decide_eq_true).
  assert (∀ z, in_range z → read_number (to_string z) = Some z) as Hnum
    by (intros z [??]; apply read_number_to_string; lia).
  destruct m as [|e|id|id|i q p|i q p|i q p]; cbn [valid_message fits]; intros Hv Hf;
    unfold read_message; cbn [render]; try done.
  - change (lit "ORDER_ACCEPTED " ++ to_string id) with (lit "ORDER_ACCEPTED" ++ lit " " ++ to_string id).
    rewrite (Hone (lit "ORDER_ACCEPTED")) by (done || by apply Hdec).
    rewrite read_number_to_string by (unfold LONG_MAX in Hf; lia). done.
  - change (lit "ORDER_CANCELLED " ++ to_string id) with (lit "ORDER_CANCELLED" ++ lit " " ++ to_string id).
    rewrite (Hone (lit "ORDER_CANCELLED")) by (done || by apply Hdec).
    rewrite read_number_to_string by (unfold LONG_MAX in Hf; lia). done.
  - destruct Hv as (Hi%instrument_token & Hq & Hp). rewrite Hfields by (done || by apply Hdec). cbn. by rewrite !Hnum.
  - destruct Hv as (Hi%instrument_token & Hq & Hp). rewrite Hfields by (done || by apply Hdec). cbn. by rewrite !Hnum.
  - destruct Hv as (Hi%instrument_token & Hq & Hp). rewrite Hfields by (done || by apply Hdec). cbn. by rewrite !Hnum.
Qed.

(** Requests as a client sends them. *)
Lemma request_clean r : well_formed r → clean (unwords (request_tokens r)).
Proof.
  assert (∀ t, clean t → clean (" "%char :: t)) as Hsp by (intros t; by apply (clean_app (lit " ")), lit_clean).
  destruct r as [u|side i q p|id|action i|]; cbn; intros H; destruct_and?; auto 12 with clean.
Qed.

(** C29: round trips of the protocol, for whole streams in both directions.
    Whatever valid messages the server formats one after the other ([ok],
    [error], [order_accepted], [order_cancelled], [bought], [sold], [trade]),
    cutting the bytes at the line ends, with any unfinished line behind, and
    reading each line by its first word and its fields gives these messages
    back, every number and text included.  And whatever well-formed requests a
    client writes line by line, the lines the server cuts out are parsed into
    the commands of exactly these requests. *)
Theorem protocol_roundtrip ms rs rest :
  Forall valid_message ms → Forall fits ms → Forall well_formed rs → LF ∉ rest →
  lines_of (concat (emit <$> ms) ++ rest) = (render <$> ms, rest)
  ∧ mapM read_message (lines_of (concat (emit <$> ms) ++ rest)).1 = Some ms
  ∧ parse <$> (chomp_cr <$> (lines_of (wire (unwords ∘ request_tokens <$> rs) ++ rest)).1)
    = (λ r, command_of r (tail (request_tokens r))) <$> rs.
Proof.
  intros Hv Hf Hr Hrest. rewrite emit_wire.
  assert (lines_of (wire (render <$> ms) ++ rest) = (render <$> ms, rest)) as Hl.
  { apply lines_of_messages; [|done]. apply Forall_fmap. eapply Forall_impl; [exact Hv|].
    intros m Hm. by apply render_clean in Hm as [? _]. }
  rewrite Hl. split_and!; [done|..].
  - cbn [fst]. clear Hl. induction Hv as [|m ms Hm Hv IH]; [done|]. apply Forall_cons in Hf as [Hfm Hf]. cbn.
    by rewrite read_render, IH.
  - assert (Forall clean (unwords ∘ request_tokens <$> rs)) as Hc.
    { apply Forall_fmap. eapply Forall_impl; [exact Hr|]. apply request_clean. }
    rewrite lines_of_messages; [|eapply Forall_impl; [exact Hc|]; by intros ? [? _]|done].
    cbn [fst]. rewrite chomp_clean_all by done. rewrite <-list_fmap_compose.
    clear Hc. induction Hr as [|r rs Hr Hrs IH]; [done|]. cbn. f_equal; [by apply parse_canonical|exact IH].
Qed.

Lemma protocol_roundtrip_witness :
  let ms := [MAccepted 7; MBought (lit "JNST") 60 238; MTrade (lit "JNST") 60 238; MError (lit "no order 9")] in
  let rs := [RLogin (lit "ann"); ROrder BUY (lit "JNST") 100 238] in
  mapM read_message (lines_of (concat (emit <$> ms) ++ lit "SOLD J")).1 = Some ms
  ∧ parse <$> (chomp_cr <$> (lines_of (wire (unwords ∘ request_tokens <$> rs) ++ lit "SOLD J")).1)
    = [command_of (RLogin (lit "ann")) [lit "ann"];
       command_of (ROrder BUY (lit "JNST") 100 238) [lit "JNST"; lit "100"; lit "238"]].
Proof.
  intros ms rs. apply (protocol_roundtrip ms rs (lit "SOLD J")).
  - repeat apply Forall_cons_2; try apply Forall_nil_2; cbn; unfold in_range; try (split_and!; try lia);
      try discriminate; try (apply (bool_decide_unpack _); vm_compute; exact I); lia.
  - repeat apply Forall_cons_2; try apply Forall_nil_2; cbn; unfold LONG_MAX; try done; lia.
  - repeat apply Forall_cons_2; try apply Forall_nil_2; cbn; split_and!; try lia; auto;
      apply (bool_decide_unpack _); vm_compute; exact I.
  - apply (bool_decide_unpack _). vm_compute. exact I.
Defined.

(** [typed n t]: the text [t] is a sequence of valid messages, [n] of which
    are replies. *)
Definition typed (n : nat) (t : bytes) : Prop :=
  ∃ ms, t = wire (render <$> ms) ∧ Forall valid_message ms
    ∧ length (filter (λ m, is_reply m = true) ms) = n.

Lemma typed_nil : typed 0 [].
Proof. by exists []. Qed.

Lemma typed_app n n' t t' : typed n t → typed n' t' → typed (n + n') (t ++ t').
Proof.
  intros (ms & -> & Hv & <-) (ms' & -> & Hv' & <-). exists (ms ++ ms').
  rewrite fmap_app, wire_app, Forall_app, filter_app, length_app. done.
Qed.

Lemma typed_message m t :
  t = render m ++ [LF] → valid_message m → typed (if is_reply m then 1 else 0) t.
Proof.
  intros -> Hm. exists [m]. split_and!; [unfold wire; cbn; by rewrite app_nil_r|by apply Forall_singleton|].
  rewrite filter_cons. by destruct (is_reply m).
Qed.

(** One reply. *)
Definition reply (t : bytes) : Prop :=
  ∃ m, t = render m ++ [LF] ∧ valid_message m ∧ is_reply m = true.

Lemma typed_reply t : reply t → typed 1 t.
Proof. intros (m & Ht & Hv & Hr). pose proof (typed_message m t Ht Hv) as H. by rewrite Hr in H. Qed.

Lemma reply_ok : reply ok.
Proof. by exists MOk. Qed.

Lemma reply_error e : e ≠ [] → clean e → reply (error e).
Proof. intros He Hc. by exists (MError e). Qed.

Lemma reply_accepted id : (0 < id)%Z → reply (order_accepted id).
Proof. exists (MAccepted id). unfold order_accepted. cbn. done. Qed.

Lemma reply_cancelled id : (0 < id)%Z → reply (order_cancelled id).
Proof. exists (MCancelled id). unfold order_cancelled. cbn. done. Qed.

(** ** Well-formed exchanges *)

Definition level_sound (lb : LevelBook) (i : bytes) (p : Z) (e : resting) : Prop :=
  i ∈ kInstruments ∧ in_range p ∧ in_range (r_quantity e) ∧ (0 < r_id e < lb_next lb)%Z.

Record exchange_wf (x : Exchange) : Prop := mkExchangeWf {
  xw_next : (0 < lb_next (ex_book x))%Z;
  xw_level side i p e : e ∈ lb_level (ex_book x) side i p → level_sound (ex_book x) i p e;
  xw_login fd cl u : ex_clients x !! fd = Some cl → cl_login cl = Some u → is_token u
}.

Lemma new_exchange_wf : exchange_wf new_exchange.
Proof.
  split; cbn; [lia|set_solver|]. intros fd cl u Hcl. by rewrite lookup_empty in Hcl.
Qed.

Lemma equiv_wf x y : exchange_wf x → exchange_equiv x y → exchange_wf y.
Proof.
  intros [Hn Hl Hu] [Hc [Hnext Hlev]]. split.
  - by rewrite <-Hnext.
  - intros side i p e. rewrite <-Hlev. unfold level_sound. rewrite <-Hnext. apply Hl.
  - intros fd cl u. rewrite <-Hc. apply Hu.
Qed.

(** Fewer orders and clients. *)
Lemma leaving_wf may y x : exchange_wf y → leaving may y x → exchange_wf x.
Proof.
  intros [Hn Hl Hu] [Hstay _ [Hnext Hlev]]. cbn in Hnext, Hlev. split.
  - by rewrite Hnext.
  - intros side i p e. rewrite Hlev. intros [_ He]%list_elem_of_filter. unfold level_sound.
    rewrite Hnext. by eapply Hl.
  - intros fd cl u Hcl. by eapply Hu, Hstay.
Qed.

(** *** New orders *)

Lemma sum_positive_le (fs : list (Z * Z)) :
  Forall (λ f : Z * Z, (0 < f.2)%Z) fs → ∀ f, f ∈ fs → (f.2 ≤ foldr Z.add 0%Z fs.*2)%Z.
Proof.
  intros Hfs. assert (∀ gs : list (Z * Z), Forall (λ f : Z * Z, (0 < f.2)%Z) gs → (0 ≤ foldr Z.add 0%Z gs.*2)%Z)
    as Hpos by (induction 1; cbn in *; lia).
  induction Hfs as [|g gs Hg Hgs IH]; intros f; [set_solver|]. cbn.
  specialize (Hpos gs Hgs). intros [->|Hf%IH]%elem_of_cons; lia.
Qed.

(** What is left of a level consists of orders that were there, with positive
    quantities; the fills are positive and no larger than the new order. *)
Lemma fill_sound q l l' r fs :
  fill q l = (l', r, fs) → live_level l → (0 ≤ q)%Z →
  (∀ e, e ∈ l' → ∃ e0, e0 ∈ l ∧ r_id e0 = r_id e ∧ (0 < r_quantity e ≤ r_quantity e0)%Z)
  ∧ Forall (λ f : Z * Z, (0 < f.2 ≤ q)%Z) fs.
Proof.
  intros Hf Hl Hq. destruct (fill_amounts q l l' r fs Hf Hl Hq) as (Htot & _ & _ & Hfs). split.
  2:{ pose proof (sum_positive_le fs Hfs) as Hle. rewrite Forall_forall in *. intros f Hin.
      specialize (Hle f Hin). specialize (Hfs f Hin). cbv zeta in Htot. lia. }
  destruct (fill_prefix q l l' r fs Hf Hl) as (pre & suf & -> & Hcase).
  apply Forall_app in Hl as [_ Hsuf]. rewrite Forall_forall in Hsuf.
  destruct Hcase as [[_ ->]|(e0 & suf' & q0 & -> & Hq0 & _ & _ & ->)]; intros e He.
  - exists e. split_and!; [set_solver|done|by apply Hsuf|lia].
  - apply elem_of_cons in He as [->|He].
    + exists e0. split_and!; [set_solver|done|cbn; lia..].
    + exists e. split_and!; [set_solver|done|apply Hsuf; by right|lia].
Qed.

Lemma fill_rest q l l' r fs :
  fill q l = (l', r, fs) → live_level l → (0 ≤ q)%Z → (0 ≤ r ≤ q)%Z.
Proof.
  intros Hf Hl Hq. destruct (fill_amounts q l l' r fs Hf Hl Hq) as (? & ? & _). cbv zeta in *.
  pose proof (depth_nonneg l Hl). lia.
Qed.

Lemma spec_add_executions lb owner i side q p id lb' xs :
  spec_add lb owner i side q p = (id, lb', xs) → (0 ≤ q)%Z →
  live_level (lb_level lb (opposite_side side) i p) →
  id = lb_next lb ∧ lb_next lb' = (lb_next lb + 1)%Z
  ∧ Forall (λ e, x_instrument e = i ∧ x_price e = p ∧ (0 < x_quantity e ≤ q)%Z) xs.
Proof.
  unfold spec_add. destruct (fill q _) as [[l' r] fs] eqn:Hf. intros [= <- <- <-] Hq Hl.
  split_and!; [done..|]. destruct (fill_sound _ _ _ _ _ Hf Hl Hq) as [_ Hfs].
  rewrite Forall_fmap. eapply Forall_impl; [exact Hfs|]. intros f Hf0. by destruct side.
Qed.

(** The orders in the book after a new one. *)
Lemma spec_add_level lb owner i side q p id lb' xs s j p' e :
  spec_add lb owner i side q p = (id, lb', xs) → (0 ≤ q)%Z →
  live_level (lb_level lb (opposite_side side) i p) → e ∈ lb_level lb' s j p' →
  (j = i ∧ p' = p ∧ r_id e = lb_next lb ∧ (0 < r_quantity e ≤ q)%Z)
  ∨ e ∈ lb_level lb s j p'
  ∨ ∃ e0, e0 ∈ lb_level lb s j p' ∧ r_id e0 = r_id e ∧ (0 < r_quantity e ≤ r_quantity e0)%Z.
Proof.
  unfold spec_add. destruct (fill q _) as [[l' r] fs] eqn:Hf. intros [= <- <- <-] Hq Hl.
  destruct (fill_sound _ _ _ _ _ Hf Hl Hq) as [Hl' _]. cbn [lb_level].
  pose proof (fill_rest _ _ _ _ _ Hf Hl Hq) as Hrest.
  assert (∀ s j p', e ∈ set_level (lb_level lb) (opposite_side side) i p l' s j p' →
    e ∈ lb_level lb s j p'
    ∨ ∃ e0, e0 ∈ lb_level lb s j p' ∧ r_id e0 = r_id e ∧ (0 < r_quantity e ≤ r_quantity e0)%Z) as Hset.
  { intros s0 j0 p0. unfold set_level. case_decide as Hd; [|by left].
    injection Hd as <- <- <-. intros He. right. by apply Hl'. }
  destruct (Z.ltb_spec 0 r) as [Hr|Hr]; [|by intros ?%Hset; right].
  unfold set_level at 1. case_decide as Hd; [|by intros ?%Hset; right].
  injection Hd as <- <- <-. intros [He|He]%elem_of_app; [right; by apply Hset|].
  apply list_elem_of_singleton in He as ->. left. split_and!; done || (cbn; lia).
Qed.

Lemma live_levels x side i p : exchange_wf x → live_level (lb_level (ex_book x) side i p).
Proof. intros Hx. apply Forall_forall. intros e He. by apply (xw_level x Hx) in He as (_ & _ & [? _] & _). Qed.

Lemma with_book_wf x lb :
  exchange_wf x → (0 < lb_next lb)%Z →
  (∀ side i p e, e ∈ lb_level lb side i p → level_sound lb i p e) → exchange_wf (with_book x lb).
Proof. intros [_ _ Hu] Hn Hl. by split. Qed.

Lemma with_client_wf x fd cl :
  exchange_wf x → (∀ u, cl_login cl = Some u → is_token u) → exchange_wf (with_client x fd cl).
Proof.
  intros [Hn Hl Hu] Hcl. split; [done|done|]. intros f cl' u. cbn. rewrite lookup_insert.
  case_decide; [|by apply Hu]. intros [= <-]. apply Hcl.
Qed.

(** ** Requests *)

(** The fields of a valid command. *)
Lemma valid_command line :
  cmd_valid (parse line) = true →
  match cmd_type (parse line) with
  | LOGIN => ∃ u, cmd_args (parse line) = [u] ∧ is_token u
  | BUY | SELL => cmd_instrument (parse line) ∈ kInstruments
      ∧ in_range (cmd_quantity (parse line)) ∧ in_range (cmd_price (parse line))
  | SUBSCRIBE | UNSUBSCRIBE => cmd_instrument (parse line) ∈ kInstruments
  | _ => True
  end.
Proof.
  intros Hv. destruct (parse_valid_accepts line Hv) as [r Hr]. pose proof (parse_accepts line r Hr) as Hp.
  pose proof (tokens_of_tokens line) as Ht. rewrite Hp. generalize dependent (tokens_of line).
  intros ts Hr _ Ht. destruct Hr; cbn [command_of cmd_type cmd_args cmd_instrument cmd_quantity cmd_price tail]; try done.
  2-3: split_and!; [done|by split; [|eapply numeral_bound]..].
  exists u. split; [done|]. by apply Forall_cons in Ht as [_ [Ht _]%Forall_cons].
Qed.

Lemma serves_wf x fd cl line y d lost :
  exchange_wf x → ex_clients x !! fd = Some cl → serves x fd cl (parse line) y d lost → exchange_wf y.
Proof.
  intros Hx Hcl Hs. pose proof (valid_command line) as Hv.
  remember (parse line) as cmd eqn:Hcmd.
  destruct Hs as [| | | | | |cmd u Hval Ht _ _ Ha|cmd Hval Ht|
                 |cmd Hval Ht| |cmd u id lb an lo Hval Ht _ Hadd| |cmd u lb Hval Ht _ Hc]; try done.
  - apply with_client_wf; [done|]. intros u' [= <-]. specialize (Hv Hval). rewrite Ht in Hv.
    destruct Hv as (u' & Ha' & Hu). rewrite Ha in Ha'. by injection Ha' as <-.
  - apply with_client_wf; [done|]. intros u'. by apply (xw_login x Hx fd cl).
  - apply with_client_wf; [done|]. intros u'. by apply (xw_login x Hx fd cl).
  - assert (cmd_instrument cmd ∈ kInstruments ∧ in_range (cmd_quantity cmd) ∧ in_range (cmd_price cmd))
      as (Hi & Hq & Hp).
    { specialize (Hv Hval). rewrite !elem_of_cons, elem_of_nil in Ht.
      by destruct Ht as [Ht|[Ht|[]]]; rewrite Ht in Hv. }
    unfold in_range in Hq, Hp. pose proof (xw_next x Hx) as Hn. pose proof (live_levels x (opposite_side (side_of (cmd_type cmd)))
      (cmd_instrument cmd) (cmd_price cmd) Hx) as Hlive.
    destruct (spec_add_executions _ _ _ _ _ _ _ _ _ Hadd ltac:(lia) Hlive) as (_ & Hnext & _).
    apply with_book_wf; [done|lia|]. intros s j p' e He. unfold level_sound, in_range.
    eapply spec_add_level in He; [|exact Hadd|lia|exact Hlive].
    destruct He as [(-> & -> & -> & ?)|[He|(e0 & He & Hid & Hle)]].
    + split_and!; done || lia.
    + apply (xw_level x Hx) in He as (? & [??] & [??] & ?). split_and!; done || lia.
    + apply (xw_level x Hx) in He as (? & [??] & [??] & ?). split_and!; done || lia.
  - inversion Hc; subst. apply with_book_wf; [done|apply (xw_next x Hx)|]. intros s j p' e.
    cbn. intros [_ He]%list_elem_of_filter. by apply (xw_level x Hx) in He.
Qed.

(** A reply to one client. *)
Lemma typed_just fd m f : reply m → typed (if decide (fd = f) then 1 else 0) (just fd m f).
Proof.
  intros Hm%typed_reply. unfold just. destruct (decide (fd = f)) as [->|Hne]; [by rewrite decide_True|].
  rewrite decide_False by done. apply typed_nil.
Qed.

Lemma typed_notice x e f :
  x_instrument e ∈ kInstruments → in_range (x_quantity e) → in_range (x_price e) → typed 0 (notice x e f).
Proof.
  intros Hi Hq Hp. unfold notice, also, just.
  assert (∀ m t, t = render m ++ [LF] → is_reply m = false → valid_message m → typed 0 t) as Hm.
  { intros m t Ht Hr Hv. pose proof (typed_message m t Ht Hv) as H. by rewrite Hr in H. }
  apply (typed_app 0 0); [|apply (typed_app 0 0)]; case_match; try apply typed_nil.
  - apply (Hm (MBought (x_instrument e) (x_quantity e) (x_price e))); try done.
    unfold bought, join. cbn. by rewrite <-!app_assoc.
  - apply (Hm (MSold (x_instrument e) (x_quantity e) (x_price e))); try done.
    unfold sold, join. cbn. by rewrite <-!app_assoc.
  - apply (Hm (MTrade (x_instrument e) (x_quantity e) (x_price e))); try done.
    unfold trade, join. cbn. by rewrite <-!app_assoc.
Qed.

Lemma typed_notices x xs f :
  Forall (λ e, x_instrument e ∈ kInstruments ∧ in_range (x_quantity e) ∧ in_range (x_price e)) xs →
  typed 0 (notices x xs f).
Proof.
  unfold notices. induction 1 as [|e xs (Hi & Hq & Hp) Hxs IH]; [apply typed_nil|]. cbn.
  apply (typed_app 0 0); [by apply typed_notice|done].
Qed.

(** The notices of an order of a listed instrument. *)
Lemma typed_order x fd cmd id lb announced lost f :
  exchange_wf x → cmd_instrument cmd ∈ kInstruments → in_range (cmd_quantity cmd) → in_range (cmd_price cmd) →
  spec_add (ex_book x) fd (cmd_instrument cmd) (side_of (cmd_type cmd)) (cmd_quantity cmd) (cmd_price cmd)
    = (id, lb, announced ++ lost) →
  (0 < id)%Z ∧ typed 0 (notices x announced f).
Proof.
  intros Hx Hi [Hq Hqmax] Hp Hadd.
  destruct (spec_add_executions _ _ _ _ _ _ _ _ _ Hadd) as (-> & _ & Hxs); [lia|by apply live_levels|].
  split; [apply (xw_next x Hx)|]. apply typed_notices. apply Forall_app in Hxs as [Hxs _].
  eapply Forall_impl; [exact Hxs|]. intros e (-> & -> & ?). split_and!; [done| |done]. split; lia.
Qed.

(** The error texts of ExchangeSpec.v. *)
Lemma reply_not_permitted t r : reply (not_permitted t r).
Proof.
  apply reply_error; [by destruct t|].
  assert (clean (role_name r)) by (destruct r; cbn; auto with clean). auto 6 with clean.
Qed.

Lemma reply_cancel_error lb id fd e : spec_cancel lb id fd (inl e) → reply (error e).
Proof.
  intros Hc. inversion Hc; subst; apply reply_error; try done;
    unfold no_such_order, not_your_order; auto with clean.
Qed.

Create HintDb replies.
#[local] Hint Resolve reply_ok reply_error reply_not_permitted reply_cancelled reply_cancel_error : replies.

(** What a request leads to: nothing, if it is QUIT; one reply to the sender,
    the book losing at most the order of one id; or a new order. *)
Inductive answer (x : Exchange) (fd : Z) (line : bytes)
    : Exchange → (Z → bytes) → list TradeExecution → Prop :=
| answer_quit : is_quit line = true → answer x fd line x nothing []
| answer_reply y t :
    is_quit line = false → reply t →
    ex_book y = ex_book x ∨ (∃ id, ex_book y = keep_levels (ex_book x) (λ e, r_id e ≠ id)) →
    answer x fd line y (just fd t) []
| answer_order cmd id lb announced lost :
    is_quit line = false → cmd = parse line → cmd_valid cmd = true → cmd_type cmd ∈ [BUY; SELL] →
    cmd_instrument cmd ∈ kInstruments → in_range (cmd_quantity cmd) → in_range (cmd_price cmd) →
    spec_add (ex_book x) fd (cmd_instrument cmd) (side_of (cmd_type cmd)) (cmd_quantity cmd)
      (cmd_price cmd) = (id, lb, announced ++ lost) →
    answer x fd line (with_book x lb) (also (just fd (order_accepted id)) (notices x announced)) lost.

Lemma serves_answer x fd cl line y d lost :
  exchange_wf x → ex_clients x !! fd = Some cl → serves x fd cl (parse line) y d lost →
  answer x fd line y d lost.
Proof.
  intros Hx Hcl Hs. pose proof (valid_command line) as Hv. pose proof (parse_reject_reason line) as Hrej.
  assert (is_quit line = cmd_valid (parse line) && bool_decide (cmd_type (parse line) = QUIT)) as Hq by done.
  remember (parse line) as cmd eqn:Hcmd.
  destruct Hs as [cmd Hval|cmd Hval Ht|cmd Hval Ht|cmd Hval Ht|cmd u Hval Ht ? Hu|cmd u fd' cl' Hval Ht ?? Ha
    |cmd u Hval Ht|cmd Hval Ht|cmd Hval Ht|cmd Hval Ht|cmd Hval Ht|cmd u id lb an lo Hval Ht _ Hadd
    |cmd u e Hval Ht _ Hc|cmd u lb Hval Ht _ Hc].
  all: try (rewrite (not_quit _ _ Ht) in Hq by done).
  all: try (rewrite (not_quit_in _ _ Ht) in Hq by set_solver).
  all: try specialize (Hv Hval).
  all: try (rewrite Ht in Hv).
  all: try (apply answer_reply; [exact Hq| |by left]; auto with replies; fail).
  - rewrite Hval in Hq. destruct (Hrej Hval). apply answer_reply; auto with replies.
  - rewrite Hval, bool_decide_true in Hq by done. by apply answer_quit.
  - pose proof (xw_login x Hx fd cl u Hcl Hu). apply answer_reply; [done| |by left].
    apply reply_error; [done|auto with clean].
  - destruct Hv as (u' & Ha' & Hu'). rewrite Ha in Ha'. injection Ha' as <-.
    apply answer_reply; [done| |by left]. apply reply_error; [done|auto with clean].
  - apply answer_reply; [done| |by left]. apply reply_error; [done|auto with clean].
  - apply answer_reply; [done| |by left]. apply reply_error; [done|auto with clean].
  - assert (cmd_instrument cmd ∈ kInstruments ∧ in_range (cmd_quantity cmd) ∧ in_range (cmd_price cmd))
      as (Hi & Hqty & Hp).
    { rewrite !elem_of_cons, elem_of_nil in Ht. by destruct Ht as [Ht|[Ht|[]]]; rewrite Ht in Hv. }
    by apply (answer_order x fd line cmd id lb an lo).
  - apply answer_reply; [done| |by left]. eauto with replies.
  - apply answer_reply; [done|..].
    + apply reply_cancelled. inversion Hc as [| |(s & i & p & q & Hin)].
      by apply (xw_level x Hx) in Hin as (_ & _ & _ & ? & _).
    + right. exists (cmd_order_id cmd). by inversion Hc.
Qed.

(** One reply to the sender, unless it leaves, and notices. *)
Lemma serves_typed x fd cl line y d lost f :
  exchange_wf x → ex_clients x !! fd = Some cl → serves x fd cl (parse line) y d lost →
  typed (if decide (fd = f) then if is_quit line then 0 else 1 else 0) (d f).
Proof.
  intros Hx Hcl Hs. destruct (serves_answer _ _ _ _ _ _ _ Hx Hcl Hs)
    as [Hq|y t Hq Ht _|cmd id lb an lo Hq -> Hval Ht Hi Hqty Hp Hadd]; rewrite Hq.
  - case_decide; apply typed_nil.
  - by apply typed_just.
  - destruct (typed_order x fd _ id lb an lo f Hx Hi Hqty Hp Hadd) as [Hid Hn].
    rewrite <-(Nat.add_0_r (if decide _ then _ else _)). apply typed_app; [|done].
    by apply typed_just, reply_accepted.
Qed.

(** ** Histories *)

Lemma step_wf x e y : exchange_wf x → step x e y → exchange_wf y.
Proof.
  intros Hx Hs. destruct Hs as [fd|fd cl line y' d lost x' Hcl Hs Hl|fd x' Hl|fds x' Hl].
  - by apply with_client_wf.
  - eapply leaving_wf; [|exact Hl]. by eapply serves_wf.
  - by eapply leaving_wf.
  - by eapply leaving_wf.
Qed.

(** After any history every client has been sent valid messages, and as many
    replies as it is owed. *)
Lemma steps_typed tr x :
  steps new_exchange tr x → exchange_wf x ∧ ∀ fd, typed (owed tr fd) (output tr fd).
Proof.
  induction 1 as [y Heq|tr e y z Hsteps [Hwf IH] Hstep].
  { split; [eapply equiv_wf; [apply new_exchange_wf|done]|intros; apply typed_nil]. }
  split; [by eapply step_wf|]. intros f. specialize (IH f). rewrite owed_snoc, output_snoc.
  destruct Hstep as [fd|fd cl line y' d lost x' Hcl Hs Hl|fd x' Hl|fds x' Hl]; cbn.
  - case_decide; [apply typed_nil|exact IH].
  - pose proof (typed_app _ _ _ _ IH (serves_typed _ _ _ _ _ _ _ f Hwf Hcl Hs)) as Ht.
    destruct (decide (fd = f)); [destruct (is_quit line)|]; by rewrite ?Nat.add_1_r, ?Nat.add_0_r in Ht.
  - pose proof (typed_app _ _ _ _ IH (typed_just fd line_too_long f ltac:(apply reply_error;
      [done|auto with clean]))) as Ht.
    destruct (decide (fd = f)); by rewrite ?Nat.add_1_r, ?Nat.add_0_r in Ht.
  - exact IH.
Qed.
