(* ===== verification/ExchangeFills.v ===== *)
(** * ExchangeFills: what clients are told of their orders, in numbers

    The quantities a client is told it bought and sold, read off the bytes
    addressed to it, against the quantities it ordered, read off its requests,
    and what of its orders still rests in the book.  Over any history of the
    exchange the first and the third together never exceed the second. *)

From S2P Require Import Prelude CxxString Framing MessageParser OrderBook OrderBookSpec ClientSession.
From S2P Require Import ExchangeSpec ExchangeTrace ExchangeMessages.

Definition total (zs : list Z) : Z := foldr Z.add 0%Z zs.

(** The word for a private execution on either side. *)
Definition notice_word (side : Side) : bytes :=
  match side with Side_BUY => lit "BOUGHT" | Side_SELL => lit "SOLD" end.

(** The quantity a line of output reports for one side, instrument and price. *)
Definition amount (side : Side) (i : bytes) (p : Z) (line : bytes) : Z :=
  match tokens_of line with
  | [w; j; q; r] =>
      if decide (w = notice_word side ∧ j = i ∧ dec_value r = p) then dec_value q else 0%Z
  | _ => 0%Z
  end.

Definition told (side : Side) (i : bytes) (p : Z) (t : bytes) : Z :=
  total (amount side i p <$> (lines_of t).1).

(** The quantity a line of input orders. *)
Definition order_of (side : Side) (i : bytes) (p : Z) (line : bytes) : Z :=
  let cmd := parse line in
  if decide (cmd_valid cmd = true ∧ cmd_type cmd ∈ [BUY; SELL] ∧ side_of (cmd_type cmd) = side
             ∧ cmd_instrument cmd = i ∧ cmd_price cmd = p)
  then cmd_quantity cmd else 0%Z.

Definition ordered (side : Side) (i : bytes) (p : Z) (lines : list bytes) : Z :=
  total (order_of side i p <$> lines).

(** The unfilled quantity of a client's resting orders. *)
Definition holding (lb : LevelBook) (fd : Z) (side : Side) (i : bytes) (p : Z) : Z :=
  depth (filter (λ e, r_owner e = fd) (lb_level lb side i p)).

Lemma total_app a b : total (a ++ b) = (total a + total b)%Z.
Proof. unfold total. induction a as [|z a IH]; cbn; lia. Qed.

Lemma total_nonneg zs : Forall (λ z, (0 ≤ z)%Z) zs → (0 ≤ total zs)%Z.
Proof. unfold total. induction 1; cbn; lia. Qed.

Lemma order_of_nonneg side i p line : (0 ≤ order_of side i p line)%Z.
Proof.
  unfold order_of. case_decide as Hc; [|done]. destruct Hc as (Hv & Ht & _).
  pose proof (valid_command line Hv) as Hc. rewrite !elem_of_cons, elem_of_nil in Ht.
  destruct Ht as [Ht|[Ht|[]]]; rewrite Ht in Hc; destruct Hc as (_ & [? _] & _); lia.
Qed.

Lemma ordered_snoc side i p lines line :
  ordered side i p (lines ++ [line]) = (ordered side i p lines + order_of side i p line)%Z.
Proof. unfold ordered. rewrite fmap_app, total_app. cbn. lia. Qed.

(** More requests order no less. *)
Lemma ordered_prefix side i p a b :
  a `prefix_of` b → (ordered side i p a ≤ ordered side i p b)%Z.
Proof.
  intros [c ->]. unfold ordered. rewrite fmap_app, total_app.
  assert (0 ≤ total (order_of side i p <$> c))%Z; [|lia].
  apply total_nonneg, Forall_fmap, Forall_true. apply order_of_nonneg.
Qed.

(** ** Reading messages *)

(** What a message reports. *)
Definition part (side : Side) (i : bytes) (p : Z) (m : message) : Z :=
  match m, side with
  | MBought j q r, Side_BUY | MSold j q r, Side_SELL => if decide (j = i ∧ r = p) then q else 0%Z
  | _, _ => 0%Z
  end.

(** A line of another kind reports nothing. *)
Lemma amount_other side i p w t :
  is_token w → w ≠ notice_word side → amount side i p (w ++ " "%char :: t) = 0%Z.
Proof.
  intros Hw Hne. unfold amount.
  pose proof (extract_token [] w (" "%char :: t) ltac:(constructor) Hw ltac:(eauto)) as He.
  cbn [app] in He. rewrite tokens_of_unfold, He. cbv beta iota.
  destruct (tokens_of _) as [|? [|? [|? [|? ?]]]]; try done. by rewrite decide_False by tauto.
Qed.

Lemma amount_execution side i p w j q r :
  is_token w → j ∈ kInstruments → in_range q → in_range r →
  amount side i p (w ++ lit " " ++ j ++ lit " " ++ to_string q ++ lit " " ++ to_string r)
  = if decide (w = notice_word side ∧ j = i ∧ r = p) then q else 0%Z.
Proof.
  intros Hw Hj [??] [??]. unfold amount. set (ts := [w; j; to_string q; to_string r]).
  assert (Forall is_token ts) as Hts by (repeat constructor; try apply Hw;
    try (by apply instrument_token); apply to_string_token; lia).
  replace (w ++ _) with (unwords ts) by (unfold ts; cbn [unwords]; by rewrite <-?app_assoc).
  rewrite tokens_of_unwords by done. unfold ts.
  rewrite (proj2 (to_string_digits q ltac:(lia))), (proj2 (to_string_digits r ltac:(lia))). done.
Qed.

Lemma amount_render side i p m : valid_message m → amount side i p (render m) = part side i p m.
Proof.
  assert (∀ t : string, bool_decide (lit t ≠ [] ∧ Forall (λ c, isspace c = false) (lit t)) = true →
    is_token (lit t)) as Hlit by (intros t ?%bool_decide_eq_true; done).
  destruct m as [|e|id|id|j q r|j q r|j q r]; cbn [valid_message].
  - intros _. by destruct side.
  - intros _. apply (amount_other side i p (lit "ERROR")); [by apply Hlit|by destruct side].
  - intros _. apply (amount_other side i p (lit "ORDER_ACCEPTED")); [by apply Hlit|by destruct side].
  - intros _. apply (amount_other side i p (lit "ORDER_CANCELLED")); [by apply Hlit|by destruct side].
  - intros (Hj & Hq & Hr). unfold render. rewrite amount_execution; [|by apply Hlit|done..].
    destruct side; cbn; repeat case_decide; naive_solver.
  - intros (Hj & Hq & Hr). unfold render. rewrite amount_execution; [|by apply Hlit|done..].
    destruct side; cbn; repeat case_decide; naive_solver.
  - intros (Hj & Hq & Hr). unfold render. rewrite amount_execution; [|by apply Hlit|done..].
    by destruct side.
Qed.

(** What a sequence of messages reports, message by message. *)
Lemma told_messages side i p ms rest :
  Forall valid_message ms →
  told side i p (wire (render <$> ms) ++ rest) = (total (part side i p <$> ms) + told side i p rest)%Z.
Proof.
  intros Hms. unfold told. rewrite lines_of_prefix; cbn [fst].
  - rewrite fmap_app, total_app. f_equal. f_equal. rewrite <-list_fmap_compose.
    apply list_fmap_ext. intros k m Hk. apply amount_render. by eapply Forall_lookup_1.
  - apply Forall_fmap. eapply Forall_impl; [exact Hms|]. intros m Hm. by apply clean_LF, render_clean.
Qed.

Lemma told_nil side i p : told side i p [] = 0%Z.
Proof. done. Qed.

Lemma told_app side i p n t t' :
  typed n t → told side i p (t ++ t') = (told side i p t + told side i p t')%Z.
Proof.
  intros (ms & -> & Hms & _). rewrite (told_messages side i p ms t') by done. f_equal.
  rewrite <-(app_nil_r (wire _)), told_messages, told_nil by done. lia.
Qed.

Lemma told_message side i p m t :
  t = render m ++ [LF] → valid_message m → told side i p t = part side i p m.
Proof.
  intros -> Hm. pose proof (told_messages side i p [m] [] ltac:(by constructor)) as Ht.
  rewrite told_nil in Ht. unfold wire in Ht. cbn in Ht. rewrite !app_nil_r in Ht. rewrite Ht. lia.
Qed.

(** ** Notices *)

Definition party (side : Side) (e : TradeExecution) : Z :=
  match side with Side_BUY => x_buyer_fd e | Side_SELL => x_seller_fd e end.

(** What [fd] bought or sold in the executions [xs]. *)
Definition share (side : Side) (fd : Z) (xs : list TradeExecution) : Z :=
  total ((λ e, if decide (party side e = fd) then x_quantity e else 0%Z) <$> xs).

Definition sound_execution (e : TradeExecution) : Prop :=
  x_instrument e ∈ kInstruments ∧ in_range (x_quantity e) ∧ in_range (x_price e).

Lemma share_nonneg side fd xs : Forall sound_execution xs → (0 ≤ share side fd xs)%Z.
Proof.
  intros Hxs. apply total_nonneg, Forall_fmap. eapply Forall_impl; [exact Hxs|].
  intros e (_ & [? _] & _). cbn. case_decide; lia.
Qed.

Lemma share_app side fd xs ys : share side fd (xs ++ ys) = (share side fd xs + share side fd ys)%Z.
Proof. unfold share. by rewrite fmap_app, total_app. Qed.

Lemma told_just side i p fd f m t :
  t = render m ++ [LF] → valid_message m →
  told side i p (just fd t f) = if decide (f = fd) then part side i p m else 0%Z.
Proof. intros Ht Hm. unfold just. case_decide; [by apply told_message|done]. Qed.

Lemma told_notice side i p x e f :
  sound_execution e →
  told side i p (notice x e f)
  = if decide (x_instrument e = i ∧ x_price e = p ∧ party side e = f) then x_quantity e else 0%Z.
Proof.
  intros (Hi & Hq & Hp). set (fields := λ M : bytes → Z → Z → message, M (x_instrument e) (x_quantity e) (x_price e)).
  assert (∀ M w, is_reply (fields M) = false → valid_message (fields M) →
    join w (x_instrument e) (x_quantity e) (x_price e) = render (fields M) ++ [LF] → ∀ fd,
    typed 0 (just fd (join w (x_instrument e) (x_quantity e) (x_price e)) f)) as Htyped.
  { intros M w Hr Hv Hm fd. unfold just. case_decide; [|apply typed_nil].
    pose proof (typed_message (fields M) _ Hm Hv) as Ht. by rewrite Hr in Ht. }
  assert (∀ w, join w (x_instrument e) (x_quantity e) (x_price e)
    = (w ++ lit " " ++ x_instrument e ++ lit " " ++ to_string (x_quantity e) ++ lit " "
       ++ to_string (x_price e)) ++ [LF]) as Hjoin by (intros w; unfold join; by rewrite <-!app_assoc).
  unfold notice, also, bought, sold, trade.
  rewrite (told_app side i p 0) by (by apply (Htyped MBought)).
  rewrite (told_app side i p 0) by (by apply (Htyped MSold)).
  rewrite (told_just side i p _ f (fields MBought)), (told_just side i p _ f (fields MSold)) by done.
  assert (told side i p (if subscribed x (x_instrument e) f
    then join (lit "TRADE") (x_instrument e) (x_quantity e) (x_price e) else []) = 0%Z) as ->.
  { destruct (subscribed _ _ _); [|done]. rewrite (told_message side i p (fields MTrade)) by done.
    by destruct side. }
  unfold fields, part, party. destruct side; repeat case_decide; naive_solver lia.
Qed.

Lemma told_notices side i p x xs f j r :
  Forall sound_execution xs → Forall (λ e, x_instrument e = j ∧ x_price e = r) xs →
  told side i p (notices x xs f) = if decide (j = i ∧ r = p) then share side f xs else 0%Z.
Proof.
  intros Hxs Hjr. unfold notices. induction Hxs as [|e xs He Hxs IH]; [by case_decide|].
  apply Forall_cons in Hjr as [[<- <-] Hjr]. cbn. destruct He as (Hi & Hq & Hp).
  rewrite (told_app side i p 0) by (by apply typed_notice). rewrite told_notice by done.
  rewrite IH by done. unfold share. cbn. repeat case_decide; naive_solver lia.
Qed.

(** ** The book *)

Lemma depth_app a b : depth (a ++ b) = (depth a + depth b)%Z.
Proof. unfold depth. rewrite fmap_app. apply total_app. Qed.

(** Each owner's orders lose exactly what is filled of them, and the fills
    and the rest make up the new order. *)
Lemma fill_shares q l l' r fs fd :
  fill q l = (l', r, fs) →
  (depth (filter (λ e, r_owner e = fd) l')
   + total ((λ f : Z * Z, if decide (f.1 = fd) then f.2 else 0%Z) <$> fs)
   = depth (filter (λ e, r_owner e = fd) l))%Z
  ∧ (total fs.*2 + r = q)%Z.
Proof.
  revert q l' r fs. induction l as [|e l IH]; intros q l' r fs; cbn [fill].
  { intros [= <- <- <-]. done. }
  destruct (q <=? 0)%Z; [intros [= <- <- <-]; cbn; lia|].
  destruct (r_quantity e <=? q)%Z.
  - destruct (fill (q - r_quantity e) l) as [[l1 r1] fs1] eqn:Hrec. intros [= <- <- <-].
    destruct (IH _ _ _ _ Hrec) as [H1 H2]. rewrite filter_cons. unfold depth, total in *. cbn.
    destruct (decide (r_owner e = fd)); cbn; lia.
  - intros [= <- <- <-]. rewrite !filter_cons. cbn [r_owner]. unfold depth, total. cbn.
    destruct (decide (r_owner e = fd)); cbn; lia.
Qed.

Lemma share_own side owner i p fs fd :
  share side fd (execution side owner i p <$> fs) = if decide (owner = fd) then total fs.*2 else 0%Z.
Proof.
  unfold share, total. induction fs as [|g fs IH]; [by case_decide|]. cbn in *. rewrite IH.
  destruct side; cbn; case_decide; lia.
Qed.

Lemma share_other side owner i p fs fd :
  share (opposite_side side) fd (execution side owner i p <$> fs)
  = total ((λ f : Z * Z, if decide (f.1 = fd) then f.2 else 0%Z) <$> fs).
Proof.
  unfold share, total. induction fs as [|g fs IH]; [done|]. cbn in *. rewrite IH. by destruct side.
Qed.

(** A new order: what a client gains in executions it loses in resting orders,
    and its owner has its size more in both together. *)
Lemma spec_add_shares lb owner i side q p id lb' xs f s j r :
  spec_add lb owner i side q p = (id, lb', xs) → (0 ≤ q)%Z →
  live_level (lb_level lb (opposite_side side) i p) →
  ((if decide (i = j ∧ p = r) then share s f xs else 0) + holding lb' f s j r
   = holding lb f s j r + if decide (owner = f ∧ (side, i, p) = (s, j, r)) then q else 0)%Z.
Proof.
  unfold spec_add, holding. destruct (fill q _) as [[l' rest] fs] eqn:Hf. intros [= <- <- <-] Hq Hl.
  destruct (fill_shares _ _ _ _ _ f Hf) as [Hshare Htot]. pose proof (fill_rest _ _ _ _ _ Hf Hl Hq) as Hr.
  cbn [lb_level]. destruct (decide (i = j ∧ p = r)) as [[<- <-]|Hne].
  2:{ rewrite (decide_False (P := owner = f ∧ _)) by naive_solver.
      assert (∀ g s0 k, set_level g s0 i p k s j r = g s j r) as Hsame.
      { intros g s0 k. unfold set_level. rewrite decide_False by naive_solver. done. }
      destruct (0 <? rest)%Z; rewrite !Hsame; lia. }
  destruct (decide (s = side)) as [->|Hs].
  - rewrite share_own. assert (∀ k, set_level (lb_level lb) (opposite_side side) i p k side i p
      = lb_level lb side i p) as Hsame.
    { intros k. unfold set_level. rewrite decide_False; [done|]. by destruct side. }
    destruct (Z.ltb_spec 0 rest).
    + rewrite Hsame. unfold set_level. rewrite (decide_True (P := (side, i, p) = (side, i, p))) by done.
      rewrite filter_app, depth_app, filter_cons, filter_nil. cbn [r_owner].
      destruct (decide (owner = f)); cbn; rewrite ?decide_True, ?decide_False by naive_solver;
        cbn; lia.
    + rewrite Hsame.
      destruct (decide (owner = f)); rewrite ?decide_True, ?decide_False by naive_solver; lia.
  - assert (s = opposite_side side) as -> by (by destruct s, side).
    rewrite share_other, (decide_False (P := owner = f ∧ _)) by (destruct side; naive_solver).
    assert (∀ g : Side → bytes → Z → list resting, ∀ k, set_level g side i p k (opposite_side side) i p
      = g (opposite_side side) i p) as Hsame.
    { intros g k. unfold set_level. rewrite decide_False; [done|]. by destruct side. }
    destruct (0 <? rest)%Z; rewrite ?Hsame; unfold set_level; rewrite decide_True by done; lia.
Qed.

Lemma depth_filter (P : resting → Prop) `{!∀ e, Decision (P e)} l :
  live_level l → (depth (filter P l) ≤ depth l)%Z.
Proof.
  unfold depth. induction 1 as [|e l He Hl IH]; [done|]. rewrite filter_cons.
  destruct (decide (P e)); cbn; lia.
Qed.

Lemma live_filter (P : resting → Prop) `{!∀ e, Decision (P e)} l : live_level l → live_level (filter P l).
Proof.
  unfold live_level. rewrite !Forall_forall. intros Hl e [_ He]%list_elem_of_filter. by apply Hl.
Qed.

(** Orders that leave the book only lower the holdings. *)
Lemma holding_kept lb (P : resting → Prop) `{!∀ e, Decision (P e)} f side i p :
  live_level (lb_level lb side i p) →
  (holding (keep_levels lb P) f side i p ≤ holding lb f side i p)%Z.
Proof.
  intros Hl. unfold holding. cbn [lb_level keep_levels].
  replace (filter (λ e, r_owner e = f) (filter P (lb_level lb side i p)))
    with (filter P (filter (λ e, r_owner e = f) (lb_level lb side i p))).
  - apply depth_filter, live_filter, Hl.
  - rewrite !filter_filter_and. apply filter_ext_in. tauto.
Qed.

(** ** Requests *)

Lemma told_reply side i p fd f t : reply t → told side i p (just fd t f) = 0%Z.
Proof.
  intros (m & Ht & Hv & Hr). rewrite (told_just side i p fd f m) by done.
  case_decide; [|done]. by destruct m, side.
Qed.

(** One request: whatever a client is told it traded has left its resting
    orders or is part of the order it makes. *)
Lemma serves_shares x fd cl line y d lost f side i p :
  exchange_wf x → ex_clients x !! fd = Some cl → serves x fd cl (parse line) y d lost →
  (told side i p (d f) + holding (ex_book y) f side i p
   ≤ holding (ex_book x) f side i p + if decide (fd = f) then order_of side i p line else 0)%Z.
Proof.
  intros Hx Hcl Hs. pose proof (order_of_nonneg side i p line) as Hpos.
  destruct (serves_answer _ _ _ _ _ _ _ Hx Hcl Hs)
    as [_|y t _ Ht Hbook|cmd id lb an lo _ -> Hval Ht Hi Hqty Hp Hadd].
  - unfold nothing. rewrite told_nil. case_decide; lia.
  - rewrite told_reply by done. pose proof (live_levels x side i p Hx) as Hl.
    assert (holding (ex_book y) f side i p ≤ holding (ex_book x) f side i p)%Z; [|case_decide; lia].
    destruct Hbook as [->|[id ->]]; [done|by apply holding_kept].
  - pose proof (live_levels x (opposite_side (side_of (cmd_type (parse line)))) (cmd_instrument (parse line))
      (cmd_price (parse line)) Hx) as Hl. destruct Hqty as [Hq0 Hqmax].
    destruct (spec_add_executions _ _ _ _ _ _ _ _ _ Hadd ltac:(lia) Hl) as (-> & _ & Hxs).
    assert (Forall sound_execution (an ++ lo)) as Hsound.
    { eapply Forall_impl; [exact Hxs|]. unfold sound_execution. intros e (-> & -> & ?). split_and!; [done| |done]. split; lia. }
    pose proof (spec_add_shares _ _ _ _ _ _ _ _ _ f side i p Hadd ltac:(lia) Hl) as Hsum.
    rewrite share_app in Hsum. apply Forall_app in Hsound as [Hsa Hsl].
    pose proof (share_nonneg side f lo Hsl) as Hlost. unfold also.
    assert (reply (order_accepted (lb_next (ex_book x)))) as Hrep
      by (apply reply_accepted, (xw_next x Hx)).
    rewrite (told_app side i p _ _ _ (typed_just fd _ f Hrep)), told_reply by done.
    rewrite (told_notices side i p x an f (cmd_instrument (parse line)) (cmd_price (parse line))); [|done|].
    2:{ apply Forall_app in Hxs as [Hxs _]. eapply Forall_impl; [exact Hxs|]. naive_solver. }
    cbn [ex_book with_book]. unfold order_of in *.
    destruct (decide (fd = f)); repeat case_decide; naive_solver lia.
Qed.

(** ** Histories *)

(** Every order in the book is of a connected client. *)
Definition owners_present (x : Exchange) : Prop :=
  ∀ side i p e, e ∈ lb_level (ex_book x) side i p → is_Some (ex_clients x !! r_owner e).

Lemma leaving_present may y x : leaving may y x → owners_present x.
Proof.
  intros [_ _ [_ Hlev]] side i p e. rewrite Hlev. cbn. by intros [? _]%list_elem_of_filter.
Qed.

Lemma holding_absent x fd side i p :
  owners_present x → ex_clients x !! fd = None → holding (ex_book x) fd side i p = 0%Z.
Proof.
  intros Hp Hfd. unfold holding.
  assert (filter (λ e, r_owner e = fd) (lb_level (ex_book x) side i p) = []) as ->; [|done].
  apply elem_of_nil_inv. intros e [<- He]%list_elem_of_filter. destruct (Hp _ _ _ _ He). congruence.
Qed.

Lemma holding_leaving may y x f side i p :
  exchange_wf y → leaving may y x →
  (holding (ex_book x) f side i p ≤ holding (ex_book y) f side i p)%Z.
Proof.
  intros Hy [_ _ [_ Hlev]]. unfold holding at 1. rewrite Hlev. by apply holding_kept, live_levels.
Qed.

(** A client is told of no more than it ordered, less what still rests. *)
Definition within_orders (tr : list event) (x : Exchange) (fd : Z) : Prop :=
  ∀ side i p, (told side i p (output tr fd) + holding (ex_book x) fd side i p
               ≤ ordered side i p (requests tr fd))%Z.

Lemma step_within tr x e y fd :
  steps new_exchange tr x → owners_present x → step x e y →
  (is_Some (ex_clients x !! fd) → within_orders tr x fd) →
  is_Some (ex_clients y !! fd) → within_orders (tr ++ [e]) y fd.
Proof.
  intros Hsteps Hown Hstep IH Hfd side i p. destruct (steps_typed tr x Hsteps) as [Hwf Hty]. specialize (Hty fd).
  rewrite output_snoc, requests_snoc.
  destruct Hstep as [f Hnew|f cl line y' d lost x' Hcl Hs Hl|f x' Hl|fds x' Hl]; cbn [note fst snd].
  - destruct (decide (f = fd)) as [->|Hne]; cbn [fst snd].
    + cbn. by rewrite holding_absent by done.
    + apply IH. destruct Hfd as [cl Hcl]. cbn in Hcl. rewrite lookup_insert_ne in Hcl by done. by exists cl.
  - fold (output tr fd) (requests tr fd). rewrite (told_app _ _ _ _ _ _ Hty).
    pose proof (serves_shares _ _ _ _ _ _ _ fd side i p Hwf Hcl Hs) as Hle.
    pose proof (holding_leaving _ _ _ fd side i p (serves_wf _ _ _ _ _ _ _ Hwf Hcl Hs) Hl) as Hle'.
    assert (is_Some (ex_clients x !! fd)) as Hold.
    { destruct (decide (fd = f)) as [->|Hne]; [by exists cl|]. destruct Hfd as [cl' Hcl'].
      exists cl'. rewrite <-(serves_others _ _ _ _ _ _ _ _ Hs Hne). by apply (lv_stay _ _ _ Hl). }
    specialize (IH Hold side i p).
    destruct (decide (f = fd)); rewrite ?ordered_snoc; lia.
  - fold (output tr fd) (requests tr fd). rewrite (told_app _ _ _ _ _ _ Hty), told_reply
      by (apply reply_error; [done|auto with clean]).
    pose proof (holding_leaving _ _ _ fd side i p Hwf Hl). destruct Hfd as [cl Hcl].
    specialize (IH (ex_intro _ cl (lv_stay _ _ _ Hl _ _ Hcl)) side i p). lia.
  - pose proof (holding_leaving _ _ _ fd side i p Hwf Hl). destruct Hfd as [cl Hcl].
    specialize (IH (ex_intro _ cl (lv_stay _ _ _ Hl _ _ Hcl)) side i p).
    unfold output, requests in IH. lia.
Qed.

Lemma steps_within tr x :
  steps new_exchange tr x →
  owners_present x ∧ ∀ fd, is_Some (ex_clients x !! fd) → within_orders tr x fd.
Proof.
  induction 1 as [y [Hc [_ Hlev]]|tr e y z Hsteps [Hown IH] Hstep].
  - split.
    + intros side i p e. rewrite <-Hlev. cbn. set_solver.
    + intros fd. rewrite <-Hc. cbn. rewrite lookup_empty. by intros [? ?].
  - split.
    + destruct Hstep as [f Hnew|f cl line y' d lost x' Hcl Hs Hl|f x' Hl|fds x' Hl];
        try by eapply leaving_present.
      intros side i p e He. cbn. rewrite lookup_insert. case_decide; [done|by eapply Hown].
    + intros fd. eapply step_within; [done..|apply IH].
Qed.
