(* ===== verification/ServerInv.v ===== *)
(** * ServerInv: the server's invariant and its output path

    [core] is what holds of the server's tables at every moment (sessions,
    subscriber sets, user names, book, registrations, descriptors); [io_ok]
    is what holds of a session's output side whenever its [flush] is not in
    progress; [inv] is both.  [delivers T d s s'] describes a stretch of the
    server's execution: of the clients in [T] some may have been dropped, the
    others got the bytes [d fd] appended to their output stream, and nobody
    else was touched.  The specifications of [drop_session], [flush] and
    [send_to] are in these terms. *)

From S2P Require Import Prelude CxxString MessageParser OrderBook OrderBookSpec Kernel EventLoop.
From S2P Require Import SocketUtils ClientSession TcpServer ExchangeServer ExchangeSpec.

(** ** Sessions *)

Record core_session (fd : Z) (c : ClientSession) : Prop := mkCoreSession {
  core_key : cs_fd c = fd;
  core_trader : cs_role c = Role_TRADER ↔ cs_logged_in c = true;
  core_market : cs_subscriptions c ≠ ∅ → cs_role c = Role_MARKET_DATA;
  core_inbuf : (str_size (cs_inbuf c) ≤ kMaxLineBytes + kReadChunk)%Z;
  core_name : length (cs_username c) ≤ 64;
  core_closing : cs_closing c = true → cs_inbuf c = []
}.

(** Everything but the output side. *)
Record same_core (c c' : ClientSession) : Prop := mkSameCore {
  same_fd : cs_fd c' = cs_fd c;
  same_role : cs_role c' = cs_role c;
  same_inbuf : cs_inbuf c' = cs_inbuf c;
  same_closing : cs_closing c' = cs_closing c;
  same_peer : cs_peer c' = cs_peer c;
  same_name : cs_username c' = cs_username c;
  same_login : cs_logged_in c' = cs_logged_in c;
  same_subs : cs_subscriptions c' = cs_subscriptions c
}.

#[global] Instance same_core_preorder : PreOrder same_core.
Proof. split; [by split|]. intros c1 c2 c3 [] []. split; congruence. Qed.

(** The part of a session that the server's tables mirror. *)
Record same_tables (c c' : ClientSession) : Prop := mkSameTables {
  tab_fd : cs_fd c' = cs_fd c;
  tab_role : cs_role c' = cs_role c;
  tab_name : cs_username c' = cs_username c;
  tab_login : cs_logged_in c' = cs_logged_in c;
  tab_subs : cs_subscriptions c' = cs_subscriptions c
}.

#[global] Instance same_tables_refl : Reflexive same_tables.
Proof. by split. Qed.

Lemma same_core_tables c c' : same_core c c' → same_tables c c'.
Proof. intros []. by split. Qed.

Lemma core_session_same fd c c' : core_session fd c → same_core c c' → core_session fd c'.
Proof.
  intros [] [Hfd Hrole Hin Hcl Hpeer Hname Hlogin Hsubs].
  split; rewrite ?Hfd, ?Hrole, ?Hin, ?Hcl, ?Hname, ?Hlogin, ?Hsubs; done.
Qed.

(** The write offset is inside a buffer that fits in memory. *)
Definition out_pre (c : ClientSession) : Prop :=
  (0 ≤ cs_out_start c ≤ str_size (cs_outbuf c))%Z ∧ (str_size (cs_outbuf c) < 2 ^ 63)%Z.

Record io_ok (c : ClientSession) : Prop := mkIoOk {
  io_start : (0 ≤ cs_out_start c ≤ str_size (cs_outbuf c))%Z;
  io_reclaimed : (cs_out_start c ≤ kReadChunk)%Z;
  io_limit : (str_size (pending c) ≤ kMaxOutputBytes)%Z;
  io_closing : cs_closing c = true → pending c ≠ [];
  io_backlogged : cs_backlogged c = bool_decide (pending c ≠ []);
  io_write : cs_write_interest c = bool_decide (pending c ≠ []);
  io_read : cs_read_interest c = negb (cs_closing c)
}.

Lemma out_pre_wf c : out_pre c → out_wf c.
Proof. intros [??]. split; lia. Qed.

Lemma pending_size c : (0 ≤ cs_out_start c ≤ str_size (cs_outbuf c))%Z →
  str_size (pending c) = (str_size (cs_outbuf c) - cs_out_start c)%Z.
Proof. unfold pending, str_size. rewrite length_drop. lia. Qed.

Lemma io_ok_pre c : io_ok c → out_pre c ∧ (str_size (cs_outbuf c) ≤ kMaxOutputBytes + kReadChunk)%Z.
Proof.
  intros []. pose proof (pending_size c io_start0).
  assert (str_size (cs_outbuf c) ≤ kMaxOutputBytes + kReadChunk)%Z by lia.
  split; [split|]; [done| |done]. unfold kMaxOutputBytes, kReadChunk in *. lia.
Qed.

(** Appending to the buffer appends to what is pending. *)
Lemma pending_append c m :
  (0 ≤ cs_out_start c ≤ str_size (cs_outbuf c))%Z →
  pending (set_out (cs_outbuf c ++ m) (cs_out_start c) c) = pending c ++ m.
Proof.
  intros Ho. unfold pending. cbn [cs_outbuf cs_out_start set_out].
  rewrite drop_app_le; [done|]. unfold str_size in Ho. lia.
Qed.

Lemma pending_advance c n :
  out_pre c → (0 ≤ n ≤ str_size (pending c))%Z →
  let c' := set_out (cs_outbuf c) (wrap_size (cs_out_start c + n)) c in
  out_pre c' ∧ pending c' = drop (Z.to_nat n) (pending c).
Proof.
  intros [Ho Hs] Hn. rewrite pending_size in Hn by done. cbv zeta.
  rewrite wrap_size_id by lia. split; [split; cbn; lia|].
  unfold pending. cbn [cs_outbuf cs_out_start set_out]. rewrite drop_drop.
  f_equal. lia.
Qed.

Lemma pending_reclaim c :
  out_pre c → out_pre (reclaim c) ∧ pending (reclaim c) = pending c
    ∧ (cs_out_start (reclaim c) ≤ kReadChunk)%Z ∧ same_core c (reclaim c)
    ∧ cs_read_interest (reclaim c) = cs_read_interest c
    ∧ cs_write_interest (reclaim c) = cs_write_interest c.
Proof.
  intros Hpre. pose proof (out_pre_wf c Hpre) as Hwf. unfold reclaim.
  rewrite has_pending_spec by done. destruct Hpre as [Ho Hs].
  destruct (bool_decide_reflect (pending c ≠ [])) as [Hp|Hp]; cbn [negb].
  - destruct (Z.ltb_spec kReadChunk (cs_out_start c)); [|by split_and!; try done; split].
    split_and!; [split; cbn| | |by split|done|done].
    + unfold str_size. lia.
    + unfold str_size, erase0 in *. rewrite length_drop. lia.
    + done.
    + cbn. unfold kReadChunk. lia.
  - split_and!; [split; cbn; unfold str_size; cbn; lia| | |by split|done|done].
    + apply dec_stable in Hp. by rewrite Hp.
    + cbn. unfold kReadChunk. lia.
Qed.

(** ** The invariant *)

Section Invariant.
Context `{!Kernel K, !KernelView K} `{!EventLoopI K L}.

Abbreviation server := (Server L K).
Implicit Types s : server.

(** The descriptor of the listening socket. *)
Definition lfd (s : server) : Z := ts_fd (listener_ s).

Definition subscriber_set (s : server) (i : bytes) : gset Z := default ∅ (subscribers_ s !! i).

Record core (s : server) : Prop := mkCore {
  core_sessions fd c : sessions_ s !! fd = Some c → core_session fd c;
  (* [subscribers_] is the inverse of the sessions' [subscriptions] *)
  core_subs i fd : fd ∈ subscriber_set s i ↔
    ∃ c, sessions_ s !! fd = Some c ∧ i ∈ cs_subscriptions c;
  (* [usernames_] holds the names of the logged-in sessions, which differ *)
  core_names u : u ∈ usernames_ s ↔
    ∃ fd c, sessions_ s !! fd = Some c ∧ cs_logged_in c = true ∧ cs_username c = u;
  core_unique fd fd' c c' : sessions_ s !! fd = Some c → sessions_ s !! fd' = Some c' →
    cs_logged_in c = true → cs_logged_in c' = true → cs_username c = cs_username c' → fd = fd';
  core_book : book_wf (book_ s);
  (* only connected, logged-in traders have resting orders *)
  core_owner q a o : (a, o) ∈ queue_at (book_ s) q →
    ∃ c, sessions_ s !! o_owner_fd o = Some c ∧ cs_logged_in c = true;
  core_loop : loop_wf (loop_ s);
  core_listener : loop_steady (loop_ s) →
    loop_interest (loop_ s) (lfd s) = Some (bool_decide (accept_resume_at_ s = 0%Z), false);
  core_resume : (0 ≤ accept_resume_at_ s)%Z;
  core_closed fd : fd ∈ closed_fds_ s → loop_interest (loop_ s) fd = None;
  (* session, dropped and listening descriptors are distinct and all open *)
  core_nodup : NoDup (closed_fds_ s);
  core_open_session fd c : sessions_ s !! fd = Some c →
    fd ∈ open_fds (kern s) ∧ fd ∉ closed_fds_ s ∧ fd ≠ lfd s;
  core_open_closed fd : fd ∈ closed_fds_ s → fd ∈ open_fds (kern s) ∧ fd ≠ lfd s;
  core_open_listener : lfd s ∈ open_fds (kern s)
}.

(** The loop is registered with the interest the session records.  The server
    does not look at the result of changing an interest, so this needs a back
    end that does not fail to change one. *)
Definition mirror (s : server) (fd : Z) (c : ClientSession) : Prop :=
  loop_steady (loop_ s) → loop_interest (loop_ s) fd = Some (cs_read_interest c, cs_write_interest c).

Definition io_except (X : Z → Prop) (s : server) : Prop :=
  ∀ fd c, ¬ X fd → sessions_ s !! fd = Some c → io_ok c ∧ mirror s fd c.

Definition inv (s : server) : Prop := core s ∧ io_except (λ _, False) s.

Lemma inv_core s : inv s → core s.
Proof. by intros [? _]. Qed.

Lemma inv_io s X : inv s → io_except X s.
Proof. intros [_ H] fd c _. apply H. auto. Qed.

Lemma inv_session s fd c : inv s → sessions_ s !! fd = Some c → core_session fd c ∧ io_ok c ∧ mirror s fd c.
Proof. intros [Hc H] Hfd. split; [by apply (core_sessions s)|]. by apply H; auto. Qed.

(** ** Stretches of execution *)

(** The bytes the server has produced for a client so far: those the kernel
    has taken over, then those still pending. *)
Definition stream (s : server) (fd : Z) (c : ClientSession) : bytes := sent (kern s) fd ++ pending c.

(** The orders of connected clients. *)
Definition connected_levels (s : server) (lb : LevelBook) : LevelBook :=
  keep_levels lb (λ e, is_Some (sessions_ s !! r_owner e)).

Record delivers (T : gset Z) (d : Z → bytes) (s s' : server) : Prop := mkDelivers {
  dl_session fd c' : sessions_ s' !! fd = Some c' →
    ∃ c, sessions_ s !! fd = Some c ∧ same_core c c' ∧ stream s' fd c' = stream s fd c ++ d fd;
  dl_frame fd : fd ∉ T →
    sessions_ s' !! fd = sessions_ s !! fd ∧ sent (kern s') fd = sent (kern s) fd;
  dl_dropped fd c : sessions_ s !! fd = Some c → sessions_ s' !! fd = None → fd ∈ closed_fds_ s';
  dl_closed fd : fd ∈ closed_fds_ s' → fd ∈ closed_fds_ s ∨ is_Some (sessions_ s !! fd);
  dl_closed_kept fd : fd ∈ closed_fds_ s → fd ∈ closed_fds_ s';
  dl_book : level_equiv (levels (book_ s')) (connected_levels s' (levels (book_ s)));
  dl_open : open_fds (kern s') = open_fds (kern s);
  dl_work : sys_work (kern s') ≤ sys_work (kern s);
  dl_received fd : received (kern s') fd = received (kern s) fd;
  dl_listener : listener_ s' = listener_ s;
  dl_resume : accept_resume_at_ s' = accept_resume_at_ s;
  dl_verbose : verbose_ s' = verbose_ s
}.

(** [s'] differs from [s] only in the session [fd], the kernel, the loop's
    registration of [fd] and the log. *)
Record local (fd : Z) (c' : ClientSession) (s s' : server) : Prop := mkLocal {
  lc_sessions : sessions_ s' = <[fd := c']> (sessions_ s);
  lc_subs : subscribers_ s' = subscribers_ s;
  lc_names : usernames_ s' = usernames_ s;
  lc_closed : closed_fds_ s' = closed_fds_ s;
  lc_book : book_ s' = book_ s;
  lc_listener : listener_ s' = listener_ s;
  lc_resume : accept_resume_at_ s' = accept_resume_at_ s;
  lc_verbose : verbose_ s' = verbose_ s;
  lc_wf : loop_wf (loop_ s');
  lc_interest fd' : fd' ≠ fd → loop_interest (loop_ s') fd' = loop_interest (loop_ s) fd';
  lc_steady : loop_steady (loop_ s') → loop_steady (loop_ s);
  lc_open : open_fds (kern s') = open_fds (kern s);
  lc_work : sys_work (kern s') ≤ sys_work (kern s);
  lc_sent fd' : fd' ≠ fd → sent (kern s') fd' = sent (kern s) fd';
  lc_received fd' : received (kern s') fd' = received (kern s) fd'
}.

Lemma local_trans fd c1 c2 s s1 s2 : local fd c1 s s1 → local fd c2 s1 s2 → local fd c2 s s2.
Proof.
  intros [] []. split; try congruence; try done.
  - rewrite lc_sessions1, lc_sessions0. apply insert_insert_eq.
  - intros fd' Hne. by rewrite lc_interest1, lc_interest0.
  - auto.
  - lia.
  - intros fd' Hne. by rewrite lc_sent1, lc_sent0.
Qed.

Lemma local_refl fd c s : sessions_ s !! fd = Some c → loop_wf (loop_ s) → local fd c s s.
Proof. intros Hfd Hwf. split; try done. by rewrite insert_id. Qed.

Lemma connected_levels_all s : core s → level_equiv (levels (book_ s)) (connected_levels s (levels (book_ s))).
Proof.
  intros Hc. split; [done|]. intros side i p. cbn [lb_level connected_levels keep_levels].
  symmetry. apply filter_all, Forall_forall. intros [id owner q] Hin.
  apply in_level in Hin as (a & o & Hin & _ & _ & <- & _). cbn [r_owner].
  apply (core_owner s Hc) in Hin as (c & ? & _). eauto.
Qed.

(** Fewer connected clients, fewer orders. *)
Lemma connected_levels_twice s1 s2 lb :
  (∀ fd, is_Some (sessions_ s2 !! fd) → is_Some (sessions_ s1 !! fd)) →
  level_equiv (connected_levels s2 (connected_levels s1 lb)) (connected_levels s2 lb).
Proof.
  intros Hsub. split; [done|]. intros side i p. cbn [lb_level connected_levels keep_levels].
  rewrite filter_filter_and. apply filter_ext_in. intros e _. naive_solver.
Qed.

#[global] Instance connected_levels_proper s : Proper (level_equiv ==> level_equiv) (connected_levels s).
Proof.
  intros x y [Hn Hl]. split; [done|]. intros side i p. cbn [lb_level connected_levels keep_levels].
  by rewrite Hl.
Qed.

Lemma delivers_refl s : core s → delivers ∅ nothing s s.
Proof.
  intros Hc. split; try done; try congruence.
  - intros fd c Hfd. exists c. split_and!; [done..|]. by rewrite app_nil_r.
  - auto.
  - by apply connected_levels_all.
Qed.

Lemma delivers_trans T1 T2 d1 d2 s1 s2 s3 :
  delivers T1 d1 s1 s2 → delivers T2 d2 s2 s3 → delivers (T1 ∪ T2) (also d1 d2) s1 s3.
Proof.
  intros H1 H2. split; try (etrans; [apply H2|apply H1]).
  - intros fd c3 Hfd. destruct (dl_session _ _ _ _ H2 fd c3 Hfd) as (c2 & Hc2 & Hs2 & Heq2).
    destruct (dl_session _ _ _ _ H1 fd c2 Hc2) as (c1 & Hc1 & Hs1 & Heq1).
    exists c1. split_and!; [done|by etrans|]. unfold also. by rewrite Heq2, Heq1, app_assoc.
  - intros fd [Hn1 Hn2]%not_elem_of_union.
    destruct (dl_frame _ _ _ _ H1 fd Hn1), (dl_frame _ _ _ _ H2 fd Hn2). split; congruence.
  - intros fd c Hc Hnone. destruct (sessions_ s2 !! fd) as [c2|] eqn:Hc2.
    + by eapply (dl_dropped _ _ _ _ H2).
    + eapply (dl_closed_kept _ _ _ _ H2), (dl_dropped _ _ _ _ H1); done.
  - intros fd Hin. apply (dl_closed _ _ _ _ H2) in Hin as [Hin|[c2 Hc2]].
    + by apply (dl_closed _ _ _ _ H1).
    + right. apply (dl_session _ _ _ _ H1) in Hc2 as (c & ? & _). eauto.
  - intros fd Hin. by apply (dl_closed_kept _ _ _ _ H2), (dl_closed_kept _ _ _ _ H1).
  - rewrite (dl_book _ _ _ _ H2), (dl_book _ _ _ _ H1). apply connected_levels_twice.
    intros fd [c Hc]. apply (dl_session _ _ _ _ H2) in Hc as (? & ? & _). eauto.
Qed.

Lemma delivers_mono T T' d d' s s' :
  delivers T d s s' → T ⊆ T' → (∀ fd, is_Some (sessions_ s' !! fd) → d fd = d' fd) → delivers T' d' s s'.
Proof.
  intros [] HT Hd. split; try done.
  - intros fd c' Hc'. destruct (dl_session0 fd c' Hc') as (c & ? & ? & Heq). exists c.
    rewrite <-Hd by eauto. done.
  - intros fd Hn. apply dl_frame0. set_solver.
Qed.

Lemma delivers_seq T T1 T2 d d1 d2 s1 s2 s3 :
  delivers T1 d1 s1 s2 → delivers T2 d2 s2 s3 → T1 ∪ T2 ⊆ T →
  (∀ fd, is_Some (sessions_ s3 !! fd) → d1 fd ++ d2 fd = d fd) → delivers T d s1 s3.
Proof. intros H1 H2 HT Hd. eapply delivers_mono; [by eapply delivers_trans|done|done]. Qed.

(** Steps that deliver nothing before the others. *)
Lemma delivers_after T d s1 s2 s3 :
  delivers T nothing s1 s2 → delivers T d s2 s3 → delivers T d s1 s3.
Proof. intros H1 H2. eapply delivers_seq; [exact H1|exact H2|set_solver|done]. Qed.

(** What a local change that keeps the tables does not affect. *)
Lemma connected_local fd c c' s s' :
  core s → sessions_ s !! fd = Some c → local fd c' s s' →
  level_equiv (levels (book_ s')) (connected_levels s' (levels (book_ s))).
Proof.
  intros Hc Hfd Hl. rewrite (lc_book _ _ _ _ Hl).
  destruct (connected_levels_all s Hc) as [_ Hall].
  split; [done|]. intros side i p. rewrite Hall. cbn [lb_level connected_levels keep_levels].
  apply filter_ext_in. intros e _. rewrite (lc_sessions _ _ _ _ Hl).
  destruct (decide (fd = r_owner e)) as [<-|Hn].
  - rewrite Hfd, lookup_insert_eq. split; eauto.
  - by rewrite lookup_insert_ne.
Qed.

(** A local change that keeps the session's core appends to its stream. *)
Lemma delivers_local fd c c' m s s' :
  core s → sessions_ s !! fd = Some c → local fd c' s s' → same_core c c' →
  sent (kern s') fd ++ pending c' = stream s fd c ++ m →
  delivers {[fd]} (just fd m) s s'.
Proof.
  intros Hc Hfd Hlocal Hsame Heq. pose proof Hlocal as [].
  assert (∀ fd', fd' ≠ fd → sessions_ s' !! fd' = sessions_ s !! fd') as Hne
    by (intros fd' ?; rewrite lc_sessions0; by apply lookup_insert_ne).
  assert (sessions_ s' !! fd = Some c') as Heq'
    by (rewrite lc_sessions0; by apply lookup_insert_eq).
  split; try done; try congruence.
  - intros fd' c2. destruct (decide (fd' = fd)) as [->|Hn].
    + rewrite Heq'. intros [= <-]. exists c. split_and!; [done..|]. unfold just.
      by rewrite decide_True.
    + rewrite Hne by done. intros ?. exists c2. split_and!; [done..|]. unfold just.
      rewrite decide_False, app_nil_r by done. unfold stream. by rewrite lc_sent0.
  - intros fd' Hn%not_elem_of_singleton. split; [by apply Hne|by apply lc_sent0].
  - intros fd' c2. destruct (decide (fd' = fd)) as [->|Hn]; [congruence|].
    rewrite Hne by done. congruence.
  - rewrite lc_closed0. auto.
  - by eapply connected_local.
Qed.

Lemma core_local_tables fd c c' s s' :
  core s → sessions_ s !! fd = Some c → local fd c' s s' → same_tables c c' →
  core_session fd c' → core s'.
Proof.
  intros Hc Hfd [] Hsame Hcs.
  assert (∀ fd' c2, sessions_ s' !! fd' = Some c2 →
    ∃ c1, sessions_ s !! fd' = Some c1 ∧ same_tables c1 c2) as Hback.
  { intros fd' c2. rewrite lc_sessions0, lookup_insert. case_decide as Hd.
    - intros [= <-]. subst. eauto.
    - intros ?. exists c2. done. }
  assert (∀ fd' c1, sessions_ s !! fd' = Some c1 →
    ∃ c2, sessions_ s' !! fd' = Some c2 ∧ same_tables c1 c2) as Hforth.
  { intros fd' c2 Hc2. rewrite lc_sessions0, lookup_insert. case_decide as Hd.
    - subst. simplify_eq. eauto.
    - exists c2. done. }
  assert (lfd s' = lfd s) as Hl by (unfold lfd; by rewrite lc_listener0).
  assert (fd ≠ lfd s) as Hfl by (by apply (core_open_session s Hc) in Hfd as (_ & _ & ?)).
  assert (fd ∉ closed_fds_ s) as Hfc by (by apply (core_open_session s Hc) in Hfd as (_ & ? & _)).
  destruct Hc. unfold subscriber_set in *.
  split; rewrite ?Hl, ?lc_subs0, ?lc_names0, ?lc_book0, ?lc_resume0, ?lc_closed0, ?lc_open0; try done.
  - intros fd' c2. rewrite lc_sessions0, lookup_insert.
    destruct (decide (fd = fd')) as [<-|]; [by intros [= <-]|by apply core_sessions0].
  - intros i fd'. unfold subscriber_set. rewrite lc_subs0, core_subs0. split.
    + intros (c1 & (c2 & ? & [])%Hforth & Hi). exists c2. split; [done|congruence].
    + intros (c2 & (c1 & ? & [])%Hback & Hi). exists c1. split; [done|congruence].
  - intros u. rewrite core_names0. split.
    + intros (fd' & c1 & (c2 & ? & [])%Hforth & ? & ?). exists fd', c2. split_and!; congruence.
    + intros (fd' & c2 & (c1 & ? & [])%Hback & ? & ?). exists fd', c1. split_and!; congruence.
  - intros fd1 fd2 c1 c2 (c1' & ? & [])%Hback (c2' & ? & [])%Hback ???.
    eapply core_unique0; [done..| | |]; congruence.
  - intros q a o (c1 & (c2 & ? & [])%Hforth & ?)%core_owner0. exists c2. split; [done|congruence].
  - intros Hst. rewrite lc_interest0 by done. auto.
  - intros fd' Hin. rewrite lc_interest0; [by apply core_closed0|congruence].
  - intros fd' c2 (c1 & Hc1 & _)%Hback. by apply (core_open_session0 fd' c1).
Qed.

Lemma core_local fd c c' s s' :
  core s → sessions_ s !! fd = Some c → local fd c' s s' → same_core c c' → core s'.
Proof.
  intros Hc Hfd Hl Hsame. eapply core_local_tables; [done..|by apply same_core_tables|].
  eapply core_session_same; [by apply (core_sessions s Hc)|done].
Qed.

(** A session whose output side is in order again completes the invariant. *)
Lemma inv_local fd c' s s' :
  core s' → io_except (λ x, x = fd) s → local fd c' s s' → io_ok c' → mirror s' fd c' → inv s'.
Proof.
  intros Hc Hio Hl Hok Hm. split; [done|].
  intros fd' c2 _. rewrite (lc_sessions _ _ _ _ Hl), lookup_insert. case_decide as Hd.
  - intros [= <-]. by subst.
  - intros Hc2. destruct (Hio fd' c2) as [? Hm']; [congruence|done|]. split; [done|].
    intros Hst. rewrite (lc_interest _ _ _ _ Hl) by done. by apply Hm', (lc_steady _ _ _ _ Hl).
Qed.

Lemma io_local fd c' s s' :
  io_except (λ x, x = fd) s → local fd c' s s' → io_except (λ x, x = fd) s'.
Proof.
  intros Hio Hl fd' c2 Hne. rewrite (lc_sessions _ _ _ _ Hl), lookup_insert_ne by congruence.
  intros Hc2. destruct (Hio fd' c2) as [? Hm]; [done..|]. split; [done|].
  intros Hst. rewrite (lc_interest _ _ _ _ Hl) by done. by apply Hm, (lc_steady _ _ _ _ Hl).
Qed.

(** Any stretch of execution without new connections: sessions that are still
    there kept their identity and only got output appended; the others are
    waiting to be closed. *)
Record evolves (s s' : server) : Prop := mkEvolves {
  evo_session fd c' : sessions_ s' !! fd = Some c' →
    ∃ c, sessions_ s !! fd = Some c ∧ cs_peer c' = cs_peer c
      ∧ stream s fd c `prefix_of` stream s' fd c' ∧ (cs_closing c = true → cs_closing c' = true);
  evo_dropped fd c : sessions_ s !! fd = Some c → sessions_ s' !! fd = None → fd ∈ closed_fds_ s';
  evo_closed fd : fd ∈ closed_fds_ s' → fd ∈ closed_fds_ s ∨ is_Some (sessions_ s !! fd);
  evo_closed_kept fd : fd ∈ closed_fds_ s → fd ∈ closed_fds_ s';
  evo_open : open_fds (kern s') = open_fds (kern s);
  evo_work : sys_work (kern s') ≤ sys_work (kern s);
  evo_listener : listener_ s' = listener_ s;
  evo_resume : accept_resume_at_ s' = accept_resume_at_ s;
  evo_verbose : verbose_ s' = verbose_ s
}.

#[global] Instance evolves_preorder : PreOrder evolves.
Proof.
  split.
  - intros s. split; try done; [|congruence|auto]. intros fd c Hfd. by exists c.
  - intros s1 s2 s3 H1 H2. split; try (etrans; [apply H2|apply H1]).
    + intros fd c3 (c2 & (c1 & ? & Hp1 & ? & ?)%(evo_session _ _ H1) & Hp2 & ? & ?)%(evo_session _ _ H2).
      exists c1. split_and!; [done|congruence|by etrans|auto].
    + intros fd c Hc Hnone. destruct (sessions_ s2 !! fd) as [c2|] eqn:Hc2.
      * by eapply (evo_dropped _ _ H2).
      * eapply (evo_closed_kept _ _ H2), (evo_dropped _ _ H1); done.
    + intros fd [?|[c2 (c & ? & _)%(evo_session _ _ H1)]]%(evo_closed _ _ H2); [|by eauto].
      by apply (evo_closed _ _ H1).
    + intros fd Hin. by apply (evo_closed_kept _ _ H2), (evo_closed_kept _ _ H1).
Qed.

Lemma local_evolves fd c c' s s' :
  sessions_ s !! fd = Some c → local fd c' s s' → cs_peer c' = cs_peer c →
  stream s fd c `prefix_of` stream s' fd c' → (cs_closing c = true → cs_closing c' = true) →
  evolves s s'.
Proof.
  intros Hfd [] Hpeer Hst Hcl. split; rewrite ?lc_closed0; try done; [| |auto].
  - intros f c2. rewrite lc_sessions0, lookup_insert. case_decide as Hd.
    + intros [= <-]. subst f. by exists c.
    + intros Hc2. exists c2. unfold stream. by rewrite lc_sent0.
  - intros f c2 Hc2. rewrite lc_sessions0, lookup_insert_None. naive_solver.
Qed.

Lemma delivers_evolves T d s s' : delivers T d s s' → evolves s s'.
Proof.
  intros []. split; try done. intros fd c' (c & ? & [] & Heq)%dl_session0. exists c.
  split_and!; [done|done| |congruence]. rewrite Heq. by apply prefix_app_r.
Qed.

End Invariant.
