(* ===== verification/ServerOutput.v ===== *)
(** * ServerOutput: [drop], [flush] and [send_to] keep the invariant

    Each is total (no dangling reference, enough fuel), keeps [inv], and is
    described by [delivers]. *)

From S2P Require Import Prelude CxxString MessageParser OrderBook OrderBookSpec Kernel EventLoop.
From S2P Require Import SocketUtils ClientSession TcpServer ExchangeServer ExchangeSpec ServerInv.

Section Primitives.
Context {OV : Tolerance} `{!Kernel K, !KernelView K, !KernelLaws K}.
Context `{!EventLoopI K L, !EventLoopLaws K L} `{!HashOrder (Server L K)}.

Abbreviation server := (Server L K).
Implicit Types s : server.

Lemma wp_sys {A} (call : K → A * K) (Q : A → server → Prop) s :
  (∀ a k, call (kern s) = (a, k) → Q a (set_kern k s)) → wp (sys call) Q s.
Proof.
  intros H. destruct (call (kern s)) as [a k] eqn:Hc.
  eapply wp_done; [|by apply H]. unfold sys. by rewrite Hc.
Qed.

Lemma wp_print t (Q : unit → server → Prop) s :
  Q tt (set_log (log_ s ++ [Stdout t]) s) → wp (print t) Q s.
Proof. by apply wp_done. Qed.

Lemma wp_eprint t (Q : unit → server → Prop) s :
  Q tt (set_log (log_ s ++ [Stderr t]) s) → wp (eprint t) Q s.
Proof. by apply wp_done. Qed.

Lemma wp_is_session fd (Q : bool → server → Prop) s :
  Q (bool_decide (is_Some (sessions_ s !! fd))) s → wp (is_session fd) Q s.
Proof. by apply wp_done. Qed.

Lemma wp_deref fd c (Q : ClientSession → server → Prop) s :
  sessions_ s !! fd = Some c → Q c s → wp (deref_session fd) Q s.
Proof. intros Hfd. apply wp_done. unfold deref_session. by rewrite Hfd. Qed.

Lemma wp_assign fd c f (Q : unit → server → Prop) s :
  sessions_ s !! fd = Some c → Q tt (set_sessions (<[fd := f c]> (sessions_ s)) s) →
  wp (assign fd f) Q s.
Proof. intros Hfd. apply wp_done. unfold assign. by rewrite Hfd. Qed.

Lemma wp_session_ref fd c (Q : ClientSession → server → Prop) s :
  sessions_ s !! fd = Some c → Q c s → wp (session_ref fd) Q s.
Proof. intros Hfd. apply wp_done. unfold session_ref. by rewrite Hfd. Qed.

Lemma wp_update fd r w (Q : bool → server → Prop) s :
  loop_wf (loop_ s) →
  (∀ ok l k, loop_wf l → quiet (kern s) k →
     (∀ fd', fd' ≠ fd → loop_interest l fd' = loop_interest (loop_ s) fd') →
     (loop_steady l → loop_steady (loop_ s) ∧ loop_interest l fd = Some (r, w)) →
     Q ok (set_kern k (set_loop l s))) →
  wp (lift_update fd r w) Q s.
Proof.
  intros Hwf H. destruct (law_loop_update (loop_ s) fd r w (kern s) Hwf)
    as (ok & l & k & Hu & Hwf' & Hq & Ho & Hi & Hst).
  eapply wp_done; [|apply (H ok l k); [done..|]; rewrite Hst; auto]. unfold lift_update. by rewrite Hu.
Qed.

Lemma wp_log_connection_count m n (Q : unit → server → Prop) s :
  (∀ lg, Q tt (set_log lg s)) → wp (log_connection_count m n) Q s.
Proof.
  intros H. unfold log_connection_count. destruct (_ && _).
  - apply wp_ret. replace s with (set_log (log_ s) s) by (by destruct s). apply H.
  - apply wp_print, H.
Qed.

(** *** Dropping a client *)

Lemma erase_subscribers fd names s :
  ∃ m, for_each names (erase_subscriber fd) s = Done (tt, set_subscribers m s)
    ∧ ∀ i, default ∅ (m !! i) =
        if decide (i ∈ names) then subscriber_set s i ∖ {[fd]} else subscriber_set s i.
Proof.
  revert s. induction names as [|n names IH]; intros s.
  { exists (subscribers_ s). split; [by destruct s|]. intros i. by rewrite decide_False by set_solver. }
  set (m1 := <[n := subscriber_set s n ∖ {[fd]}]> (subscribers_ s)).
  destruct (IH (set_subscribers m1 s)) as (m & Hrun & Hm). exists m. split.
  { change (for_each (n :: names) (erase_subscriber fd) s)
      with (for_each names (erase_subscriber fd) (set_subscribers m1 s)). by rewrite Hrun. }
  intros i. rewrite Hm. unfold subscriber_set. cbn [subscribers_ set_subscribers]. subst m1.
  rewrite lookup_insert. destruct (decide (n = i)) as [->|Hne].
  - rewrite (decide_True (P := i ∈ i :: names)) by left. cbn [default]. unfold subscriber_set.
    case_decide; set_solver.
  - destruct (decide (i ∈ names)); [by rewrite decide_True by (by right)|].
    rewrite decide_False by set_solver. done.
Qed.

(** What [drop] leaves behind. *)
Record dropped (fd : Z) (c : ClientSession) (s s' : server) : Prop := mkDropped {
  dr_sessions : sessions_ s' = delete fd (sessions_ s);
  dr_subs i : subscriber_set s' i = subscriber_set s i ∖ {[fd]};
  dr_names : usernames_ s' = if cs_logged_in c then usernames_ s ∖ {[cs_username c]} else usernames_ s;
  dr_book : book_wf (book_ s');
  dr_next : next_order_id_ (book_ s') = next_order_id_ (book_ s);
  dr_queue q : queue_at (book_ s') q
    = filter (λ n : node, o_owner_fd n.2 ≠ fd) (queue_at (book_ s) q);
  dr_closed : closed_fds_ s' = closed_fds_ s ++ [fd];
  dr_listener : listener_ s' = listener_ s;
  dr_resume : accept_resume_at_ s' = accept_resume_at_ s;
  dr_verbose : verbose_ s' = verbose_ s;
  dr_wf : loop_wf (loop_ s');
  dr_interest fd' : fd' ≠ fd → loop_interest (loop_ s') fd' = loop_interest (loop_ s) fd';
  dr_steady : loop_steady (loop_ s') → loop_steady (loop_ s);
  dr_unregistered : loop_interest (loop_ s') fd = None;
  dr_quiet : quiet (kern s) (kern s')
}.

Lemma dropped_lookup fd c s s' fd' c' :
  dropped fd c s s' → sessions_ s' !! fd' = Some c' ↔ sessions_ s !! fd' = Some c' ∧ fd' ≠ fd.
Proof. intros []. rewrite dr_sessions0, lookup_delete_Some. naive_solver. Qed.

Lemma dropped_core fd c s s' :
  core s → sessions_ s !! fd = Some c → dropped fd c s s' → core s'.
Proof.
  intros Hc Hfd Hd. pose proof (λ fd' c', dropped_lookup fd c s s' fd' c' Hd) as Hlook.
  pose proof Hd as []. destruct dr_quiet0 as (Ho & _ & _).
  destruct (core_open_session s Hc fd c Hfd) as (Hop & Hnc & Hnl).
  assert (lfd s' = lfd s) as Hl by (unfold lfd; by rewrite dr_listener0).
  destruct Hc. split; rewrite ?Hl, ?dr_resume0, ?dr_closed0, ?Ho; try done.
  - intros fd' c' [? _]%Hlook. by apply core_sessions.
  - intros i fd'. rewrite dr_subs0, elem_of_difference, core_subs, elem_of_singleton.
    setoid_rewrite Hlook. naive_solver.
  - intros u. rewrite dr_names0. setoid_rewrite Hlook. destruct (cs_logged_in c) eqn:Hlog.
    + rewrite elem_of_difference, elem_of_singleton, core_names. split.
      * intros [(fd' & c' & ? & ? & ?) Hne]. exists fd', c'. split_and!; [done| |done|done].
        intros ->. congruence.
      * intros (fd' & c' & [? Hne] & ? & ?). split; [by exists fd', c'|].
        intros ->. apply Hne. by eapply core_unique.
    + rewrite core_names. split.
      * intros (fd' & c' & ? & ? & ?). exists fd', c'. split_and!; [done| |done|done].
        intros ->. congruence.
      * intros (fd' & c' & [? Hne] & ? & ?). by exists fd', c'.
  - intros fd1 fd2 c1 c2 [? _]%Hlook [? _]%Hlook. by apply core_unique.
  - intros q a o Hin. rewrite dr_queue0 in Hin. apply list_elem_of_filter in Hin as [Hne Hin].
    apply core_owner in Hin as (c' & ? & ?). exists c'. rewrite Hlook. done.
  - intros Hst. rewrite dr_interest0 by done. auto.
  - intros fd' [Hin|Hin%list_elem_of_singleton]%elem_of_app; [|by subst].
    rewrite dr_interest0; [by apply core_closed|congruence].
  - apply NoDup_app. split_and!; [done| |apply NoDup_singleton]. set_solver.
  - intros fd' c' [Hfd' Hne]%Hlook. destruct (core_open_session fd' c' Hfd') as (? & ? & ?).
    set_solver.
  - intros fd' [Hin|Hin%list_elem_of_singleton]%elem_of_app; [by apply core_open_closed|by subst].
Qed.

Lemma dropped_delivers fd c s s' :
  core s → sessions_ s !! fd = Some c → dropped fd c s s' → delivers {[fd]} nothing s s'.
Proof.
  intros Hc Hfd Hd. pose proof (λ fd' c', dropped_lookup fd c s s' fd' c' Hd) as Hlook.
  destruct Hd, dr_quiet0 as (Ho & Hs & Hw & Hr). split; try done.
  - intros fd' c' [Hfd' Hne]%Hlook. exists c'. split_and!; [done..|].
    unfold stream, nothing. by rewrite Hs, app_nil_r.
  - intros fd' Hne%not_elem_of_singleton. split; [|done].
    rewrite dr_sessions0. by apply lookup_delete_ne.
  - intros fd' c' Hfd'. rewrite dr_sessions0, lookup_delete_None, dr_closed0. set_solver.
  - intros fd'. rewrite dr_closed0, elem_of_app, list_elem_of_singleton. naive_solver.
  - rewrite dr_closed0. set_solver.
  - split; [done|]. intros side i p. cbn [lb_level levels connected_levels keep_levels].
    rewrite dr_queue0, (level_of_filter _ (λ e, r_owner e ≠ fd)) by done.
    apply filter_ext_in. intros e Hin. rewrite dr_sessions0. split.
    + intros Hne. rewrite lookup_delete_ne by done.
      destruct e as [id owner q]. apply (in_level (book_ s) side i p) in Hin as (a & o & Hin & _ & _ & <- & _).
      apply (core_owner s Hc) in Hin as (? & ? & _). cbn. eauto.
    + intros [? Hsome]. apply lookup_delete_Some in Hsome as [? _]. done.
Qed.

Context `{!HashOrderLaws (Server L K)}.

Lemma drop_session_dropped fd reason c s :
  core s → sessions_ s !! fd = Some c →
  wp (drop_session fd reason) (λ _ s', dropped fd c s s') s.
Proof.
  intros Hc Hfd. unfold drop_session. wp_step. apply wp_get. rewrite Hfd.
  wp_step. destruct (erase_subscribers fd (name_order s (cs_subscriptions c)) s) as (m & Hrun & Hm).
  eapply wp_done; [exact Hrun|]. cbv beta.
  assert (∀ i, default ∅ (m !! i) = subscriber_set s i ∖ {[fd]}) as Hm'.
  { intros i. rewrite Hm. case_decide as Hi; [done|].
    rewrite name_order_perm, elem_of_elements in Hi.
    assert (fd ∉ subscriber_set s i); [|set_solver].
    rewrite (core_subs s Hc). intros (c' & ? & ?). by simplify_eq. }
  wp_step. set (s1 := set_subscribers m s).
  eapply (wp_mono _ (λ _ s2, s2 = set_usernames
    (if cs_logged_in c then usernames_ s ∖ {[cs_username c]} else usernames_ s) s1)).
  { apply wp_when; intros Hlog; rewrite Hlog; [by apply wp_modify|by destruct s]. }
  intros [] s2 ->. wp_step.
  destruct (remove_orders_spec fd _ (book_ s) (core_book s Hc) (reflexivity _))
    as (b & Hb & Hbwf & Hnext & _ & Hq).
  eapply wp_done.
  { unfold lift_remove_orders. cbn [book_ set_usernames s1 set_subscribers].
    unfold remove_orders_of. rewrite Hb. done. }
  cbv beta. wp_step. apply wp_gets. wp_step. apply wp_log_connection_count. intros lg.
  wp_step. apply wp_modify. wp_step.
  destruct (law_loop_remove (loop_ s) fd (kern s) (core_loop s Hc))
    as (l & k & Hrem & Hwf & Hquiet & Ho & Hi & Hst).
  eapply wp_done.
  { unfold lift_remove. subst s1.
    cbn [loop_ kern set_sessions set_log set_book set_usernames set_subscribers].
    rewrite Hrem. done. }
  cbv beta. apply wp_modify. subst s1. split; try done. apply Hst.
Qed.

Lemma drop_spec fd reason c s :
  core s → io_except (λ x, x = fd) s → sessions_ s !! fd = Some c →
  wp (drop_session fd reason)
    (λ _ s', inv s' ∧ delivers {[fd]} nothing s s' ∧ sessions_ s' !! fd = None) s.
Proof.
  intros Hc Hio Hfd. eapply wp_mono; [by apply drop_session_dropped|].
  intros [] s' Hd. split_and!.
  - split; [by eapply dropped_core|]. intros fd' c' _ Hfd'.
    apply (dropped_lookup fd c s s') in Hfd' as [Hfd' Hne]; [|done].
    destruct (Hio fd' c') as [? Hm]; [done..|]. split; [done|].
    intros Hst. rewrite (dr_interest _ _ _ _ Hd) by done. by apply Hm, (dr_steady _ _ _ _ Hd).
  - by eapply dropped_delivers.
  - rewrite (dr_sessions _ _ _ _ Hd). apply lookup_delete_eq.
Qed.

(** [drop] of a descriptor without a session does nothing. *)
Lemma drop_absent fd reason (Q : unit → server → Prop) s :
  sessions_ s !! fd = None → Q tt s → wp (drop_session fd reason) Q s.
Proof. intros Hfd HQ. unfold drop_session. wp_step. apply wp_get. rewrite Hfd. by apply wp_ret. Qed.

(** *** Flushing *)

Lemma local_kern fd c k s :
  core s → sessions_ s !! fd = Some c → open_fds k = open_fds (kern s) →
  sys_work k ≤ sys_work (kern s) → (∀ fd', fd' ≠ fd → sent k fd' = sent (kern s) fd') →
  (∀ fd', received k fd' = received (kern s) fd') →
  local fd c s (set_kern k s).
Proof. intros Hc Hfd Ho Hw Hs Hr. split; try done; [by rewrite insert_id|apply Hc]. Qed.

Lemma local_assign fd c c' s :
  core s → sessions_ s !! fd = Some c → local fd c' s (set_sessions (<[fd := c']> (sessions_ s)) s).
Proof. intros Hc Hfd. split; try done. apply Hc. Qed.

Lemma local_log fd c' lg s s' : local fd c' s s' → local fd c' s (set_log lg s').
Proof. intros []. by split. Qed.

Lemma local_here fd c' s s' : local fd c' s s' → sessions_ s' !! fd = Some c'.
Proof. intros []. rewrite lc_sessions. apply lookup_insert_eq. Qed.

(** One step of flushing: some pending bytes are handed to the kernel. *)
Record handed_over (fd : Z) (c c' : ClientSession) (s s' : server) : Prop := mkHandedOver {
  ho_local : local fd c' s s';
  ho_core : same_core c c';
  ho_pre : out_pre c';
  ho_loop : loop_ s' = loop_ s;
  ho_read : cs_read_interest c' = cs_read_interest c;
  ho_write : cs_write_interest c' = cs_write_interest c;
  ho_length : length (pending c') ≤ length (pending c);
  ho_stream : stream s' fd c' = stream s fd c
}.

Lemma handed_over_trans fd c c1 c2 s s1 s2 :
  handed_over fd c c1 s s1 → handed_over fd c1 c2 s1 s2 → handed_over fd c c2 s s2.
Proof. intros [] []. split; try congruence; [by eapply local_trans|by etrans|lia]. Qed.

Lemma handed_over_delivers fd c c' s s' :
  core s → sessions_ s !! fd = Some c → handed_over fd c c' s s' → delivers {[fd]} nothing s s'.
Proof.
  intros Hc Hfd []. eapply delivers_mono; [apply (delivers_local fd c c' [])|done|]; [done..| |].
  - by rewrite app_nil_r.
  - intros ? _. apply just_nil.
Qed.

(** What the loop of [flush] achieves. *)
Definition flush_loop_post (fd : Z) (c : ClientSession) (s : server) (alive : bool) (s' : server)
    : Prop :=
  if alive then ∃ c', handed_over fd c c' s s'
  else inv s' ∧ delivers {[fd]} nothing s s' ∧ sessions_ s' !! fd = None.

Lemma flush_loop_chain fd c c1 s s1 alive s' :
  core s → sessions_ s !! fd = Some c → handed_over fd c c1 s s1 →
  flush_loop_post fd c1 s1 alive s' → flush_loop_post fd c s alive s'.
Proof.
  intros Hc Hfd H1. destruct alive; cbn.
  - intros [c2 H2]. exists c2. by eapply handed_over_trans.
  - intros (? & Hd & ?). split_and!; [done| |done].
    eapply delivers_after; [by eapply handed_over_delivers|done].
Qed.

(** A send that took [n] bytes, and one that took none. *)
Lemma sent_some fd c s n k :
  core s → sessions_ s !! fd = Some c → out_pre c → (0 < n)%Z →
  sys_send fd (pending c) (kern s) = (n, k) →
  let c' := set_out (cs_outbuf c) (wrap_size (cs_out_start c + n)) c in
  handed_over fd c c' s (set_sessions (<[fd := c']> (sessions_ s)) (set_kern k s))
  ∧ length (pending c') < length (pending c) ∧ sys_work k ≤ sys_work (kern s).
Proof.
  intros Hc Hfd Hpre Hpos Hsend c'. apply law_send in Hsend as (Hn & Ho & Hw & Hs & Hs' & Hr & _).
  destruct (pending_advance c n Hpre ltac:(lia)) as [Hpre' Hpend]. fold c' in Hpre', Hpend.
  split_and!; [|unfold str_size in Hn; rewrite Hpend, length_drop; lia|done].
  split; try done; [..|rewrite Hpend, length_drop; lia|].
  - split; try done. apply Hc.
  - unfold stream. rewrite Hpend. cbn [kern set_sessions set_kern].
    by rewrite Hs, <-app_assoc, take_drop.
Qed.

Lemma sent_none fd c s n k :
  core s → sessions_ s !! fd = Some c → out_pre c → (n ≤ 0)%Z →
  sys_send fd (pending c) (kern s) = (n, k) →
  handed_over fd c c s (set_kern k s) ∧ sys_work k ≤ sys_work (kern s)
  ∧ ((n < 0)%Z → sys_errno k = EINTR → sys_work k < sys_work (kern s)).
Proof.
  intros Hc Hfd Hpre Hneg Hsend. apply law_send in Hsend as (Hn & Ho & Hw & Hs & Hs' & Hr & Hi).
  split_and!; [|done..]. split; try done; [by apply local_kern|].
  unfold stream. cbn [kern set_kern]. rewrite Hs. replace (Z.to_nat n) with 0 by lia.
  by rewrite take_0, app_nil_r.
Qed.

Lemma flush_loop_spec fuel fd c s :
  core s → io_except (λ x, x = fd) s → sessions_ s !! fd = Some c → out_pre c →
  length (pending c) + sys_work (kern s) < fuel →
  wp (flush_loop fuel fd) (flush_loop_post fd c s) s.
Proof.
  revert c s. induction fuel as [|fuel IH]; intros c s Hc Hio Hfd Hpre Hfuel; [lia|].
  cbn [flush_loop]. wp_step. apply (wp_deref fd c); [done|].
  rewrite has_pending_spec by (by apply out_pre_wf).
  pose proof (core_key fd c (core_sessions s Hc fd c Hfd)) as Hkey.
  destruct (bool_decide_reflect (pending c ≠ [])) as [Hp|Hp].
  2: { apply wp_ret. exists c. split; try done. apply local_refl; [done|apply Hc]. }
  rewrite out_wf_pending, Z.eqb_refl by (by apply out_pre_wf). cbn [negb].
  wp_step. apply wp_sys. intros n k Hsend. rewrite Hkey in Hsend.
  wp_step. apply wp_gets. destruct (Z.ltb_spec 0 n) as [Hpos|Hneg].
  - wp_step. apply (wp_assign fd c); [done|].
    destruct (sent_some fd c s n k) as (Hho & Hlen & Hw); [done..|].
    eapply wp_mono; [eapply IH|intros alive s'; by apply flush_loop_chain].
    + eapply core_local; [done..|apply Hho|apply Hho].
    + eapply io_local; [done|apply Hho].
    + eapply local_here, Hho.
    + apply Hho.
    + cbn [kern set_sessions set_kern]. lia.
  - destruct (sent_none fd c s n k) as (Hho & Hw & Hintr); [done..|].
    assert (core (set_kern k s)) as Hc1 by (eapply core_local; [done..|apply Hho|apply Hho]).
    assert (io_except (λ x, x = fd) (set_kern k s)) as Hio1 by (eapply io_local; [done|apply Hho]).
    destruct ((n <? 0)%Z && bool_decide (sys_errno (kern (set_kern k s)) = EINTR)) eqn:Hi.
    { apply andb_true_iff in Hi as [Hn0%Z.ltb_lt He%bool_decide_eq_true].
      specialize (Hintr Hn0 He).
      eapply wp_mono; [apply (IH c)|intros alive s'; by apply flush_loop_chain];
        [done..|]. cbn [kern set_kern]. lia. }
    destruct ((n <? 0)%Z && would_block _); [apply wp_ret; by exists c|].
    wp_step. rewrite Hkey. eapply wp_mono; [by apply (drop_spec fd _ c)|].
    intros [] s' Hd. apply wp_ret. by eapply (flush_loop_chain fd c c).
Qed.

Lemma note_backlog_spec fd c p s :
  core s → sessions_ s !! fd = Some c → (0 ≤ p)%Z →
  wp (note_backlog fd c p)
    (λ _ s', local fd (set_backlogged (0 <? p)%Z c) s s' ∧ loop_ s' = loop_ s ∧ kern s' = kern s) s.
Proof.
  intros Hc Hfd Hp. unfold note_backlog.
  assert (cs_backlogged c = (0 <? p)%Z → set_backlogged (0 <? p)%Z c = c) as Hid
    by (intros <-; by destruct c).
  assert (∀ b, wp (assign fd (set_backlogged b)) (λ _ s', ∀ lg, let s' := set_log lg s' in
    local fd (set_backlogged b c) s s' ∧ loop_ s' = loop_ s ∧ kern s' = kern s) s) as Hset.
  { intros b. apply (wp_assign fd c); [done|]. intros lg. split_and!; [|done..].
    by eapply local_log, local_assign. }
  destruct (Z.ltb_spec 0 p), (Z.eqb_spec p 0), (cs_backlogged c); try lia; cbn [andb negb].
  all: lazymatch goal with
       | |- wp (bind _ _) _ _ => wp_step; eapply wp_mono; [apply Hset|]; intros [] s' Hs';
                                 apply wp_print; apply Hs'
       | |- _ => apply wp_ret; rewrite Hid by done; split_and!; [|done..];
                 apply local_refl; [done|apply Hc]
       end.
Qed.

(** The session as [flush] leaves it satisfies the output invariant. *)
Lemma io_ok_flushed c :
  out_pre c → (cs_out_start c ≤ kReadChunk)%Z → (str_size (pending c) ≤ kMaxOutputBytes)%Z →
  (cs_closing c = true → pending c ≠ []) →
  io_ok (set_interest (0 <? str_size (pending c))%Z (negb (cs_closing c))
          (set_backlogged (0 <? str_size (pending c))%Z c)).
Proof.
  intros [Ho _] Hr Hmax Hcl.
  assert ((0 <? str_size (pending c))%Z = bool_decide (pending c ≠ [])) as Hb.
  { unfold str_size. destruct (pending c); case_bool_decide; simpl; lia || done. }
  split; try done.
Qed.

(** The output of [fd] that is still pending, if it is still connected. *)
Definition leaves_pending (fd : Z) (p : bytes) (s' : server) : Prop :=
  ∀ c', sessions_ s' !! fd = Some c' → pending c' = p.

Lemma settle_spec fd c s :
  core s → io_except (λ x, x = fd) s → sessions_ s !! fd = Some c → out_pre c → mirror s fd c →
  (cs_out_start c ≤ kReadChunk)%Z → (str_size (pending c) ≤ kMaxOutputBytes)%Z →
  wp (settle fd c (str_size (pending c)))
    (λ _ s', inv s' ∧ delivers {[fd]} nothing s s' ∧ leaves_pending fd (pending c) s') s.
Proof.
  intros Hc Hio Hfd Hpre Hmir Hst Hmax. unfold settle.
  rewrite (core_key fd c (core_sessions s Hc fd c Hfd)).
  wp_step. eapply wp_mono; [apply (note_backlog_spec fd c); [done..|unfold str_size; lia]|].
  intros [] s1 (Hl1 & Hloop1 & Hk1). set (b := (0 <? str_size (pending c))%Z) in *.
  set (c1 := set_backlogged b c) in *.
  assert (handed_over fd c c1 s s1) as Hho1.
  { split; try done. unfold stream. by rewrite Hk1. }
  pose proof (handed_over_delivers fd c c1 s s1 Hc Hfd Hho1) as Hd1.
  assert (core s1) as Hc1 by (by eapply core_local).
  assert (sessions_ s1 !! fd = Some c1) as Hfd1 by (by eapply local_here).
  assert (io_except (λ x, x = fd) s1) as Hio1 by (by eapply io_local).
  destruct (_ && cs_closing c) eqn:Hclose.
  { eapply wp_mono; [by apply (drop_spec fd _ c1)|]. intros [] s' (? & Hd & Hnone).
    split_and!; [done|by eapply delivers_after|]. intros c' Hc'. congruence. }
  assert (io_ok (set_interest b (negb (cs_closing c)) c1)) as Hio2.
  { apply io_ok_flushed; try done. intros Hcl Hnil. rewrite Hnil, Hcl in Hclose. done. }
  cbv zeta. apply wp_when; intros Hchange.
  - wp_step. apply (wp_assign fd c1); [done|].
    set (c2 := set_interest _ _ c1) in *. set (s2 := set_sessions _ s1).
    pose proof (local_assign fd c1 c2 s1 Hc1 Hfd1) as Hl2. change (set_sessions _ s1) with s2 in Hl2.
    wp_step. apply wp_update; [apply Hc1|]. intros ok l k Hlwf (Ho & Hs & Hw & Hrcv) Hother Hint.
    apply wp_ret. set (s3 := set_kern k (set_loop l s2)).
    assert (local fd c2 s1 s3) as Hl3 by (destruct Hl2; split; try done; apply Hint).
    split_and!; [eapply (inv_local fd c2 s1); try done; [by eapply core_local|by intros [_ ?]%Hint]| |].
    2: { intros c' Hc'. rewrite (local_here _ _ _ _ Hl3) in Hc'. by injection Hc' as <-. }
    eapply delivers_after; [exact Hd1|].
    eapply delivers_mono; [apply (delivers_local fd c1 c2 [] s1 s3)|done|]; try done.
    + rewrite app_nil_r. unfold stream. cbn [kern s3 set_kern]. by rewrite Hs.
    + intros fd' _. by rewrite just_nil.
  - apply orb_false_iff in Hchange as [Hr%negb_false_iff%eqb_prop Hw%negb_false_iff%eqb_prop].
    replace (set_interest b (negb (cs_closing c)) c1) with c1 in Hio2
      by (subst c1; rewrite Hr, Hw; by destruct c).
    split_and!; [|done|]. 2: { intros c' Hc'. rewrite Hfd1 in Hc'. by injection Hc' as <-. }
    eapply (inv_local fd c1 s); try done. unfold mirror. rewrite Hloop1. exact Hmir.
Qed.

Lemma flush_finish_spec fd c s :
  core s → io_except (λ x, x = fd) s → sessions_ s !! fd = Some c → out_pre c → mirror s fd c →
  wp (flush_finish fd)
    (λ _ s', inv s' ∧ delivers {[fd]} nothing s s' ∧ leaves_pending fd (pending c) s') s.
Proof.
  intros Hc Hio Hfd Hpre Hmir. unfold flush_finish. wp_step. apply (wp_assign fd c); [done|].
  destruct (pending_reclaim c Hpre) as (Hpre1 & Hpend1 & Hst1 & Hsame1 & Hr1 & Hw1).
  pose proof (local_assign fd c (reclaim c) s Hc Hfd) as Hl1.
  set (c1 := reclaim c) in *. set (s1 := set_sessions _ s) in *.
  assert (handed_over fd c c1 s s1) as Hho1.
  { split; try done; [by rewrite Hpend1|]. unfold stream. by rewrite Hpend1. }
  pose proof (handed_over_delivers fd c c1 s s1 Hc Hfd Hho1) as Hd1.
  assert (core s1) as Hc1 by (by eapply core_local).
  assert (sessions_ s1 !! fd = Some c1) as Hfd1 by (by eapply local_here).
  assert (io_except (λ x, x = fd) s1) as Hio1 by (by eapply io_local).
  pose proof (core_key fd c1 (core_sessions s1 Hc1 fd c1 Hfd1)) as Hkey.
  wp_step. apply (wp_deref fd c1); [done|]. cbv zeta. rewrite Hkey.
  rewrite out_wf_pending by (by apply out_pre_wf).
  eapply wp_mono.
  - instantiate (1 := λ _ s', inv s' ∧ delivers {[fd]} nothing s1 s' ∧ leaves_pending fd (pending c) s').
    destruct (Z.ltb_spec kMaxOutputBytes (str_size (pending c1))).
    + eapply wp_mono; [by apply (drop_spec fd _ c1)|]. intros [] s' (? & ? & Hnone).
      split_and!; [done..|]. intros c' Hc'. congruence.
    + rewrite <-Hpend1. apply settle_spec; try done. unfold mirror. rewrite Hr1, Hw1. exact Hmir.
  - intros [] s' (? & Hd & ?). split_and!; [done|by eapply delivers_after|done].
Qed.

Lemma flush_spec fd c s :
  core s → io_except (λ x, x = fd) s → sessions_ s !! fd = Some c → out_pre c → mirror s fd c →
  wp (flush fd) (λ _ s', inv s' ∧ delivers {[fd]} nothing s s') s.
Proof.
  intros Hc Hio Hfd Hpre Hmir. unfold flush. wp_step. apply (wp_deref fd c); [done|].
  wp_step. apply wp_gets. wp_step. eapply wp_mono; [apply (flush_loop_spec _ fd c); done || lia|].
  intros [] s1; cbn [flush_loop_post when].
  - intros [c1 Hho]. pose proof (handed_over_delivers fd c c1 s s1 Hc Hfd Hho) as Hd1.
    destruct Hho. eapply wp_mono; [apply (flush_finish_spec fd c1)|].
    + by eapply core_local.
    + by eapply io_local.
    + by eapply local_here.
    + done.
    + unfold mirror. rewrite ho_loop0, ho_read0, ho_write0. exact Hmir.
    + intros [] s' (? & Hd & _). split; [done|]. by eapply delivers_after.
  - intros (? & ? & _). by apply wp_ret.
Qed.

(** No message is longer than this. *)
Definition small (m : bytes) : Prop := (str_size m ≤ 1048576)%Z.

Lemma send_to_spec fd m s :
  inv s → small m → wp (send_to fd m) (λ _ s', inv s' ∧ delivers {[fd]} (just fd m) s s') s.
Proof.
  intros Hinv Hm. unfold send_to. wp_step. apply wp_is_session.
  apply wp_when; [intros [c Hfd]%bool_decide_eq_true|intros Hnone%bool_decide_eq_false].
  - destruct (inv_session s fd c Hinv Hfd) as (Hcs & Hok & Hmir).
    destruct (io_ok_pre c Hok) as [[Ho _] Hsize]. pose proof (inv_core s Hinv) as Hc.
    wp_step. apply (wp_assign fd c); [done|].
    pose proof (local_assign fd c (set_out (cs_outbuf c ++ m) (cs_out_start c) c) s Hc Hfd) as Hl.
    pose proof (pending_append c m Ho) as Hpend.
    set (c1 := set_out _ _ c) in *. set (s1 := set_sessions _ s) in *.
    eapply wp_mono; [apply (flush_spec fd c1)|].
    + by eapply core_local.
    + eapply io_local; [by apply inv_io|done].
    + by eapply local_here.
    + unfold small, str_size, kMaxOutputBytes, kReadChunk in *.
      split; cbn [cs_outbuf cs_out_start set_out c1]; unfold str_size; rewrite length_app; lia.
    + exact Hmir.
    + intros [] s' [? Hd]. split; [done|].
      assert (delivers {[fd]} (just fd m) s s1) as Hd1.
      { apply (delivers_local fd c c1); try done. rewrite Hpend. unfold stream. cbn [kern s1 set_sessions].
        by rewrite app_assoc. }
      eapply delivers_seq; [exact Hd1|exact Hd|set_solver|]. intros fd' _. apply app_nil_r.
  - split; [done|]. eapply delivers_mono; [by apply delivers_refl, inv_core|set_solver|].
    intros fd' Hsome. unfold just, nothing. rewrite decide_False; [done|]. by intros ->.
Qed.

Lemma on_writable_spec fd s :
  inv s → wp (on_writable fd) (λ _ s', inv s' ∧ delivers {[fd]} nothing s s') s.
Proof.
  intros Hinv. unfold on_writable. wp_step. apply wp_is_session.
  apply wp_when; [intros [c Hfd]%bool_decide_eq_true|intros _].
  - destruct (inv_session s fd c Hinv Hfd) as (Hcs & Hok & Hmir).
    destruct (io_ok_pre c Hok) as [Hpre _].
    apply (flush_spec fd c); try done; [by apply inv_core|by apply inv_io].
  - split; [done|]. eapply delivers_mono; [by apply delivers_refl, inv_core|set_solver|done].
Qed.

(** *** Progress *)

(** The kernel takes at least one byte of what is pending for [fd]. *)
Definition accepting (fd : Z) (s : server) : Prop :=
  ∀ c, sessions_ s !! fd = Some c → pending c ≠ [] → (0 < (sys_send fd (pending c) (kern s)).1)%Z.

Lemma flush_loop_progress fuel fd c s :
  core s → io_except (λ x, x = fd) s → sessions_ s !! fd = Some c → out_pre c →
  length (pending c) + sys_work (kern s) < fuel → accepting fd s →
  wp (flush_loop fuel fd)
    (λ alive s', if alive then ∃ c', handed_over fd c c' s s'
                                   ∧ length (pending c') ≤ length (pending c) - 1
                 else sessions_ s' !! fd = None) s.
Proof.
  intros Hc Hio Hfd Hpre Hfuel Hacc. destruct (decide (pending c = [])) as [Hnil|Hp].
  { eapply wp_mono; [by apply (flush_loop_spec fuel fd c)|].
    intros [] s'; cbn [flush_loop_post]; [|by intros (_ & _ & ?)]. intros [c2 Hho2]. exists c2.
    pose proof (ho_length _ _ _ _ _ Hho2) as Hl. rewrite Hnil in *. cbn in Hl. split; [done|cbn; lia]. }
  destruct fuel as [|fuel]; [lia|].
  specialize (Hacc c Hfd Hp). destruct (sys_send fd (pending c) (kern s)) as [n k] eqn:Hsend. cbn in Hacc.
  cbn [flush_loop]. wp_step. apply (wp_deref fd c); [done|].
  rewrite has_pending_spec by (by apply out_pre_wf). rewrite bool_decide_true by done.
  rewrite out_wf_pending, Z.eqb_refl by (by apply out_pre_wf). cbn [negb].
  wp_step. apply wp_sys. rewrite (core_key fd c (core_sessions s Hc fd c Hfd)), Hsend. intros ? ? [= <- <-].
  wp_step. apply wp_gets. rewrite (proj2 (Z.ltb_lt 0 n)) by done.
  wp_step. apply (wp_assign fd c); [done|].
  destruct (sent_some fd c s n k) as (Hho & Hlen & Hw); [done..|].
  eapply wp_mono; [eapply (flush_loop_spec fuel fd)|].
  - eapply core_local; [done..|apply Hho|apply Hho].
  - eapply io_local; [done|apply Hho].
  - eapply local_here, Hho.
  - apply Hho.
  - cbn [kern set_sessions set_kern]. lia.
  - intros [] s'; cbn [flush_loop_post]; [|by intros (_ & _ & ?)]. intros [c2 Hho2]. exists c2.
    split; [by eapply handed_over_trans|]. pose proof (ho_length _ _ _ _ _ Hho2). lia.
Qed.

(** A writable socket takes some of the pending output. *)
Lemma on_writable_progress fd c s :
  inv s → sessions_ s !! fd = Some c → accepting fd s →
  wp (on_writable fd)
    (λ _ s', ∀ c', sessions_ s' !! fd = Some c' → length (pending c') ≤ length (pending c) - 1) s.
Proof.
  intros Hinv Hfd Hacc. unfold on_writable. wp_step. apply wp_is_session. rewrite bool_decide_true by eauto.
  cbn [when]. destruct (inv_session s fd c Hinv Hfd) as (Hcs & Hok & Hmir).
  destruct (io_ok_pre c Hok) as [Hpre _]. pose proof (inv_core s Hinv) as Hc.
  unfold flush. wp_step. apply (wp_deref fd c); [done|]. wp_step. apply wp_gets. wp_step.
  eapply wp_mono; [apply (flush_loop_progress _ fd c); [done|by apply inv_io|done|done|lia|done]|].
  intros [] s1; cbn [when]; [|intros Hnone; apply wp_ret; congruence].
  intros (c1 & Hho & Hlen). destruct Hho. eapply wp_mono; [apply (flush_finish_spec fd c1)|].
  - by eapply core_local.
  - eapply io_local; [by apply inv_io|done].
  - by eapply local_here.
  - done.
  - unfold mirror. rewrite ho_loop0, ho_read0, ho_write0. exact Hmir.
  - intros [] s' (_ & _ & Hlp) c' Hc'. by rewrite (Hlp c' Hc').
Qed.

End Primitives.
