(* ===== verification/ServerProtocol.v ===== *)
(** * ServerProtocol: the message handlers implement ExchangeSpec.v

    [view] forgets the wire: it is the abstract exchange a server state
    stands for.  For every handler: it returns, keeps the invariant, and does
    to the view what [serves] says, up to the clients that turned out to be
    gone or too slow while they were being written to; these are dropped with
    their orders. *)

From S2P Require Import Prelude CxxString MessageParser OrderBook OrderBookSpec Kernel EventLoop.
From S2P Require Import SocketUtils ClientSession TcpServer ExchangeServer ExchangeSpec ServerInv ServerOutput.

(** ** Message sizes *)

Lemma small_error e : (str_size e ≤ 200000)%Z → small (error e).
Proof.
  unfold small, error, str_size. rewrite !length_app. intros H.
  change (length (lit "ERROR ")) with 6. cbn [length]. lia.
Qed.

Lemma verb_length t : length (verb t) ≤ 11.
Proof. destruct t; vm_compute; lia. Qed.

Lemma role_name_length r : length (role_name r) ≤ 11.
Proof. destruct r; vm_compute; lia. Qed.

(** The length of a concatenation of literals, numbers and bounded texts. *)
Ltac solve_length :=
  unfold str_size; repeat rewrite length_app;
  repeat match goal with
         | |- context [length (lit ?t)] =>
             let n := eval vm_compute in (length (lit t)) in change (length (lit t)) with n
         | |- context [length (to_string ?z)] =>
             lazymatch goal with
             | _ : length (to_string z) ≤ 21 |- _ => fail
             | _ => pose proof (to_string_length z)
             end
         | |- context [length (verb ?t)] =>
             lazymatch goal with
             | _ : length (verb t) ≤ 11 |- _ => fail
             | _ => pose proof (verb_length t)
             end
         end; cbn [length]; lia.

Lemma small_not_permitted t r : small (not_permitted t r).
Proof.
  apply small_error. pose proof (role_name_length r). solve_length.
Qed.

Lemma small_join h i q p : length h ≤ 20 → length i ≤ 20 → small (join h i q p).
Proof. intros Hh Hi. unfold small, join. solve_length. Qed.

Lemma instrument_length i : i ∈ kInstruments → length i = 4.
Proof.
  unfold kInstruments. rewrite !elem_of_cons. intros [-> |[-> |Hi]]; [done..|].
  by apply not_elem_of_nil in Hi.
Qed.

Lemma small_order_accepted id : small (order_accepted id).
Proof. unfold small, order_accepted. solve_length. Qed.

Lemma small_order_cancelled id : small (order_cancelled id).
Proof. unfold small, order_cancelled. solve_length. Qed.

Lemma small_ok : small ok.
Proof. by vm_compute. Qed.

Lemma error_nonempty e : error e ≠ [].
Proof. done. Qed.

Lemma parse_error_length line :
  cmd_valid (parse line) = false → length (cmd_error (parse line)) ≤ length line + 100.
Proof.
  rewrite parse_tokens. pose proof (tokens_of_length line) as Ht.
  destruct (tokens_of line) as [|token args]; [intros _; cbn [cmd_error reject]; solve_length|]. cbv zeta.
  assert (∀ a l, args = a :: l → length a ≤ length line) as Ha.
  { intros a l ->. apply Ht. right. left. }
  destruct (verb_of token).
  all: unfold parse_login, parse_order, parse_cancel, parse_subscription, parse_quit; cbn [cmd_args].
  all: repeat case_match; try discriminate; intros _; cbn [cmd_error reject cmd_type set_quantity set_price];
    try (pose proof (Ha _ _ eq_refl)); solve_length.
Qed.

(** ** The view *)

Definition client_of (c : ClientSession) : Client :=
  mkClient (cs_role c) (if cs_logged_in c then Some (cs_username c) else None) (cs_subscriptions c).

Lemma client_of_same c c' : same_core c c' → client_of c' = client_of c.
Proof. intros []. unfold client_of. by rewrite same_role, same_login, same_name, same_subs. Qed.

Section Protocol.
Context {OV : Tolerance} `{!Kernel K, !KernelView K, !KernelLaws K}.
Context `{!EventLoopI K L, !EventLoopLaws K L} `{!HashOrder (Server L K), !HashOrderLaws (Server L K)}.

Abbreviation server := (Server L K).
Implicit Types s : server.

Definition view (s : server) : Exchange :=
  mkExchange (client_of <$> sessions_ s) (levels (book_ s)).

(** Every connected client is a client of [x]. *)
Definition agrees (x : Exchange) (s : server) : Prop :=
  ∀ fd c, sessions_ s !! fd = Some c → ex_clients x !! fd = Some (client_of c).

Lemma view_agrees s : agrees (view s) s.
Proof. intros fd c Hfd. cbn. by rewrite lookup_fmap, Hfd. Qed.

Lemma agrees_delivers x T d s s' : agrees x s → delivers T d s s' → agrees x s'.
Proof.
  intros Hx Hd fd c' (c & Hc & Hsame & _)%(dl_session _ _ _ _ Hd).
  rewrite (client_of_same c c' Hsame). by apply Hx.
Qed.

(** [delivers] where only the addressees are touched. *)
Definition announces (d : Z → bytes) (s s' : server) : Prop :=
  ∃ T, (∀ fd, fd ∈ T → d fd ≠ []) ∧ delivers T d s s'.

Lemma announces_refl s : core s → announces nothing s s.
Proof. intros Hc. exists ∅. split; [set_solver|by apply delivers_refl]. Qed.

Lemma announces_trans d1 d2 s1 s2 s3 :
  announces d1 s1 s2 → announces d2 s2 s3 → announces (also d1 d2) s1 s3.
Proof.
  intros (T1 & HT1 & H1) (T2 & HT2 & H2). exists (T1 ∪ T2). split; [|by eapply delivers_trans].
  intros fd [Hin|Hin]%elem_of_union; unfold also; intros [Ha Hb]%app_nil.
  - by apply (HT1 fd).
  - by apply (HT2 fd).
Qed.

Lemma announces_ext d d' s s' : announces d s s' → (∀ fd, d fd = d' fd) → announces d' s s'.
Proof.
  intros (T & HT & H) Hd. exists T. split; [intros fd Hin; rewrite <-Hd; auto|].
  eapply delivers_mono; [done|done|]. intros fd _. apply Hd.
Qed.

Lemma announces_evolves d s s' : announces d s s' → evolves s s'.
Proof. intros (T & _ & H). by eapply delivers_evolves. Qed.

Lemma send_to_announces fd m s :
  inv s → small m → m ≠ [] →
  wp (send_to fd m) (λ _ s', inv s' ∧ announces (just fd m) s s') s.
Proof.
  intros Hinv Hs Hm. eapply wp_mono; [by apply send_to_spec|]. intros [] s' [? ?].
  split; [done|]. exists {[fd]}. split; [|done]. intros f ->%elem_of_singleton.
  unfold just. by rewrite decide_True.
Qed.

(** ** Publishing executions *)

(** The loop over the subscribers: each gets the text once. *)
Lemma deliver_all fds m s :
  inv s → small m → m ≠ [] → NoDup fds →
  wp (for_each fds (λ fd, send_to fd m))
    (λ _ s', inv s' ∧ announces (λ fd, if decide (fd ∈ fds) then m else []) s s') s.
Proof.
  intros Hinv Hs Hm. revert s Hinv. induction fds as [|fd fds IH]; intros s Hinv Hnd.
  { apply wp_ret. split; [done|]. eapply announces_ext; [by apply announces_refl, inv_core|].
    intros fd. by rewrite decide_False by set_solver. }
  apply NoDup_cons in Hnd as [Hni Hnd]. cbn [for_each]. wp_step.
  eapply wp_mono; [by apply send_to_announces|]. intros [] s1 [Hinv1 Ha1].
  eapply wp_mono; [by apply IH|]. intros [] s2 [Hinv2 Ha2]. split; [done|].
  eapply announces_ext; [by eapply announces_trans|]. intros f. unfold also, just.
  destruct (decide (f = fd)) as [->|Hne].
  - rewrite (decide_False (P := fd ∈ fds)), (decide_True (P := fd ∈ fd :: fds)) by (done || left).
    by rewrite app_nil_r.
  - cbn [app]. apply decide_ext. set_solver.
Qed.

(** The subscribers of an instrument are those of the abstract exchange. *)
Lemma subscribed_table x i s f :
  inv s → agrees x s → is_Some (sessions_ s !! f) →
  subscribed x i f = bool_decide (f ∈ subscriber_set s i).
Proof.
  intros Hinv Hx [c Hc]. unfold subscribed. rewrite (Hx f c Hc). cbn.
  apply bool_decide_ext. rewrite (core_subs s (inv_core s Hinv)). naive_solver.
Qed.

Lemma subscriber_subscribed x i s f :
  inv s → agrees x s → f ∈ subscriber_set s i → subscribed x i f = true.
Proof.
  intros Hinv Hx Hf. rewrite (subscribed_table _ _ s), bool_decide_true; [done..|].
  apply (core_subs s (inv_core s Hinv)) in Hf as (c & ? & _). eauto.
Qed.

(** The last part of [publish]: the update goes to the subscribers. *)
Lemma publish_update_spec x i m s :
  inv s → agrees x s → small m → m ≠ [] →
  wp (match subscribers_ s !! i with
      | None => ret tt
      | Some set => for_each (fd_order s set) (λ f, send_to f m)
      end)
    (λ _ s', inv s' ∧ ∃ T, (∀ f, f ∈ T → subscribed x i f = true) ∧
                           delivers T (λ f, if subscribed x i f then m else []) s s') s.
Proof.
  intros Hinv Hx Hm Hne. pose proof (subscribed_table x i s) as Hsub.
  pose proof (subscriber_subscribed x i s) as Hsub'. unfold subscriber_set in Hsub, Hsub'.
  destruct (subscribers_ s !! i) as [set|]; cbn [default] in *.
  - eapply wp_mono.
    { apply deliver_all; [done|done|done|]. rewrite fd_order_perm. apply NoDup_elements. }
    intros [] s3 [Hinv3 (T & HT & Hd)]. split; [done|]. exists T. split.
    + intros f Hf%HT. case_decide as Hin; [|done]. apply Hsub'; [done|done|].
      by rewrite fd_order_perm, elem_of_elements in Hin.
    + eapply delivers_mono; [exact Hd|done|]. intros f [c3 Hf].
      apply (dl_session _ _ _ _ Hd) in Hf as (c2 & Hc2 & _).
      rewrite Hsub by eauto. destruct (decide (f ∈ fd_order s set)) as [Hin|Hin];
        rewrite fd_order_perm, elem_of_elements in Hin.
      * by rewrite bool_decide_true.
      * by rewrite bool_decide_false.
  - apply wp_ret. split; [done|]. exists ∅. split; [set_solver|].
    eapply delivers_mono; [by apply delivers_refl, inv_core|done|].
    intros f Hf. rewrite Hsub, bool_decide_false by (done || set_solver). done.
Qed.

Lemma publish_spec x e s :
  inv s → agrees x s → x_instrument e ∈ kInstruments →
  wp (publish e) (λ _ s', inv s' ∧ announces (notice x e) s s') s.
Proof.
  intros Hinv Hx Hi%instrument_length. unfold publish.
  assert (∀ h, length h ≤ 20 → small (join h (x_instrument e) (x_quantity e) (x_price e))) as Hsmall
    by (intros h Hh; apply small_join; lia).
  wp_step. eapply wp_mono; [apply send_to_announces; [done|apply Hsmall; vm_compute; lia|done]|].
  intros [] s1 [Hinv1 Ha1]. wp_step.
  eapply wp_mono; [apply send_to_announces; [done|apply Hsmall; vm_compute; lia|done]|].
  intros [] s2 [Hinv2 Ha2]. cbv zeta. wp_step. apply wp_get.
  assert (agrees x s2) as Hx2.
  { destruct Ha1 as (? & _ & Hd1), Ha2 as (? & _ & Hd2).
    eapply agrees_delivers, Hd2. by eapply agrees_delivers, Hd1. }
  eapply wp_mono; [apply (publish_update_spec x); [done|done|apply Hsmall; vm_compute; lia|done]|].
  intros [] s3 (Hinv3 & T & HT & Hd). split; [done|].
  eapply announces_trans; [exact Ha1|]. eapply announces_trans; [exact Ha2|].
  exists T. split; [|done]. intros f Hf. by rewrite HT.
Qed.

(** All executions are announced unless the submitter is dropped on the way. *)
Lemma publish_all_spec x fd xs s :
  inv s → agrees x s → Forall (λ e, x_instrument e ∈ kInstruments) xs →
  wp (publish_all fd xs)
    (λ _ s', inv s' ∧ ∃ announced lost, xs = announced ++ lost
       ∧ announces (notices x announced) s s' ∧ (is_Some (sessions_ s' !! fd) → lost = [])) s.
Proof.
  intros Hinv Hx Hxs. revert s Hinv Hx. induction Hxs as [|e xs He Hxs IH]; intros s Hinv Hx.
  { apply wp_ret. split; [done|]. exists [], []. split_and!; [done| |done].
    by apply announces_refl, inv_core. }
  cbn [publish_all]. wp_step. eapply wp_mono; [by apply (publish_spec x)|].
  intros [] s1 [Hinv1 Ha1]. wp_step. apply wp_is_session.
  assert (∀ xs', announces (also (notice x e) (notices x xs')) s = announces (notices x (e :: xs')) s)
    as Hcons by done.
  destruct (bool_decide_reflect (is_Some (sessions_ s1 !! fd))) as [Hsome|Hnone]; cbn [negb].
  - eapply wp_mono; [apply IH; [done|]|].
    { destruct Ha1 as (? & _ & Hd1). by eapply agrees_delivers, Hd1. }
    intros [] s2 (Hinv2 & announced & lost & -> & Ha2 & Hlost). split; [done|].
    exists (e :: announced), lost. split_and!; [done| |done].
    rewrite <-Hcons. by eapply announces_trans.
  - apply wp_ret. split; [done|]. exists [e], xs. split_and!; [done| |done].
    eapply announces_ext; [exact Ha1|]. intros f. unfold notices. cbn. by rewrite app_nil_r.
Qed.

(** ** What a request leads to *)

(** Apart from clients dropped on the way, the state [s'] shows the exchange
    [x'] and everyone has got [d]; [quits] says whether [fd] is leaving. *)
Record outcome_of (fd : Z) (quits : bool) (x' : Exchange) (d : Z → bytes) (s s' : server) : Prop :=
  mkOutcomeOf {
  oc_session f c' : sessions_ s' !! f = Some c' →
    ∃ c, sessions_ s !! f = Some c ∧ ex_clients x' !! f = Some (client_of c')
      ∧ cs_peer c' = cs_peer c ∧ stream s' f c' = stream s f c ++ d f
      ∧ (cs_inbuf c', cs_closing c') =
        if quits && bool_decide (f = fd) then ([], true) else (cs_inbuf c, cs_closing c);
  oc_others f : f ≠ fd → d f = [] →
    sessions_ s' !! f = sessions_ s !! f ∧ sent (kern s') f = sent (kern s) f;
  oc_book : level_equiv (levels (book_ s')) (connected_levels s' (ex_book x'));
  oc_received f : received (kern s') f = received (kern s) f;
  oc_evolves : evolves s s'
}.

(** [s1] differs from [s] in the protocol state of [fd], the tables derived
    from it and the book; the wire is untouched. *)
Record retabled (fd : Z) (c c1 : ClientSession) (s s1 : server) : Prop := mkRetabled {
  rt_sessions : sessions_ s1 = <[fd := c1]> (sessions_ s);
  rt_fd : cs_fd c1 = cs_fd c;
  rt_inbuf : cs_inbuf c1 = cs_inbuf c;
  rt_outbuf : cs_outbuf c1 = cs_outbuf c;
  rt_start : cs_out_start c1 = cs_out_start c;
  rt_closing : cs_closing c1 = cs_closing c;
  rt_backlogged : cs_backlogged c1 = cs_backlogged c;
  rt_write : cs_write_interest c1 = cs_write_interest c;
  rt_read : cs_read_interest c1 = cs_read_interest c;
  rt_peer : cs_peer c1 = cs_peer c;
  rt_kern : kern s1 = kern s;
  rt_loop : loop_ s1 = loop_ s;
  rt_closed : closed_fds_ s1 = closed_fds_ s;
  rt_listener : listener_ s1 = listener_ s;
  rt_resume : accept_resume_at_ s1 = accept_resume_at_ s;
  rt_verbose : verbose_ s1 = verbose_ s
}.

Lemma retabled_refl fd c s : sessions_ s !! fd = Some c → retabled fd c c s s.
Proof. intros Hfd. split; try done. by rewrite insert_id. Qed.

Lemma retabled_pending fd c c1 s s1 : retabled fd c c1 s s1 → pending c1 = pending c.
Proof. intros []. unfold pending. congruence. Qed.

Lemma retabled_lookup fd c c1 s s1 f c' :
  retabled fd c c1 s s1 → sessions_ s !! fd = Some c → sessions_ s1 !! f = Some c' →
  ∃ c0, sessions_ s !! f = Some c0 ∧ cs_peer c' = cs_peer c0 ∧ stream s1 f c' = stream s f c0
    ∧ cs_inbuf c' = cs_inbuf c0 ∧ cs_closing c' = cs_closing c0.
Proof.
  intros Hr Hfd. pose proof (retabled_pending _ _ _ _ _ Hr) as Hp. destruct Hr. unfold stream.
  rewrite rt_sessions0, lookup_insert, rt_kern0. case_decide as Hd.
  - intros [= <-]. subst f. exists c. by rewrite Hp.
  - intros Hc'. by exists c'.
Qed.

Lemma retabled_evolves fd c c1 s s1 :
  sessions_ s !! fd = Some c → retabled fd c c1 s s1 → evolves s s1.
Proof.
  intros Hfd Hr. split; try apply Hr; rewrite ?(rt_kern _ _ _ _ _ Hr), ?(rt_closed _ _ _ _ _ Hr);
    try done; [..|auto].
  - intros f c' Hc'. destruct (retabled_lookup _ _ _ _ _ _ _ Hr Hfd Hc') as (c0 & ? & ? & Hs & _ & ?).
    exists c0. split_and!; [done|done|by rewrite Hs|congruence].
  - intros f c' Hc'. rewrite (rt_sessions _ _ _ _ _ Hr), lookup_insert_None. naive_solver.
Qed.

Lemma outcome_intro fd c c1 d x' s s1 s' :
  sessions_ s !! fd = Some c → retabled fd c c1 s s1 → announces d s1 s' →
  agrees x' s1 → level_equiv (levels (book_ s1)) (ex_book x') → outcome_of fd false x' d s s'.
Proof.
  intros Hfd Hr (T & HT & Hd) Hx Hb. split.
  - intros f c' Hc'. apply (dl_session _ _ _ _ Hd) in Hc' as (c2 & Hc2 & Hsame & Hst).
    destruct (retabled_lookup _ _ _ _ _ _ _ Hr Hfd Hc2) as (c0 & ? & Hp & Hs & Hin & Hcl).
    exists c0. rewrite (client_of_same c2 c' Hsame), <-Hs. pose proof (Hx f c2 Hc2).
    destruct Hsame. split_and!; try congruence. cbn. congruence.
  - intros f Hne Hnil. assert (f ∉ T) as Hf by (intros Hin; by apply (HT f)).
    destruct (dl_frame _ _ _ _ Hd f Hf) as [-> ->].
    by rewrite (rt_sessions _ _ _ _ _ Hr), (rt_kern _ _ _ _ _ Hr), lookup_insert_ne.
  - rewrite (dl_book _ _ _ _ Hd). by rewrite Hb.
  - intros f. by rewrite (dl_received _ _ _ _ Hd), (rt_kern _ _ _ _ _ Hr).
  - etrans; [by eapply retabled_evolves|]. by eapply delivers_evolves.
Qed.

(** Changing a session's protocol state keeps the invariant if the tables
    are changed accordingly. *)
Lemma retabled_inv fd c c1 s s1 :
  inv s → sessions_ s !! fd = Some c → retabled fd c c1 s s1 → core_session fd c1 →
  (∀ i f, f ∈ subscriber_set s1 i ↔ ∃ c', sessions_ s1 !! f = Some c' ∧ i ∈ cs_subscriptions c') →
  (∀ u, u ∈ usernames_ s1 ↔
    ∃ f c', sessions_ s1 !! f = Some c' ∧ cs_logged_in c' = true ∧ cs_username c' = u) →
  (∀ f f' c' c'', sessions_ s1 !! f = Some c' → sessions_ s1 !! f' = Some c'' →
    cs_logged_in c' = true → cs_logged_in c'' = true → cs_username c' = cs_username c'' → f = f') →
  book_wf (book_ s1) →
  (∀ q a o, (a, o) ∈ queue_at (book_ s1) q →
    ∃ c', sessions_ s1 !! o_owner_fd o = Some c' ∧ cs_logged_in c' = true) →
  inv s1.
Proof.
  intros [Hc Hio] Hfd Hr Hcs Hsubs Hnames Huniq Hbook Hown.
  pose proof (retabled_pending _ _ _ _ _ Hr) as Hpend. pose proof Hr as [].
  assert (lfd s1 = lfd s) as Hl by (unfold lfd; by rewrite rt_listener0).
  split.
  - destruct Hc. split; try done; rewrite ?Hl, ?rt_loop0, ?rt_resume0, ?rt_kern0, ?rt_closed0; try done.
    + intros f c'. rewrite rt_sessions0, lookup_insert. destruct (decide (fd = f)) as [<-|];
        [by intros [= <-]|by apply core_sessions].
    + intros f c' Hf. eapply retabled_lookup in Hf as (c0 & Hf & _); [|done..].
      by apply (core_open_session f c0).
  - intros f c' _. rewrite rt_sessions0, lookup_insert. unfold mirror. rewrite rt_loop0.
    case_decide as Hd; [|by apply Hio; auto]. intros [= <-]. subst f.
    destruct (Hio fd c) as [[] Hm]; [auto|done|]. split.
    + split; rewrite ?Hpend, ?rt_start0, ?rt_outbuf0, ?rt_closing0, ?rt_backlogged0, ?rt_write0,
        ?rt_read0; done.
    + by rewrite rt_read0, rt_write0.
Qed.

Definition served (fd : Z) (c : ClientSession) (cmd : ParsedCommand) (s s' : server) : Prop :=
  inv s' ∧ ∃ x' d lost, serves (view s) fd (client_of c) cmd x' d lost
    ∧ outcome_of fd (cmd_valid cmd && bool_decide (cmd_type cmd = QUIT)) x' d s s'
    ∧ (is_Some (sessions_ s' !! fd) → lost = []).

(** A reply that changes nothing. *)
Lemma reply_served fd c cmd m s :
  inv s → sessions_ s !! fd = Some c → small m → m ≠ [] →
  serves (view s) fd (client_of c) cmd (view s) (just fd m) [] →
  cmd_valid cmd && bool_decide (cmd_type cmd = QUIT) = false →
  wp (send_to fd m) (λ _ s', served fd c cmd s s') s.
Proof.
  intros Hinv Hfd Hsmall Hm Hserves Hq. eapply wp_mono; [by apply send_to_announces|].
  intros [] s' [Hinv' Ha]. split; [done|]. eexists _, _, _. split_and!; [exact Hserves| |done].
  rewrite Hq. eapply outcome_intro; [done|by apply retabled_refl|done|apply view_agrees|done].
Qed.

(** A change of the protocol state, then a reply. *)
Lemma change_served fd c c1 cmd m x' s s1 :
  sessions_ s !! fd = Some c → retabled fd c c1 s s1 → inv s1 → small m → m ≠ [] →
  agrees x' s1 → level_equiv (levels (book_ s1)) (ex_book x') →
  serves (view s) fd (client_of c) cmd x' (just fd m) [] →
  cmd_valid cmd && bool_decide (cmd_type cmd = QUIT) = false →
  wp (send_to fd m) (λ _ s', served fd c cmd s s') s1.
Proof.
  intros Hfd Hr Hinv Hsmall Hm Hx Hb Hserves Hq. eapply wp_mono; [by apply send_to_announces|].
  intros [] s' [Hinv' Ha]. split; [done|]. eexists _, _, _. split_and!; [exact Hserves| |done].
  rewrite Hq. by eapply outcome_intro.
Qed.

(** ** The handlers *)

Lemma reject_spec fd required type c (Q : bool → server → Prop) s :
  sessions_ s !! fd = Some c →
  (cs_role c = Role_UNKNOWN ∨ cs_role c = required → Q false s) →
  (cs_role c ≠ Role_UNKNOWN → cs_role c ≠ required →
     wp (send_to fd (not_permitted type (cs_role c))) (λ _ s', Q true s') s) →
  wp (reject_wrong_role fd required type) Q s.
Proof.
  intros Hfd Hok Hrej. unfold reject_wrong_role. wp_step. apply (wp_session_ref fd c); [done|].
  destruct (bool_decide_reflect (cs_role c = Role_UNKNOWN)); cbn [orb].
  { apply wp_ret. auto. }
  destruct (bool_decide_reflect (cs_role c = required)).
  { apply wp_ret. auto. }
  cbv zeta. wp_step. unfold not_permitted, role_name in Hrej.
  destruct (cs_role c); try done; rewrite ?decide_True, ?decide_False by done;
    (eapply wp_mono; [by apply Hrej|]); intros [] s' ?; by apply wp_ret.
Qed.

Lemma agrees_insert fd c1 s s1 :
  sessions_ s1 = <[fd := c1]> (sessions_ s) → agrees (with_client (view s) fd (client_of c1)) s1.
Proof.
  intros Hs f c'. rewrite Hs. cbn [ex_clients with_client view]. rewrite !lookup_insert.
  case_decide; [by intros [= <-]|]. rewrite lookup_fmap. by intros ->.
Qed.

(** Any reply to a request of the wrong role. *)
Lemma wrong_role_served fd c cmd required s :
  inv s → sessions_ s !! fd = Some c → cmd_valid cmd = true →
  (required = Role_TRADER ∧ cmd_type cmd ∈ [LOGIN; BUY; SELL; CANCEL]
   ∨ required = Role_MARKET_DATA ∧ cmd_type cmd ∈ [SUBSCRIBE; UNSUBSCRIBE]) →
  cs_role c ≠ Role_UNKNOWN → cs_role c ≠ required →
  wp (send_to fd (not_permitted (cmd_type cmd) (cs_role c))) (λ _ s', served fd c cmd s s') s.
Proof.
  intros Hinv Hfd Hv Hreq Hunk Hne.
  destruct Hreq as [[-> Hin]|[-> Hin]]; (apply reply_served; [done|done|apply small_not_permitted|done|..]).
  - destruct (cs_role c) eqn:Hr; try done. by apply serve_market_data_trades.
  - eapply not_quit_in; [done|set_solver].
  - destruct (cs_role c) eqn:Hr; try done. by apply serve_trader_subscribes.
  - eapply not_quit_in; [done|set_solver].
Qed.

Lemma login_inv fd c u s lg :
  inv s → sessions_ s !! fd = Some c → cs_role c ≠ Role_MARKET_DATA → cs_logged_in c = false →
  u ∉ usernames_ s → length u ≤ 64 →
  let c1 := set_login u true (set_role Role_TRADER c) in
  let s1 := set_log lg (set_usernames ({[u]} ∪ usernames_ s)
              (set_sessions (<[fd := c1]> (sessions_ s)) s)) in
  retabled fd c c1 s s1 ∧ inv s1.
Proof.
  intros Hinv Hfd Hrole Hlog Hu Hlen c1 s1.
  assert (retabled fd c c1 s s1) as Hr by by split. split; [done|].
  pose proof (inv_core s Hinv) as Hc. pose proof (core_sessions s Hc fd c Hfd) as Hcs.
  assert (∀ f c', sessions_ s1 !! f = Some c' ↔ f = fd ∧ c' = c1 ∨ f ≠ fd ∧ sessions_ s !! f = Some c') as Hl.
  { intros f c'. cbn. rewrite lookup_insert_Some. naive_solver. }
  assert (∀ f c', sessions_ s !! f = Some c' → cs_logged_in c' = true → f ≠ fd ∧ cs_username c' ≠ u) as Hold.
  { intros f c' Hc' Hlog'. split; [congruence|]. intros <-. apply Hu, (core_names s Hc). eauto. }
  eapply (retabled_inv fd c c1 s s1); [done..| | | | |apply Hc|].
  - destruct Hcs. split; try done. cbn. intros Hne. apply core_market in Hne. done.
  - intros i f. setoid_rewrite Hl. change (subscriber_set s1 i) with (subscriber_set s i).
    rewrite (core_subs s Hc). destruct (decide (f = fd)) as [->|]; naive_solver.
  - intros v. setoid_rewrite Hl. cbn [usernames_ s1 set_log set_usernames].
    rewrite elem_of_union, elem_of_singleton, (core_names s Hc). split.
    + intros [->|(f & c' & ? & ? & ?)]; [exists fd, c1; naive_solver|].
      exists f, c'. naive_solver.
    + intros (f & c' & [[-> ->]|[? ?]] & ? & <-); [by left|right; eauto].
  - intros f f' c' c'' [[-> ->]|[? ?]]%Hl [[-> ->]|[? ?]]%Hl ? ? Heq; [done|..].
    + edestruct Hold as [_ []]; [done|done|]. by rewrite <-Heq.
    + edestruct Hold as [_ []]; [done|done|]. by rewrite Heq.
    + by eapply (core_unique s Hc).
  - intros q a o (c' & Hc' & Hlog')%(core_owner s Hc). exists c'. rewrite Hl. naive_solver.
Qed.

Lemma handle_login_spec fd c cmd u s :
  inv s → sessions_ s !! fd = Some c → cmd_valid cmd = true → cmd_type cmd = LOGIN →
  cmd_args cmd = [u] → length u ≤ 64 →
  wp (handle_login fd cmd) (λ _ s', served fd c cmd s s') s.
Proof.
  intros Hinv Hfd Hv Ht Ha Hu. pose proof (inv_core s Hinv) as Hc.
  pose proof (core_sessions s Hc fd c Hfd) as Hcs.
  unfold handle_login. wp_step. apply (reject_spec fd _ _ c); [done| |].
  2: { intros Hunk Hne. eapply wp_mono; [eapply wrong_role_served; try done|].
       - left. split; [done|]. rewrite Ht. set_solver.
       - intros [] s' ?. by apply wp_ret. }
  intros Hrole. wp_step. apply (wp_session_ref fd c); [done|].
  assert (cs_role c ≠ Role_MARKET_DATA) as Hnmd by (intros Hr; rewrite Hr in Hrole; naive_solver).
  destruct (cs_logged_in c) eqn:Hlog.
  { apply reply_served; try done.
    - apply small_error. pose proof (core_name fd c Hcs). solve_length.
    - eapply serve_login_again; try done. cbn. by rewrite Hlog.
    - by eapply not_quit. }
  rewrite Ha. wp_step. apply wp_gets.
  destruct (bool_decide_reflect (u ∈ usernames_ s)) as [Hin|Hni].
  { apply reply_served; try done.
    - apply small_error. solve_length.
    - apply (core_names s Hc) in Hin as (fd' & c' & Hc' & Hl' & Hn').
      eapply (serve_login_taken _ _ _ _ u fd' (client_of c')); try done.
      + cbn. by rewrite Hlog.
      + by apply view_agrees.
      + cbn. by rewrite Hl', Hn'.
    - by eapply not_quit. }
  wp_step. apply (wp_assign fd c); [done|]. wp_step. apply wp_modify. wp_step. apply wp_print.
  set (lg := _ ++ [Stdout _]).
  destruct (login_inv fd c u s lg Hinv Hfd Hnmd Hlog Hni Hu) as [Hr Hinv1].
  eapply change_served; [done|exact Hr|exact Hinv1|apply small_ok|done|by eapply agrees_insert|done| |].
  - apply serve_login; try done; [cbn; by rewrite Hlog|].
    intros fd' cl'. cbn. rewrite lookup_fmap. intros (c' & Hc' & ->)%fmap_Some. cbn.
    intros Hl'. apply Hni, (core_names s Hc). exists fd', c'.
    destruct (cs_logged_in c'); naive_solver.
  - by eapply not_quit.
Qed.

Lemma subscription_inv fd c names m lg s :
  inv s → sessions_ s !! fd = Some c → cs_role c ≠ Role_TRADER →
  (∀ i f, f ∈ (default ∅ (m !! i) : gset Z) ↔
     (f = fd ∧ i ∈ names) ∨ (f ≠ fd ∧ f ∈ subscriber_set s i)) →
  let c1 := set_subscriptions names (set_role Role_MARKET_DATA c) in
  let s1 := set_subscribers m (set_sessions (<[fd := c1]> (sessions_ s)) (set_log lg s)) in
  retabled fd c c1 s s1 ∧ inv s1.
Proof.
  intros Hinv Hfd Hrole Hm c1 s1.
  assert (retabled fd c c1 s s1) as Hr by by split. split; [done|].
  pose proof (inv_core s Hinv) as Hc. pose proof (core_sessions s Hc fd c Hfd) as Hcs.
  assert (cs_logged_in c = false) as Hlog.
  { destruct (cs_logged_in c) eqn:Hlog; [|done]. by apply (core_trader fd c Hcs) in Hlog. }
  assert (∀ f c', sessions_ s1 !! f = Some c' ↔ f = fd ∧ c' = c1 ∨ f ≠ fd ∧ sessions_ s !! f = Some c') as Hl.
  { intros f c'. cbn. rewrite lookup_insert_Some. naive_solver. }
  assert (∀ f c', sessions_ s1 !! f = Some c' ∧ cs_logged_in c' = true ↔
                  sessions_ s !! f = Some c' ∧ cs_logged_in c' = true) as Hlogged.
  { intros f c'. rewrite Hl. split.
    - intros [[[-> ->]|[? ?]] Hlog']; [|done]. cbn in Hlog'. congruence.
    - intros [Hc' Hlog']. split; [|done]. right. split; [|done]. intros ->. congruence. }
  eapply (retabled_inv fd c c1 s s1); [done..| | | | |apply Hc|].
  - destruct Hcs. split; try done. cbn. rewrite Hlog. done.
  - intros i f. setoid_rewrite Hl. change (subscriber_set s1 i) with (default ∅ (m !! i)).
    rewrite Hm, (core_subs s Hc). split.
    + intros [[-> ?]|[? (c' & ? & ?)]]; [exists c1; auto|exists c'; auto].
    + intros (c' & [[-> ->]|[? ?]] & ?); [by left|right; eauto].
  - intros u. change (usernames_ s1) with (usernames_ s). rewrite (core_names s Hc).
    split; intros (f & c' & ? & ? & ?); exists f, c'.
    + by destruct (proj2 (Hlogged f c')).
    + by destruct (proj1 (Hlogged f c')).
  - intros f f' c' c'' H1 H2 L1 L2.
    apply (core_unique s Hc f f' c' c''); by (apply Hlogged || done).
  - intros q a o (c' & ? & ?)%(core_owner s Hc). exists c'. by apply Hlogged.
Qed.

(** The reply to an accepted subscription command: the client's set is now
    [names], which differs from the old one at most in [i], and the set of
    subscribers of [i] is now [X]. *)
Lemma subscription_served fd c cmd i names X lg s :
  inv s → sessions_ s !! fd = Some c → cs_role c ≠ Role_TRADER →
  (∀ j, j ≠ i → j ∈ names ↔ j ∈ cs_subscriptions c) →
  (∀ f, f ∈ X ↔ (f = fd ∧ i ∈ names) ∨ (f ≠ fd ∧ f ∈ subscriber_set s i)) →
  let c1 := set_subscriptions names (set_role Role_MARKET_DATA c) in
  serves (view s) fd (client_of c) cmd (with_client (view s) fd (client_of c1)) (just fd ok) [] →
  cmd_valid cmd && bool_decide (cmd_type cmd = QUIT) = false →
  wp (send_to fd ok) (λ _ s', served fd c cmd s s')
    (set_subscribers (<[i := X]> (subscribers_ s))
       (set_sessions (<[fd := c1]> (sessions_ s)) (set_log lg s))).
Proof.
  intros Hinv Hfd Hnt Hnames HX c1 Hserves Hnq. pose proof (inv_core s Hinv) as Hc.
  destruct (subscription_inv fd c names (<[i := X]> (subscribers_ s)) lg s Hinv Hfd Hnt)
    as [Hr Hinv1].
  { intros j f. rewrite lookup_insert. destruct (decide (i = j)) as [<-|Hne]; [apply HX|].
    change (default ∅ (subscribers_ s !! j)) with (subscriber_set s j).
    rewrite Hnames by done. destruct (decide (f = fd)) as [->|]; [|naive_solver].
    rewrite (core_subs s Hc). naive_solver. }
  eapply change_served; [done|exact Hr|exact Hinv1|apply small_ok|done|by eapply agrees_insert|done..].
Qed.

Lemma handle_subscription_spec fd c cmd s :
  inv s → sessions_ s !! fd = Some c → cmd_valid cmd = true →
  cmd_type cmd ∈ [SUBSCRIBE; UNSUBSCRIBE] → cmd_instrument cmd ∈ kInstruments →
  wp (handle_subscription fd cmd) (λ _ s', served fd c cmd s s') s.
Proof.
  intros Hinv Hfd Hv Ht Hi%instrument_length. pose proof (inv_core s Hinv) as Hc.
  assert (cmd_valid cmd && bool_decide (cmd_type cmd = QUIT) = false) as Hnq
    by (eapply not_quit_in; [done|set_solver]).
  unfold handle_subscription. wp_step. apply (reject_spec fd _ _ c); [done| |].
  2: { intros Hunk Hne. eapply wp_mono; [eapply wrong_role_served; naive_solver|].
       intros [] s' ?. by apply wp_ret. }
  intros Hrole. wp_step. apply (wp_session_ref fd c); [done|]. cbv zeta.
  assert (cs_role c ≠ Role_TRADER) as Hnt by (intros Hr; rewrite Hr in Hrole; naive_solver).
  set (i := cmd_instrument cmd) in *.
  destruct (negb _ && negb _) eqn:Hnot.
  { apply andb_true_iff in Hnot as [Hns%negb_true_iff%bool_decide_eq_false
                                    Hni%negb_true_iff%bool_decide_eq_false].
    apply reply_served; try done.
    - apply small_error. solve_length.
    - apply serve_unsubscribe_unknown; try done. rewrite !elem_of_cons in Ht. set_solver. }
  wp_step. eapply (wp_mono _ (λ _ s1, ∃ lg,
    s1 = set_sessions (<[fd := set_role Role_MARKET_DATA c]> (sessions_ s)) (set_log lg s))).
  { apply wp_when; [intros _|intros Hr%bool_decide_eq_false].
    - wp_step. apply (wp_assign fd c); [done|]. apply wp_print. by eexists.
    - exists (log_ s). assert (set_role Role_MARKET_DATA c = c) as ->.
      { destruct c, cs_role; naive_solver. }
      rewrite insert_id by done. by destruct s. }
  intros [] s1 [lg ->]. wp_step.
  set (s1 := set_sessions _ _). set (c0 := set_role Role_MARKET_DATA c).
  assert (sessions_ s1 !! fd = Some c0) as Hfd1 by apply lookup_insert_eq.
  destruct (bool_decide_reflect (cmd_type cmd = SUBSCRIBE)) as [Hsub|Hunsub].
  - wp_step. apply (wp_assign fd c0); [done|]. apply wp_modify. cbn [sessions_ s1 set_sessions].
    rewrite insert_insert_eq. apply (subscription_served fd c cmd i ({[i]} ∪ cs_subscriptions c)
      ({[fd]} ∪ subscriber_set s i) lg s); try done; [set_solver| |by apply serve_subscribe].
    intros f. destruct (decide (f = fd)) as [->|]; set_solver.
  - assert (cmd_type cmd = UNSUBSCRIBE) as Hun by (rewrite !elem_of_cons in Ht; set_solver).
    cbn [negb andb] in Hnot. apply negb_false_iff, bool_decide_eq_true in Hnot.
    wp_step. apply (wp_assign fd c0); [done|]. apply wp_modify. cbn [sessions_ s1 set_sessions].
    rewrite insert_insert_eq. apply (subscription_served fd c cmd i (cs_subscriptions c ∖ {[i]})
      (subscriber_set s i ∖ {[fd]}) lg s); try done; [set_solver| |by apply serve_unsubscribe].
    intros f. destruct (decide (f = fd)) as [->|]; set_solver.
Qed.

Lemma require_spec fd c cmd (Q : bool → server → Prop) s :
  inv s → sessions_ s !! fd = Some c → cmd_valid cmd = true → cmd_type cmd ∈ [BUY; SELL; CANCEL] →
  (cs_logged_in c = true → Q true s) → (∀ s', served fd c cmd s s' → Q false s') →
  wp (require_logged_in_trader fd (cmd_type cmd)) Q s.
Proof.
  intros Hinv Hfd Hv Ht Hyes Hno. unfold require_logged_in_trader.
  wp_step. apply (reject_spec fd _ _ c); [done| |].
  2: { intros Hunk Hne. eapply wp_mono; [eapply wrong_role_served; [done..| |done|done]|].
       - left. split; [done|]. set_solver.
       - intros [] s' ?. apply wp_ret. auto. }
  intros Hrole. wp_step. apply (wp_session_ref fd c); [done|].
  destruct (cs_logged_in c) eqn:Hlog; cbn [negb]; [apply wp_ret; auto|].
  wp_step. eapply wp_mono; [apply (reply_served fd c cmd not_logged_in)|]; try done.
  - apply serve_not_logged_in; try done; [|cbn; by rewrite Hlog].
    cbn. intros Hr. rewrite Hr in Hrole. naive_solver.
  - eapply not_quit_in; [done|set_solver].
Qed.

(** A change of the book by a logged-in client keeps the invariant. *)
Lemma book_inv fd c b s :
  inv s → sessions_ s !! fd = Some c → cs_logged_in c = true → book_wf b →
  (∀ side i p e, e ∈ lb_level (levels b) side i p →
     r_owner e = fd ∨ ∃ e', e' ∈ lb_level (levels (book_ s)) side i p ∧ r_owner e' = r_owner e) →
  retabled fd c c s (set_book b s) ∧ inv (set_book b s).
Proof.
  intros Hinv Hfd Hlog Hwf Hown. pose proof (inv_core s Hinv) as Hc.
  assert (retabled fd c c s (set_book b s)) as Hr by (split; try done; by rewrite insert_id).
  split; [done|]. eapply (retabled_inv fd c c s); [done..|by apply Hc|apply Hc|apply Hc|apply Hc|done|].
  intros [side i] a o Hin. cbn [sessions_ set_book].
  destruct (Hown side i (o_price o) (entry (a, o))) as [Heq|([id owner q] & He' & Heq)].
  - apply in_level. by exists a, o.
  - cbn in Heq. rewrite Heq. eauto.
  - apply in_level in He' as (a' & o' & Hin' & _ & _ & Ho & _). cbn in Heq.
    rewrite <-Heq, <-Ho. by apply (core_owner s Hc) in Hin'.
Qed.

Lemma handle_order_spec fd c cmd s :
  inv s → sessions_ s !! fd = Some c → cmd_valid cmd = true → cmd_type cmd ∈ [BUY; SELL] →
  cmd_instrument cmd ∈ kInstruments → (0 < cmd_quantity cmd ≤ LONG_MAX)%Z →
  ((LONG_MAX ≤ next_order_id_ (book_ s))%Z → tolerated) →
  wp (handle_order fd cmd) (λ _ s', served fd c cmd s s') s.
Proof.
  intros Hinv Hfd Hv Ht Hi Hq Hov. pose proof (inv_core s Hinv) as Hc.
  unfold handle_order. wp_step. apply (require_spec fd c); [done..|set_solver| |].
  2: { intros s' ?. by apply wp_ret. }
  intros Hlog. cbn [negb]. cbv zeta. change (if decide _ then _ else _) with (side_of (cmd_type cmd)).
  set (side := side_of _). set (i := cmd_instrument cmd) in *.
  wp_step. destruct (decide (next_order_id_ (book_ s) < LONG_MAX)%Z) as [Hlt|Hge].
  2: { apply wp_overflow; [apply Hov; lia|]. unfold lift_add_order, add_order.
       by rewrite (proj2 (Z.leb_le _ _)) by lia. }
  destruct (add_order_refines (book_ s) fd i side (cmd_quantity cmd) (cmd_price cmd))
    as (b & Hwf & Hadd & Heq); [apply Hc|done|done|].
  pose proof (spec_add_instrument (levels (book_ s)) fd i side (cmd_quantity cmd) (cmd_price cmd)) as Hxi.
  pose proof (spec_add_owner (levels (book_ s)) fd i side (cmd_quantity cmd) (cmd_price cmd)) as Hown.
  destruct (spec_add _ _ _ _ _ _) as [[id lb] xs] eqn:Hspec. cbn [fst snd] in *.
  eapply wp_done; [unfold lift_add_order; by rewrite Hadd|]. cbn [fst snd].
  destruct (book_inv fd c b s) as [Hr Hinv1]; [done..| |].
  { intros s0 j p e He. rewrite (proj2 Heq) in He. by eapply Hown. }
  wp_step. eapply wp_mono; [apply send_to_announces; [done|apply small_order_accepted|done]|].
  intros [] s2 [Hinv2 Ha2]. eapply wp_mono; [apply (publish_all_spec (view s)); [done| |]|].
  - destruct Ha2 as (? & _ & Hd2). eapply agrees_delivers, Hd2. exact (view_agrees s).
  - eapply Forall_impl; [exact Hxi|]. by intros x ->.
  - intros [] s3 (Hinv3 & announced & lost & -> & Ha3 & Hlost). split; [done|].
    eexists _, _, lost. split_and!; [|rewrite (not_quit_in cmd [BUY; SELL]) by (done || set_solver)|done].
    + eapply (serve_order _ _ _ _ (cs_username c)); [done..| |exact Hspec]. cbn. by rewrite Hlog.
    + eapply outcome_intro; [done|exact Hr|by eapply announces_trans|exact (view_agrees s)|done].
Qed.

Lemma handle_cancel_spec fd c cmd s :
  inv s → sessions_ s !! fd = Some c → cmd_valid cmd = true → cmd_type cmd = CANCEL →
  wp (handle_cancel fd cmd) (λ _ s', served fd c cmd s s') s.
Proof.
  intros Hinv Hfd Hv Ht. pose proof (inv_core s Hinv) as Hc.
  unfold handle_cancel. wp_step. apply (require_spec fd c); [done..|rewrite Ht; set_solver| |].
  2: { intros s' ?. by apply wp_ret. }
  intros Hlog. cbn [negb]. wp_step.
  destruct (cancel_order_refines (book_ s) (cmd_order_id cmd) fd (core_book s Hc)) as (res & Hres & Hcase).
  eapply wp_done; [cbv beta; rewrite Hres; done|]. cbv beta.
  assert (cl_login (client_of c) = Some (cs_username c)) as Hl by (cbn; by rewrite Hlog).
  destruct res as [e|b]; cbv iota.
  - apply reply_served; try done; [|by eapply serve_cancel_refused|by eapply not_quit].
    apply small_error. inversion Hcase; unfold no_such_order, not_your_order; solve_length.
  - destruct Hcase as (Hwf & lb & Hsc & Heq).
    destruct (book_inv fd c b s) as [Hr Hinv1]; [done..| |].
    { intros side i p e He. rewrite (proj2 Heq) in He. inversion Hsc; subst.
      cbn in He. apply list_elem_of_filter in He as [_ He]. right. eauto. }
    apply (change_served fd c c cmd _ (with_book (view s) lb) s (set_book b s)); try done.
    + apply small_order_cancelled.
    + exact (view_agrees s).
    + by eapply serve_cancel.
    + by eapply not_quit.
Qed.

(** ** Leaving *)

Lemma closing_core fd c :
  core_session fd c → core_session fd (set_inbuf [] (set_closing true c)).
Proof. intros []. by split. Qed.

(** Without pending output the session is dropped at once. *)
Lemma close_now fd c reason s :
  inv s → sessions_ s !! fd = Some c →
  let s1 := set_sessions (<[fd := set_inbuf [] (set_closing true c)]> (sessions_ s)) s in
  wp (drop_session fd reason)
    (λ _ s', inv s' ∧ outcome_of fd true (view s) nothing s s') s1.
Proof.
  intros Hinv Hfd s1. set (c1 := set_inbuf [] (set_closing true c)).
  pose proof (inv_core s Hinv) as Hc.
  pose proof (local_assign fd c c1 s Hc Hfd) as Hl. change (set_sessions _ s) with s1 in Hl.
  assert (core s1) as Hc1.
  { eapply core_local_tables; [done|done|exact Hl|by split|].
    by apply closing_core, (core_sessions s Hc). }
  eapply wp_mono; [apply (drop_spec fd reason c1 s1); [done| |by eapply local_here]|].
  { eapply io_local; [by apply inv_io|done]. }
  intros [] s' (Hinv' & Hd & Hnone). split; [done|].
  assert (∀ f c', sessions_ s' !! f = Some c' → f ≠ fd) as Hne by (intros f c' ? ->; congruence).
  split.
  - intros f c' Hf. pose proof (Hne f c' Hf) as Hfne.
    apply (dl_session _ _ _ _ Hd) in Hf as (c0 & Hc0 & Hsame & Hst).
    cbn in Hc0. rewrite lookup_insert_ne in Hc0 by done. exists c0.
    rewrite (bool_decide_false (f = fd)), (client_of_same c0 c' Hsame) by done. cbn [andb].
    destruct Hsame. split_and!; [done|by apply view_agrees|done|done|congruence].
  - intros f Hf _. assert (f ∉ ({[fd]} : gset Z)) as Hni by set_solver.
    destruct (dl_frame _ _ _ _ Hd f Hni) as [-> ->]. cbn. by rewrite lookup_insert_ne.
  - exact (dl_book _ _ _ _ Hd).
  - exact (dl_received _ _ _ _ Hd).
  - etrans; [|by eapply delivers_evolves]. by eapply local_evolves.
Qed.

Lemma begin_close_spec fd reason s :
  inv s →
  wp (begin_orderly_close fd reason)
    (λ _ s', inv s' ∧ outcome_of fd true (view s) nothing s s') s.
Proof.
  intros Hinv. pose proof (inv_core s Hinv) as Hc.
  unfold begin_orderly_close. wp_step. apply wp_is_session.
  apply wp_when; [intros [c Hfd]%bool_decide_eq_true|intros Hnone%bool_decide_eq_false].
  2: { split; [done|]. split; [|done|by apply connected_levels_all|done|done].
       intros f c' Hc'. exists c'. rewrite bool_decide_false by (intros ->; eauto).
       split_and!; [done|by apply view_agrees|done|by rewrite app_nil_r|done]. }
  wp_step. apply (wp_assign fd c); [done|]. set (c1 := set_inbuf [] (set_closing true c)).
  wp_step. apply (wp_deref fd c1); [apply lookup_insert_eq|].
  destruct (inv_session s fd c Hinv Hfd) as (Hcs & Hok & Hmir).
  assert (out_wf c1) as Hwf by exact (out_pre_wf c (proj1 (io_ok_pre c Hok))).
  rewrite has_pending_spec by done. change (pending c1) with (pending c).
  destruct (bool_decide_reflect (pending c ≠ [])) as [Hp|Hp]; cbn [negb]; [|by apply close_now].
  wp_step. apply wp_sys. intros [] k [= Hk]. cbv beta.
  wp_step. apply (wp_assign fd c1); [apply lookup_insert_eq|].
  set (c2 := set_interest true false c1).
  wp_step. apply wp_update; [apply Hc|]. intros ok l k2 Hlwf Hquiet Ho Hint. apply wp_ret.
  cbn [sessions_ set_kern set_sessions]. rewrite insert_insert_eq.
  assert (quiet (kern s) k2) as (Hopen & Hsent & Hwork & Hrcv).
  { etrans; [|exact Hquiet]. cbn. subst k. apply law_shutdown. }
  set (s' := set_kern k2 _).
  assert (local fd c2 s s') as Hl by (split; try done; apply Hint).
  assert (core s') as Hc'.
  { eapply core_local_tables; [done|done|exact Hl|by split|]. by destruct (closing_core fd c Hcs); split. }
  assert (stream s' fd c2 = stream s fd c) as Hst by (unfold stream; cbn; by rewrite Hsent).
  split.
  - eapply (inv_local fd c2 s); [done|by apply inv_io|done| |by intros [_ ?]%Hint].
    destruct Hok. split; try done; cbn; rewrite bool_decide_true; done.
  - split.
    + intros f c'. cbn [sessions_ s' set_kern set_loop set_sessions]. rewrite lookup_insert.
      case_decide as Hd.
      * intros [= <-]. subst f. exists c. rewrite bool_decide_true by done.
        split_and!; [done|by apply (view_agrees s fd c)|done| |done]. by rewrite Hst, app_nil_r.
      * intros Hf. exists c'. rewrite bool_decide_false by done.
        split_and!; [done|by apply view_agrees|done| |done].
        unfold stream. cbn. by rewrite Hsent, app_nil_r.
    + intros f Hf _. cbn. by rewrite lookup_insert_ne.
    + by eapply connected_local.
    + exact Hrcv.
    + eapply local_evolves; [done|exact Hl|done| |done]. by rewrite Hst.
Qed.

(** ** One message *)

Lemma handle_message_spec fd c line s :
  inv s → sessions_ s !! fd = Some c → (str_size line ≤ kMaxLineBytes + kReadChunk)%Z →
  ((LONG_MAX ≤ next_order_id_ (book_ s))%Z → tolerated) →
  wp (handle_message fd line) (λ _ s', served fd c (parse line) s s') s.
Proof.
  intros Hinv Hfd Hline Hov. unfold handle_message. cbv zeta.
  destruct (cmd_valid (parse line)) eqn:Hv; cbn [negb].
  2: { apply reply_served; try done.
       - apply small_error. pose proof (parse_error_length line Hv).
         unfold str_size, kMaxLineBytes, kReadChunk in *. lia.
       - by apply serve_invalid.
       - by rewrite Hv. }
  destruct (parse_valid_accepts line Hv) as [r Hr]. pose proof (parse_accepts line r Hr) as Hp.
  assert (∀ t q, numeral t q → (q ≤ LONG_MAX)%Z) as Hlong
    by (intros t q ?%numeral_bound; unfold LONG_MAX; lia).
  inversion Hr as [u Hu Ht|i tq tp q p Hi Hq Hq0 ? ? Ht|i tq tp q p Hi Hq Hq0 ? ? Ht
                  |ti i Hi Ht|i Hi Ht|i Hi Ht|Ht]; subst r; rewrite <-Ht in Hp; rewrite Hp in *;
    cbn [command_of cmd_type].
  - by apply (handle_login_spec fd c _ u).
  - apply handle_order_spec; try done; [set_solver|split; [done|by eapply Hlong]].
  - apply handle_order_spec; try done; [set_solver|split; [done|by eapply Hlong]].
  - by apply handle_cancel_spec.
  - apply handle_subscription_spec; try done. set_solver.
  - apply handle_subscription_spec; try done. set_solver.
  - eapply wp_mono; [by apply begin_close_spec|]. intros [] s' [? ?]. split; [done|].
    eexists _, _, []. split_and!; [by apply serve_quit|done|done].
Qed.

End Protocol.
