(* ===== verification/ServerTrace.v ===== *)
(** * ServerTrace: a server state and the history that led to it

    [explains tr s]: the abstract exchange, started empty, can go through the
    events [tr] to the exchange [s] stands for; every connected client's
    output stream is the output [tr] gives it; and the lines received from it
    are the requests it makes in [tr], the bytes after the last of them being
    those in its input buffer; while it is not being closed it is owed one
    reply per request.  [leads s s'] says that whatever explains [s]
    can be continued to explain [s']. *)

From S2P Require Import Prelude CxxString Framing MessageParser OrderBook OrderBookSpec Kernel EventLoop.
From S2P Require Import SocketUtils ClientSession TcpServer ExchangeServer ExchangeSpec ExchangeTrace ServerInv.
From S2P Require Import ServerOutput ServerProtocol.

Section Trace.
Context {OV : Tolerance} `{!Kernel K, !KernelView K, !KernelLaws K}.
Context `{!EventLoopI K L, !EventLoopLaws K L} `{!HashOrder (Server L K), !HashOrderLaws (Server L K)}.

Abbreviation server := (Server L K).
Implicit Types s : server.

(** The bytes [inp] received from a client, cut into the lines that were its
    requests and the rest. *)
Definition heard (inp : bytes) (reqs : list bytes) (c : ClientSession) : Prop :=
  ∃ raws rest, inp = wire raws ++ rest ∧ Forall (λ l, LF ∉ l) raws ∧ reqs = chomp_cr <$> raws
    ∧ (cs_closing c = false → cs_inbuf c = rest).

(** One reply per request, so far. *)
Definition in_step (tr : list event) (fd : Z) (c : ClientSession) : Prop :=
  cs_closing c = false → owed tr fd = length (requests tr fd).

(** [X]: clients that have just been refused and are about to be closed. *)
Record explains_but (X : Z → Prop) (tr : list event) (s : server) : Prop := mkExplains {
  xp_steps : steps new_exchange tr (view s);
  xp_output fd c : sessions_ s !! fd = Some c → stream s fd c = output tr fd;
  xp_input fd c : sessions_ s !! fd = Some c → heard (received (kern s) fd) (requests tr fd) c;
  xp_owed fd c : ¬ X fd → sessions_ s !! fd = Some c → in_step tr fd c
}.

Definition explains : list event → server → Prop := explains_but (λ _, False).

Lemma xp_in_step tr s fd c : explains tr s → sessions_ s !! fd = Some c → in_step tr fd c.
Proof. intros Hx. apply (xp_owed _ _ _ Hx). auto. Qed.

Definition leads (s s' : server) : Prop :=
  ∀ tr, explains tr s → ∃ tr', explains (tr ++ tr') s'.

#[global] Instance leads_preorder : PreOrder leads.
Proof.
  split.
  - intros s tr Hx. exists []. by rewrite app_nil_r.
  - intros s1 s2 s3 H1 H2 tr [tr1 [tr2 Hx]%H2]%H1. exists (tr1 ++ tr2). by rewrite app_assoc.
Qed.

(** One event. *)
Lemma leads_event e s s' :
  (∀ tr, explains tr s → explains (tr ++ [e]) s') → leads s s'.
Proof. intros H tr Hx. exists [e]. by apply H. Qed.

(** No event: the view and every stream and input are the same. *)
Lemma leads_same s s' :
  view s' = view s →
  (∀ fd c', sessions_ s' !! fd = Some c' → ∃ c, sessions_ s !! fd = Some c
     ∧ stream s' fd c' = stream s fd c ∧ (cs_closing c' = false → cs_closing c = false)
     ∧ ∀ reqs, heard (received (kern s) fd) reqs c → heard (received (kern s') fd) reqs c') →
  leads s s'.
Proof.
  intros Hv Hc tr Hx. exists []. rewrite app_nil_r. split.
  - rewrite Hv. apply Hx.
  - intros fd c' (c & Hfd & -> & _)%Hc. by apply (xp_output _ _ _ Hx).
  - intros fd c' (c & Hfd & _ & _ & Hh)%Hc. by apply Hh, (xp_input _ _ _ Hx).
  - intros fd c' _ (c & Hfd & _ & Hcl & _)%Hc Hcl'. apply (xp_in_step tr s fd c); auto.
Qed.

(** The view after a change of one session's wire state. *)
Lemma view_local s s' fd c c' :
  sessions_ s !! fd = Some c → sessions_ s' = <[fd := c']> (sessions_ s) →
  client_of c' = client_of c → book_ s' = book_ s → view s' = view s.
Proof.
  intros Hfd Hs Hc Hb. unfold view. rewrite Hs, Hb, fmap_insert, Hc, insert_id; [done|].
  by rewrite lookup_fmap, Hfd.
Qed.

Lemma view_lookup s fd cl :
  ex_clients (view s) !! fd = Some cl ↔ ∃ c, sessions_ s !! fd = Some c ∧ cl = client_of c.
Proof. cbn. rewrite lookup_fmap, fmap_Some. naive_solver. Qed.

Lemma view_is_Some s fd : is_Some (ex_clients (view s) !! fd) ↔ is_Some (sessions_ s !! fd).
Proof. cbn. by rewrite lookup_fmap, fmap_is_Some. Qed.

(** The orders kept are those of connected clients. *)
Lemma kept_connected s lb :
  level_equiv (keep_levels lb (λ e, is_Some (ex_clients (view s) !! r_owner e)))
    (connected_levels s lb).
Proof.
  split; [done|]. intros side i p. cbn [lb_level keep_levels connected_levels].
  apply filter_ext_in. intros e _. apply view_is_Some.
Qed.

Lemma heard_same inp reqs c c' : same_core c c' → heard inp reqs c → heard inp reqs c'.
Proof.
  intros [] (raws & rest & ? & ? & ? & Hin). exists raws, rest. split_and!; [done..|].
  rewrite same_inbuf, same_closing. done.
Qed.

(** Clients that stay keep their place in the view. *)
Lemma delivers_leaving T d s s' : delivers T d s s' → leaving (λ f, f ∈ T) (view s) (view s').
Proof.
  intros Hd. split.
  - intros fd cl (c' & (c & Hc & Hsame & _)%(dl_session _ _ _ _ Hd) & ->)%view_lookup.
    rewrite (client_of_same c c' Hsame). apply view_lookup. eauto.
  - intros fd Hn. cbn. rewrite !lookup_fmap. by destruct (dl_frame _ _ _ _ Hd fd Hn) as [-> _].
  - rewrite kept_connected. apply (dl_book _ _ _ _ Hd).
Qed.

Lemma in_step_same tr fd c c' : same_core c c' → in_step tr fd c → in_step tr fd c'.
Proof. intros [] Hs. unfold in_step. by rewrite same_closing. Qed.

(** Work on the output side that says nothing. *)
Lemma delivers_leads T s s' : delivers T nothing s s' → leads s s'.
Proof.
  intros Hd. apply (leads_event (Departed T)). intros tr Hx. split.
  - eapply steps_snoc; [apply Hx|]. constructor. by eapply delivers_leaving.
  - intros fd c' (c & Hc & _ & ->)%(dl_session _ _ _ _ Hd). rewrite output_snoc. cbn.
    unfold nothing. rewrite app_nil_r. by apply (xp_output _ _ _ Hx).
  - intros fd c' (c & Hc & Hsame & _)%(dl_session _ _ _ _ Hd). rewrite requests_snoc. cbn.
    rewrite (dl_received _ _ _ _ Hd). eapply heard_same; [done|]. by apply (xp_input _ _ _ Hx).
  - intros fd c' _ (c & Hc & Hsame & _)%(dl_session _ _ _ _ Hd).
    unfold in_step. rewrite owed_snoc, requests_snoc. cbn.
    eapply in_step_same; [done|]. by apply (xp_in_step tr s).
Qed.

(** The refusal of an endless line ... *)
Lemma refused_explains fd tr s s' :
  delivers {[fd]} (just fd line_too_long) s s' → explains tr s →
  explains_but (λ f, f = fd) (tr ++ [Refused fd]) s'.
Proof.
  intros Hd Hx. split.
  - eapply steps_snoc; [apply Hx|]. constructor. destruct (delivers_leaving _ _ _ _ Hd).
    split; [done| |done]. intros f Hne. apply lv_only. set_solver.
  - intros f c' (c & Hc & _ & ->)%(dl_session _ _ _ _ Hd). rewrite output_snoc. cbn.
    by rewrite (xp_output _ _ _ Hx f c Hc).
  - intros f c' (c & Hc & Hsame & _)%(dl_session _ _ _ _ Hd). rewrite requests_snoc. cbn.
    rewrite (dl_received _ _ _ _ Hd). eapply heard_same; [done|]. by apply (xp_input _ _ _ Hx).
  - intros f c' Hne (c & Hc & Hsame & _)%(dl_session _ _ _ _ Hd).
    unfold in_step. rewrite owed_snoc, requests_snoc. cbn. rewrite decide_False by done.
    eapply in_step_same; [done|]. by apply (xp_in_step tr s).
Qed.

(** ... and starting an orderly close, after it or for another reason. *)
Lemma closing_explains fd tr s s' :
  outcome_of fd true (view s) nothing s s' → explains_but (λ f, f = fd) tr s →
  explains (tr ++ [Departed {[fd]}]) s'.
Proof.
  intros Ho Hx. split.
  - eapply steps_snoc; [apply Hx|]. constructor. split.
    + intros f cl (c' & (c & _ & Hc & _)%(oc_session _ _ _ _ _ _ Ho) & ->)%view_lookup. done.
    + intros f Hne%not_elem_of_singleton. cbn. rewrite !lookup_fmap.
      by destruct (oc_others _ _ _ _ _ _ Ho f Hne) as [-> _].
    + rewrite kept_connected. apply (oc_book _ _ _ _ _ _ Ho).
  - intros f c' (c & Hc & _ & _ & -> & _)%(oc_session _ _ _ _ _ _ Ho). rewrite output_snoc. cbn.
    unfold nothing. rewrite app_nil_r. by apply (xp_output _ _ _ Hx).
  - intros f c' (c & Hc & _ & _ & _ & Hin)%(oc_session _ _ _ _ _ _ Ho). rewrite requests_snoc. cbn.
    rewrite (oc_received _ _ _ _ _ _ Ho).
    destruct (xp_input _ _ _ Hx f c Hc) as (raws & rest & ? & ? & ? & Hb). exists raws, rest.
    split_and!; [done..|]. destruct (bool_decide _); injection Hin as -> ->; [done|exact Hb].
  - intros f c' _ (c & Hc & _ & _ & _ & Hin)%(oc_session _ _ _ _ _ _ Ho).
    unfold in_step. rewrite owed_snoc, requests_snoc. cbn [andb owe note] in *.
    destruct (bool_decide_reflect (f = fd)) as [->|Hne]; injection Hin as _ ->; [done|].
    by apply (xp_owed _ _ _ Hx f c).
Qed.

Lemma explains_weaken X tr s : explains tr s → explains_but X tr s.
Proof. intros []. split; auto. Qed.

Lemma closing_leads fd s s' : outcome_of fd true (view s) nothing s s' → leads s s'.
Proof.
  intros Ho. eapply leads_event. intros tr Hx.
  eapply closing_explains; [done|by apply explains_weaken].
Qed.

Lemma refused_leads fd s s1 s' :
  delivers {[fd]} (just fd line_too_long) s s1 → outcome_of fd true (view s1) nothing s1 s' →
  leads s s'.
Proof.
  intros Hd Ho tr Hx. eexists ([_] ++ [_]). rewrite app_assoc.
  eapply closing_explains; [done|]. by eapply refused_explains.
Qed.

(** A line leaves the input buffer and the request in it is served. *)
Lemma served_leaving fd cmd x' d lost cl s s' q :
  serves (view s) fd cl cmd x' d lost → outcome_of fd q x' d s s' →
  leaving (addressed fd d) x' (view s').
Proof.
  intros Hs Ho. split.
  - intros f cl' (c' & (c & _ & Hc & _)%(oc_session _ _ _ _ _ _ Ho) & ->)%view_lookup. done.
  - intros f Hn. assert (f ≠ fd ∧ d f = []) as [Hne Hd].
    { unfold addressed in Hn. destruct (d f); [naive_solver|]. destruct Hn. by right. }
    rewrite (serves_others _ _ _ _ _ _ _ f Hs Hne). cbn. rewrite !lookup_fmap.
    by destruct (oc_others _ _ _ _ _ _ Ho f Hne Hd) as [-> _].
  - rewrite kept_connected. apply (oc_book _ _ _ _ _ _ Ho).
Qed.

Lemma heard_next inp reqs c raw buf c' :
  heard inp reqs c → cs_closing c = false → cs_inbuf c = raw ++ LF :: buf → LF ∉ raw →
  (cs_closing c' = false → cs_inbuf c' = buf) → heard inp (reqs ++ [chomp_cr raw]) c'.
Proof.
  intros (raws & rest & -> & Hf & -> & Hin) Hcl Hbuf Hraw Hc'.
  rewrite <-(Hin Hcl), Hbuf. exists (raws ++ [raw]), buf. split_and!; [| | |done].
  - rewrite wire_snoc, <-!app_assoc. done.
  - apply Forall_app. by rewrite Forall_singleton.
  - by rewrite fmap_app.
Qed.

Lemma request_leads fd c raw buf s s1 s' :
  sessions_ s !! fd = Some c → cs_closing c = false → cs_inbuf c = raw ++ LF :: buf → LF ∉ raw →
  sessions_ s1 = <[fd := set_inbuf buf c]> (sessions_ s) → book_ s1 = book_ s → kern s1 = kern s →
  served fd (set_inbuf buf c) (parse (chomp_cr raw)) s1 s' → leads s s'.
Proof.
  intros Hfd Hcl Hbuf Hraw Hs1 Hb1 Hk1 (_ & x' & d & lost & Hserves & Ho & Hlost).
  assert (view s1 = view s) as Hv by (by eapply view_local).
  assert (∀ f c1, sessions_ s1 !! f = Some c1 → ∃ c0, sessions_ s !! f = Some c0
    ∧ stream s1 f c1 = stream s f c0 ∧ (f = fd ∧ c0 = c ∧ c1 = set_inbuf buf c ∨ f ≠ fd ∧ c1 = c0)) as Hback.
  { intros f c1. rewrite Hs1, lookup_insert. unfold stream. rewrite Hk1. destruct (decide (fd = f)) as [Hd|Hd].
    - intros [= <-]. subst f. exists c. naive_solver.
    - intros Hc1. exists c1. naive_solver. }
  assert (is_quit (chomp_cr raw) = cmd_valid (parse (chomp_cr raw)) &&
    bool_decide (cmd_type (parse (chomp_cr raw)) = QUIT)) as Hq by done.
  apply (leads_event (Requested fd (chomp_cr raw) d lost)). intros tr Hx. split.
  - eapply steps_snoc; [apply Hx|]. eapply step_request.
    + apply view_lookup. exists c. done.
    + rewrite <-Hv. exact Hserves.
    + by eapply served_leaving.
    + intros Hsome%view_is_Some. by apply Hlost.
  - intros f c' (c1 & (c0 & Hc0 & Hst & _)%Hback & _ & _ & -> & _)%(oc_session _ _ _ _ _ _ Ho).
    rewrite output_snoc. cbn. by rewrite Hst, (xp_output _ _ _ Hx f c0 Hc0).
  - intros f c' (c1 & (c0 & Hc0 & _ & Hcase)%Hback & _ & _ & _ & Hin)%(oc_session _ _ _ _ _ _ Ho).
    rewrite requests_snoc, (oc_received _ _ _ _ _ _ Ho), Hk1. cbn.
    pose proof (xp_input _ _ _ Hx f c0 Hc0) as Hh.
    destruct Hcase as [(-> & -> & ->)|[Hne ->]].
    + rewrite decide_True by done. apply (heard_next _ _ c _ buf); [exact Hh|done..|].
      rewrite (bool_decide_true (fd = fd)), andb_true_r in Hin by done.
      destruct (_ && _); injection Hin as -> ->; done.
    + rewrite decide_False by done. rewrite (bool_decide_false (f = fd)), andb_false_r in Hin by done.
      injection Hin as Hi Hc. destruct Hh as (raws & rest & ? & ? & ? & Hr). exists raws, rest.
      split_and!; [done..|]. by rewrite Hi, Hc.
  - intros f c' _ (c1 & (c0 & Hc0 & _ & Hcase)%Hback & _ & _ & _ & Hin)%(oc_session _ _ _ _ _ _ Ho).
    unfold in_step. rewrite owed_snoc, requests_snoc. cbn [owe note fst]. rewrite <-Hq in Hin.
    destruct Hcase as [(-> & -> & ->)|[Hne ->]].
    + rewrite !decide_True by done. rewrite bool_decide_true, andb_true_r in Hin by done.
      destruct (is_quit _); injection Hin as _ ->; [done|]. intros _. rewrite length_app. cbn.
      rewrite (xp_in_step tr s fd c); [unfold requests; lia|done..].
    + rewrite !decide_False by done. rewrite bool_decide_false, andb_false_r in Hin by done.
      injection Hin as _ ->. by apply (xp_in_step tr s f c0).
Qed.

(** Received bytes are appended to the input buffer. *)
Lemma received_leads fd c buf k s s1 :
  sessions_ s !! fd = Some c → receiving (kern s) k →
  received k fd = received (kern s) fd ++ buf →
  (∀ f, f ≠ fd → received k f = received (kern s) f) →
  sessions_ s1 = <[fd := set_inbuf (cs_inbuf c ++ buf) c]> (sessions_ s) →
  book_ s1 = book_ s → kern s1 = k → leads s s1.
Proof.
  intros Hfd (_ & Hsent & _) Hr Hr' Hs1 Hb1 <-. apply leads_same; [by eapply view_local|].
  intros f c'. rewrite Hs1, lookup_insert. unfold stream. case_decide as Hd.
  - intros [= <-]. subst f. exists c. split_and!; [done|by rewrite Hsent|done|].
    intros reqs (raws & rest & Hin & ? & ? & Hbuf). exists raws, (rest ++ buf).
    split_and!; [by rewrite Hr, Hin, app_assoc|done|done|]. intros Hcl. cbn. by rewrite Hbuf.
  - intros Hc'. exists c'. split_and!; [done|by rewrite Hsent|done|]. by rewrite Hr'.
Qed.

(** Changes outside sessions and book. *)
Lemma leads_outside s s' :
  sessions_ s' = sessions_ s → book_ s' = book_ s →
  (∀ fd c, sessions_ s !! fd = Some c →
     sent (kern s') fd = sent (kern s) fd ∧ received (kern s') fd = received (kern s) fd) →
  leads s s'.
Proof.
  intros Hs Hb Hk. apply leads_same; [unfold view; by rewrite Hs, Hb|].
  intros fd c Hfd. rewrite Hs in Hfd. exists c. destruct (Hk fd c Hfd) as [Hse Hre].
  unfold stream. rewrite Hse, Hre. done.
Qed.

(** A new client. *)
Lemma arrived_leads fd c s s' :
  sessions_ s !! fd = None → sessions_ s' = <[fd := c]> (sessions_ s) → book_ s' = book_ s →
  client_of c = newcomer → pending c = [] → cs_inbuf c = [] →
  sent (kern s') fd = [] → received (kern s') fd = [] →
  (∀ f c, sessions_ s !! f = Some c →
     sent (kern s') f = sent (kern s) f ∧ received (kern s') f = received (kern s) f) →
  leads s s'.
Proof.
  intros Hnone Hs Hb Hcl Hp Hin Hsent Hrcv Hk. apply (leads_event (Arrived fd)). intros tr Hx. split.
  - eapply steps_snoc; [apply Hx|].
    assert (view s' = with_client (view s) fd newcomer) as ->.
    { unfold view, with_client. cbn. by rewrite Hs, Hb, fmap_insert, Hcl. }
    constructor. cbn. by rewrite lookup_fmap, Hnone.
  - intros f c'. rewrite Hs, lookup_insert, output_snoc. cbn. case_decide as Hd.
    + intros [= <-]. subst f. unfold stream. by rewrite Hsent, Hp.
    + intros Hc'. destruct (Hk f c' Hc') as [Hse _]. etrans; [|exact (xp_output _ _ _ Hx f c' Hc')].
      unfold stream. by rewrite Hse.
  - intros f c'. rewrite Hs, lookup_insert, requests_snoc. cbn. case_decide as Hd.
    + intros [= <-]. subst f. rewrite Hrcv. exists [], []. done.
    + intros Hc'. destruct (Hk f c' Hc') as [_ ->]. by apply (xp_input _ _ _ Hx).
  - intros f c' _. rewrite Hs, lookup_insert. unfold in_step. rewrite owed_snoc, requests_snoc. cbn.
    case_decide as Hd; [done|]. intros Hc'. by apply (xp_in_step tr s f c').
Qed.

(** Before the first client. *)
Definition vacant (s : server) : Prop := sessions_ s = ∅ ∧ book_ s = empty_book.

Lemma vacant_explains s : vacant s → explains [] s.
Proof.
  intros [Hs Hb]. assert (∀ fd c, ¬ sessions_ s !! fd = Some c) as Hno
    by (intros fd c Hc; by rewrite Hs, lookup_empty in Hc).
  split; [|intros fd c Hc; by apply Hno in Hc..|intros fd c _ Hc; by apply Hno in Hc].
  constructor. split; cbn.
  - by rewrite Hs, fmap_empty.
  - rewrite Hb. split; [done|]. intros side i p. cbn. unfold queue_at. by destruct side.
Qed.

(** The lines a client has sent are its requests. *)
Lemma heard_requests inp reqs c :
  heard inp reqs c →
  reqs `prefix_of` (chomp_cr <$> (lines_of inp).1)
  ∧ (cs_closing c = false → LF ∉ cs_inbuf c →
     reqs = chomp_cr <$> (lines_of inp).1 ∧ cs_inbuf c = (lines_of inp).2).
Proof.
  intros (raws & rest & -> & Hf & -> & Hin). split.
  - rewrite lines_of_prefix by done. cbn [fst]. rewrite fmap_app. by apply prefix_app_r.
  - intros Hcl Hlf. rewrite (Hin Hcl) in *. by rewrite lines_of_messages.
Qed.

End Trace.
