(* ===== verification/ServerLoop.v ===== *)
(** * ServerLoop: input path, accepting and the main loop

    [idle] is the invariant of the main loop: [inv], every input buffer holds
    at most one incomplete line, and no descriptor is waiting to be closed.
    Every pass of the loop returns, keeps it, and [leads] to its final state:
    what it did is a sequence of events of the abstract exchange. *)

From S2P Require Import Prelude CxxString Framing MessageParser OrderBook OrderBookSpec Kernel EventLoop.
From S2P Require Import SocketUtils ClientSession TcpServer ExchangeServer ExchangeSpec ExchangeTrace.
From S2P Require Import ServerInv ServerOutput ServerProtocol ServerTrace.

Section Loop.
Context {OV : Tolerance} `{!Kernel K, !KernelView K, !KernelLaws K}.
Context `{!EventLoopI K L, !EventLoopLaws K L} `{!HashOrder (Server L K), !HashOrderLaws (Server L K)}.

Abbreviation server := (Server L K).
Implicit Types s : server.

(** The order ids may run out. *)
Context (Hov : tolerated).

(** ** Changes that leave the tables alone *)

Lemma inv_kern k s :
  inv s → open_fds k = open_fds (kern s) → inv (set_kern k s).
Proof.
  intros [Hc Hio] Ho. split; [|done]. destruct Hc. split; try done; cbn; by rewrite Ho.
Qed.

Lemma inv_log lg s : inv s → inv (set_log lg s).
Proof. intros [Hc Hio]. split; [|done]. by destruct Hc. Qed.

Lemma evolves_kern k s : receiving (kern s) k → evolves s (set_kern k s).
Proof.
  intros (Ho & Hs & Hw). split; try done; [|cbn; congruence|auto].
  intros fd c Hfd. exists c. split_and!; try done. unfold stream. cbn. by rewrite Hs.
Qed.

Lemma evolves_log lg s : evolves s (set_log lg s).
Proof. split; try done; [|cbn; congruence|auto]. intros fd c Hfd. by exists c. Qed.

Lemma leads_kern k s : quiet (kern s) k → leads s (set_kern k s).
Proof. intros (_ & Hs & _ & Hr). by apply leads_outside. Qed.

Lemma leads_log lg s : leads s (set_log lg s).
Proof. by apply leads_outside. Qed.

(** Input buffers between two reads: no complete line, and not too much. *)
Definition framed_session (c : ClientSession) : Prop :=
  LF ∉ cs_inbuf c ∧ (str_size (cs_inbuf c) ≤ kMaxLineBytes)%Z.

Definition framed_except (X : Z → Prop) (s : server) : Prop :=
  ∀ fd c, ¬ X fd → sessions_ s !! fd = Some c → framed_session c.

Definition framed (s : server) : Prop := framed_except (λ _, False) s.

Lemma framed_weaken X s : framed s → framed_except X s.
Proof. intros Hf fd c _. apply Hf. auto. Qed.

Lemma framed_here fd s :
  framed_except (λ x, x = fd) s → (∀ c, sessions_ s !! fd = Some c → framed_session c) → framed s.
Proof.
  intros Hf Hfd f c _ Hc. destruct (decide (f = fd)) as [->|Hne]; [by apply Hfd|by apply (Hf f)].
Qed.

Lemma framed_delivers X T d s s' : framed_except X s → delivers T d s s' → framed_except X s'.
Proof.
  intros Hf Hd fd c' Hx (c & Hc & [] & _)%(dl_session _ _ _ _ Hd).
  unfold framed_session. rewrite same_inbuf. by apply (Hf fd).
Qed.

Lemma framed_outcome fd q x d s s' :
  framed_except (λ f, f = fd) s → outcome_of fd q x d s s' → framed_except (λ f, f = fd) s'.
Proof.
  intros Hf Ho f c' Hne (c & Hc & _ & _ & _ & Hin)%(oc_session _ _ _ _ _ _ Ho).
  rewrite bool_decide_false, andb_false_r in Hin by done. injection Hin as Hin _.
  unfold framed_session. rewrite Hin. by apply (Hf f).
Qed.

Lemma framed_closing c fd : core_session fd c → cs_closing c = true → framed_session c.
Proof.
  intros Hc Hcl. unfold framed_session. rewrite (core_closing fd c Hc Hcl).
  split; [set_solver|]. unfold str_size, kMaxLineBytes. cbn. lia.
Qed.

(** Replacing the input buffer. *)
Lemma set_inbuf_spec fd c buf s :
  inv s → sessions_ s !! fd = Some c → cs_closing c = false →
  (str_size buf ≤ kMaxLineBytes + kReadChunk)%Z →
  let s1 := set_sessions (<[fd := set_inbuf buf c]> (sessions_ s)) s in
  inv s1 ∧ evolves s s1 ∧ (framed_except (λ f, f = fd) s → framed_except (λ f, f = fd) s1).
Proof.
  intros Hinv Hfd Hcl Hsize s1. pose proof (inv_core s Hinv) as Hc.
  destruct (inv_session s fd c Hinv Hfd) as (Hcs & Hok & Hmir).
  set (c1 := set_inbuf buf c) in *.
  assert (local fd c1 s s1) as Hl by (by apply (local_assign fd c)).
  assert (core_session fd c1) as Hcs1.
  { destruct Hcs. split; try done. cbn. by rewrite Hcl. }
  assert (core s1) as Hc1 by (eapply core_local_tables; [done|done|exact Hl|by split|done]).
  split_and!.
  - eapply (inv_local fd c1 s); [done|by apply inv_io|done| |exact Hmir]. by destruct Hok.
  - by eapply local_evolves.
  - intros Hf f c' Hne. cbn. rewrite lookup_insert_ne by done. by apply Hf.
Qed.

(** ** Framing *)

(** The goal of one round of reading: everything in order again. *)
Definition settled (s s' : server) : Prop := inv s' ∧ evolves s s' ∧ framed s' ∧ leads s s'.

Lemma settled_after s s1 s' : evolves s s1 → leads s s1 → settled s1 s' → settled s s'.
Proof. intros Hev Hl (? & ? & ? & ?). split_and!; [done|by etrans|done|by etrans]. Qed.

Lemma settled_trans s s1 s' : settled s s1 → settled s1 s' → settled s s'.
Proof. intros (_ & ? & _ & ?). by apply settled_after. Qed.

(** After an orderly close has begun, nothing is left to frame. *)
Lemma closed_settled fd s s' :
  inv s' → framed_except (λ f, f = fd) s → outcome_of fd true (view s) nothing s s' → settled s s'.
Proof.
  intros Hinv' Hf Ho. split_and!; [done|apply Ho| |by eapply closing_leads].
  eapply framed_here; [by eapply framed_outcome|].
  intros c Hc. apply (framed_closing c fd); [by apply (core_sessions s' (inv_core s' Hinv'))|].
  apply (oc_session _ _ _ _ _ _ Ho) in Hc as (? & _ & _ & _ & _ & Hin).
  rewrite bool_decide_true in Hin by done. by injection Hin.
Qed.

Lemma oversized_spec fd s :
  inv s → framed_except (λ f, f = fd) s →
  wp (send_to fd (error oversized_text) ;;;
      begin_orderly_close fd (lit "oversized application message") ;;; ret false)
    (λ more s', more = false ∧ settled s s') s.
Proof.
  intros Hinv Hf. wp_step. eapply wp_mono; [apply send_to_spec; [done|]|].
  { apply small_error. unfold oversized_text. solve_length. }
  intros [] s1 [Hinv1 Hd1]. wp_step. eapply wp_mono; [by apply begin_close_spec|].
  intros [] s2 [Hinv2 Ho2]. apply wp_ret. split; [done|].
  destruct (closed_settled fd s1 s2) as (? & Hev2 & Hf2 & _); [done|by eapply framed_delivers|done|].
  split_and!; [done| |done|by eapply refused_leads].
  etrans; [by eapply delivers_evolves|done].
Qed.

(** One line: it leaves the buffer, and the request in it is served. *)
Lemma handle_line_spec fd c n s :
  inv s → framed_except (λ f, f = fd) s → sessions_ s !! fd = Some c → cs_closing c = false →
  find_char LF (cs_inbuf c) = Some n →
  wp (handle_line fd c n)
    (λ _ s', inv s' ∧ evolves s s' ∧ framed_except (λ f, f = fd) s' ∧ leads s s'
       ∧ ∀ c', sessions_ s' !! fd = Some c' →
           framed_session c' ∧ cs_closing c' = true
           ∨ cs_closing c' = false ∧ cs_inbuf c' = drop (S n) (cs_inbuf c)) s.
Proof.
  intros Hinv Hf Hfd Hcl Hfind. unfold handle_line. cbv zeta.
  pose proof (core_inbuf fd c (core_sessions s (inv_core s Hinv) fd c Hfd)) as Hsize.
  apply find_Some in Hfind as (Hsplit & Hraw & Hn). wp_step. apply (wp_assign fd c); [done|].
  set (buf := erase0 (cs_inbuf c) (n + 1)).
  destruct (set_inbuf_spec fd c buf s) as (Hinv1 & Hev1 & Hf1); try done.
  { unfold str_size, buf, erase0 in *. rewrite length_drop. lia. }
  set (s1 := set_sessions _ s) in *. specialize (Hf1 Hf). wp_step. apply wp_gets. wp_step.
  eapply (wp_mono _ (λ _ s2, ∃ lg, s2 = set_log lg s1)).
  { apply wp_when; intros _; [apply wp_print; by eexists|exists (log_ s1); by destruct s1]. }
  intros [] s2 [lg ->].
  assert (sessions_ (set_log lg s1) !! fd = Some (set_inbuf buf c)) as Hfd2 by apply lookup_insert_eq.
  eapply wp_mono; [apply (handle_message_spec fd (set_inbuf buf c)); [by apply inv_log|done| |done]|].
  { unfold str_size in *. pose proof (chomp_cr_length (substr0 (cs_inbuf c) n)) as Hch.
    unfold substr0 in *. rewrite length_take in Hch. lia. }
  intros [] s3 Hserved.
  assert (leads s s3) as Hl3.
  { eapply (request_leads fd c (take n (cs_inbuf c)) buf s (set_log lg s1)); try done.
    unfold buf, erase0. by rewrite Nat.add_1_r. }
  destruct Hserved as (Hinv3 & x' & d & lost & _ & Ho & _). split_and!; [done| | |done|].
  - etrans; [exact Hev1|]. etrans; [apply (evolves_log lg)|apply Ho].
  - refine (framed_outcome _ _ _ _ _ _ _ Ho). exact Hf1.
  - intros c3 Hfd3. destruct (cs_closing c3) eqn:Hcl3.
    { left. split; [|done]. eapply framed_closing; [|done].
      by apply (core_sessions s3 (inv_core s3 Hinv3)). }
    right. split; [done|].
    apply (oc_session _ _ _ _ _ _ Ho) in Hfd3 as (c2 & Hc2 & _ & _ & _ & Hin).
    rewrite Hfd2 in Hc2. injection Hc2 as <-.
    rewrite (bool_decide_true (fd = fd)), andb_true_r in Hin by done.
    destruct (_ && _); injection Hin as Hin Hcl'; [congruence|].
    rewrite Hin. cbn. unfold buf, erase0. f_equal. lia.
Qed.

Lemma settled_gone fd s s' :
  inv s' → evolves s s' → leads s s' → framed_except (λ f, f = fd) s' →
  ¬ is_Some (sessions_ s' !! fd) → settled s s'.
Proof.
  intros ? ? ? ? Hnone. split_and!; [done|done| |done]. eapply framed_here; [done|].
  intros c Hc. destruct Hnone. eauto.
Qed.

Lemma settled_session fd c s s' :
  inv s' → evolves s s' → leads s s' → framed_except (λ f, f = fd) s' →
  sessions_ s' !! fd = Some c → framed_session c → settled s s'.
Proof.
  intros ? ? ? ? Hc Hf. split_and!; [done|done| |done]. eapply framed_here; [done|].
  intros c' Hc'. by simplify_eq.
Qed.

Lemma consume_loop_spec fuel fd s :
  inv s → framed_except (λ f, f = fd) s →
  (∀ c, sessions_ s !! fd = Some c → cs_closing c = false ∧ length (cs_inbuf c) < fuel) →
  0 < fuel → wp (consume_loop fuel fd) (λ _ s', settled s s') s.
Proof.
  revert s. induction fuel as [|fuel IH]; intros s Hinv Hf Hfuel Hpos; [lia|].
  cbn [consume_loop]. wp_step. apply wp_is_session.
  destruct (bool_decide_reflect (is_Some (sessions_ s !! fd))) as [[c Hfd]|Hnone]; cbn [negb].
  2: { apply wp_ret. by eapply settled_gone. }
  destruct (Hfuel c Hfd) as [Hcl Hlen]. wp_step. apply (wp_deref fd c); [done|].
  destruct (find_char LF (cs_inbuf c)) as [n|] eqn:Hfind.
  2: { destruct (Z.ltb_spec kMaxLineBytes (str_size (cs_inbuf c))).
       { eapply wp_mono; [by apply oversized_spec|]. by intros more s' [_ ?]. }
       apply wp_ret. eapply settled_session; [done..|]. split; [by apply find_None|done]. }
  wp_step. eapply wp_mono; [by apply handle_line_spec|].
  intros [] s1 (Hinv1 & Hev1 & Hf1 & Hl1 & Hbuf1). wp_step. apply wp_is_session.
  destruct (bool_decide_reflect (is_Some (sessions_ s1 !! fd))) as [[c1 Hfd1]|Hnone]; cbn [negb].
  2: { apply wp_ret. by eapply settled_gone. }
  wp_step. apply (wp_session_ref fd c1); [done|].
  destruct (Hbuf1 c1 Hfd1) as [[Hfr Hcl1]|[Hcl1 Hin]]; rewrite Hcl1;
    [apply wp_ret; by eapply settled_session|].
  apply find_Some in Hfind as (_ & _ & Hn).
  eapply wp_mono; [apply IH; [done|done| |lia]|intros more s2 ?; by eapply settled_after].
  intros c' Hc'. assert (c' = c1) as -> by congruence. split; [done|].
  rewrite Hin, length_drop. lia.
Qed.

Lemma consume_messages_spec fd c s :
  inv s → framed_except (λ f, f = fd) s → sessions_ s !! fd = Some c → cs_closing c = false →
  wp (consume_messages fd) (λ _ s', settled s s') s.
Proof.
  intros Hinv Hf Hfd Hcl. unfold consume_messages. wp_step. apply wp_get. rewrite Hfd. cbn [fmap option_fmap option_map default].
  apply consume_loop_spec; [done|done| |lia]. intros c' Hc'. simplify_eq. split; [done|]. cbn. lia.
Qed.

(** ** Reading *)

Lemma framed_kern X k s : framed_except X s → framed_except X (set_kern k s).
Proof. done. Qed.

(** Received bytes go to the end of the input buffer and are consumed. *)
Lemma received_spec fd c buf lg s0 s :
  inv s → framed s → sessions_ s !! fd = Some c → cs_closing c = false →
  (str_size buf ≤ kReadChunk)%Z → evolves s0 s →
  let s1 := set_sessions (<[fd := set_inbuf (cs_inbuf c ++ buf) c]> (sessions_ s)) (set_log lg s) in
  leads s0 s1 → wp (consume_messages fd) (λ _ s', settled s0 s' ∧ evolves s s') s1.
Proof.
  intros Hinv Hf Hfd Hcl Hbuf Hev s1 Hl.
  destruct (Hf fd c) as [_ Hsize]; [auto|done|].
  destruct (set_inbuf_spec fd c (cs_inbuf c ++ buf) (set_log lg s)) as (Hinv1 & Hev1 & Hf1);
    [by apply inv_log|done|done| |].
  { unfold str_size in *. rewrite length_app. lia. }
  change (set_sessions _ (set_log lg s)) with s1 in Hinv1, Hev1, Hf1.
  eapply wp_mono; [apply (consume_messages_spec fd (set_inbuf (cs_inbuf c ++ buf) c) s1)|].
  - done.
  - apply Hf1. by apply framed_weaken.
  - apply lookup_insert_eq.
  - done.
  - intros more s2 Hs.
    assert (evolves s s1) as Hev' by (etrans; [apply (evolves_log lg)|done]).
    split; [|etrans; [exact Hev'|apply Hs]]. eapply settled_after; [|exact Hl|exact Hs]. by etrans.
Qed.

Lemma delivers_settled T s s' : framed s → inv s' → delivers T nothing s s' → settled s s'.
Proof.
  intros Hf Hinv Hd. split_and!; [done|by eapply delivers_evolves| |by eapply delivers_leads].
  by eapply (framed_delivers (λ _, False)).
Qed.

(** A receive that brings nothing. *)
Lemma recv_nothing fd cap (k : K) n buf k' :
  sys_recv fd cap k = (n, buf, k') → (n ≤ 0)%Z →
  quiet k k' ∧ ((n < 0)%Z → sys_errno k' = EINTR → sys_work k' < sys_work k).
Proof.
  clear Hov. intros (Hs & Hr & Hr' & _ & Hi)%law_recv Hn. split; [|done].
  rewrite (proj2 (Z.ltb_ge 0 n)), app_nil_r in Hr by done.
  destruct Hs as (? & ? & ?). split_and!; [done..|].
  intros f. destruct (decide (f = fd)) as [->|]; [done|by apply Hr'].
Qed.

Lemma read_loop_spec fuel fd s :
  inv s → framed s → sys_work (kern s) < fuel → wp (read_loop fuel fd) (λ _ s', settled s s') s.
Proof.
  revert s. induction fuel as [|fuel IH]; intros s Hinv Hf Hfuel; [lia|].
  cbn [read_loop]. wp_step. apply wp_is_session.
  destruct (bool_decide_reflect (is_Some (sessions_ s !! fd))) as [[c Hfd]|Hnone]; cbn [negb].
  2: { by apply wp_ret. }
  wp_step. apply (wp_deref fd c); [done|].
  destruct (cs_closing c) eqn:Hcl; [by apply wp_ret|].
  wp_step. apply wp_sys. intros [n buf] k Hrecv. wp_step. apply wp_gets.
  set (s1 := set_kern k s). destruct (Z.ltb_spec 0 n) as [Hn|Hn].
  - apply law_recv in Hrecv as (Hsil & Hrcv & Hrcv' & Hpos & _). destruct (Hpos Hn) as (Hsize & Hcap & Hwork).
    rewrite (proj2 (Z.ltb_lt 0 n)) in Hrcv by done.
    wp_step. apply wp_gets. wp_step. eapply (wp_mono _ (λ _ s2, ∃ lg, s2 = set_log lg s1)).
    { apply wp_when; intros _; [apply wp_print; by eexists|exists (log_ s1); by destruct s1]. }
    intros [] s2 [lg ->]. wp_step. apply (wp_assign fd c); [done|]. wp_step.
    eapply wp_mono; [apply (received_spec fd c buf lg s s1); try done; [|lia|by apply evolves_kern|]|].
    { apply inv_kern; [done|apply Hsil]. }
    { by eapply (received_leads fd c buf k). }
    intros more s3 [Hs3 Hev3]. destruct more; cbn [negb]; [|by apply wp_ret].
    destruct (n <? kReadChunk)%Z; [by apply wp_ret|]. pose proof Hs3 as (Hinv3 & _ & Hf3 & _).
    eapply wp_mono; [apply IH; [done|done|]|intros [] s4 ?; by eapply settled_trans].
    pose proof (evo_work _ _ Hev3) as Hw3. cbn [kern s1 set_kern] in Hw3. lia.
  - apply recv_nothing in Hrecv as [Hquiet Hintr]; [|done].
    assert (inv s1) as Hinv1 by (apply inv_kern; [done|apply Hquiet]).
    assert (settled s s1) as Hs1.
    { split_and!; [done|by apply evolves_kern, quiet_receiving|done|by apply leads_kern]. }
    destruct (Z.eqb_spec n 0).
    { eapply wp_mono; [by apply begin_close_spec|]. intros [] s2 [Hinv2 Ho2].
      eapply settled_trans; [done|]. eapply closed_settled; [done| |done]. by apply framed_weaken. }
    destruct (bool_decide_reflect (sys_errno (kern s1) = EINTR)) as [He|He].
    { eapply wp_mono; [apply IH; [done|done|]|intros [] s4 ?; by eapply settled_trans].
      assert (sys_work k < sys_work (kern s)) by (apply Hintr; [lia|done]). cbn. lia. }
    destruct (would_block _); [by apply wp_ret|].
    eapply wp_mono; [apply (drop_spec fd _ c s1); [by apply inv_core|by apply inv_io|done]|].
    intros [] s2 (Hinv2 & Hd2 & _). eapply settled_trans; [done|]. by eapply delivers_settled.
Qed.

(** ** Accepting *)

(** A batch of events: a session that is there before and after is the same
    connection, because descriptors of dropped sessions stay open. *)
Record grows (s s' : server) : Prop := mkGrows {
  gr_session fd c' : sessions_ s' !! fd = Some c' →
    (∃ c, sessions_ s !! fd = Some c ∧ cs_peer c' = cs_peer c
       ∧ stream s fd c `prefix_of` stream s' fd c')
    ∨ fd ∉ open_fds (kern s);
  gr_dropped fd c : sessions_ s !! fd = Some c → sessions_ s' !! fd = None → fd ∈ closed_fds_ s';
  gr_closed_kept fd : fd ∈ closed_fds_ s → fd ∈ closed_fds_ s';
  gr_open : open_fds (kern s) ⊆ open_fds (kern s');
  gr_lfd : lfd s' = lfd s
}.

#[global] Instance grows_preorder : PreOrder grows.
Proof.
  split.
  - intros s. split; try done; [|congruence]. intros fd c Hfd. left. by exists c.
  - intros s1 s2 s3 H1 H2. split.
    + intros fd c3 [(c2 & Hc2 & Hp & Hs)|Hn]%(gr_session _ _ H2).
      * apply (gr_session _ _ H1) in Hc2 as [(c1 & ? & ? & ?)|?]; [left|by right].
        exists c1. split_and!; [done|congruence|by etrans].
      * right. intros Hin. by apply Hn, (gr_open _ _ H1).
    + intros fd c Hc Hnone. destruct (sessions_ s2 !! fd) as [c2|] eqn:Hc2.
      * by eapply (gr_dropped _ _ H2).
      * eapply (gr_closed_kept _ _ H2), (gr_dropped _ _ H1); done.
    + intros fd Hin. by apply (gr_closed_kept _ _ H2), (gr_closed_kept _ _ H1).
    + etrans; [apply H1|apply H2].
    + etrans; [apply H2|apply H1].
Qed.

Lemma evolves_grows s s' : evolves s s' → grows s s'.
Proof.
  intros []. split; try done.
  - intros fd c' (c & ? & ? & ? & _)%evo_session. left. eauto.
  - by rewrite evo_open.
  - unfold lfd. by rewrite evo_listener.
Qed.

Definition batch_ok (s s' : server) : Prop := inv s' ∧ framed s' ∧ grows s s' ∧ leads s s'.

Lemma batch_after s s1 s' : grows s s1 → leads s s1 → batch_ok s1 s' → batch_ok s s'.
Proof. intros ? ? (? & ? & ? & ?). split_and!; [done|done|by etrans|by etrans]. Qed.

Lemma batch_trans s s1 s' : batch_ok s s1 → batch_ok s1 s' → batch_ok s s'.
Proof. intros (_ & _ & ? & ?). by apply batch_after. Qed.

Lemma batch_refl s : inv s → framed s → batch_ok s s.
Proof. done. Qed.

Lemma settled_batch s s' : settled s s' → batch_ok s s'.
Proof. intros (? & ? & ? & ?). split_and!; [done|done|by apply evolves_grows|done]. Qed.

(** A descriptor that is not in use by the server. *)
Definition unused (fd : Z) (s : server) : Prop :=
  sessions_ s !! fd = None ∧ fd ∉ closed_fds_ s ∧ fd ≠ lfd s.

Lemma closed_unused fd s : inv s → fd ∉ open_fds (kern s) → unused fd s.
Proof.
  intros [Hc _] Hfd. split_and!.
  - destruct (sessions_ s !! fd) as [c|] eqn:Hc'; [|done].
    by apply (core_open_session s Hc) in Hc' as (? & _).
  - intros Hin. by apply (core_open_closed s Hc) in Hin as [? _].
  - intros ->. by apply Hfd, (core_open_listener s Hc).
Qed.

(** Changes that concern only an unused descriptor, or only make more of the
    kernel's state available. *)
Lemma inv_unused fd t l k s :
  inv s → unused fd s → ts_fd t = lfd s → loop_wf l →
  (∀ f, f ≠ fd → loop_interest l f = loop_interest (loop_ s) f) →
  (loop_steady l → loop_steady (loop_ s)) →
  (∀ f, f ≠ fd → f ∈ open_fds (kern s) → f ∈ open_fds k) →
  inv (set_kern k (set_loop l (set_listener t s))).
Proof.
  intros [Hc Hio] (Hns & Hnc & Hnl) Ht Hwf Hint Hst Hopen. destruct Hc. split.
  - split; try done; change (lfd (set_kern k (set_loop l (set_listener t s)))) with (ts_fd t);
      rewrite ?Ht; cbn; try (apply Hopen; done).
    + intros Hl. rewrite Hint by done. auto.
    + intros f Hf. rewrite Hint; [by apply core_closed|congruence].
    + intros f c Hf. destruct (core_open_session f c Hf) as (? & ? & ?).
      split_and!; [apply Hopen; [congruence|done]|done|done].
    + intros f Hf. destruct (core_open_closed f Hf) as (? & ?).
      split; [apply Hopen; [congruence|done]|done].
  - intros f c _ Hf. destruct (Hio f c) as [? Hm]; [auto|done|]. split; [done|].
    intros Hl. cbn. rewrite Hint; [by apply Hm, Hst|]. intros ->. cbn in Hf. congruence.
Qed.

(** A new session. *)
Lemma inv_insert fd peer s :
  inv s → unused fd s → fd ∈ open_fds (kern s) →
  (loop_steady (loop_ s) → loop_interest (loop_ s) fd = Some (true, false)) →
  inv (set_sessions (<[fd := set_peer peer (new_session fd)]> (sessions_ s)) s).
Proof.
  intros [Hc Hio] (Hns & Hnc & Hnl) Hopen Hint. set (c := set_peer peer (new_session fd)).
  assert (∀ f c', <[fd := c]> (sessions_ s) !! f = Some c' ↔
    f = fd ∧ c' = c ∨ f ≠ fd ∧ sessions_ s !! f = Some c') as Hl.
  { intros f c'. rewrite lookup_insert_Some. naive_solver. }
  assert (∀ f c', sessions_ s !! f = Some c' → f ≠ fd) as Hne by (intros f c' ? ->; congruence).
  split.
  - destruct Hc. split; try done; cbn [sessions_ set_sessions].
    + intros f c' [[-> ->]|[_ ?]]%Hl; [|by apply core_sessions]. split; try done; cbn.
      unfold str_size, kMaxLineBytes, kReadChunk. cbn. lia.
    + intros i f. setoid_rewrite Hl. change (subscriber_set _ i) with (subscriber_set s i).
      rewrite core_subs. split; [intros (c' & ? & ?); exists c'; eauto|].
      intros (c' & [[-> ->]|[_ ?]] & ?); [set_solver|eauto].
    + intros u. setoid_rewrite Hl. cbn. rewrite core_names.
      split; [intros (f & c' & ? & ? & ?); exists f, c'; eauto 10|].
      intros (f & c' & [[-> ->]|[_ ?]] & ? & ?); [done|eauto].
    + intros f f' c1 c2 [[-> ->]|[_ ?]]%Hl [[-> ->]|[_ ?]]%Hl ? ?; try done. by apply core_unique.
    + intros q a o (c' & ? & ?)%core_owner. exists c'. rewrite Hl. eauto.
    + intros f c' [[-> ->]|[_ ?]]%Hl; [done|]. by eapply core_open_session.
  - intros f c' _ [[-> ->]|[_ Hf]]%Hl; [|by apply Hio; auto]. split; [|done]. by split.
Qed.

(** Switching the listening socket's read interest together with
    [accept_resume_at_]. *)
Lemma inv_listening r l k s :
  inv s → (0 ≤ r)%Z → loop_wf l → open_fds k = open_fds (kern s) →
  (∀ f, f ≠ lfd s → loop_interest l f = loop_interest (loop_ s) f) →
  (loop_steady l → loop_steady (loop_ s) ∧ loop_interest l (lfd s) = Some (bool_decide (r = 0%Z), false)) →
  inv (set_kern k (set_loop l (set_resume r s))).
Proof.
  intros [Hc Hio] Hr Hwf Ho Hint Hlis. destruct Hc.
  assert (∀ f c, sessions_ s !! f = Some c → f ≠ lfd s) as Hne
    by (intros f c Hf; by apply core_open_session in Hf as (_ & _ & ?)).
  split.
  - split; try done; cbn; rewrite ?Ho; try done; [by intros [_ ?]%Hlis|].
    intros f Hf. rewrite Hint; [by apply core_closed|]. by apply core_open_closed in Hf as [_ ?].
  - intros f c _ Hf. destruct (Hio f c) as [? Hm]; [auto|done|]. split; [done|].
    intros Hl. cbn. rewrite Hint by (by eapply Hne). by apply Hm, Hlis.
Qed.

Lemma grows_resume r k l s :
  quiet (kern s) k → grows s (set_kern k (set_loop l (set_resume r s))).
Proof.
  intros (Ho & Hs & _). split; try done; [|cbn; congruence|cbn; by rewrite Ho].
  intros fd c Hfd. left. exists c. unfold stream. cbn. by rewrite Hs.
Qed.

Lemma leads_resume r k l s :
  quiet (kern s) k → leads s (set_kern k (set_loop l (set_resume r s))).
Proof. intros (_ & Hs & _ & Hr). by apply leads_outside. Qed.

Lemma grows_log lg s : grows s (set_log lg s).
Proof. apply evolves_grows, evolves_log. Qed.

(** When accepting will go on once it is suspended, and the deadline after a
    test of whether it has come. *)
Definition paused_until (s : server) : Z :=
  if decide (accept_resume_at_ s = 0%Z) then (monotonic_seconds (kern s)).1 + kAcceptBackoff
  else accept_resume_at_ s.

Definition still_paused_until (s : server) : Z :=
  if ((monotonic_seconds (kern s)).1 <? accept_resume_at_ s)%Z then accept_resume_at_ s else 0.

(** Once accepting is suspended the listening socket is not watched. *)
Lemma pause_accepting_spec s :
  inv s → framed s →
  wp pause_accepting (λ _ s', batch_ok s s' ∧ accept_resume_at_ s' = paused_until s
    ∧ (loop_steady (loop_ s') → loop_interest (loop_ s') (lfd s') = Some (false, false))) s.
Proof.
  clear Hov.
  intros Hinv Hf. pose proof (inv_core s Hinv) as Hc. unfold pause_accepting.
  wp_step. apply wp_get. destruct (Z.eqb_spec (accept_resume_at_ s) 0) as [Hr|Hr]; cbn [negb].
  2: { apply wp_ret. split_and!; [by apply batch_refl|unfold paused_until; by rewrite decide_False|]. intros Hst. rewrite (core_listener s Hc Hst).
       by rewrite bool_decide_false. }
  wp_step. apply wp_sys. intros now k Hclock.
  pose proof (law_clock (kern s)) as [Hquiet Hnow]. rewrite Hclock in Hquiet, Hnow. cbn in *.
  wp_step. apply wp_modify. wp_step. apply wp_update; [apply Hc|].
  intros ok l k' Hwf Hquiet' Hother Hint. wp_step. apply wp_get. apply wp_eprint.
  assert (quiet (kern s) k') as Hq by (by etrans).
  set (s1 := set_kern k' (set_loop l (set_resume (now + kAcceptBackoff) s))).
  assert (now + kAcceptBackoff ≠ 0)%Z as Hne by (unfold kAcceptBackoff; lia).
  assert (inv s1) as Hinv1.
  { apply inv_listening; [done|unfold kAcceptBackoff; lia|done|apply Hq|done|].
    by rewrite bool_decide_false. }
  split_and!; [|unfold paused_until; by rewrite decide_True, Hclock|by intros [_ ?]%Hint]. split_and!; [by apply (inv_log _ s1)|done| |].
  - etrans; [exact (grows_resume (now + kAcceptBackoff) k' l s Hq)|]. apply (grows_log _ s1).
  - etrans; [exact (leads_resume (now + kAcceptBackoff) k' l s Hq)|]. apply (leads_log _ s1).
Qed.

Lemma resume_accepting_spec s :
  inv s → framed s →
  wp resume_accepting_if_due (λ _ s', batch_ok s s'
    ∧ (accept_resume_at_ s ≠ 0%Z → accept_resume_at_ s' = still_paused_until s)) s.
Proof.
  clear Hov.
  intros Hinv Hf. pose proof (inv_core s Hinv) as Hc. unfold resume_accepting_if_due.
  wp_step. apply wp_get. destruct (Z.eqb_spec (accept_resume_at_ s) 0) as [Hr|Hr];
    [apply wp_ret; split; [by apply batch_refl|done]|].
  wp_step. apply wp_sys. intros now k Hclock.
  pose proof (law_clock (kern s)) as [Hquiet _]. rewrite Hclock in Hquiet. cbn in Hquiet.
  unfold still_paused_until. rewrite Hclock. cbn [fst].
  destruct (now <? accept_resume_at_ s)%Z.
  { apply wp_ret. split; [|done]. split_and!; [apply inv_kern; [done|apply Hquiet]|done| |by apply leads_kern].
    by apply evolves_grows, evolves_kern, quiet_receiving. }
  wp_step. apply wp_modify. wp_step. apply wp_update; [apply Hc|].
  intros ok l k' Hwf Hquiet' Hother Hint. apply wp_ret.
  assert (quiet (kern s) k') as Hq by (by etrans).
  split; [|done]. split_and!; [|done|exact (grows_resume 0 k' l s Hq)|exact (leads_resume 0 k' l s Hq)].
  apply (inv_listening 0 l k' s); [done|lia|done|apply Hq|done|]. by rewrite bool_decide_true.
Qed.

Lemma grows_quiet k s : quiet (kern s) k → grows s (set_kern k s).
Proof. intros Hq. by apply evolves_grows, evolves_kern, quiet_receiving. Qed.

(** [s'] has one more session than [s]. *)
Lemma grows_insert fd c l k s0 s :
  grows s0 s → fd ∉ open_fds (kern s0) → quiet (kern s) k →
  grows s0 (set_kern k (set_loop l (set_sessions (<[fd := c]> (sessions_ s)) s))).
Proof.
  intros [] Hfd (Ho & Hs & _). split; try done; cbn [sessions_ kern set_kern set_loop set_sessions].
  - intros f c'. rewrite lookup_insert. case_decide as Hd; [subst; by right|].
    intros Hf. apply gr_session0 in Hf as [(c0 & ? & ? & Hst)|?]; [left|by right].
    exists c0. split_and!; try done. unfold stream in *. cbn. by rewrite Hs.
  - intros f c' Hf. rewrite lookup_insert_None. naive_solver.
  - by rewrite Ho.
Qed.

(** A descriptor that accept() has just returned: [s0] is the state before. *)
Record fresh_client (fd : Z) (s0 s : server) : Prop := mkFreshClient {
  fc_unused : unused fd s;
  fc_open : fd ∈ open_fds (kern s);
  fc_new : fd ∉ open_fds (kern s0);
  fc_sent : sent (kern s) fd = [];
  fc_received : received (kern s) fd = [];
  fc_grows : grows s0 s;
  fc_leads : leads s0 s
}.

(** The new session is registered. *)
Lemma admitted_ok fd peer l k s0 s :
  inv s → framed s → fresh_client fd s0 s → loop_wf l → quiet (kern s) k →
  (∀ f, f ≠ fd → loop_interest l f = loop_interest (loop_ s) f) →
  (loop_steady l → loop_steady (loop_ s)) → loop_interest l fd = Some (true, false) →
  batch_ok s0 (set_kern k (set_loop l
    (set_sessions (<[fd := set_peer peer (new_session fd)]> (sessions_ s)) s))).
Proof.
  clear Hov. intros Hinv Hf [Hun Hop Hnew Hs0 Hr0 Hgr Hl] Hwf Hq Hother Hst Hint. set (c := set_peer peer (new_session fd)).
  pose proof Hq as (Ho & Hs & _ & Hr). set (s2 := set_kern k (set_loop l s)).
  assert (inv s2) as Hinv2.
  { apply (inv_unused fd (listener_ s) l k s); try done. intros f _. by rewrite Ho. }
  split_and!.
  - apply (inv_insert fd peer s2); [done|done|cbn; by rewrite Ho|done].
  - intros f c' _. cbn. rewrite lookup_insert. case_decide; [intros [= <-]|by apply Hf; auto].
    split; [set_solver|]. unfold str_size, kMaxLineBytes. cbn. lia.
  - by apply (grows_insert fd c l k s0 s).
  - etrans; [exact Hl|]. apply (arrived_leads fd c); try done; cbn.
    + apply Hun.
    + by rewrite Hs.
    + by rewrite Hr.
Qed.

(** It could not be registered: the descriptor is closed again. *)
Lemma turned_away_ok fd l k s0 s :
  inv s → framed s → fresh_client fd s0 s → loop_wf l → quiet (kern s) k →
  (∀ f, f ≠ fd → loop_interest l f = loop_interest (loop_ s) f) →
  (loop_steady l → loop_steady (loop_ s)) →
  batch_ok s0 (set_kern (sys_close fd k) (set_loop l s)).
Proof.
  clear Hov. intros Hinv Hf [Hun Hop Hnew _ _ Hgr Hl] Hwf (Ho & Hs & _ & Hr) Hother Hsteady.
  destruct (law_close fd k) as (Ho2 & Hs2 & Hr2 & _). split_and!; [|done| |].
  - apply (inv_unused fd (listener_ s) l _ s); try done.
    intros f Hne. rewrite Ho2, Ho. set_solver.
  - destruct Hgr. split; try done; cbn; [|rewrite Ho2, Ho; set_solver].
    intros f c' Hf'. apply gr_session0 in Hf' as [(c0 & ? & ? & Hst)|?]; [left|by right].
    exists c0. split_and!; try done. unfold stream in *. cbn. by rewrite Hs2, Hs.
  - etrans; [exact Hl|]. apply leads_outside; try done. intros f c _. cbn.
    by rewrite Hs2, Hs, Hr2, Hr.
Qed.

Lemma batch_log lg s s' : batch_ok s s' → batch_ok s (set_log lg s').
Proof.
  intros (? & ? & ? & ?).
  split_and!; [by apply inv_log|done|etrans; [done|apply grows_log]|etrans; [done|apply leads_log]].
Qed.

Lemma admit_client_spec fd peer s0 s :
  inv s → framed s → fresh_client fd s0 s →
  wp (admit_client fd peer)
    (λ _ s', batch_ok s0 s' ∧ sys_work (kern s') ≤ sys_work (kern s)
      ∧ accept_resume_at_ s' = accept_resume_at_ s) s.
Proof.
  clear Hov. intros Hinv Hf Hfresh. unfold admit_client. wp_step. apply wp_gets. wp_step.
  eapply (wp_mono _ (λ _ s1, ∃ k, quiet (kern s) k ∧ s1 = set_kern k s)).
  { apply wp_when; intros _; [|exists (kern s); split; [done|by destruct s]].
    wp_step. apply wp_sys. intros n k Hset. apply wp_ret. exists k. split; [|done].
    pose proof (set_send_buffer_quiet fd (send_buffer_bytes_ s) (kern s)) as Hq.
    by rewrite Hset in Hq. }
  intros [] s1 (k & Hq & ->). cbv zeta. wp_step. apply wp_modify.
  destruct (fc_unused _ _ _ Hfresh) as (Hns & Hnc & Hnl).
  cbn [sessions_ set_kern]. rewrite Hns. cbn [set_sessions sessions_].
  set (c := set_peer peer (new_session fd)). wp_step.
  destruct (law_loop_add (loop_ s) fd true false k (core_loop s (inv_core s Hinv)))
    as (ok & l & k' & Hadd & Hwf & Hq' & Hother & Hok & Hst).
  eapply wp_done; [unfold lift_add; cbn; by rewrite Hadd|]. cbv beta.
  assert (quiet (kern s) k') as Hqk by (by etrans). pose proof Hqk as (_ & _ & Hw & _).
  destruct ok; cbn [negb].
  - wp_step. apply (wp_session_ref fd c); [apply lookup_insert_eq|].
    wp_step. apply wp_gets. apply wp_log_connection_count. intros lg. split; [|by split; [exact Hw|]].
    apply (batch_log lg s0 (set_kern k' (set_loop l (set_sessions (<[fd := c]> (sessions_ s)) s)))).
    apply admitted_ok; auto; apply Hst.
  - wp_step. apply wp_modify. cbn [sessions_ set_kern set_loop set_sessions].
    rewrite delete_insert_id by done. unfold close_fd. apply wp_sys. intros [] k2 [= <-].
    destruct (law_close fd k') as (_ & _ & _ & Hw2). split; [|split; [cbn; lia|done]].
    exact (turned_away_ok fd l k' s0 s Hinv Hf Hfresh Hwf Hqk Hother (proj1 Hst)).
Qed.

(** The answer of accept() is recorded in the listener; nobody else is
    concerned. *)
Lemma accepted_ok a t k s :
  inv s → accept_connection (listener_ s) (kern s) = (a, t, k) →
  let s1 := set_kern k (set_listener t s) in
  inv s1 ∧ grows s s1 ∧ leads s s1 ∧ lfd s1 = lfd s
  ∧ ((0 ≤ ac_fd a)%Z → fresh_client (ac_fd a) s s1 ∧ sys_work k < sys_work (kern s)).
Proof.
  clear Hov. intros Hinv (Hlfd & Hsent & Hcase)%accept_connection_spec s1.
  assert (open_fds (kern s) ⊆ open_fds k) as Hsub
    by (destruct Hcase as [(_ & -> & _)|(_ & _ & -> & _)]; set_solver).
  assert (∀ f c, sessions_ s !! f = Some c →
    sent k f = sent (kern s) f ∧ received k f = received (kern s) f) as Hsame.
  { intros f c Hfc. apply Hsent. by apply (core_open_session s (inv_core s Hinv)) in Hfc as (? & _). }
  assert (grows s s1) as Hgr1.
  { split; try done; [|cbn; congruence]. intros f c Hfc. left. exists c. split_and!; [done|done|].
    unfold stream. cbn. by destruct (Hsame f c Hfc) as [-> _]. }
  assert (leads s s1) as Hl1 by (by apply leads_outside).
  split_and!; [|done|done|exact Hlfd|].
  - destruct Hinv as [Hc Hio]. split; [|done]. destruct Hc.
    split; try done; change (lfd s1) with (ts_fd t); rewrite ?Hlfd; try done; cbn; [..|by apply Hsub].
    + intros f c Hfc. destruct (core_open_session f c Hfc) as (? & ? & ?). split_and!; auto.
    + intros f Hfc. destruct (core_open_closed f Hfc) as (? & ?). split; auto.
  - destruct Hcase as [(Hneg & _)|(_ & Hfresh & Hopen & Hwork & Hs & Hr)]; [lia|]. intros _.
    destruct (closed_unused (ac_fd a) s Hinv Hfresh) as (? & ? & ?). split; [|done].
    split; try done; [|cbn; rewrite Hopen; set_solver].
    split_and!; try done. change (lfd s1) with (ts_fd t). by rewrite Hlfd.
Qed.

(** One more client is admitted. *)
Definition admits (s s' : server) : Prop :=
  ∃ a t k, accept_connection (listener_ s) (kern s) = (a, t, k) ∧ (0 ≤ ac_fd a)%Z
    ∧ admit_client (ac_fd a) (ac_peer a) (set_kern k (set_listener t s)) = Done (tt, s').

(** The last call of accept(2), made in [s1]: accepting is suspended in [s']
    if it failed for lack of resources, and as before otherwise. *)
Definition accept_ended (s1 s' : server) : Prop :=
  let '(n, _, k) := sys_accept (lfd s1) (kern s1) in
  if decide ((n < 0)%Z ∧ resource_limit (sys_errno k))
  then accept_resume_at_ s' = paused_until (set_kern k s1)
       ∧ (loop_steady (loop_ s') → loop_interest (loop_ s') (lfd s') = Some (false, false))
  else accept_resume_at_ s' = accept_resume_at_ s1.

Lemma accept_loop_spec fuel s :
  inv s → framed s → sys_work (kern s) < fuel →
  wp (accept_loop fuel)
    (λ _ s', batch_ok s s' ∧ ∃ s1, rtc admits s s1 ∧ lfd s1 = lfd s
                 ∧ accept_resume_at_ s1 = accept_resume_at_ s ∧ accept_ended s1 s') s.
Proof.
  clear Hov. revert s. induction fuel as [|fuel IH]; intros s Hinv Hf Hfuel; [lia|].
  cbn [accept_loop]. wp_step.
  destruct (accept_connection (listener_ s) (kern s)) as [[a t] k] eqn:Hacc.
  eapply wp_done; [unfold lift_accept; by rewrite Hacc|]. cbv beta.
  pose proof (accept_connection_exhausted _ _ _ _ _ Hacc) as Hex.
  pose proof Hacc as (Hinv1 & Hgr1 & Hl1 & Hlfd & Hnew)%accepted_ok; [|done].
  set (s1 := set_kern k (set_listener t s)) in *.
  assert (batch_ok s s1) as Hb1 by done.
  assert (ac_exhausted a = false → ∀ s', accept_resume_at_ s' = accept_resume_at_ s → accept_ended s s') as Hend.
  { intros Hno s' Hs'. unfold accept_ended, lfd. destruct (sys_accept (ts_fd (listener_ s)) (kern s)) as [[n addr] k1].
    rewrite decide_False; [done|]. rewrite <-(proj1 Hex). by rewrite Hno. }
  destruct (Z.ltb_spec (ac_fd a) 0) as [Hneg|Hpos].
  - destruct (ac_exhausted a) eqn:He.
    { assert (ac_again a = false) as ->
        by (destruct (sys_accept _ _) as [[??]?]; by apply Hex).
      eapply wp_mono; [by apply pause_accepting_spec|]. intros [] s2 (Hb2 & Hr2 & Hi2).
      split; [by eapply batch_trans|]. exists s. split_and!; [done..|].
      unfold accept_ended, lfd at 1. destruct (sys_accept (ts_fd (listener_ s)) (kern s)) as [[n addr] k1].
      rewrite decide_True by (by apply Hex). destruct Hex as [_ (_ & _ & <-)]; done. }
    destruct (ac_again a); [apply wp_ret; split; [done|]; exists s; split_and!; [done..|by apply Hend]|].
    wp_step. apply wp_gets. apply wp_when; intros _; [apply wp_eprint|];
      (split; [try apply batch_log; done|]); exists s; (split_and!; [done..|by apply Hend]).
  - destruct (Hnew Hpos) as [Hfresh Hwork]. wp_step.
    eapply wp_mono_done; [by apply (admit_client_spec _ _ s s1)|].
    intros [] s2 Hrun2 (Hb2 & Hw2 & Hr2). pose proof Hb2 as (Hinv2 & Hf2 & Hgr2 & _). cbn [kern s1 set_kern] in Hw2.
    eapply wp_mono; [apply IH; [done|done|lia]|]. intros [] s3 (Hb3 & s4 & Hadm & Hl4 & Hr4 & Hend4).
    split; [by eapply batch_trans|]. exists s4. split_and!; [|by rewrite Hl4, (gr_lfd _ _ Hgr2)|by rewrite Hr4, Hr2|done].
    eapply rtc_l; [|exact Hadm]. by exists a, t, k.
Qed.

Lemma accept_pending_spec s :
  inv s → framed s →
  wp accept_pending
    (λ _ s', batch_ok s s' ∧ ∃ s1, rtc admits s s1 ∧ lfd s1 = lfd s
                 ∧ accept_resume_at_ s1 = accept_resume_at_ s ∧ accept_ended s1 s') s.
Proof.
  clear Hov. intros Hinv Hf. unfold accept_pending. wp_step. apply wp_gets. apply accept_loop_spec; [done|done|lia].
Qed.

Lemma on_readable_spec fd s :
  inv s → framed s → wp (on_readable fd) (λ _ s', settled s s') s.
Proof.
  intros Hinv Hf. unfold on_readable. wp_step. apply wp_gets. apply read_loop_spec; [done|done|lia].
Qed.

(** ** Events *)

Lemma settled_refl s : inv s → framed s → settled s s.
Proof. done. Qed.

(** The part of [handle_event] that concerns a client. *)
Lemma client_event_spec (b : bool) (m : M server unit) s :
  inv s → framed s → (∀ s1, inv s1 → framed s1 → wp m (λ _ s', settled s1 s') s1) →
  wp (when b m) (λ _ s', settled s s') s.
Proof. intros Hinv Hf Hm. by apply wp_when; intros _; [apply Hm|apply settled_refl]. Qed.

Lemma drop_settled fd reason s :
  inv s → framed s → wp (drop_session fd reason) (λ _ s', settled s s') s.
Proof.
  intros Hinv Hf. destruct (sessions_ s !! fd) as [c|] eqn:Hfd; [|by apply drop_absent].
  eapply wp_mono; [apply (drop_spec fd _ c s); [by apply inv_core|by apply inv_io|done]|].
  intros [] s' (? & ? & _). by eapply delivers_settled.
Qed.

Lemma handle_event_spec e s :
  inv s → framed s → wp (handle_event e) (λ _ s', batch_ok s s') s.
Proof.
  intros Hinv Hf. unfold handle_event. wp_step. apply wp_gets.
  destruct (ev_fd e =? _)%Z; [eapply wp_mono; [by apply accept_pending_spec|]; by intros ?? [? _]|].
  wp_step. apply wp_is_session. destruct (negb _); [by apply wp_ret|].
  wp_step. eapply wp_mono.
  { apply client_event_spec; [done|done|]. intros s1 ? ?.
    eapply wp_mono; [by apply on_writable_spec|]. intros [] s' [? ?]. by eapply delivers_settled. }
  intros [] s1 Hs1. pose proof Hs1 as (Hinv1 & Hev1 & Hf1 & _).
  wp_step. apply wp_is_session. destruct (negb _); [apply wp_ret; by apply settled_batch|].
  wp_step. eapply wp_mono.
  { apply client_event_spec; [done|done|]. intros s2 ? ?. by apply on_readable_spec. }
  intros [] s2 Hs2. pose proof Hs2 as (Hinv2 & Hev2 & Hf2 & _).
  assert (settled s s2) as Hs by (by eapply settled_trans).
  wp_step. apply wp_is_session. destruct (negb _); [apply wp_ret; by apply settled_batch|].
  eapply wp_mono; [apply client_event_spec; [done|done|]; intros s3 ? ?; by apply drop_settled|].
  intros [] s3 Hs3. apply settled_batch. by eapply settled_trans.
Qed.

Lemma batch_kern k s : inv s → framed s → quiet (kern s) k → batch_ok s (set_kern k s).
Proof.
  clear Hov. intros Hinv Hf Hq.
  split_and!; [apply inv_kern; [done|apply Hq]|done|by apply grows_quiet|by apply leads_kern].
Qed.

Lemma handle_events_spec es s :
  inv s → framed s → wp (handle_events es) (λ _ s', batch_ok s s') s.
Proof.
  revert s. induction es as [|e es IH]; intros s Hinv Hf; [by apply wp_ret|].
  cbn [handle_events]. wp_step. apply wp_sys. intros stop k Hstop.
  pose proof (law_stopped (kern s)) as Hq. rewrite Hstop in Hq. cbn in Hq.
  pose proof (batch_kern k s Hinv Hf Hq) as Hb.
  destruct stop; [by apply wp_ret|]. pose proof Hb as (Hinv1 & Hf1 & _).
  wp_step. eapply wp_mono; [by apply handle_event_spec|]. intros [] s2 Hb2.
  pose proof Hb2 as (Hinv2 & Hf2 & _).
  eapply wp_mono; [by apply IH|]. intros [] s3 ?. eapply batch_trans; [done|]. by eapply batch_trans.
Qed.

(** ** Closing descriptors *)

Lemma close_all fds s :
  wp (for_each fds close_fd)
    (λ _ s', ∃ k, s' = set_kern k s ∧ open_fds k = open_fds (kern s) ∖ list_to_set fds
       ∧ ∀ fd, sent k fd = sent (kern s) fd ∧ received k fd = received (kern s) fd) s.
Proof.
  clear Hov.
  revert s. induction fds as [|fd fds IH]; intros s.
  { apply wp_ret. exists (kern s). split_and!; [by destruct s|set_solver|done]. }
  cbn [for_each]. wp_step. unfold close_fd at 1. apply wp_sys. intros [] k [= <-].
  destruct (law_close fd (kern s)) as (Ho & Hs & Hr & _).
  eapply wp_mono; [apply IH|]. intros [] s' (k & -> & Ho' & Hs'). exists k.
  split_and!; [done| |].
  - rewrite Ho'. cbn. rewrite Ho. set_solver.
  - intros f. destruct (Hs' f) as [-> ->]. by rewrite <-Hs, <-Hr.
Qed.

(** The invariant of the main loop. *)
Definition idle (s : server) : Prop := inv s ∧ framed s ∧ closed_fds_ s = [].

Lemma reap_closed_spec s :
  inv s → framed s →
  wp reap_closed (λ _ s', idle s' ∧ sessions_ s' = sessions_ s ∧ leads s s'
    ∧ open_fds (kern s') = open_fds (kern s) ∖ list_to_set (closed_fds_ s)) s.
Proof.
  clear Hov.
  intros [Hc Hio] Hf. unfold reap_closed. wp_step. apply wp_get. wp_step.
  eapply wp_mono; [apply close_all|]. intros [] s1 (k & -> & Ho & Hs). apply wp_modify.
  split_and!; [|done|by apply leads_outside|done]. split_and!; [|done|done]. split; [|done].
  destruct Hc. split; try done; cbn.
  - by intros fd Hin%elem_of_nil.
  - constructor.
  - intros fd c Hfd. destruct (core_open_session fd c Hfd) as (? & ? & ?). rewrite Ho.
    split_and!; [|by apply not_elem_of_nil|done].
    apply elem_of_difference. by rewrite elem_of_list_to_set.
  - by intros fd Hin%elem_of_nil.
  - rewrite Ho. apply elem_of_difference. split; [done|].
    rewrite elem_of_list_to_set. intros Hin. by apply core_open_closed in Hin as [_ ?].
Qed.

Lemma idle_log lg s : idle s → idle (set_log lg s).
Proof. intros (? & ? & ?). split_and!; [by apply inv_log|done|done]. Qed.

Lemma idle_kern k s : idle s → open_fds k = open_fds (kern s) → idle (set_kern k s).
Proof. intros (? & ? & ?) Ho. split_and!; [by apply inv_kern|done|done]. Qed.

(** Waiting for events. *)
Lemma waited_ok l k s :
  idle s → loop_wf l → (∀ fd, loop_interest l fd = loop_interest (loop_ s) fd) →
  (loop_steady l → loop_steady (loop_ s)) →
  open_fds k = open_fds (kern s) →
  (∀ fd, sent k fd = sent (kern s) fd ∧ received k fd = received (kern s) fd) →
  idle (set_kern k (set_loop l s)) ∧ leads s (set_kern k (set_loop l s)).
Proof.
  clear Hov. intros (Hinv & Hf & Hcl) Hwf Hint Hst Ho Hs. split; [|by apply leads_outside].
  split_and!; [|done|done]. destruct Hinv as [Hc Hio]. destruct Hc. split.
  - split; try done; cbn; rewrite ?Ho; try done.
    + change (lfd (set_kern k (set_loop l s))) with (lfd s). intros Hl. rewrite Hint. auto.
    + intros f ?. rewrite Hint. by apply core_closed.
  - intros f c ? Hfc. destruct (Hio f c) as [? Hm]; [done..|]. split; [done|].
    intros Hl. cbn. rewrite Hint. by apply Hm, Hst.
Qed.

(** A pass leaves the server idle, and what it did is a continuation of the
    history. *)
Lemma iteration_leads s : idle s → wp iteration (λ _ s', idle s' ∧ leads s s') s.
Proof.
  intros Hidle. unfold iteration. wp_step. apply wp_sys. intros stop k Hstop.
  pose proof (law_stopped (kern s)) as Hq. rewrite Hstop in Hq. cbn in Hq.
  assert (idle (set_kern k s)) as Hidle1 by (apply idle_kern; [done|apply Hq]).
  pose proof (leads_kern k s Hq) as Hl1.
  destruct stop; [by apply wp_ret|]. wp_step.
  destruct (law_loop_wait (loop_ s) 1000 k (core_loop _ (inv_core _ (proj1 Hidle1))))
    as (n & evs & l & k2 & Hwait & Hwf & Hint & Ho & Hs & Hst).
  eapply wp_done; [unfold lift_wait; cbn; by rewrite Hwait|]. cbv beta iota.
  destruct (waited_ok l k2 (set_kern k s)) as [Hidle2 Hl2]; try done; [apply Hst|].
  set (s2 := set_kern k2 (set_loop l (set_kern k s))) in *.
  assert (leads s s2) as Hl by (by etrans). pose proof Hidle2 as (Hinv2 & Hf2 & _).
  wp_step. apply wp_gets. destruct (n <? 0)%Z.
  { destruct (bool_decide _); [by apply wp_ret|]. wp_step. apply wp_eprint. apply wp_ret.
    split; [by apply idle_log|]. etrans; [done|apply leads_log]. }
  wp_step. eapply wp_mono; [by apply resume_accepting_spec|]. intros [] s3 [(Hinv3 & Hf3 & _ & Hl3) _].
  wp_step. eapply wp_mono; [by apply handle_events_spec|]. intros [] s4 (Hinv4 & Hf4 & _ & Hl4).
  wp_step. eapply wp_mono; [by apply reap_closed_spec|]. intros [] s5 (? & _ & Hl5 & _). apply wp_ret.
  split; [done|]. etrans; [exact Hl|]. etrans; [exact Hl3|]. by etrans.
Qed.

Lemma iteration_spec s : idle s → wp iteration (λ _ s', idle s') s.
Proof. intros Hs. eapply wp_mono; [by apply iteration_leads|]. by intros go s' [? _]. Qed.

Lemma shutdown_each fds s :
  wp (for_each fds (λ fd, sys (λ k, (tt, sys_shutdown fd SHUT_RDWR k)) ;;; close_fd fd))
    (λ _ s', ∃ k, s' = set_kern k s ∧ open_fds k = open_fds (kern s) ∖ list_to_set fds) s.
Proof.
  clear Hov.
  revert s. induction fds as [|fd fds IH]; intros s.
  { apply wp_ret. exists (kern s). split; [by destruct s|set_solver]. }
  cbn [for_each]. wp_step. wp_step. apply wp_sys. intros [] k [= <-].
  unfold close_fd at 1. apply wp_sys. intros [] k [= <-]. cbn [kern set_kern].
  destruct (law_shutdown fd SHUT_RDWR (kern s)) as (Ho1 & _).
  destruct (law_close fd (sys_shutdown fd SHUT_RDWR (kern s))) as (Ho2 & _).
  eapply wp_mono; [apply IH|]. intros [] s' (k & -> & Ho). exists k. split; [done|].
  rewrite Ho. cbn. rewrite Ho2, Ho1. set_solver.
Qed.

Lemma shutdown_all_spec s :
  wp shutdown_all (λ _ s', sessions_ s' = ∅ ∧ closed_fds_ s' = []
    ∧ open_fds (kern s') = open_fds (kern s) ∖ dom (sessions_ s) ∖ list_to_set (closed_fds_ s)) s.
Proof.
  clear Hov.
  unfold shutdown_all. wp_step. apply wp_get. wp_step. apply wp_print. wp_step.
  eapply wp_mono; [apply shutdown_each|]. intros [] s1 (k & -> & Ho). wp_step. apply wp_modify.
  unfold reap_closed. wp_step. apply wp_get. wp_step. eapply wp_mono; [apply close_all|].
  intros [] s2 (k2 & -> & Ho2 & _). apply wp_modify. split_and!; [done|done|]. cbn.
  rewrite Ho2. cbn. rewrite Ho. cbn.
  assert (list_to_set (fd_order s (dom (sessions_ s))) = (dom (sessions_ s) : gset Z)) as ->; [|done].
  rewrite fd_order_perm. apply list_to_set_elements_L.
Qed.

End Loop.
