(* ===== verification/ServerFraming.v ===== *)
(** * ServerFraming: which messages the server acts upon

    [consume_messages] hands the complete lines of the input buffer to
    [handle_message] exactly once and in order, as long as the client stays;
    the incomplete rest stays in the buffer. *)

From S2P Require Import Prelude CxxString Framing MessageParser OrderBook OrderBookSpec Kernel EventLoop.
From S2P Require Import SocketUtils ClientSession TcpServer ExchangeServer ExchangeSpec ServerInv ServerOutput.
From S2P Require Import ServerProtocol ServerLoop.

Section Framing.
Context {OV : Tolerance} `{!Kernel K, !KernelView K, !KernelLaws K}.
Context `{!EventLoopI K L, !EventLoopLaws K L} `{!HashOrder (Server L K), !HashOrderLaws (Server L K)}.

Abbreviation server := (Server L K).
Implicit Types s : server.

(** The order ids may run out. *)
Context (Hov : tolerated).

(** [handles fd s ls s']: from [s] the server takes the lines [ls] out of the
    buffer of [fd], one at a time, and handles each. *)
Inductive handles (fd : Z) : server → list bytes → server → Prop :=
| handles_nil s : handles fd s [] s
| handles_cons s c n s1 ls s2 :
    sessions_ s !! fd = Some c → cs_closing c = false →
    find_char LF (cs_inbuf c) = Some n →
    handle_line fd c n s = Done (tt, s1) → handles fd s1 ls s2 →
    handles fd s (chomp_cr (take n (cs_inbuf c)) :: ls) s2.

(** The messages in a buffer. *)
Definition messages_in (buffer : bytes) : list bytes := chomp_cr <$> (lines_of buffer).1.

Definition consumed (fd : Z) (c : ClientSession) (s : server) (more : bool) (s' : server) : Prop :=
  ∃ ls s1, handles fd s ls s1 ∧ ls `prefix_of` messages_in (cs_inbuf c)
    ∧ (more = true → s' = s1)
    ∧ ∀ c1, sessions_ s1 !! fd = Some c1 → cs_closing c1 = false →
        ls = messages_in (cs_inbuf c) ∧ cs_inbuf c1 = (lines_of (cs_inbuf c)).2
        ∧ more = (str_size (cs_inbuf c1) <=? kMaxLineBytes)%Z.

Lemma consumed_stopped fd c s s1 more line rest :
  handles fd s [line] s1 → messages_in (cs_inbuf c) = line :: rest →
  (∀ c1, sessions_ s1 !! fd = Some c1 → cs_closing c1 = true) → consumed fd c s more s1.
Proof.
  intros Hh Hm Hc1. exists [line], s1. split_and!; [done| |done|].
  - rewrite Hm. by exists rest.
  - intros c1 Hfd Hcl. rewrite (Hc1 c1 Hfd) in Hcl. done.
Qed.

Lemma messages_in_found buffer n :
  find_char LF buffer = Some n →
  messages_in buffer = chomp_cr (take n buffer) :: messages_in (drop (S n) buffer)
  ∧ (lines_of buffer).2 = (lines_of (drop (S n) buffer)).2.
Proof. intros Hf. unfold messages_in. by rewrite (lines_of_found _ _ Hf). Qed.

Lemma consume_loop_frames fuel fd c s :
  inv s → framed_except (λ f, f = fd) s → sessions_ s !! fd = Some c → cs_closing c = false →
  length (cs_inbuf c) < fuel → wp (consume_loop fuel fd) (consumed fd c s) s.
Proof.
  revert c s. induction fuel as [|fuel IH]; intros c s Hinv Hf Hfd Hcl Hlen; [lia|].
  cbn [consume_loop]. wp_step. apply wp_is_session. rewrite bool_decide_true by eauto. cbn [negb].
  wp_step. apply (wp_deref fd c); [done|].
  destruct (find_char LF (cs_inbuf c)) as [n|] eqn:Hfind.
  2: { pose proof (lines_of_none _ (proj1 (find_None _ _) Hfind)) as Hl.
       assert (∀ more s', (more = true → s' = s) → more = (str_size (cs_inbuf c) <=? kMaxLineBytes)%Z →
         consumed fd c s more s') as Hstop.
       { intros more s' Hs' Hmore. exists [], s. unfold messages_in. rewrite Hl.
         split_and!; [constructor|done|done|]. intros c1 Hc1. by simplify_eq. }
       destruct (Z.ltb_spec kMaxLineBytes (str_size (cs_inbuf c))).
       - eapply wp_mono; [by apply oversized_spec|]. intros more s' [-> _].
         apply Hstop; [done|]. symmetry. by apply Z.leb_gt.
       - apply wp_ret. apply Hstop; [done|]. symmetry. by apply Z.leb_le. }
  destruct (messages_in_found _ _ Hfind) as [Hmsgs Hrest].
  wp_step. eapply wp_mono_done; [by apply handle_line_spec|].
  intros [] s1 Hrun (Hinv1 & Hev1 & Hf1 & _ & Hbuf1). wp_step. apply wp_is_session.
  assert (handles fd s [chomp_cr (take n (cs_inbuf c))] s1) as Hone
    by (econstructor; [done..|constructor]).
  destruct (bool_decide_reflect (is_Some (sessions_ s1 !! fd))) as [[c1 Hfd1]|Hnone]; cbn [negb].
  2: { apply wp_ret. eapply consumed_stopped; [done..|]. intros c1 Hc1. destruct Hnone. eauto. }
  wp_step. apply (wp_session_ref fd c1); [done|].
  destruct (Hbuf1 c1 Hfd1) as [[Hfr Hcl1]|[Hcl1 Hin]]; rewrite Hcl1.
  { apply wp_ret. eapply consumed_stopped; [done..|]. intros c2 Hc2. by simplify_eq. }
  apply find_Some in Hfind as Hn. destruct Hn as (_ & _ & Hn).
  eapply wp_mono; [apply (IH c1 s1); [done..|rewrite Hin, length_drop; lia]|].
  intros more s2 (ls & s1' & Hh & Hpre & Heq & Hlast). exists (chomp_cr (take n (cs_inbuf c)) :: ls), s1'.
  rewrite Hmsgs, Hrest, <-Hin. split_and!; [by econstructor|by apply prefix_cons|done|].
  intros c2 Hc2 Hcl2. destruct (Hlast c2 Hc2 Hcl2) as (-> & ? & ?). done.
Qed.

End Framing.
