(* ===== verification/ServerTheorems.v ===== *)
(** * ServerTheorems: the properties of the exchange server

    The statements proved about the server as a whole, each with a run of the
    executable model on the scripted kernel as a witness. *)

From S2P Require Import Prelude CxxString Framing MessageParser OrderBook OrderBookSpec Kernel EventLoop.
From S2P Require Import SocketUtils ClientSession TcpServer ExchangeServer ExchangeSpec ServerInv ServerOutput.
From S2P Require Import ServerProtocol ServerLoop ServerFraming.

(** ** A run to evaluate

    Four clients connect: 4 and 5 sell, 6 is a trader, 7 watches JNST.  The
    second send to 6 fails. *)

#[local] Instance demo_platform : Platform := false.

#[local] Instance demo_order : HashOrder (Server EventLoop Script) := {
  fd_order := λ _ X, elements X;
  name_order := λ _ X, elements X
}.

#[local] Instance demo_order_laws : HashOrderLaws (Server EventLoop Script).
Proof. by split. Qed.

Definition demo_script : Script :=
  let addr := mkSockaddr 16777343 4660 in
  mkScript EAGAIN {[3%Z]} ∅
    [(6%Z, SendUpTo 100); (6%Z, SendFail EPIPE)]
    [(4%Z, RecvData (lit "LOGIN ann" ++ [CR; LF] ++ lit "SELL JNST 5 10" ++ [LF]));
     (5%Z, RecvData (lit "LOGIN bob" ++ [LF] ++ lit "SELL JNST 7 10" ++ [LF]));
     (6%Z, RecvData (lit "LOGIN cat" ++ [LF])); (7%Z, RecvData (lit "SUBSCRIBE JNST" ++ [LF] ++ lit "UNSU"))]
    [AcceptFd 4 addr; AcceptFd 5 addr; AcceptFd 6 addr; AcceptFd 7 addr]
    [{[3%Z := POLLIN]}; {[4%Z := POLLIN; 5%Z := POLLIN; 6%Z := POLLIN; 7%Z := POLLIN]}]
    [] 1000 (repeat false 10) ∅.

(** A server that has just started: no sessions, the listening socket
    registered for reading. *)
Definition fresh_server {L K} (t : TCPServer) (l : L) (verbose : bool) (sndbuf : Z) (k : K)
    (lg : list printed) : Server L K :=
  mkServer t l verbose sndbuf ∅ ∅ ∅ [] empty_book 0 k lg.

Definition demo_server : Server EventLoop Script :=
  fresh_server (mkTCPServer (lit "127.0.0.1") 5000 3 [])
    (mkLoop Poll [mkPollfd 3 POLLIN 0] {[3%Z := 0]} (-1) ∅) false 0 demo_script [].

Definition after_pass (s : Server EventLoop Script) : Server EventLoop Script :=
  match iteration s with Done (_, s') => s' | _ => s end.

(** After accepting, and after the first requests. *)
Definition demo_connected : Server EventLoop Script := after_pass demo_server.
Definition demo_trading : Server EventLoop Script := after_pass demo_connected.

Section Fresh.
Context `{!Kernel K, !KernelView K} `{!EventLoopI K L}.

Lemma fresh_idle (t : TCPServer) (l : L) verbose sndbuf (k : K) lg :
  loop_wf l → loop_interest l (ts_fd t) = Some (true, false) → ts_fd t ∈ open_fds k →
  idle (fresh_server t l verbose sndbuf k lg).
Proof.
  intros Hwf Hint Hopen. split_and!; [split|by intros ???|done]; [|by intros ???].
  split; cbn; try done.
  - intros i fd. unfold subscriber_set. cbn. rewrite lookup_empty. cbn. split; [set_solver|].
    intros (c & Hc & _). by rewrite lookup_empty in Hc.
  - intros u. split; [set_solver|]. intros (fd & c & Hc & _). by rewrite lookup_empty in Hc.
  - apply empty_book_wf.
  - intros [side i] a o. unfold queue_at. destruct side; cbn; rewrite lookup_empty; set_solver.
  - intros fd Hin. set_solver.
  - constructor.
  - intros fd Hin. set_solver.
Qed.

End Fresh.

Lemma demo_idle : idle demo_server.
Proof.
  apply fresh_idle; [|vm_compute; reflexivity|vm_compute; reflexivity].
  cbn. intros fd i. cbn [poll_index_ pollfds_].
  destruct (decide (fd = 3%Z)) as [->|Hne].
  - rewrite lookup_singleton_eq. destruct i as [|i]; cbn; split; naive_solver.
  - rewrite lookup_singleton_ne by done. destruct i as [|i]; cbn; split; naive_solver.
Qed.

(** ** The main loop *)

Section Theorems.
Context `{!Kernel K, !KernelView K, !KernelLaws K}.
Context `{!EventLoopI K L, !EventLoopLaws K L} `{!HashOrder (Server L K), !HashOrderLaws (Server L K)}.

Abbreviation server := (Server L K).
Implicit Types s : server.

(** The order ids may run out. *)
#[local] Instance ids_may_run_out : Tolerance := True.

(** One pass of [while (!g_stop)] that goes on. *)
Definition pass (s s' : server) : Prop := iteration s = Done (true, s').

(** What a pass maintains holds in every state reached. *)
Lemma maintains_passes (P : server → Prop) s s' : maintains P iteration → rtc pass s s' → P s → P s'.
Proof. intros Hm. induction 1 as [|s1 s2 s3 Hp _ IH]; [done|]. intros H1. apply IH. exact (Hm s1 true s2 Hp H1). Qed.

Lemma reachable_idle s0 s : idle s0 → rtc pass s0 s → idle s.
Proof.
  intros Hidle Hr. induction Hr as [|s1 s2 s3 Hp Hr IH]; [done|]. apply IH.
  exact (wp_elim _ _ _ _ _ (iteration_spec I s1 Hidle) Hp).
Qed.

(** The next pass returns, in every reachable state. *)
Lemma reachable_returns s0 s :
  idle s0 → rtc pass s0 s →
  idle s ∧ (iteration s = Overflow ∨ ∃ go s', iteration s = Done (go, s') ∧ idle s').
Proof.
  intros Hidle Hr. pose proof (reachable_idle s0 s Hidle Hr) as Hs. split; [done|].
  destruct (wp_returns _ _ _ (iteration_spec I s Hs)) as [[? _]|(go & s' & ? & ?)]; [by left|].
  right. by exists go, s'.
Qed.

(** C9: safety of the server: from a server that has just started (or any
    state that satisfies the loop invariant), in every state the main loop
    reaches the invariant holds, and the next pass returns normally whatever
    the kernel answers: no session reference or list iterator is used after
    its target was erased, every inner loop ends within its fuel, and the
    only other way out is an order id beyond the range of [long]. *)
Theorem server_safe s0 s :
  idle s0 → rtc pass s0 s →
  idle s ∧ (iteration s = Overflow ∨ ∃ go s', iteration s = Done (go, s') ∧ idle s').
Proof. apply reachable_returns. Qed.

(** C14: bounded memory per client: whatever clients send and however slowly
    they read, between two passes a session holds at most 64 KiB of input,
    without a complete line, and at most 16 MiB of unsent output in a buffer
    of at most 16 MiB + 64 KiB. *)
Theorem buffers_bounded s0 s fd c :
  idle s0 → rtc pass s0 s → sessions_ s !! fd = Some c →
  LF ∉ cs_inbuf c ∧ (str_size (cs_inbuf c) ≤ 65536)%Z
  ∧ (pending_bytes c ≤ 16777216)%Z ∧ (str_size (cs_outbuf c) ≤ 16777216 + 65536)%Z.
Proof.
  intros Hidle Hr Hfd. destruct (reachable_idle s0 s Hidle Hr) as (Hinv & Hf & _).
  destruct (Hf fd c) as [Hlf Hin]; [auto|done|].
  destruct (inv_session s fd c Hinv Hfd) as (_ & Hok & _). destruct (io_ok_pre c Hok) as [Hpre Hout].
  split_and!; [done|done| |done]. rewrite out_wf_pending by (by apply out_pre_wf). apply Hok.
Qed.

(** C17: readiness interest: in every reachable state each session's read
    flag is set exactly while it is not closing and its write flag exactly
    while it has unsent output.  The registration with the event loop agrees
    with the flags, and the listening socket is registered for reading exactly
    while accepting is not suspended, provided the back end does not fail to
    change an interest ([loop_steady]; always so with poll(2), and with
    kqueue(2) unless kevent(2) fails: the server does not look at the result
    of [update]). *)
Theorem interest_exact s0 s :
  idle s0 → rtc pass s0 s →
  (loop_steady (loop_ s) →
   loop_interest (loop_ s) (lfd s) = Some (bool_decide (accept_resume_at_ s = 0%Z), false))
  ∧ ∀ fd c, sessions_ s !! fd = Some c →
      (loop_steady (loop_ s) →
       loop_interest (loop_ s) fd = Some (negb (cs_closing c), bool_decide (pending c ≠ [])))
      ∧ cs_read_interest c = negb (cs_closing c)
      ∧ cs_write_interest c = bool_decide (pending c ≠ []).
Proof.
  intros Hidle Hr. destruct (reachable_idle s0 s Hidle Hr) as (Hinv & _ & _).
  split; [apply (core_listener s (inv_core s Hinv))|]. intros fd c Hfd.
  destruct (inv_session s fd c Hinv Hfd) as (_ & [] & Hm). unfold mirror in Hm.
  rewrite io_write, io_read in Hm. done.
Qed.

(** C13: consistency of the server's tables: in every reachable state
    [usernames_] is exactly the set of names of the logged-in sessions and no
    two of them share a name, [subscribers_] is exactly the inverse of the
    sessions' subscriptions, traders are the logged-in sessions and only
    market-data clients subscribe, and every resting order belongs to a
    connected, logged-in trader. *)
Theorem tables_consistent s0 s :
  idle s0 → rtc pass s0 s →
  (∀ u, u ∈ usernames_ s ↔
     ∃ fd c, sessions_ s !! fd = Some c ∧ cs_logged_in c = true ∧ cs_username c = u)
  ∧ (∀ fd fd' c c', sessions_ s !! fd = Some c → sessions_ s !! fd' = Some c' →
       cs_logged_in c = true → cs_logged_in c' = true → cs_username c = cs_username c' → fd = fd')
  ∧ (∀ i fd, fd ∈ subscriber_set s i ↔ ∃ c, sessions_ s !! fd = Some c ∧ i ∈ cs_subscriptions c)
  ∧ (∀ fd c, sessions_ s !! fd = Some c →
       (cs_role c = Role_TRADER ↔ cs_logged_in c = true)
       ∧ (cs_subscriptions c ≠ ∅ → cs_role c = Role_MARKET_DATA))
  ∧ (∀ q a o, (a, o) ∈ queue_at (book_ s) q →
       ∃ c, sessions_ s !! o_owner_fd o = Some c ∧ cs_logged_in c = true).
Proof.
  intros Hidle Hr. destruct (reachable_idle s0 s Hidle Hr) as ([[] _] & _ & _).
  split_and!; try done. intros fd c Hfd. by destruct (core_sessions fd c Hfd).
Qed.

(** ** Requests *)

#[local] Remove Hints ids_may_run_out : typeclass_instances.

(** Nothing is tolerated: the code returns. *)
#[local] Instance must_return : Tolerance := False.

Lemma wp_done_inv {A} (m : M server A) (Q : A → server → Prop) s :
  wp m Q s → ∃ a s', m s = Done (a, s') ∧ Q a s'.
Proof. intros [[_ []]|?]%wp_returns. done. Qed.

(** C10: refinement of the abstract exchange: handling one line of a connected
    client returns (unless the order ids are used up), keeps the invariant,
    and does what [serves] says of the abstract exchange the state stands
    for: clients, roles, logins, subscriptions and price levels change
    accordingly and every client still connected got exactly the bytes the
    specification gives it.  Clients that failed or fell too far behind while
    being written to are dropped with their orders, clients that were sent
    nothing are untouched, and executions go unannounced only if the sender
    itself was dropped. *)
Theorem handle_message_refines fd c line s :
  inv s → sessions_ s !! fd = Some c → (str_size line ≤ kMaxLineBytes + kReadChunk)%Z →
  (next_order_id_ (book_ s) < LONG_MAX)%Z →
  ∃ s', handle_message fd line s = Done (tt, s') ∧ inv s' ∧
    ∃ x' d lost, serves (view s) fd (client_of c) (parse line) x' d lost
      ∧ outcome_of fd (cmd_valid (parse line) && bool_decide (cmd_type (parse line) = QUIT)) x' d s s'
      ∧ (is_Some (sessions_ s' !! fd) → lost = []).
Proof.
  intros Hinv Hfd Hline Hlt.
  destruct (wp_done_inv _ _ _ (handle_message_spec fd c line s Hinv Hfd Hline ltac:(lia)))
    as ([] & s' & Hrun & Hinv' & Hserved).
  by exists s'.
Qed.

(** Acknowledgement and executions: when a logged-in trader submits a
    valid order and is still connected afterwards, its output stream grew by
    ORDER_ACCEPTED with the next order id, followed by its BOUGHT and SOLD
    lines in execution order; every other client's stream grew by exactly its
    own notices, each once and in order, and by nothing if it has no part in
    the executions. *)
Theorem order_announced fd c cmd s :
  inv s → sessions_ s !! fd = Some c → cs_logged_in c = true → cmd_valid cmd = true →
  cmd_type cmd ∈ [BUY; SELL] → cmd_instrument cmd ∈ kInstruments →
  (0 < cmd_quantity cmd ≤ LONG_MAX)%Z → (next_order_id_ (book_ s) < LONG_MAX)%Z →
  let '(id, _, xs) := spec_add (levels (book_ s)) fd (cmd_instrument cmd) (side_of (cmd_type cmd))
                        (cmd_quantity cmd) (cmd_price cmd) in
  ∃ s', handle_order fd cmd s = Done (tt, s') ∧
    (is_Some (sessions_ s' !! fd) →
     ∀ f c', sessions_ s' !! f = Some c' →
       ∃ c0, sessions_ s !! f = Some c0
         ∧ stream s' f c' = stream s f c0 ++ (if decide (f = fd) then order_accepted id else [])
                              ++ notices (view s) xs f).
Proof.
  intros Hinv Hfd Hlog Hv Ht Hi Hq Hlt.
  destruct (spec_add _ _ _ _ _ _) as [[id lb] xs] eqn:Hspec.
  destruct (wp_done_inv _ _ _ (handle_order_spec fd c cmd s Hinv Hfd Hv Ht Hi Hq ltac:(lia)))
    as ([] & s' & Hrun & _ & x' & d & lost & Hserves & Ho & Hlost).
  exists s'. split; [done|]. intros Hsome f c' Hf. specialize (Hlost Hsome) as ->.
  apply (oc_session _ _ _ _ _ _ Ho) in Hf as (c0 & Hc0 & _ & _ & Hst & _). exists c0.
  split; [done|]. rewrite Hst.
  assert (cl_role (client_of c) = Role_TRADER) as Hrole.
  { apply (core_trader fd c); [|done]. by apply (core_sessions s (inv_core s Hinv)). }
  eapply serves_order in Hserves as (id' & lb' & announced & Hspec' & _ & ->); [|done..|cbn; by rewrite Hlog|done].
  rewrite app_nil_r in Hspec'. cbn [ex_book view] in Hspec'. rewrite Hspec in Hspec'.
  by injection Hspec' as <- <- <-.
Qed.

(** C12: delivery and isolation: sending a message to one client returns and
    touches no other session and no other client's bytes, whatever the
    addressee's socket does; if the addressee is still connected afterwards,
    its output stream (bytes handed to the kernel, then bytes pending) is the
    old stream followed by the message, so nothing is lost, repeated or
    reordered by partial writes, interrupts and buffer compaction; otherwise
    it was dropped and its descriptor waits to be closed. *)
Theorem send_to_exact fd c m s :
  inv s → sessions_ s !! fd = Some c → (str_size m ≤ 1048576)%Z →
  ∃ s', send_to fd m s = Done (tt, s') ∧ inv s'
    ∧ (∀ f, f ≠ fd → sessions_ s' !! f = sessions_ s !! f ∧ sent (kern s') f = sent (kern s) f)
    ∧ match sessions_ s' !! fd with
      | Some c' => sent (kern s') fd ++ pending c' = sent (kern s) fd ++ pending c ++ m
      | None => fd ∈ closed_fds_ s' ∧ fd ∈ open_fds (kern s')
      end.
Proof.
  intros Hinv Hfd Hm. destruct (wp_done_inv _ _ _ (send_to_spec fd m s Hinv Hm))
    as ([] & s' & Hrun & Hinv' & Hd).
  exists s'. split_and!; [done|done| |].
  - intros f Hne. apply (dl_frame _ _ _ _ Hd). set_solver.
  - destruct (sessions_ s' !! fd) as [c'|] eqn:Hc'.
    + apply (dl_session _ _ _ _ Hd) in Hc' as (c0 & Hc0 & _ & Hst). simplify_eq.
      unfold stream, just in Hst. rewrite decide_True in Hst by done. by rewrite Hst, <-app_assoc.
    + assert (fd ∈ closed_fds_ s') as Hcl by (by eapply (dl_dropped _ _ _ _ Hd)).
      split; [done|]. by apply (core_open_closed s' (inv_core s' Hinv')) in Hcl as [? _].
Qed.

(** C16: dropping a client leaves no trace of it: the session is gone, no
    subscriber set, order queue or event-loop registration mentions the
    descriptor any more, its user name is free again, everything that belongs
    to other clients is unchanged, and the descriptor is still open, queued
    once for closing, so that accept() cannot hand it out again yet. *)
Theorem drop_leaves_no_trace fd c reason s :
  inv s → sessions_ s !! fd = Some c →
  ∃ s', drop_session fd reason s = Done (tt, s') ∧ inv s'
    ∧ sessions_ s' = delete fd (sessions_ s)
    ∧ (∀ i, subscriber_set s' i = subscriber_set s i ∖ {[fd]})
    ∧ (∀ q, queue_at (book_ s') q = filter (λ n : node, o_owner_fd n.2 ≠ fd) (queue_at (book_ s) q))
    ∧ (cs_logged_in c = true → cs_username c ∉ usernames_ s')
    ∧ loop_interest (loop_ s') fd = None
    ∧ (∀ f, f ≠ fd → loop_interest (loop_ s') f = loop_interest (loop_ s) f)
    ∧ closed_fds_ s' = closed_fds_ s ++ [fd] ∧ open_fds (kern s') = open_fds (kern s).
Proof.
  intros Hinv Hfd. pose proof (inv_core s Hinv) as Hc.
  destruct (wp_done_inv _ _ _ (wp_and _ _ _ _ (drop_session_dropped fd reason c s Hc Hfd)
    (drop_spec fd reason c s Hc (inv_io _ _ Hinv) Hfd))) as ([] & s' & Hrun & [] & Hinv' & _).
  exists s'. split_and!; try done; [|apply dr_quiet].
  intros Hlog. rewrite dr_names, Hlog. set_solver.
Qed.

(** C15: stale events: within one batch of events a descriptor never changes
    hands.  A session that exists before and after handling any list of
    events is the same connection (same peer, output stream only extended);
    a session dropped on the way leaves its descriptor open until the batch
    is over; a new session uses a descriptor that was not open before. *)
Theorem batch_keeps_identity es s :
  inv s → framed s →
  handle_events es s = Overflow ∨
  ∃ s', handle_events es s = Done (tt, s') ∧ inv s' ∧
    (∀ fd c c', sessions_ s !! fd = Some c → sessions_ s' !! fd = Some c' →
       cs_peer c' = cs_peer c
       ∧ (sent (kern s) fd ++ pending c) `prefix_of` (sent (kern s') fd ++ pending c'))
    ∧ (∀ fd c, sessions_ s !! fd = Some c → sessions_ s' !! fd = None →
         fd ∈ closed_fds_ s' ∧ fd ∈ open_fds (kern s'))
    ∧ (∀ fd c', sessions_ s !! fd = None → sessions_ s' !! fd = Some c' → fd ∉ open_fds (kern s)).
Proof.
  intros Hinv Hf.
  destruct (wp_returns _ _ _ (handle_events_spec (OV := ids_may_run_out) I es s Hinv Hf))
    as [[? _]|([] & s' & Hrun & Hinv' & _ & Hgr & _)]; [by left|]. right.
  exists s'. split_and!; [done|done|..].
  - intros fd c c' Hc Hc'. apply (gr_session _ _ Hgr) in Hc' as [(c0 & Hc0 & ? & ?)|Hno].
    + by simplify_eq.
    + by apply (core_open_session s (inv_core s Hinv)) in Hc as (? & _).
  - intros fd c Hc Hnone. assert (fd ∈ closed_fds_ s') as Hcl by (by eapply (gr_dropped _ _ Hgr)).
    split; [done|]. by apply (core_open_closed s' (inv_core s' Hinv')) in Hcl as [? _].
  - intros fd c' Hnone Hc'. apply (gr_session _ _ Hgr) in Hc' as [(c0 & Hc0 & _)|?]; [congruence|done].
Qed.


(** Framing: the messages the server acts upon are the complete lines of
    the input buffer, a trailing CR removed, each handled once and in order.
    If the client is still there and not closing after them, all lines were
    handled and exactly the incomplete rest stays in the buffer; the client is
    told to go when that rest is longer than 64 KiB. *)
Theorem consume_frames fd c s :
  inv s → framed_except (λ f, f = fd) s → sessions_ s !! fd = Some c → cs_closing c = false →
  consume_messages fd s = Overflow ∨
  ∃ more s', consume_messages fd s = Done (more, s') ∧
    ∃ ls s1, handles fd s ls s1 ∧ ls `prefix_of` (chomp_cr <$> (lines_of (cs_inbuf c)).1)
      ∧ (more = true → s' = s1)
      ∧ ∀ c1, sessions_ s1 !! fd = Some c1 → cs_closing c1 = false →
          ls = (chomp_cr <$> (lines_of (cs_inbuf c)).1) ∧ cs_inbuf c1 = (lines_of (cs_inbuf c)).2
          ∧ more = (str_size (cs_inbuf c1) <=? 65536)%Z.
Proof.
  intros Hinv Hf Hfd Hcl.
  assert (wp (OV := True) (consume_messages fd) (consumed fd c s) s) as Hwp.
  { unfold consume_messages. apply wp_bind, wp_get. rewrite Hfd.
    apply (consume_loop_frames (OV := True) I); try done. cbn. lia. }
  destruct (wp_returns _ _ _ Hwp) as [[? _]|(more & s' & ? & ?)]; [by left|right].
  by exists more, s'.
Qed.

(** Shutdown: when the main loop is left from a reachable state, [run]
    returns with no session left, every client descriptor has been closed and
    no other descriptor has been. *)
Theorem run_closes_all s0 s s1 :
  idle s0 → rtc pass s0 s → iteration s = Done (false, s1) →
  ∃ fuel s', run fuel s0 = Done (tt, s') ∧ sessions_ s' = ∅ ∧ closed_fds_ s' = []
    ∧ open_fds (kern s') = open_fds (kern s1) ∖ dom (sessions_ s1)
    ∧ lfd s1 ∈ open_fds (kern s').
Proof.
  intros Hidle Hr Hlast.
  assert (idle s1) as (Hinv1 & _ & Hcl1).
  { pose proof (reachable_idle s0 s Hidle Hr) as Hs.
    exact (wp_elim _ _ _ _ _ (iteration_spec (OV := True) I s Hs) Hlast). }
  assert (∃ fuel, run_loop fuel s0 = Done (tt, s1)) as [fuel Hrun].
  { clear Hidle. induction Hr as [s|s2 s3 s4 Hp Hr IH].
    - exists 1. cbn [run_loop]. unfold bind. by rewrite Hlast.
    - destruct (IH Hlast) as [fuel Hf]. exists (S fuel). cbn [run_loop]. unfold bind.
      unfold pass in Hp. rewrite Hp. exact Hf. }
  destruct (wp_done_inv _ _ _ (shutdown_all_spec s1)) as ([] & s' & Hsh & Hs' & Hc' & Ho').
  exists fuel, s'. rewrite Hcl1 in Ho'. cbn in Ho'. rewrite difference_empty_L in Ho'.
  split_and!; [|done|done|done|].
  - unfold run, bind. by rewrite Hrun.
  - rewrite Ho'. apply elem_of_difference. split; [apply (core_open_listener s1 (inv_core s1 Hinv1))|].
    rewrite elem_of_dom. intros [c Hc]. by apply (core_open_session s1 (inv_core s1 Hinv1)) in Hc as (_ & _ & ?).
Qed.

End Theorems.

Lemma demo_passes : rtc pass demo_server demo_trading.
Proof.
  eapply rtc_l; [|eapply rtc_l; [|apply rtc_refl]].
  - instantiate (1 := demo_connected). vm_compute. reflexivity.
  - vm_compute. reflexivity.
Qed.

Lemma demo_trading_idle : idle demo_trading.
Proof. exact (reachable_idle _ _ demo_idle demo_passes). Qed.

Lemma demo_trading_inv : inv demo_trading.
Proof. apply demo_trading_idle. Qed.

(** ** Witnesses *)

Definition session_of (s : Server EventLoop Script) (fd : Z) : ClientSession :=
  default default_session (sessions_ s !! fd).

Lemma session_of_some s fd :
  bool_decide (is_Some (sessions_ s !! fd)) = true → sessions_ s !! fd = Some (session_of s fd).
Proof. unfold session_of. intros [c ->]%bool_decide_eq_true. done. Qed.

(** The final state of code that returns. *)
Definition final {A} (o : outcome (A * Server EventLoop Script)) : Server EventLoop Script :=
  match o with Done (_, s) => s | _ => demo_server end.

Lemma final_done {A} (o : outcome (A * Server EventLoop Script)) a s :
  o = Done (a, s) → s = final o.
Proof. by intros ->. Qed.

Definition goes_on (o : outcome (bool * Server EventLoop Script)) : bool :=
  match o with Done (b, _) => b | _ => false end.

(** In the demonstration state 4 and 5 have sold, 6 is logged in and 7 is
    subscribed, with an incomplete request in its buffer. *)
Example demo_trading_state :
  (cs_username (session_of demo_trading 6), cs_inbuf (session_of demo_trading 7))
    = (lit "cat", lit "UNSU")
  ∧ subscriber_set demo_trading (lit "JNST") = {[7%Z]}
  ∧ level_of 10 (queue_at (book_ demo_trading) (Side_SELL, lit "JNST"))
    = [mkResting 1 4 5; mkResting 2 5 7].
Proof. vm_compute. auto. Qed.

Lemma server_safe_witness :
  idle demo_trading ∧ ∃ s', iteration demo_trading = Done (true, s') ∧ idle s'.
Proof.
  destruct (server_safe demo_server demo_trading demo_idle demo_passes)
    as [Hidle [Hov|(go & s' & Hrun & Hs')]]; (split; [exact Hidle|]).
  - assert (goes_on (iteration demo_trading) = true) as H by (vm_compute; reflexivity).
    rewrite Hov in H. discriminate H.
  - assert (goes_on (iteration demo_trading) = true) as H by (vm_compute; reflexivity).
    rewrite Hrun in H. destruct go; [|discriminate H].
    exists s'. split; [exact Hrun|exact Hs'].
Defined.

Lemma buffers_bounded_witness :
  (str_size (cs_inbuf (session_of demo_trading 7)) ≤ 65536)%Z
  ∧ cs_inbuf (session_of demo_trading 7) = lit "UNSU".
Proof.
  split; [|vm_compute; reflexivity].
  destruct (buffers_bounded demo_server demo_trading 7 (session_of demo_trading 7)
              demo_idle demo_passes) as (_ & H & _);
    [apply session_of_some; vm_compute; reflexivity|exact H].
Defined.

Lemma interest_exact_witness :
  registered demo_trading.(loop_) 3 = Some (true, false)
  ∧ registered demo_trading.(loop_) 7 = Some (true, false).
Proof.
  assert (loop_steady (loop_ demo_trading)) as Hst by (intros Hb; vm_compute in Hb; discriminate Hb).
  destruct (interest_exact demo_server demo_trading demo_idle demo_passes) as [Hl Hs].
  split; [exact (Hl Hst)|].
  destruct (Hs 7%Z (session_of demo_trading 7)) as [H _];
    [apply session_of_some; vm_compute; reflexivity|].
  refine (eq_trans (H Hst) _). vm_compute. reflexivity.
Defined.

Lemma tables_consistent_witness :
  ∃ fd c, sessions_ demo_trading !! fd = Some c ∧ cs_logged_in c = true ∧ cs_username c = lit "ann".
Proof.
  destruct (tables_consistent demo_server demo_trading demo_idle demo_passes) as [Hn _].
  apply Hn. vm_compute. reflexivity.
Defined.

Definition buy_line : bytes := lit "BUY JNST 12 10".

Lemma handle_message_refines_witness :
  ∃ s', handle_message 4 buy_line demo_trading = Done (tt, s') ∧ inv s'
    ∧ sent (kern s') 7 = sent (kern demo_trading) 7
        ++ lit "TRADE JNST 5 10" ++ [LF] ++ lit "TRADE JNST 7 10" ++ [LF].
Proof.
  destruct (handle_message_refines 4 (session_of demo_trading 4) buy_line demo_trading)
    as (s' & Hrun & Hinv & _).
  - exact demo_trading_inv.
  - apply session_of_some. vm_compute. reflexivity.
  - vm_compute. discriminate.
  - vm_compute. reflexivity.
  - exists s'. split; [exact Hrun|]. split; [exact Hinv|].
    rewrite (final_done _ _ _ Hrun). vm_compute. reflexivity.
Defined.

Definition buy_command : ParsedCommand := parse buy_line.

Lemma order_announced_witness :
  ∃ s', handle_order 4 buy_command demo_trading = Done (tt, s')
    ∧ ∃ c0, stream s' 5 (session_of s' 5) = stream demo_trading 5 c0
        ++ notices (view demo_trading)
             [mkExecution 4 4 (lit "JNST") 5 10; mkExecution 4 5 (lit "JNST") 7 10] 5.
Proof.
  pose proof (order_announced 4 (session_of demo_trading 4) buy_command demo_trading) as H.
  destruct (spec_add _ _ _ _ _ _) as [[id lb] xs] eqn:Hspec.
  apply (f_equal (λ r, (r.1.1, r.2))) in Hspec. cbn [fst snd] in Hspec.
  vm_compute in Hspec. injection Hspec as <- <-.
  destruct H as (s' & Hrun & Hall).
  - exact demo_trading_inv.
  - apply session_of_some. vm_compute. reflexivity.
  - vm_compute. reflexivity.
  - vm_compute. reflexivity.
  - change (cmd_type buy_command) with BUY. left.
  - change (cmd_instrument buy_command) with (lit "JNST"). left.
  - vm_compute. split; [reflexivity|discriminate].
  - vm_compute. reflexivity.
  - exists s'. split; [exact Hrun|].
    destruct (Hall) with (f := 5%Z) (c' := session_of s' 5) as (c0 & _ & Heq).
    + rewrite (final_done _ _ _ Hrun). apply (proj1 (bool_decide_eq_true (is_Some _))). vm_compute. reflexivity.
    + apply session_of_some. rewrite (final_done _ _ _ Hrun). vm_compute. reflexivity.
    + exists c0. rewrite Heq, decide_False by discriminate. reflexivity.
Defined.

Lemma send_to_exact_witness :
  ∃ s', send_to 5 (lit "hello") demo_trading = Done (tt, s') ∧ inv s'
    ∧ sent (kern s') 5 = sent (kern demo_trading) 5 ++ lit "hello".
Proof.
  destruct (send_to_exact 5 (session_of demo_trading 5) (lit "hello") demo_trading)
    as (s' & Hrun & Hinv & _ & _).
  - exact demo_trading_inv.
  - apply session_of_some. vm_compute. reflexivity.
  - vm_compute. discriminate.
  - exists s'. split; [exact Hrun|]. split; [exact Hinv|].
    rewrite (final_done _ _ _ Hrun). vm_compute. reflexivity.
Defined.

Lemma drop_leaves_no_trace_witness :
  ∃ s', drop_session 4 (lit "test") demo_trading = Done (tt, s')
    ∧ lit "ann" ∉ usernames_ s' ∧ closed_fds_ s' = [4%Z]
    ∧ (λ n : node, o_owner_fd n.2) <$> queue_at (book_ s') (Side_SELL, lit "JNST") = [5%Z].
Proof.
  destruct (drop_leaves_no_trace 4 (session_of demo_trading 4) (lit "test") demo_trading)
    as (s' & Hrun & _ & _ & _ & Hq & Hname & _ & _ & Hcl & _).
  - exact demo_trading_inv.
  - apply session_of_some. vm_compute. reflexivity.
  - exists s'. split; [exact Hrun|]. split; [|split].
    + apply Hname. vm_compute. reflexivity.
    + rewrite Hcl. vm_compute. reflexivity.
    + rewrite (final_done _ _ _ Hrun). vm_compute. reflexivity.
Defined.

Lemma batch_keeps_identity_witness :
  let es := [mkEvent 6 false false true; mkEvent 6 true true false; mkEvent 3 true false false] in
  ∃ s', handle_events es demo_trading = Done (tt, s') ∧ closed_fds_ s' = [6%Z]
    ∧ 6%Z ∈ open_fds (kern s').
Proof.
  intros es. destruct demo_trading_idle as (Hinv & Hf & _).
  destruct (batch_keeps_identity es demo_trading Hinv Hf) as [Hov|(s' & Hrun & _ & _ & Hdrop & _)].
  - exfalso.
    assert (match handle_events es demo_trading with Overflow => false | _ => true end = true) as H
      by (vm_compute; reflexivity).
    rewrite Hov in H. discriminate H.
  - exists s'. split; [exact Hrun|]. split.
    + rewrite (final_done _ _ _ Hrun). vm_compute. reflexivity.
    + apply (Hdrop 6%Z (session_of demo_trading 6)).
      * apply session_of_some. vm_compute. reflexivity.
      * rewrite (final_done _ _ _ Hrun). vm_compute. reflexivity.
Defined.

(** One more client is admitted, then the descriptors have run out. *)
Definition demo_exhausted : Server EventLoop Script :=
  set_kern (mkScript EAGAIN (sc_open (kern demo_trading)) (sc_traffic (kern demo_trading)) [] []
              [AcceptFd 8 (mkSockaddr 0 0); AcceptFail EMFILE] [] [] 1000 [] ∅) demo_trading.


(** Client 7 has sent the rest of its second request and a third one. *)
Definition demo_lines : bytes := lit "UNSUBSCRIBE IMCT" ++ [CR; LF] ++ lit "QU" ++ [LF] ++ lit "IT".

Definition demo_buffered : Server EventLoop Script :=
  set_sessions (<[7%Z := set_inbuf demo_lines (session_of demo_trading 7)]> (sessions_ demo_trading))
    demo_trading.

Lemma demo_buffered_ok : inv demo_buffered ∧ framed_except (λ f, f = 7%Z) demo_buffered.
Proof.
  destruct (set_inbuf_spec 7 (session_of demo_trading 7) demo_lines demo_trading)
    as (Hinv & _ & Hf).
  - exact demo_trading_inv.
  - apply session_of_some. vm_compute. reflexivity.
  - vm_compute. reflexivity.
  - vm_compute. discriminate.
  - split; [exact Hinv|]. apply Hf, framed_weaken. apply demo_trading_idle.
Qed.

Lemma consume_frames_witness :
  ∃ s', consume_messages 7 demo_buffered = Done (true, s')
    ∧ handles 7 demo_buffered [lit "UNSUBSCRIBE IMCT"; lit "QU"] s'
    ∧ cs_inbuf (session_of s' 7) = lit "IT".
Proof.
  destruct demo_buffered_ok as [Hinv Hf].
  destruct (consume_frames 7 (session_of demo_buffered 7) demo_buffered Hinv Hf)
    as [Hov|(more & s' & Hrun & ls & s1 & Hh & _ & Hs1 & Hlast)].
  - apply session_of_some. vm_compute. reflexivity.
  - vm_compute. reflexivity.
  - exfalso.
    assert (match consume_messages 7 demo_buffered with Overflow => false | _ => true end = true) as H
      by (vm_compute; reflexivity).
    rewrite Hov in H. discriminate H.
  - assert (more = true) as Hmore.
    { assert (goes_on (consume_messages 7 demo_buffered) = true) as H by (vm_compute; reflexivity).
      rewrite Hrun in H. exact H. }
    specialize (Hs1 Hmore). subst s1 more.
    destruct (Hlast (session_of s' 7)) as (Hls & Hin & _).
    + apply session_of_some. rewrite (final_done _ _ _ Hrun). vm_compute. reflexivity.
    + rewrite (final_done _ _ _ Hrun). vm_compute. reflexivity.
    + exists s'. split; [exact Hrun|]. split.
      * assert (ls = [lit "UNSUBSCRIBE IMCT"; lit "QU"]) as Heq
          by (rewrite Hls; vm_compute; reflexivity).
        rewrite <-Heq. exact Hh.
      * rewrite Hin. vm_compute. reflexivity.
Defined.

(** The demonstration kernel's stop flag is set after its last event. *)
Definition demo_stopped : Server EventLoop Script :=
  set_kern (mkScript EAGAIN (sc_open (kern demo_trading)) (sc_traffic (kern demo_trading)) [] [] [] [] []
              1000 [true] ∅) demo_trading.

Lemma demo_stopped_idle : idle demo_stopped.
Proof. apply idle_kern; [exact demo_trading_idle|reflexivity]. Qed.

Lemma run_closes_all_witness :
  ∃ fuel s', run fuel demo_stopped = Done (tt, s') ∧ open_fds (kern s') = {[3%Z]}.
Proof.
  destruct (run_closes_all demo_stopped demo_stopped (final (iteration demo_stopped))
              demo_stopped_idle (rtc_refl _ _)) as (fuel & s' & Hrun & _ & _ & Ho & _).
  - vm_compute. reflexivity.
  - exists fuel, s'. split; [exact Hrun|]. rewrite Ho. vm_compute. reflexivity.
Defined.
