(* ===== verification/ServerHistory.v ===== *)
(** * ServerHistory: what the server does over its whole life

    From a server without clients to any state its main loop reaches: there
    is a history of the abstract exchange (ExchangeTrace.v) that accounts for
    everything the server has received, said and kept.  So every client sees
    well-formed messages only, and one reply per line it has sent. *)

From S2P Require Import Prelude CxxString Framing MessageParser OrderBook OrderBookSpec Kernel EventLoop.
From S2P Require Import SocketUtils ClientSession TcpServer ExchangeServer ExchangeSpec ExchangeTrace.
From S2P Require Import ExchangeMessages ServerInv ServerOutput ServerProtocol ServerTrace ServerLoop ServerTheorems.

Section History.
Context `{!Kernel K, !KernelView K, !KernelLaws K}.
Context `{!EventLoopI K L, !EventLoopLaws K L} `{!HashOrder (Server L K), !HashOrderLaws (Server L K)}.

Abbreviation server := (Server L K).
Implicit Types s : server.

#[local] Instance ids_may_run_out : Tolerance := True.

(** [tr] accounts for [s]: the exchange goes through [tr] to the one [s]
    stands for; what a client has been sent (or is about to be) is its output
    in [tr]; its requests in [tr] are the lines received from it, all of them
    unless it is being closed. *)
Definition accounts_for (tr : list event) (s : server) : Prop :=
  steps new_exchange tr (view s)
  ∧ ∀ fd c, sessions_ s !! fd = Some c →
      sent (kern s) fd ++ pending c = output tr fd
      ∧ requests tr fd `prefix_of` (chomp_cr <$> (lines_of (received (kern s) fd)).1)
      ∧ (cs_closing c = false →
         requests tr fd = chomp_cr <$> (lines_of (received (kern s) fd)).1
         ∧ cs_inbuf c = (lines_of (received (kern s) fd)).2).

Lemma explains_accounts tr s : explains tr s → framed s → accounts_for tr s.
Proof.
  intros Hx Hf. split; [apply Hx|]. intros fd c Hfd.
  destruct (heard_requests _ _ _ (xp_input _ _ _ Hx fd c Hfd)) as [Hpre Hall].
  split_and!; [by apply (xp_output _ _ _ Hx)|done|]. intros Hcl. apply Hall; [done|].
  destruct (Hf fd c) as [? _]; [auto|done..].
Qed.

(** Passes continue the history. *)
Lemma passes_lead s s' : idle s → rtc pass s s' → idle s' ∧ leads s s'.
Proof.
  intros Hidle Hr. induction Hr as [s|s1 s2 s3 Hp Hr IH]; [done|].
  destruct (wp_elim _ _ _ _ _ (iteration_leads I s1 Hidle) Hp) as [Hidle2 Hl].
  destruct (IH Hidle2) as [? ?]. split; [done|by etrans].
Qed.

Lemma reachable_explained s0 s : idle s0 → vacant s0 → rtc pass s0 s → idle s ∧ ∃ tr, explains tr s.
Proof.
  intros Hidle Hv Hr. destruct (passes_lead s0 s Hidle Hr) as [Hs Hl]. split; [done|].
  destruct (Hl [] (vacant_explains s0 Hv)) as [tr Hx]. by exists tr.
Qed.

Lemma reachable_accounted s0 s :
  idle s0 → vacant s0 → rtc pass s0 s → ∃ tr, accounts_for tr s.
Proof.
  intros Hidle Hv Hr. destruct (reachable_explained s0 s Hidle Hv Hr) as [(_ & Hf & _) [tr Hx]].
  exists tr. by apply explains_accounts.
Qed.

Lemma reachable_typed s0 s fd c :
  idle s0 → vacant s0 → rtc pass s0 s → sessions_ s !! fd = Some c →
  ∃ ms, sent (kern s) fd ++ pending c = wire (render <$> ms) ∧ Forall valid_message ms
    ∧ (cs_closing c = false →
       length (filter (λ m, is_reply m = true) ms) = length (lines_of (received (kern s) fd)).1).
Proof.
  intros Hidle Hv Hr Hfd. destruct (reachable_explained s0 s Hidle Hv Hr) as [(_ & Hf & _) [tr Hx]].
  destruct (explains_accounts tr s Hx Hf) as [Hsteps Hall]. destruct (Hall fd c Hfd) as (Hout & _ & Hreq).
  destruct (steps_typed tr _ Hsteps) as [_ Ht]. destruct (Ht fd) as (ms & Hms & Hval & Hn).
  exists ms. split_and!; [by rewrite Hout|done|]. intros Hcl.
  rewrite Hn, (xp_in_step tr s fd c Hx Hfd Hcl). destruct (Hreq Hcl) as [-> _]. by rewrite length_fmap.
Qed.

(** C1: the whole life of the server refines the abstract exchange: from a
    server without clients, whatever clients and kernel do, every state the
    main loop reaches is accounted for by a history of the exchange (clients
    arriving, requests, refusals, clients leaving with their orders), and as
    the loop goes on that history is only continued.  Each connected client
    has been sent exactly the bytes the history gives it, in that order, and
    the requests in the history are exactly the lines received from it. *)
Theorem server_history s0 s :
  idle s0 → vacant s0 → rtc pass s0 s →
  ∃ tr, accounts_for tr s ∧ ∀ s', rtc pass s s' → ∃ tr', accounts_for (tr ++ tr') s'.
Proof.
  intros Hidle Hv Hr. destruct (reachable_explained s0 s Hidle Hv Hr) as [Hs [tr Hx]].
  exists tr. split; [apply explains_accounts; [done|apply Hs]|]. intros s' Hr'.
  destruct (passes_lead s s' Hs Hr') as [Hs' Hl]. destruct (Hl tr Hx) as [tr' Hx'].
  exists tr'. apply explains_accounts; [done|apply Hs'].
Qed.

(** C4: the type of the server's output: whatever a client and the others
    send, the bytes it has been sent, followed by those pending for it, are a
    sequence of complete, well-formed messages of the protocol, each on a line
    of its own: no message is torn, merged with another or forged by the text
    of a request. *)
Theorem output_well_formed s0 s fd c :
  idle s0 → vacant s0 → rtc pass s0 s → sessions_ s !! fd = Some c →
  ∃ ms, sent (kern s) fd ++ pending c = wire (render <$> ms) ∧ Forall valid_message ms
    ∧ (lines_of (sent (kern s) fd ++ pending c)) = (render <$> ms, []).
Proof.
  intros Hidle Hv Hr Hfd. destruct (reachable_typed s0 s fd c Hidle Hv Hr Hfd) as (ms & Hst & Hms & _).
  exists ms. split_and!; [done..|]. rewrite Hst, <-(app_nil_r (wire _)). apply lines_of_messages; [|set_solver].
  apply Forall_fmap. eapply Forall_impl; [exact Hms|]. intros m Hm. by apply clean_LF, render_clean.
Qed.


(** ** Output drains *)

(** The socket of [fd] becomes writable: the kernel takes something. *)
Definition writable (fd : Z) (s s' : server) : Prop :=
  accepting fd s ∧ on_writable fd s = Done (tt, s').

Lemma on_writable_returns fd s :
  inv s → ∃ s', on_writable fd s = Done (tt, s') ∧ inv s' ∧ delivers {[fd]} nothing s s'.
Proof.
  intros Hinv. destruct (wp_returns _ _ _ (on_writable_spec (OV := False) fd s Hinv))
    as [[_ []]|([] & s' & ? & ? & ?)]. by exists s'.
Qed.

(** Each time takes away at least one byte of what is pending. *)
Lemma writable_shrinks fd s s' :
  inv s → writable fd s s' →
  inv s' ∧ ∀ c', sessions_ s' !! fd = Some c' →
    ∃ c, sessions_ s !! fd = Some c ∧ length (pending c') ≤ length (pending c) - 1
      ∧ stream s' fd c' = stream s fd c ∧ cs_closing c' = cs_closing c.
Proof.
  intros Hinv [Hacc Hrun]. destruct (on_writable_returns fd s Hinv) as (s1 & Hrun1 & Hinv1 & Hd).
  rewrite Hrun in Hrun1. injection Hrun1 as <-. split; [done|]. intros c' Hc'.
  destruct (dl_session _ _ _ _ Hd fd c' Hc') as (c & Hc & Hsame & Hst). exists c.
  split_and!; [done| |by rewrite Hst; apply app_nil_r|apply Hsame].
  exact (wp_elim _ _ _ _ _ (on_writable_progress (OV := False) fd c s Hinv Hc Hacc) Hrun c' Hc').
Qed.

Lemma writable_times fd n s s' c' :
  inv s → nsteps (writable fd) n s s' → sessions_ s' !! fd = Some c' →
  inv s' ∧ ∃ c, sessions_ s !! fd = Some c ∧ length (pending c') ≤ length (pending c) - n
    ∧ stream s' fd c' = stream s fd c ∧ cs_closing c' = cs_closing c.
Proof.
  intros Hinv Hn. revert c'. induction Hn as [s|n s1 s2 s3 Hw Hn IH]; intros c' Hc'.
  { split; [done|]. exists c'. split_and!; [done|lia|done|done]. }
  destruct (writable_shrinks fd s1 s2 Hinv Hw) as [Hinv2 Hback].
  destruct (IH Hinv2 c' Hc') as (Hinv3 & c2 & Hc2 & Hlen2 & Hst2 & Hcl2).
  destruct (Hback c2 Hc2) as (c & Hc & Hlen & Hst & Hcl). split; [done|]. exists c.
  split_and!; [done|lia|congruence|congruence].
Qed.

Lemma writable_inv fd n s s' : inv s → nsteps (writable fd) n s s' → inv s'.
Proof.
  intros Hinv Hn. induction Hn as [|n s1 s2 s3 Hw _ IH]; [done|].
  by apply IH, (writable_shrinks fd s1 s2 Hinv).
Qed.


End History.

(** ** Witnesses *)

#[local] Existing Instances demo_platform demo_order demo_order_laws.

Lemma demo_vacant : vacant demo_server.
Proof. by split. Qed.

Lemma server_history_witness :
  ∃ tr, accounts_for tr demo_trading
    ∧ requests tr 4 = [lit "LOGIN ann"; lit "SELL JNST 5 10"]
    ∧ output tr 4 = lit "OK" ++ [LF] ++ lit "ORDER_ACCEPTED 1" ++ [LF].
Proof.
  destruct (server_history demo_server demo_trading demo_idle demo_vacant demo_passes) as (tr & Ha & _).
  exists tr. split; [exact Ha|]. destruct Ha as [_ Ha].
  destruct (Ha 4%Z (session_of demo_trading 4)) as (Hout & _ & Hreq).
  { apply session_of_some. vm_compute. reflexivity. }
  destruct Hreq as [Hreq _]; [vm_compute; reflexivity|]. rewrite Hreq, <-Hout. vm_compute. auto.
Defined.

Lemma output_well_formed_witness :
  ∃ ms, Forall valid_message ms ∧ render <$> ms = [lit "OK"; lit "ORDER_ACCEPTED 2"].
Proof.
  destruct (output_well_formed demo_server demo_trading 5 (session_of demo_trading 5)
    demo_idle demo_vacant demo_passes) as (ms & _ & Hms & Hl).
  { apply session_of_some. vm_compute. reflexivity. }
  exists ms. split; [exact Hms|]. apply (f_equal fst) in Hl. cbn [fst] in Hl. rewrite <-Hl.
  vm_compute. reflexivity.
Defined.


(** A slow client: 5 takes two bytes at a time. *)
Definition demo_slow : Server EventLoop Script :=
  let k := kern demo_trading in
  final (send_to 5 (lit "hello")
    (set_kern (mkScript EAGAIN (sc_open k) (sc_traffic k)
       [(5, SendUpTo 2); (5, SendFail EAGAIN); (5, SendUpTo 2); (5, SendFail EAGAIN)]%Z
       [] [] [] [] 1000 [] ∅) demo_trading)).

Definition demo_writable (s : Server EventLoop Script) : Server EventLoop Script := final (on_writable 5 s).

Lemma demo_slow_inv : inv demo_slow.
Proof.
  unfold demo_slow. set (s := set_kern _ demo_trading).
  assert (inv s) as Hinv by (apply inv_kern; [exact demo_trading_inv|reflexivity]).
  destruct (send_to 5 (lit "hello") s) as [[[] s']| | |] eqn:Hrun; try exact demo_trading_inv;
    try apply demo_idle. cbn [final].
  apply (wp_elim (OV := False) _ _ _ _ _ (send_to_spec (OV := False) 5 (lit "hello") s Hinv ltac:(done)) Hrun).
Qed.

Lemma demo_writable_step s :
  bool_decide (pending (session_of s 5) = []
    ∨ 0 < (sys_send 5 (pending (session_of s 5)) (kern s)).1)%Z = true →
  match on_writable 5 s with Done _ => true | _ => false end = true →
  writable 5 s (demo_writable s).
Proof.
  unfold demo_writable. intros Hs%bool_decide_eq_true Hrun. split.
  - intros c Hc Hp. unfold session_of in Hs. rewrite Hc in Hs. by destruct Hs.
  - by destruct (on_writable 5 s) as [[[] ?]| | |].
Qed.

