(* ===== verification/ServerFills.v ===== *)
(** * ServerFills: no client trades more than it ordered

    The accounts of ExchangeFills.v, read off the bytes of the connections of
    the running server. *)

From S2P Require Import Prelude CxxString Framing MessageParser OrderBook OrderBookSpec Kernel EventLoop.
From S2P Require Import SocketUtils ClientSession TcpServer ExchangeServer ExchangeSpec ExchangeTrace.
From S2P Require Import ExchangeMessages ExchangeFills ServerInv ServerOutput ServerProtocol ServerTrace.
From S2P Require Import ServerLoop ServerTheorems ServerHistory.

Section Fills.
Context `{!Kernel K, !KernelView K, !KernelLaws K}.
Context `{!EventLoopI K L, !EventLoopLaws K L} `{!HashOrder (Server L K), !HashOrderLaws (Server L K)}.

Implicit Types s : Server L K.

(** C5: nobody is overfilled: in every state the main loop reaches, for each
    connected client, side, instrument and price, the quantities of the BOUGHT
    (or SOLD) lines in the bytes sent to it and pending, and the quantity of
    its orders that still rest in the book, together are at most the sum of
    the quantities of the valid BUY (or SELL) lines received from it. *)
Theorem never_overfilled s0 s fd c side i p :
  idle s0 → vacant s0 → rtc pass s0 s → sessions_ s !! fd = Some c →
  (told side i p (sent (kern s) fd ++ pending c) + holding (levels (book_ s)) fd side i p
   ≤ ordered side i p (chomp_cr <$> (lines_of (received (kern s) fd)).1))%Z.
Proof.
  intros Hidle Hv Hr Hfd. destruct (reachable_accounted s0 s Hidle Hv Hr) as (tr & Hsteps & Hall).
  destruct (Hall fd c Hfd) as (-> & Hreq & _). destruct (steps_within tr (view s) Hsteps) as [_ Hin].
  etrans; [|by apply ordered_prefix]. apply (Hin fd). exists (client_of c). by apply view_agrees.
Qed.

End Fills.

(** ** Witness *)

#[local] Existing Instances demo_platform demo_order demo_order_laws.

(** 4 sells 5, and 5 buys 3 of them. *)
Definition fills_script : Script :=
  let addr := mkSockaddr 16777343 4660 in
  mkScript EAGAIN {[3%Z]} ∅ []
    [(4%Z, RecvData (lit "LOGIN ann" ++ [LF] ++ lit "SELL JNST 5 10" ++ [LF]));
     (5%Z, RecvData (lit "LOGIN bob" ++ [LF] ++ lit "BUY JNST 3 10" ++ [LF]))]
    [AcceptFd 4 addr; AcceptFd 5 addr]
    [{[3%Z := POLLIN]}; {[4%Z := POLLIN]}; {[5%Z := POLLIN]}]
    [] 1000 (repeat false 10) ∅.

Definition fills_server : Server EventLoop Script := set_kern fills_script demo_server.
Definition fills_traded : Server EventLoop Script := after_pass (after_pass (after_pass fills_server)).

Lemma fills_passes : rtc pass fills_server fills_traded.
Proof.
  eapply rtc_l; [|eapply rtc_l; [|eapply rtc_l; [|apply rtc_refl]]].
  - instantiate (1 := after_pass fills_server). vm_compute. reflexivity.
  - instantiate (1 := after_pass (after_pass fills_server)). vm_compute. reflexivity.
  - vm_compute. reflexivity.
Qed.

Lemma never_overfilled_witness :
  let t := sent (kern fills_traded) 4 ++ pending (session_of fills_traded 4) in
  (told Side_SELL (lit "JNST") 10 t + holding (levels (book_ fills_traded)) 4 Side_SELL (lit "JNST") 10 ≤ 5)%Z
  ∧ told Side_SELL (lit "JNST") 10 t = 3%Z
  ∧ holding (levels (book_ fills_traded)) 4 Side_SELL (lit "JNST") 10 = 2%Z.
Proof.
  split; [|vm_compute; auto].
  refine (Z.le_trans _ _ _ (never_overfilled fills_server fills_traded 4 (session_of fills_traded 4)
    Side_SELL (lit "JNST") 10 _ _ fills_passes _) _).
  - apply idle_kern; [exact demo_idle|reflexivity].
  - by split.
  - apply session_of_some. vm_compute. reflexivity.
  - vm_compute. discriminate.
Defined.
