(* ===== verification/ServerEquiv.v ===== *)
(** * ServerEquiv: clients cannot tell servers apart

    The abstract exchange is deterministic, so what clients are told depends on
    the requests only: not on the back end of the event loop, not on the order
    in which hash tables are traversed, not on how the kernel cuts the output
    into pieces, as long as the sender of the request stays connected. *)

From S2P Require Import Prelude CxxString Framing MessageParser OrderBook OrderBookSpec Kernel EventLoop.
From S2P Require Import SocketUtils ClientSession TcpServer ExchangeServer ExchangeSpec ExchangeTrace.
From S2P Require Import ServerInv ServerOutput ServerProtocol ServerLoop ServerTheorems.

(** ** The specification is deterministic *)

Lemma spec_add_proper lb1 lb2 owner i side q p :
  level_equiv lb1 lb2 →
  let '(id1, l1, xs1) := spec_add lb1 owner i side q p in
  let '(id2, l2, xs2) := spec_add lb2 owner i side q p in
  id1 = id2 ∧ xs1 = xs2 ∧ level_equiv l1 l2.
Proof.
  intros [Hn Hl]. unfold spec_add. rewrite Hl, Hn. destruct (fill q _) as [[l r] fs]. split_and!; [done|done|].
  split; [done|]. intros s0 i0 p0. cbn. destruct (0 <? r)%Z; unfold set_level; repeat case_decide; by rewrite ?Hl.
Qed.

(** No id is held by two owners. *)
Definition single_owner (lb : LevelBook) : Prop :=
  ∀ id o1 o2, holds lb id o1 → holds lb id o2 → o1 = o2.

Lemma wf_single_owner b : book_wf b → single_owner (levels b).
Proof.
  intros Hwf id o1 o2 (s1 & i1 & p1 & q1 & H1) (s2 & i2 & p2 & q2 & H2).
  apply list_elem_of_fmap in H1 as (n1 & E1 & [_ H1]%list_elem_of_filter).
  apply list_elem_of_fmap in H2 as (n2 & E2 & [_ H2]%list_elem_of_filter).
  injection E1 as I1 -> _. injection E2 as I2 -> _. by destruct (wf_unique b _ _ _ _ Hwf H1 H2) as [_ ->]; [congruence|].
Qed.

Lemma holds_proper lb1 lb2 id owner : level_equiv lb1 lb2 → holds lb1 id owner → holds lb2 id owner.
Proof. intros [_ Hl] (s & i & p & q & H). exists s, i, p, q. by rewrite <-Hl. Qed.

Lemma spec_cancel_det lb1 lb2 id requester r1 r2 :
  level_equiv lb1 lb2 → single_owner lb1 →
  spec_cancel lb1 id requester r1 → spec_cancel lb2 id requester r2 →
  match r1, r2 with inl e1, inl e2 => e1 = e2 | inr l1, inr l2 => level_equiv l1 l2 | _, _ => False end.
Proof.
  intros Heq Huniq H1 H2. assert (∀ owner, holds lb2 id owner → holds lb1 id owner) as Hback.
  { intros owner. by apply holds_proper. }
  destruct H1 as [Hn1|o1 Ho1 Hne1|Ho1], H2 as [Hn2|o2 Ho2 Hne2|Ho2]; try done.
  - by destruct (Hn1 o2); apply Hback.
  - by destruct (Hn1 requester); apply Hback.
  - by destruct (Hn2 o1); apply (holds_proper lb1).
  - by destruct (Huniq id o1 requester Ho1 (Hback _ Ho2)).
  - by destruct (Hn2 requester); apply (holds_proper lb1).
  - by destruct (Huniq id o2 requester (Hback _ Ho2) Ho1).
  - destruct Heq as [Hn Hl]. split; [done|]. intros s i p. cbn. by rewrite Hl.
Qed.

Lemma notices_clients x y xs fd : ex_clients x = ex_clients y → notices x xs fd = notices y xs fd.
Proof.
  intros Heq. unfold notices. f_equal. apply list_fmap_ext. intros _ e _. unfold notice, also, subscribed. by rewrite Heq.
Qed.

(** The same request, to the same exchange. *)
Lemma serves_det x y fd cl cmd x' y' d e :
  exchange_equiv x y → single_owner (ex_book x) → (is_Some (cl_login cl) → cl_role cl = Role_TRADER) →
  serves x fd cl cmd x' d [] → serves y fd cl cmd y' e [] →
  exchange_equiv x' y' ∧ ∀ f, d f = e f.
Proof.
  intros [Hc Hb] Huniq Hrole H1 H2.
  remember [] as none eqn:Hnone in H1. destruct H1; inversion H2; subst; try congruence.
  all: try (rewrite !elem_of_cons, elem_of_nil in *; naive_solver congruence).
  all: try (assert (cl_role cl = Role_TRADER) by (apply Hrole; by eexists); congruence).
  all: try (split; [split; cbn; by rewrite ?Hc|by intros; simplify_eq]).
  all: try (match goal with E1 : cmd_args _ = [?a], E2 : cmd_args _ = [?b] |- _ =>
    assert (a = b) as -> by congruence end).
  all: try (match goal with
    | C1 : spec_cancel _ _ _ _, C2 : spec_cancel _ _ _ _ |- _ => pose proof (spec_cancel_det _ _ _ _ _ _ Hb Huniq C1 C2) end).
  all: try (exfalso; rewrite ?Hc in *; naive_solver).
  - done.
  - split; [split; cbn; by rewrite ?Hc|done].
  - rewrite app_nil_r in *.
    pose proof (spec_add_proper _ _ fd (cmd_instrument cmd) (side_of (cmd_type cmd)) (cmd_quantity cmd) (cmd_price cmd) Hb) as Hp.
    match goal with E1 : spec_add (ex_book x) _ _ _ _ _ = _, E2 : spec_add (ex_book y) _ _ _ _ _ = _ |- _ => rewrite E1, E2 in Hp end.
    destruct Hp as (-> & -> & Hl). split; [done|]. intros f. unfold also. by rewrite (notices_clients x y).
  - split; [done|]. simplify_eq/=. done.
  - done.
Qed.

(** ** Two servers *)

#[local] Instance must_return : Tolerance := False.

Section One.
Context `{!Kernel K, !KernelView K, !KernelLaws K}.
Context `{!EventLoopI K L, !EventLoopLaws K L} `{!HashOrder (Server L K), !HashOrderLaws (Server L K)}.

(** Handling a line, when the sender stays connected. *)
Lemma handle_served fd c line (s : Server L K) :
  inv s → sessions_ s !! fd = Some c → (str_size line ≤ kMaxLineBytes + kReadChunk)%Z →
  (next_order_id_ (book_ s) < LONG_MAX)%Z →
  ∃ s' x' d quits, handle_message fd line s = Done (tt, s') ∧ outcome_of fd quits x' d s s'
    ∧ (is_Some (sessions_ s' !! fd) → serves (view s) fd (client_of c) (parse line) x' d []).
Proof.
  intros Hinv Hfd Hline Hlt.
  destruct (wp_done_inv _ _ _ (handle_message_spec fd c line s Hinv Hfd Hline ltac:(lia)))
    as ([] & s' & Hrun & _ & x' & d & lost & Hserves & Ho & Hlost).
  eexists s', x', d, _. split_and!; [done|exact Ho|]. intros Hsome. by rewrite <-(Hlost Hsome).
Qed.

(** What the outcome says about the view. *)
Lemma outcome_view fd quits x' d (s s' : Server L K) :
  outcome_of fd quits x' d s s' →
  ex_clients (view s') = filter (λ p, p.1 ∈ dom (sessions_ s')) (ex_clients x').
Proof.
  intros Ho. apply map_eq. intros f. cbn. rewrite lookup_fmap, map_lookup_filter.
  destruct (sessions_ s' !! f) as [c'|] eqn:Hf; cbn.
  - destruct (oc_session _ _ _ _ _ _ Ho f c' Hf) as (c & _ & -> & _). cbn. rewrite option_guard_True; [done|].
    cbn. by eapply elem_of_dom_2.
  - destruct (ex_clients x' !! f); [|done]. cbn. rewrite option_guard_False; [done|]. cbn. by rewrite not_elem_of_dom.
Qed.

End One.

Section Two.
Context `{!Kernel K1, !KernelView K1, !KernelLaws K1} `{!EventLoopI K1 L1, !EventLoopLaws K1 L1}.
Context `{!HashOrder (Server L1 K1), !HashOrderLaws (Server L1 K1)}.
Context `{!Kernel K2, !KernelView K2, !KernelLaws K2} `{!EventLoopI K2 L2, !EventLoopLaws K2 L2}.
Context `{!HashOrder (Server L2 K2), !HashOrderLaws (Server L2 K2)}.

(** The same orders rest with the same clients connected. *)
Lemma connected_equiv (s1 : Server L1 K1) (s2 : Server L2 K2) lb1 lb2 :
  dom (sessions_ s1) = dom (sessions_ s2) → level_equiv lb1 lb2 →
  level_equiv (connected_levels s1 lb1) (connected_levels s2 lb2).
Proof.
  intros Hdom [Hn Hl]. split; [done|]. intros side i p. cbn. rewrite Hl. apply list_filter_iff. intros e.
  by rewrite <-!elem_of_dom, Hdom.
Qed.

(** C11: clients cannot tell servers apart unless a connection breaks: take two
    servers on different kernels, with different back ends and hash tables,
    that stand for the same abstract exchange; both get the same line from
    the same client.  Both return, and provided that the sender is still
    connected to both afterwards, every client that is then connected to both
    has been told the same and has the same role, name and subscriptions; if
    moreover the same clients are connected to both, the servers stand for the
    same exchange again.  (Without the proviso it fails: a server that drops
    the sender while acknowledging it announces only the first execution.) *)
Theorem transport_independent fd line (s1 : Server L1 K1) (s2 : Server L2 K2) c1 c2 :
  inv s1 → inv s2 → exchange_equiv (view s1) (view s2) →
  sessions_ s1 !! fd = Some c1 → sessions_ s2 !! fd = Some c2 →
  (str_size line ≤ kMaxLineBytes + kReadChunk)%Z → (next_order_id_ (book_ s1) < LONG_MAX)%Z →
  ∃ s1' s2', handle_message fd line s1 = Done (tt, s1') ∧ handle_message fd line s2 = Done (tt, s2')
    ∧ (is_Some (sessions_ s1' !! fd) → is_Some (sessions_ s2' !! fd) →
       (∀ f a1 a2, sessions_ s1' !! f = Some a1 → sessions_ s2' !! f = Some a2 →
          client_of a1 = client_of a2
          ∧ ∃ b1 b2 told, sessions_ s1 !! f = Some b1 ∧ sessions_ s2 !! f = Some b2
              ∧ stream s1' f a1 = stream s1 f b1 ++ told ∧ stream s2' f a2 = stream s2 f b2 ++ told)
       ∧ (dom (sessions_ s1') = dom (sessions_ s2') → exchange_equiv (view s1') (view s2'))).
Proof.
  intros Hinv1 Hinv2 Heq Hc1 Hc2 Hline Hlt.
  assert (client_of c1 = client_of c2) as Hcl.
  { destruct Heq as [Hcs _]. apply (f_equal (lookup fd)) in Hcs. cbn in Hcs. rewrite !lookup_fmap, Hc1, Hc2 in Hcs.
    exact (inj Some _ _ Hcs). }
  assert (next_order_id_ (book_ s2) < LONG_MAX)%Z as Hlt2 by (destruct Heq as [_ [Hn _]]; cbn in Hn; lia).
  destruct (handle_served fd c1 line s1 Hinv1 Hc1 Hline Hlt) as (s1' & x1 & d1 & q1 & Hrun1 & Ho1 & Hs1).
  destruct (handle_served fd c2 line s2 Hinv2 Hc2 Hline Hlt2) as (s2' & x2 & d2 & q2 & Hrun2 & Ho2 & Hs2).
  exists s1', s2'. split_and!; [done..|]. intros Hin1 Hin2. specialize (Hs1 Hin1). specialize (Hs2 Hin2).
  rewrite <-Hcl in Hs2. assert (is_Some (cl_login (client_of c1)) → cl_role (client_of c1) = Role_TRADER) as Hrole.
  { destruct (inv_session s1 fd c1 Hinv1 Hc1) as (Hcore & _). intros [u Hu]. cbn in Hu |- *. apply (core_trader fd c1 Hcore).
    by destruct (cs_logged_in c1). }
  assert (single_owner (ex_book (view s1))) as Huniq by apply wf_single_owner, (core_book s1 (inv_core s1 Hinv1)).
  destruct (serves_det _ _ _ _ _ _ _ _ _ Heq Huniq Hrole Hs1 Hs2) as [[Hcs Hlv] Hd].
  split.
  - intros f a1 a2 Ha1 Ha2. destruct (oc_session _ _ _ _ _ _ Ho1 f a1 Ha1) as (b1 & Hb1 & Hx1 & _ & Hst1 & _).
    destruct (oc_session _ _ _ _ _ _ Ho2 f a2 Ha2) as (b2 & Hb2 & Hx2 & _ & Hst2 & _). split.
    + rewrite Hcs, Hx2 in Hx1. symmetry. exact (inj Some _ _ Hx1).
    + exists b1, b2, (d1 f). split_and!; [done..|]. by rewrite Hst2, Hd.
  - intros Hdom. split; [by rewrite (outcome_view _ _ _ _ _ _ Ho1), (outcome_view _ _ _ _ _ _ Ho2), Hcs, Hdom|].
    cbn. rewrite (oc_book _ _ _ _ _ _ Ho1), (oc_book _ _ _ _ _ _ Ho2). by apply connected_equiv.
Qed.

End Two.

(** ** Witness

    The demonstration server, and one whose tables are traversed backwards and
    whose kernel takes only part of the output. *)

#[local] Existing Instances demo_platform demo_order demo_order_laws.

Definition backwards : HashOrder (Server EventLoop Script) := {|
  fd_order := λ _ X, reverse (elements X);
  name_order := λ _ X, reverse (elements X)
|}.

Lemma backwards_laws : HashOrderLaws (Server EventLoop Script) (HashOrder0 := backwards).
Proof. split; intros s X; apply reverse_Permutation. Qed.

Definition demo_partial : Server EventLoop Script :=
  set_kern (mkScript EAGAIN (sc_open (kern demo_trading)) (sc_traffic (kern demo_trading))
              [(4%Z, SendUpTo 3); (4%Z, SendFail EINTR); (7%Z, SendUpTo 1); (7%Z, SendFail EAGAIN);
               (7%Z, SendFail EAGAIN)] [] [] [] [] 1000 [] ∅)
    demo_trading.

Lemma demo_partial_inv : inv demo_partial.
Proof. apply idle_kern; [exact demo_trading_idle|reflexivity]. Qed.

Lemma view_set_kern k (s : Server EventLoop Script) : exchange_equiv (view s) (view (set_kern k s)).
Proof. by destruct s. Qed.

Lemma transport_independent_witness :
  ∃ s1' s2', handle_message 4 buy_line demo_trading = Done (tt, s1')
    ∧ handle_message (HashOrder0 := backwards) 4 buy_line demo_partial = Done (tt, s2')
    ∧ exchange_equiv (view s1') (view s2')
    ∧ sent (kern s2') 7 = sent (kern demo_trading) 7 ++ lit "T".
Proof.
  destruct (transport_independent (HashOrder1 := backwards) (HashOrderLaws1 := backwards_laws) 4 buy_line
    demo_trading demo_partial (session_of demo_trading 4) (session_of demo_partial 4))
    as (s1' & s2' & H1 & H2 & Hsame).
  - exact demo_trading_inv.
  - exact demo_partial_inv.
  - exact (view_set_kern _ _).
  - apply session_of_some. vm_compute. reflexivity.
  - apply session_of_some. vm_compute. reflexivity.
  - vm_compute. discriminate.
  - vm_compute. reflexivity.
  - exists s1', s2'. split; [exact H1|]. split; [exact H2|].
    split; [|rewrite (final_done _ _ _ H2); vm_compute; reflexivity]. apply Hsame.
    + rewrite (final_done _ _ _ H1). apply (proj1 (bool_decide_eq_true (is_Some _))). vm_compute. reflexivity.
    + rewrite (final_done _ _ _ H2). apply (proj1 (bool_decide_eq_true (is_Some _))). vm_compute. reflexivity.
    + rewrite (final_done _ _ _ H1), (final_done _ _ _ H2). vm_compute. reflexivity.
Defined.
