(* ===== verification/ServerResources.v ===== *)
(** * ServerResources: the server's descriptors

    Whatever clients and kernel do, the server keeps account of every
    descriptor: those open are the ones that were open when it started and
    those of connected clients, and it never closes one that is not its own.
    So [main] leaves open exactly what was open before. *)

From S2P Require Import Prelude CxxString MessageParser OrderBook Kernel EventLoop SocketUtils ClientSession.
From S2P Require Import TcpServer ExchangeServer ServerKept ExchangeSpec ServerInv ServerOutput ServerProtocol.
From S2P Require Import ServerTrace ServerLoop ServerTheorems.

Section Resources.
Context `{!Kernel K, !KernelView K, !KernelLaws K}.
Context `{!EventLoopI K L, !EventLoopLaws K L} `{!HashOrder (Server L K)}.

Abbreviation server := (Server L K).
Implicit Types s : server.

(** [B]: the descriptors of others; [X]: just opened ones.  Every other open
    descriptor is a client's or about to be closed, and those of others are
    not touched. *)
Record accounted_but (X B : gset Z) s : Prop := mkAccounted {
  ac_loop : loop_wf (loop_ s);
  ac_known : open_fds (kern s) ⊆ X ∪ B ∪ dom (sessions_ s) ∪ list_to_set (closed_fds_ s);
  ac_others x : x ∈ B → x ∈ open_fds (kern s) ∧ x ∉ closed_fds_ s ∧ sessions_ s !! x = None
}.

Definition accounted (B : gset Z) : server → Prop := accounted_but ∅ B.

Section Steps.
Context (X B : gset Z).

Abbreviation P := (accounted_but X B).

Lemma acc_wiring s s' : wiring s' = wiring s → P s → P s'.
Proof. unfold wiring. intros [= H1 H2 H3 H4 _] []. split; rewrite ?H1, ?H2, ?H3, ?H4; done. Qed.

Lemma acc_kern k s : open_fds k = open_fds (kern s) → P s → P (set_kern k s).
Proof. intros Ho []. split; cbn; rewrite ?Ho; done. Qed.

Lemma acc_call {A} (f : K → A * K) : (∀ k, open_fds (f k).2 = open_fds k) → maintains P (sys f).
Proof. intros Hf. apply maintains_sys. intros s. apply acc_kern, Hf. Qed.

(** Entries of the table may change and may be added, outside of [B]. *)
Lemma acc_sessions m s :
  dom (sessions_ s) ⊆ dom m → (∀ x, x ∈ B → m !! x = None) → P s → P (set_sessions m s).
Proof.
  intros Hd Hm [Hl Hk Ho]. split; cbn; [done|set_solver|]. intros x Hx. destruct (Ho x Hx) as (? & ? & _). auto.
Qed.

Lemma acc_assign fd g : maintains P (assign fd g).
Proof.
  intros s a s'. unfold assign. destruct (sessions_ s !! fd) as [c|] eqn:Hfd; [|done]. intros [= _ <-] HP.
  apply acc_sessions; [set_solver| |done]. intros x Hx. destruct (ac_others _ _ _ HP x Hx) as (_ & _ & Hn).
  rewrite lookup_insert_ne; [done|]. intros ->. by rewrite Hn in Hfd.
Qed.

Lemma acc_ref fd : fd ∉ B → maintains P (session_ref fd).
Proof.
  intros Hfd s a s'. unfold session_ref. destruct (sessions_ s !! fd) eqn:Hn; [by intros [= _ <-]|].
  intros [= _ <-] HP. apply acc_sessions; [set_solver| |done]. intros x Hx.
  destruct (ac_others _ _ _ HP x Hx) as (_ & _ & ?). rewrite lookup_insert_ne; [done|]. by intros ->.
Qed.

Lemma acc_drop fd reason : maintains P (drop_session fd reason).
Proof.
  intros s a s' [[_ ->]|(Hfd & l & k & Hr & Hw)]%drop_session_cases; [done|]. intros [Hl Hk Ho].
  destruct (law_loop_remove (loop_ s) fd (kern s) Hl) as (l' & k' & Hr' & Hl' & (Hop & _) & _).
  rewrite Hr in Hr'. injection Hr' as <- <-. unfold wiring in Hw. injection Hw as H1 H2 H3 H4 _.
  split; rewrite ?H1, ?H2, ?H3, ?H4, ?Hop; [done| |].
  - rewrite dom_delete_L, list_to_set_app_L. cbn. intros x Hx. specialize (Hk x Hx). destruct (decide (x = fd)); set_solver.
  - intros x Hx. destruct (Ho x Hx) as (? & ? & Hn). split_and!; [done| |].
    + apply not_elem_of_app. split; [done|]. apply not_elem_of_cons. split; [|set_solver].
      intros ->. rewrite Hn in Hfd. by destruct Hfd.
    + rewrite lookup_delete_None. auto.
Qed.

Lemma acc_update fd r w : maintains P (lift_update fd r w).
Proof.
  intros s a s' Hrun HP. destruct (law_loop_update (loop_ s) fd r w (kern s) (ac_loop _ _ _ HP))
    as (ok & l' & k' & Hu & Hl' & (Ho & _) & _). unfold lift_update in Hrun. rewrite Hu in Hrun. injection Hrun as _ <-.
  destruct HP. split; cbn; rewrite ?Ho; done.
Qed.

Lemma acc_add fd r w : maintains P (lift_add fd r w).
Proof.
  intros s a s' Hrun HP. destruct (law_loop_add (loop_ s) fd r w (kern s) (ac_loop _ _ _ HP))
    as (ok & l' & k' & Hu & Hl' & (Ho & _) & _). unfold lift_add in Hrun. rewrite Hu in Hrun. injection Hrun as _ <-.
  destruct HP. split; cbn; rewrite ?Ho; done.
Qed.

Lemma acc_send fd data : maintains P (sys (sys_send fd data)).
Proof. apply acc_call. intros k. destruct (sys_send fd data k) eqn:H. by apply law_send in H as (_ & ? & _). Qed.

Lemma acc_recv fd cap : maintains P (sys (sys_recv fd cap)).
Proof. apply acc_call. intros k. destruct (sys_recv fd cap k) as [[n buf] k'] eqn:H. by apply law_recv in H as ((? & _) & _). Qed.

Lemma acc_shutdown fd how : maintains P (sys (λ k, (tt, sys_shutdown fd how k))).
Proof. apply acc_call. intros k. apply law_shutdown. Qed.

End Steps.

(** Closing one of the just opened descriptors. *)
Lemma acc_close X B fd s : fd ∉ B → accounted_but ({[fd]} ∪ X) B s → accounted_but X B (set_kern (sys_close fd (kern s)) s).
Proof.
  intros Hfd [Hl Hk Ho]. destruct (law_close fd (kern s)) as (Hc & _). split; cbn; rewrite ?Hc; [done|set_solver|].
  intros x Hx. destruct (Ho x Hx) as (? & ? & ?). split_and!; [|done|done]. set_solver.
Qed.

Lemma acc_admit B fd peer : fd ∉ B → ensures (accounted_but {[fd]} B) (admit_client fd peer) (accounted B).
Proof.
  intros Hfd. unfold admit_client. apply (ensures_bind _ _ (accounted_but {[fd]} B)); [apply maintains_gets|]. intros size.
  apply (ensures_bind _ _ (accounted_but {[fd]} B)).
  { apply maintains_when, maintains_bind; [|auto with maintains]. apply acc_call. intros k.
    apply (set_send_buffer_quiet fd size k). }
  intros _. cbv zeta. apply (ensures_bind _ _ (λ s, accounted B s ∧ fd ∈ dom (sessions_ s))).
  { intros s a s' [= _ <-] HP. assert (∀ s1 : server, fd ∈ dom (sessions_ s1) →
      accounted_but {[fd]} B s1 → accounted B s1 ∧ fd ∈ dom (sessions_ s1)) as Hin.
    { intros s1 Hd [? Hk ?]. split; [|done]. split; [done|set_solver|done]. }
    destruct (sessions_ s !! fd) eqn:Hn; [apply Hin; [by eapply elem_of_dom_2|done]|].
    apply Hin; [cbn; set_solver|]. apply acc_sessions; [set_solver| |done]. intros x Hx.
    destruct (ac_others _ _ _ HP x Hx) as (_ & _ & ?). rewrite lookup_insert_ne; [done|]. by intros ->. }
  intros _. apply (ensures_bind _ _ (accounted B)); [intros s a s' Hrun [HP _]; by eapply acc_add|]. intros ok.
  apply ensures_if.
  - apply (ensures_bind _ _ (accounted_but {[fd]} B)).
    + intros s a s' [= _ <-] [Hl Hk Ho]. split; cbn; [done| |].
      * rewrite dom_delete_L. intros x Hx. specialize (Hk x Hx). destruct (decide (x = fd)); set_solver.
      * intros x Hx. destruct (Ho x Hx) as (? & ? & ?). split_and!; [done|done|]. rewrite lookup_delete_None. auto.
    + intros _ s a s' [= _ <-] HP. apply acc_close; [done|]. by rewrite (right_id_L ∅ (∪)).
  - apply maintains_bind; [by apply acc_ref|]. intros c. apply maintains_bind; [apply maintains_gets|]. intros n.
    apply maintains_wiring; [apply acc_wiring|]. unfold log_connection_count, print. auto with keeps.
Qed.

Lemma acc_clock X B : maintains (accounted_but X B) (sys monotonic_seconds).
Proof. apply acc_call. intros k. apply law_clock. Qed.

Lemma acc_pause B : maintains (accounted B) pause_accepting.
Proof.
  unfold pause_accepting. apply maintains_bind; [apply maintains_get|]. intros s. apply ensures_if; [auto with maintains|].
  apply maintains_bind; [apply acc_clock|]. intros now.
  apply maintains_bind; [apply maintains_wiring; [apply acc_wiring|auto with keeps]|]. intros _.
  apply maintains_bind; [apply acc_update|]. intros _. apply maintains_bind; [apply maintains_get|]. intros s1.
  apply maintains_wiring; [apply acc_wiring|]. unfold eprint. auto with keeps.
Qed.

Lemma acc_accept_loop B fuel : maintains (accounted B) (accept_loop fuel).
Proof.
  induction fuel as [|fuel IH]; cbn [accept_loop]; [auto with maintains|].
  intros s r s' Hrun HP. unfold bind at 1, lift_accept in Hrun.
  destruct (accept_connection (listener_ s) (kern s)) as [[a t] k] eqn:Ha. cbn [obind] in Hrun.
  set (s1 := set_kern k (set_listener t s)) in Hrun.
  apply accept_connection_spec in Ha as (_ & _ & [(Hneg & Ho & _)|(Hpos & Hfresh & Ho & _)]).
  - rewrite (proj2 (Z.ltb_lt _ 0)) in Hrun by done.
    assert (accounted B s1) as H1 by (destruct HP; split; cbn; rewrite ?Ho; done).
    refine (_ s1 r s' Hrun H1). apply ensures_if; [auto with maintains|]. apply ensures_if; [apply acc_pause|].
    apply maintains_wiring; [apply acc_wiring|]. unfold eprint. auto with keeps.
  - rewrite (proj2 (Z.ltb_ge _ 0)) in Hrun by done. destruct HP as [Hl Hk Hoth].
    assert (ac_fd a ∉ B) as HB by (intros Hin; by destruct (Hoth _ Hin) as [? _]).
    assert (accounted_but {[ac_fd a]} B s1) as H1.
    { split; cbn; rewrite ?Ho; [done|set_solver|]. intros x Hx. destruct (Hoth x Hx) as (? & ? & ?). set_solver. }
    refine (ensures_bind _ _ (accounted B) _ _ _ _ s1 r s' Hrun H1); [by apply acc_admit|]. intros _. exact IH.
Qed.

Lemma acc_reap B : maintains (accounted B) reap_closed.
Proof.
  intros s a s' Hrun HP. unfold reap_closed in Hrun. revert Hrun. unfold bind at 1. cbn [get obind].
  assert (∀ l s1, closed_fds_ s1 = closed_fds_ s → l ⊆ closed_fds_ s →
    accounted_but ∅ B s1 → ∀ b s2, for_each l close_fd s1 = Done (b, s2) →
    closed_fds_ s2 = closed_fds_ s ∧ accounted_but ∅ B s2
    ∧ open_fds (kern s2) = open_fds (kern s1) ∖ list_to_set l) as Hall.
  { induction l as [|fd l IH]; intros s1 Hc Hsub H1 b s2; cbn [for_each].
    - intros [= _ <-]. split_and!; [done|done|]. cbn. set_solver.
    - unfold bind, close_fd, sys. cbn [obind]. intros Hrun. destruct (law_close fd (kern s1)) as (Ho & _).
      apply IH in Hrun as (Hc2 & H2 & Ho2); [|done|set_solver|].
      + split_and!; [done|done|]. rewrite Ho2. cbn. rewrite Ho. set_solver.
      + destruct H1 as [Hl Hk Hoth]. split; cbn; rewrite ?Ho; [done|set_solver|]. intros x Hx.
        destruct (Hoth x Hx) as (? & Hn & ?). split_and!; [|done|done]. rewrite Hc in Hn. set_solver. }
  unfold bind. destruct (for_each (closed_fds_ s) close_fd s) as [[b s1]| | |] eqn:Hr; try done. cbn. intros [= _ <-].
  destruct (Hall _ _ eq_refl (reflexivity _) HP _ _ Hr) as (Hc & [Hl Hk Hoth] & Ho). split; cbn; [done| |].
  - rewrite Hc in Hk. clear -Hk Ho. intros x Hx. specialize (Hk x Hx). rewrite Ho in Hx. set_solver.
  - intros x Hx. destruct (Hoth x Hx) as (? & _ & ?). split_and!; [done|set_solver|done].
Qed.

#[global] Instance accounted_kept B : Kept (accounted B) (λ fd, fd ∉ B) (λ _, True).
Proof.
  unfold accounted. split.
  - apply acc_wiring.
  - intros fd g _. apply acc_assign.
  - apply acc_ref.
  - intros fd m. apply (robust_send_to _ _ (λ _, True)); eauto using acc_wiring, acc_assign, acc_drop, acc_send, acc_update.
  - intros fd. apply (robust_writable _ _ (λ _, True)); eauto using acc_wiring, acc_assign, acc_drop, acc_send, acc_update.
  - apply acc_update.
  - apply acc_clock.
  - apply acc_call. intros k. apply law_stopped.
  - apply maintains_bind; [apply maintains_gets|]. intros k. apply acc_accept_loop.
  - intros fd _. apply acc_recv.
  - intros fd g _. apply acc_assign.
  - intros fd reason _. apply (robust_close _ _ (λ _, True)); eauto using acc_assign, acc_drop, acc_shutdown, acc_update.
  - intros fd reason _. apply acc_drop.
  - apply acc_reap.
Qed.

Lemma accounted_iteration B : maintains (accounted B) iteration.
Proof.
  apply (kept_iteration _ _ _). intros s n es s' Hw HP. split.
  - destruct (law_loop_wait (loop_ s) 1000 (kern s) (ac_loop _ _ _ HP)) as (n' & es' & l' & k' & Hl & Hwf & _ & Ho & _).
    unfold lift_wait in Hw. rewrite Hl in Hw. injection Hw as _ _ <-. destruct HP. split; cbn; rewrite ?Ho; done.
  - intros e _. apply (kept_event _ _ _). intros s1 fd H1 [c Hc]. split; [|done].
    intros Hin. destruct (ac_others _ _ _ H1 fd Hin) as (_ & _ & Hn). by rewrite Hn in Hc.
Qed.

Lemma accounted_passes B s s' : rtc pass s s' → accounted B s → accounted B s'.
Proof. apply maintains_passes, accounted_iteration. Qed.

(** A server without clients accounts for everything that is open. *)
Lemma vacant_accounted s : idle s → vacant s → accounted (open_fds (kern s)) s.
Proof.
  intros (Hinv & _ & Hc) [Hs _]. split; [apply (core_loop s (inv_core s Hinv))|set_solver|].
  intros x Hx. rewrite Hc, Hs. split_and!; [done|set_solver|apply lookup_empty].
Qed.

(** In a state between two passes the account is exact. *)
Lemma accounted_exact B s :
  idle s → accounted B s → open_fds (kern s) = B ∪ dom (sessions_ s) ∧ B ## dom (sessions_ s).
Proof.
  intros (Hinv & _ & Hc) [_ Hk Ho]. rewrite Hc in Hk. split.
  - apply set_eq. intros x. split; [set_solver|]. intros [Hx|[c Hx]%elem_of_dom]%elem_of_union.
    + by apply Ho.
    + by apply (core_open_session s (inv_core s Hinv)) in Hx as [? _].
  - intros x Hx. rewrite elem_of_dom. destruct (Ho x Hx) as (_ & _ & ->). by intros [? ?].
Qed.

End Resources.

Section Claims.
Context `{!Kernel K, !KernelView K, !KernelLaws K}.
Context `{!EventLoopI K L, !EventLoopLaws K L} `{!HashOrder (Server L K), !HashOrderLaws (Server L K)}.

Abbreviation server := (Server L K).
Implicit Types s : server.

(** C18: the server leaks no descriptor and closes none that is not its own: in
    every state its main loop reaches, the open descriptors are those that
    were open when it started and, apart from them, one per connected client,
    whatever was accepted, refused, dropped or failed in between. *)
Theorem descriptors_accounted s0 s :
  idle s0 → vacant s0 → rtc pass s0 s →
  open_fds (kern s) = open_fds (kern s0) ∪ dom (sessions_ s)
  ∧ open_fds (kern s0) ## dom (sessions_ s).
Proof.
  intros Hidle Hv Hr. apply accounted_exact; [by eapply reachable_idle|].
  eapply accounted_passes; [exact Hr|]. by apply vacant_accounted.
Qed.

End Claims.

(** ** Witness *)

#[local] Existing Instances demo_platform demo_order demo_order_laws.

Lemma descriptors_accounted_witness :
  dom (sessions_ demo_trading) = {[4%Z; 5%Z; 6%Z; 7%Z]}
  ∧ open_fds (kern demo_trading) = {[3%Z]} ∪ dom (sessions_ demo_trading).
Proof.
  destruct (descriptors_accounted demo_server demo_trading demo_idle) as [Ho _].
  - split; reflexivity.
  - exact demo_passes.
  - split; [vm_compute; reflexivity|]. exact Ho.
Defined.
