(* ===== verification/ServerProcess.v ===== *)
(** * ServerProcess: the process around the server

    What holds of the kernel and is kept by every system call ([KernelKept])
    holds in every state of the server, and the server's own two descriptors,
    that of the kqueue and the listening socket, stay what they are. *)

From S2P Require Import Prelude CxxString OrderBook Kernel EventLoop SocketUtils Signals KeptCalls TcpServer.
From S2P Require Import ClientSession ExchangeServer ServerKept ServerInv ServerLoop.

Lemma clock_kept `{!Kernel K} (I : K → Prop) `{!KernelKept I} k : I k → I (monotonic_seconds k).2.
Proof. intros Hk. unfold monotonic_seconds. through_calls I. Qed.

#[export] Hint Extern 1 =>
  (lazymatch goal with |- ?I (monotonic_seconds _).2 => refine (clock_kept I _ _) end) : kernel_kept.

Section Loop.
Context {P : Platform} `{!Kernel K} (I : K → Prop) `{!KernelKept I}.

Lemma kq_apply_rooted l fd r w k : I k → kq_ (kq_apply l fd r w k).1.2 = kq_ l ∧ I (kq_apply l fd r w k).2.
Proof.
  intros Hk. unfold kq_apply. cbv zeta. destruct (_ ++ _) as [|c cs]; [done|]. cbn [kq_ set_kq].
  pose proof (kk_kevent_change (kq_ l) (c :: cs) k Hk) as H. destruct (sys_kevent_change _ _ _) as [n k1].
  by destruct (_ && _).
Qed.

Lemma loop_add_rooted l fd r w k ok l' k' :
  loop_add l fd r w k = Done (ok, l', k') → I k → kq_ l' = kq_ l ∧ I k'.
Proof.
  cbn [loop_add event_loop_i]. unfold add, kq_apply_none. destruct (backend_ l).
  - unfold poll_add, poll_update. intros H Hk. repeat case_match; cbn in H; by simplify_eq.
  - intros [= H] Hk. destruct have_kqueue; [|by simplify_eq].
    pose proof (kq_apply_rooted l fd r w k Hk) as H'. by rewrite H in H'.
Qed.

Lemma loop_update_rooted l fd r w k ok l' k' :
  loop_update l fd r w k = Done (ok, l', k') → I k → kq_ l' = kq_ l ∧ I k'.
Proof.
  cbn [loop_update event_loop_i]. unfold update, kq_apply_none. destruct (backend_ l).
  - unfold poll_update. intros H Hk. repeat case_match; cbn in H; by simplify_eq.
  - intros [= H] Hk. destruct have_kqueue; [|by simplify_eq].
    pose proof (kq_apply_rooted l fd r w k Hk) as H'. by rewrite H in H'.
Qed.

Lemma loop_remove_rooted l fd k l' k' : loop_remove l fd k = Done (l', k') → I k → kq_ l' = kq_ l ∧ I k'.
Proof.
  cbn [loop_remove event_loop_i]. unfold remove, kq_remove_none. destruct (backend_ l).
  - unfold poll_remove. intros H Hk. repeat case_match; cbn in H; by simplify_eq.
  - intros [= H] Hk. destruct have_kqueue; [|by simplify_eq]. unfold kq_remove in H.
    destruct (kq_interest_ l !! fd) as [[r w]|]; [|by simplify_eq]. injection H as <- <-. split; [done|].
    destruct (_ ++ _); eauto with kernel_kept.
Qed.

Lemma loop_wait_rooted l timeout k n es l' k' :
  loop_wait l timeout k = Done (n, es, l', k') → I k → kq_ l' = kq_ l ∧ I k'.
Proof.
  cbn [loop_wait event_loop_i]. unfold wait, kq_wait_none. destruct (backend_ l).
  - intros [= H] Hk. unfold poll_wait in H. destruct (pollfds_ l) as [|p v]; [by simplify_eq|].
    pose proof (kk_poll (p :: v) timeout k Hk) as H1. destruct (sys_poll _ _ _) as [[ready revs] k1].
    destruct (ready <? 0)%Z; [by simplify_eq|]. cbv zeta in H. by destruct (ready =? 0)%Z; simplify_eq.
  - destruct have_kqueue; [|by intros; simplify_eq]. unfold kq_wait. case_decide; [by intros; simplify_eq|].
    cbv zeta. intros Hw Hk. match type of Hw with context [sys_kevent_wait ?a ?b ?c k] =>
      pose proof (kk_kevent_wait a b c k Hk) as H1; destruct (sys_kevent_wait a b c k) as [[ready evs] k1] end.
    destruct (ready <? 0)%Z; [by simplify_eq|]. by destruct (kq_coalesce _ _ _); simplify_eq/=.
Qed.

Lemma new_loop_kept backend k : I k → I (new_loop backend k).2.
Proof. intros Hk. unfold new_loop. destruct have_kqueue; [|done]. destruct backend; [done|]. through_calls I. Qed.

Lemma destroy_loop_kept `{!FdKept I} l k : I k → I (destroy_loop l k).
Proof. intros Hk. unfold destroy_loop. destruct (0 <=? _)%Z; eauto with kernel_kept. Qed.

End Loop.

(** ** The server *)

Section Server.
Context {P : Platform} `{!Kernel K} `{!HashOrder (Server EventLoop K)}.
Context (I : K → Prop) `{!KernelKept I, !FdKept I} (a : Z * Z).

Abbreviation server := (Server EventLoop K).
Implicit Types s : server.

(** The two descriptors. *)
Definition anchors s : Z * Z := (kq_ (loop_ s), lfd s).

Definition rooted s : Prop := I (kern s) ∧ anchors s = a.

Lemma rooted_wiring s s' : wiring s' = wiring s → rooted s → rooted s'.
Proof. unfold wiring, rooted, anchors, lfd. intros [= H1 H2 H3 H4 H5]. by rewrite H2, H3, H5. Qed.

Lemma rooted_call {A} (f : K → A * K) : (∀ k, I k → I (f k).2) → maintains rooted (sys f).
Proof. intros Hf. apply maintains_sys. intros s [Hk Ha]. split; [by apply Hf|done]. Qed.

Lemma rooted_modify (f : server → server) :
  (∀ s, kern (f s) = kern s ∧ anchors (f s) = anchors s) → maintains rooted (modify f).
Proof. intros Hf s b s' [= _ <-] [Hk Ha]. destruct (Hf s) as [H1 H2]. split; [by rewrite H1|by rewrite H2]. Qed.

Lemma rooted_assign fd g : maintains rooted (assign fd g).
Proof. intros s b s'. unfold assign. destruct (sessions_ s !! fd); [by intros [= _ <-]|done]. Qed.

Lemma rooted_ref fd : maintains rooted (session_ref fd).
Proof. intros s b s'. unfold session_ref. destruct (sessions_ s !! fd); by intros [= _ <-]. Qed.

Lemma rooted_add fd r w : maintains rooted (lift_add fd r w).
Proof.
  intros s b s'. unfold lift_add. destruct (loop_add _ _ _ _ _) as [[[ok l] k]| | |] eqn:H; try done.
  intros [= _ <-] [Hk Ha]. apply (loop_add_rooted I) in H as [Hq Hk']; [|done]. split; [done|].
  rewrite <-Ha. unfold anchors. cbn. by rewrite Hq.
Qed.

Lemma rooted_update fd r w : maintains rooted (lift_update fd r w).
Proof.
  intros s b s'. unfold lift_update. destruct (loop_update _ _ _ _ _) as [[[ok l] k]| | |] eqn:H; try done.
  intros [= _ <-] [Hk Ha]. apply (loop_update_rooted I) in H as [Hq Hk']; [|done]. split; [done|].
  rewrite <-Ha. unfold anchors. cbn. by rewrite Hq.
Qed.

Lemma rooted_wait timeout s n es s' : lift_wait timeout s = Done (n, es, s') → rooted s → rooted s'.
Proof.
  unfold lift_wait. destruct (loop_wait _ _ _) as [[[[n' es'] l] k]| | |] eqn:H; try done.
  intros [= _ _ <-] [Hk Ha]. apply (loop_wait_rooted I) in H as [Hq Hk']; [|done]. split; [done|].
  rewrite <-Ha. unfold anchors. cbn. by rewrite Hq.
Qed.

Lemma rooted_drop fd reason : maintains rooted (drop_session fd reason).
Proof.
  intros s b s' [[_ ->]|(_ & l & k & Hr & Hw)]%drop_session_cases; [done|]. intros [Hk Ha].
  apply (loop_remove_rooted I) in Hr as [Hq Hk']; [|done]. unfold wiring in Hw. injection Hw as _ H2 H3 _ H5.
  unfold rooted, anchors, lfd. by rewrite H2, H3, H5, Hq.
Qed.

Lemma accept_connection_kept t k :
  I k → I (accept_connection t k).2 ∧ ts_fd (accept_connection t k).1.2 = ts_fd t.
Proof.
  intros Hk. unfold accept_connection. split; [through_calls I|].
  destruct (sys_accept _ _) as [[n addr] k1]. destruct (n <? 0)%Z; [by repeat case_match|].
  destruct (set_nonblocking n k1) as [[] k2]; [|done]. by destruct (set_tcp_nodelay n k2).
Qed.

Lemma rooted_accept : maintains rooted lift_accept.
Proof.
  intros s b s' Hrun [Hk Ha]. unfold lift_accept in Hrun.
  destruct (accept_connection_kept (listener_ s) (kern s) Hk) as [H1 H2].
  destruct (accept_connection _ _) as [[r t] k]. injection Hrun as _ <-. split; [done|].
  rewrite <-Ha. unfold anchors, lfd. by cbn in *; rewrite H2.
Qed.

Hint Resolve rooted_assign rooted_ref rooted_add rooted_update rooted_drop rooted_accept : maintains.
Hint Extern 1 (ensures rooted (sys _) rooted) => (apply rooted_call; eauto with kernel_kept) : maintains.
Hint Extern 1 (ensures rooted (modify _) rooted) => (apply rooted_modify; by intros) : maintains.

Lemma rooted_print t : maintains rooted (print t).
Proof. unfold print. auto with maintains. Qed.

Lemma rooted_eprint t : maintains rooted (eprint t).
Proof. unfold eprint. auto with maintains. Qed.

Lemma rooted_close fd : maintains rooted (close_fd fd).
Proof. unfold close_fd. apply rooted_call. intros k. apply fk_close. Qed.

Lemma rooted_shutdown fd how : maintains rooted (sys (λ k, (tt, sys_shutdown fd how k))).
Proof. apply rooted_call. intros k. apply fk_shutdown. Qed.

Hint Resolve rooted_print rooted_eprint rooted_close rooted_shutdown : maintains.

Lemma rooted_admit fd peer : maintains rooted (admit_client fd peer).
Proof.
  unfold admit_client, log_connection_count. apply maintains_bind; [auto with maintains|]. intros size.
  apply maintains_bind; [auto 10 with maintains|]. intros _. cbv zeta. apply maintains_bind; [|auto 20 with maintains].
  apply rooted_modify. intros s. by destruct (sessions_ s !! fd).
Qed.

Lemma rooted_pending : maintains rooted accept_pending.
Proof.
  pose proof rooted_admit. assert (maintains rooted pause_accepting) as Hpause.
  { unfold pause_accepting. auto 20 with maintains. }
  assert (∀ fuel, maintains rooted (accept_loop fuel)) as Hloop.
  { induction fuel as [|fuel IH]; cbn [accept_loop]; auto 20 with maintains. }
  unfold accept_pending. auto with maintains.
Qed.

Lemma rooted_reap : maintains rooted reap_closed.
Proof. unfold reap_closed. auto 20 with maintains. Qed.

#[global] Instance rooted_kept : Kept rooted (λ _, True) (λ _, True).
Proof.
  assert (∀ fd g, (∀ c, cs_fd (g c) = cs_fd c) → maintains rooted (assign fd g)) as Ha by eauto using rooted_assign.
  assert (∀ fd data, maintains rooted (sys (sys_send fd data))) as Hs by auto with maintains.
  split; intros; eauto using rooted_wiring, rooted_pending, rooted_reap with maintains.
  - apply (robust_send_to _ _ (λ _, True)); eauto using rooted_wiring, rooted_drop, rooted_update.
  - apply (robust_writable _ _ (λ _, True)); eauto using rooted_wiring, rooted_drop, rooted_update.
  - apply (robust_close _ _ (λ _, True)); eauto using rooted_wiring, rooted_drop, rooted_update, rooted_shutdown.
Qed.

Lemma rooted_iteration : maintains rooted iteration.
Proof.
  apply (kept_iteration _ _ _). intros s n es s' Hw HP. split; [by eapply rooted_wait|].
  intros e _. apply (kept_event _ _ _). by intros s1 fd _ _.
Qed.

Lemma rooted_shutdown_all : maintains rooted shutdown_all.
Proof. pose proof rooted_reap. unfold shutdown_all. auto 20 with maintains. Qed.

End Server.
