(* ===== verification/ServerService.v ===== *)
(** * ServerService: a well-behaved client is served

    [Courteous fd good] describes an environment in which one client behaves:
    it keeps the connection up, never falls more than 16 MiB behind in reading
    what it is sent, and sends lines of at most 64 KiB other than QUIT; [good]
    is an invariant of the kernel that expresses this.  Everything else, in
    particular every other client, may do anything (but, as everywhere, only
    finitely much arrives within one pass).  Such a client is never
    disconnected, and gets one reply for each of its lines. *)

From S2P Require Import Prelude CxxString Framing MessageParser OrderBook Kernel EventLoop SocketUtils Signals KeptCalls.
From S2P Require Import ClientSession TcpServer ExchangeServer ServerKept ExchangeSpec ExchangeMessages ServerInv.
From S2P Require Import ServerTrace ServerLoop ServerTheorems ServerHistory ServerProcess.

(** A line that asks to be disconnected. *)
Definition says_quit (line : bytes) : bool :=
  cmd_valid (parse line) && bool_decide (cmd_type (parse line) = QUIT).

(** What has been received so far: no QUIT and no line that is too long. *)
Definition polite (data : bytes) : Prop :=
  Forall (λ l, says_quit (chomp_cr l) = false) (lines_of data).1
  ∧ (str_size (lines_of data).2 ≤ kMaxLineBytes)%Z.

Class Courteous `{!Kernel K, !KernelView K} (fd : Z) (good : K → Prop) : Prop := {
  cg_fd : (0 ≤ fd)%Z;
  cg_open k : good k → fd ∈ open_fds k;
  cg_polite k : good k → polite (received k fd);
  (* it reads: the socket may be full, but not with more than the limit waiting *)
  cg_send data k n k' : good k → data ≠ [] → sys_send fd data k = (n, k') →
    (0 < n)%Z ∨ ((n < 0)%Z ∧ (sys_errno k' = EINTR
                 ∨ (would_block (sys_errno k') = true ∧ (str_size data ≤ kMaxOutputBytes)%Z)));
  (* it keeps the connection up *)
  cg_recv k n buf k' : good k → sys_recv fd kReadChunk k = (n, buf, k') →
    (0 < n)%Z ∨ ((n < 0)%Z ∧ (sys_errno k' = EINTR ∨ would_block (sys_errno k') = true));
  cg_poll fds timeout k n revs k' : good k → sys_poll fds timeout k = (n, revs, k') →
    ∀ i p rev, fds !! i = Some p → revs !! i = Some rev → pfd_fd p = fd →
    Z.land rev (Z.lor POLLERR POLLNVAL) = 0%Z;
  cg_kevent kq cap ts k n evs k' : good k → sys_kevent_wait kq cap ts k = (n, evs, k') →
    ∀ e, e ∈ evs → ke_ident e = fd → Z.land (ke_flags e) EV_ERROR = 0%Z;
  (* and goes on to do so *)
  cg_kept :: KernelKept good;
  cg_recv_kept f k : good k → good (sys_recv f kReadChunk k).2;
  cg_close_kept f k : f ≠ fd → good k → good (sys_close f k);
  cg_shutdown_kept f how k : f ≠ fd → good k → good (sys_shutdown f how k)
}.

Section Service.
Context {P : Platform} `{!Kernel K, !KernelView K, !KernelLaws K}.
Context `{!HashOrder (Server EventLoop K)}.
Context (fd : Z) (good : K → Prop) `{!Courteous fd good}.

Abbreviation server := (Server EventLoop K).
Implicit Types (s : server) (c : ClientSession).

(** ** Calls that do not read from the client *)

Definition calm (r : bytes) (k : K) : Prop := good k ∧ received k fd = r.

Lemma calm_call {A} r (f : K → A * K) k :
  (∀ k, good k → good (f k).2) → (∀ k, fd ∈ open_fds k → received (f k).2 fd = received k fd) →
  calm r k → calm r (f k).2.
Proof. intros Hg Hr [H1 H2]. split; [by apply Hg|]. rewrite Hr; [done|]. by apply cg_open. Qed.

Lemma calm_quiet {A} r (f : K → A * K) k :
  (∀ k, good k → good (f k).2) → (∀ k, quiet k (f k).2) → calm r k → calm r (f k).2.
Proof. intros Hg Hq. apply calm_call; [done|]. intros k1 _. apply Hq. Qed.

#[local] Instance calm_kept r : KernelKept (calm r).
Proof.
  split; intros.
  - apply calm_call; [intros ?; apply kk_send| |done]. intros k1 _. destruct (sys_send fd0 data k1) as [n k2] eqn:Hs.
    apply law_send in Hs as (_ & _ & _ & _ & _ & Hr & _). apply Hr.
  - apply calm_call; [intros ?; apply kk_accept| |done]. intros k1 Hopen.
    destruct (sys_accept fd0 k1) as [[n addr] k2] eqn:Hs.
    apply law_accept in Hs as [[_ (_ & _ & _ & Hr)]|(_ & Hn & _ & _ & _ & _ & Hr)]; [apply Hr|].
    apply Hr. by intros ->.
  - apply (calm_quiet r (sys_getfl fd0)); [intros ?; apply kk_getfl|intros ?; apply law_getfl|done].
  - apply (calm_quiet r (sys_setfl fd0 flags)); [intros ?; apply kk_setfl|intros ?; apply law_setfl|done].
  - apply (calm_quiet r (sys_setsockopt fd0 level opt v)); [intros ?; apply kk_setsockopt|intros ?; apply law_setsockopt|done].
  - apply (calm_quiet r (sys_getsockopt fd0 level opt)); [intros ?; apply kk_getsockopt|intros ?; apply law_getsockopt|done].
  - apply (calm_quiet r sys_clock_gettime); [intros ?; apply kk_clock_gettime|intros ?; apply law_clock_gettime|done].
  - apply (calm_quiet r sys_stopped); [intros ?; apply kk_stopped|intros ?; apply law_stopped|done].
  - apply calm_call; [intros ?; apply kk_poll| |done]. intros k1 _. destruct (sys_poll fds timeout k1) as [[n revs] k2] eqn:Hs.
    apply law_poll in Hs as (_ & _ & Hr & _). apply Hr.
  - apply calm_call; [intros ?; apply kk_kqueue| |done]. intros k1 Hopen. destruct (sys_kqueue k1) as [n k2] eqn:Hs.
    apply law_kqueue in Hs as [[_ (_ & _ & _ & Hr)]|(_ & Hn & _ & _ & _ & _ & Hr)]; [apply Hr|].
    apply Hr. by intros ->.
  - apply (calm_quiet r (sys_kevent_change kq cs)); [intros ?; apply kk_kevent_change|intros ?; apply law_kevent_change|done].
  - apply calm_call; [intros ?; apply kk_kevent_wait| |done]. intros k1 _.
    destruct (sys_kevent_wait kq cap ts k1) as [[n evs] k2] eqn:Hs.
    apply law_kevent_wait in Hs as (_ & _ & Hr & _). apply Hr.
Qed.

(** ** The client's session

    [r] has been received from the client; the part [h] of it has been framed
    into lines, up to what is in the buffer.  The other sessions are those of
    other descriptors.  [settled]: what is waiting to be sent is within the
    limit. *)

Definition framed_to (h : bytes) c : Prop :=
  ∃ raws, Forall (λ l, LF ∉ l) raws ∧ h = wire raws ++ cs_inbuf c.

Record attended (settled : bool) (r h : bytes) s : Prop := mkAttended {
  at_kern : calm r (kern s);
  at_session : ∃ c, sessions_ s !! fd = Some c ∧ cs_fd c = fd ∧ cs_closing c = false ∧ framed_to h c
                 ∧ (settled = true → (pending_bytes c ≤ kMaxOutputBytes)%Z);
  at_alone f c : sessions_ s !! f = Some c → cs_fd c = fd → f = fd;
  at_closed : fd ∉ closed_fds_ s
}.

(** Between two steps of the server. *)
Definition served s : Prop := ∃ r, attended true r r s.

Section Steps.
Context (settled : bool) (r h : bytes).

Abbreviation Q := (attended settled r h).

Lemma at_wiring s s' : wiring s' = wiring s → Q s → Q s'.
Proof. unfold wiring. intros [= H1 H2 H3 H4 _] []. split; rewrite ?H1, ?H3, ?H4; done. Qed.

Lemma at_call {A} (f : K → A * K) : (∀ k, calm r k → calm r (f k).2) → maintains Q (sys f).
Proof. intros Hf. apply maintains_sys. intros s []. split; cbn; auto. Qed.

Lemma at_loop l k s : calm r k → Q s → Q (set_kern k (set_loop l s)).
Proof. intros Hk []. by split. Qed.

(** Writing to a session. *)
Lemma at_insert f c' s :
  (cs_fd c' = fd → f = fd) →
  (f = fd → ∀ c, sessions_ s !! fd = Some c → cs_fd c' = cs_fd c ∧ cs_inbuf c' = cs_inbuf c ∧ cs_closing c' = cs_closing c
                 ∧ (settled = true → (pending_bytes c ≤ kMaxOutputBytes)%Z → (pending_bytes c' ≤ kMaxOutputBytes)%Z)) →
  Q s → Q (set_sessions (<[f := c']> (sessions_ s)) s).
Proof.
  intros Hne Heq [Hk (c & Hc & H1 & H2 & H3 & H4) Ha Hcl]. split; cbn; [done| | |done].
  - destruct (decide (f = fd)) as [->|Hf].
    + destruct (Heq eq_refl c Hc) as (E1 & E2 & E3 & E4). exists c'. rewrite lookup_insert_eq, E1, E3.
      split_and!; [done..| |intros Hi; apply E4; auto]. unfold framed_to. by rewrite E2.
    + exists c. by rewrite lookup_insert_ne.
  - intros f' c2. destruct (decide (f' = f)) as [->|Hf]; [rewrite lookup_insert_eq; by intros [= <-]|].
    rewrite lookup_insert_ne by done. apply Ha.
Qed.

Lemma at_assign f g :
  (∀ c, cs_fd (g c) = cs_fd c) →
  (f = fd → ∀ c, cs_inbuf (g c) = cs_inbuf c ∧ cs_closing (g c) = cs_closing c
                 ∧ (settled = true → (pending_bytes c ≤ kMaxOutputBytes)%Z → (pending_bytes (g c) ≤ kMaxOutputBytes)%Z)) →
  maintains Q (assign f g).
Proof.
  intros Hfd Hg s a s' Hrun HQ. unfold assign in Hrun. destruct (sessions_ s !! f) as [c|] eqn:Hc; [|done].
  injection Hrun as _ <-. apply at_insert; [|intros -> c2 Hc2|done].
  - rewrite Hfd. by apply (at_alone _ _ _ _ HQ).
  - simplify_eq. rewrite Hfd. split; [done|]. by apply Hg.
Qed.

Lemma at_assign_same f g : (∀ c, wire_part (g c) = wire_part c) → maintains Q (assign f g).
Proof.
  intros Hg. apply at_assign; [intros c; by specialize (Hg c) as [=]|]. intros _ c. specialize (Hg c).
  unfold wire_part in Hg. injection Hg as H1 H2 H3 H4 H5. unfold pending_bytes. by rewrite H2, H3, H4, H5.
Qed.

Lemma at_ref f : maintains Q (session_ref f).
Proof.
  intros s a s'. unfold session_ref. destruct (sessions_ s !! f) eqn:Hn; [by intros [= _ <-]|].
  intros [= _ <-] HQ. apply at_insert; [|intros -> c Hc; by rewrite Hc in Hn|done].
  cbn. intros <-. pose proof (cg_fd (good := good)). lia.
Qed.

Lemma at_drop f reason : f ≠ fd → maintains Q (drop_session f reason).
Proof.
  intros Hne s a s' [[_ ->]|(Hf & l & k & Hr & Hw)]%drop_session_cases; [done|].
  intros [Hk (c & Hc & Hrest) Ha Hcl]. apply (loop_remove_rooted (calm r)) in Hr as [_ Hk']; [|done].
  unfold wiring in Hw. injection Hw as H1 H2 H3 H4 _. split; rewrite ?H1, ?H3, ?H4; [done| | |set_solver].
  - exists c. by rewrite lookup_delete_ne.
  - intros f' c' [_ Hc']%lookup_delete_Some. by apply Ha.
Qed.

Lemma at_update f rd w : maintains Q (lift_update f rd w).
Proof.
  intros s a s'. unfold lift_update. destruct (loop_update _ _ _ _ _) as [[[ok l] k]| | |] eqn:H; try done.
  intros [= _ <-] HQ. apply (loop_update_rooted (calm r)) in H as [_ Hk]; [|apply HQ]. by apply at_loop.
Qed.

Lemma at_add f rd w : maintains Q (lift_add f rd w).
Proof.
  intros s a s'. unfold lift_add. destruct (loop_add _ _ _ _ _) as [[[ok l] k]| | |] eqn:H; try done.
  intros [= _ <-] HQ. apply (loop_add_rooted (calm r)) in H as [_ Hk]; [|apply HQ]. by apply at_loop.
Qed.

Lemma at_send f data : maintains Q (sys (sys_send f data)).
Proof. apply at_call. intros k. apply kk_send. Qed.

Lemma at_close f : f ≠ fd → maintains Q (close_fd f).
Proof.
  intros Hne. unfold close_fd. apply at_call. intros k [Hg Hr]. split; [by apply cg_close_kept|]. cbn.
  by destruct (law_close f k) as (_ & _ & -> & _).
Qed.

Lemma at_shutdown f how : f ≠ fd → maintains Q (sys (λ k, (tt, sys_shutdown f how k))).
Proof.
  intros Hne. apply at_call. intros k [Hg Hr]. split; [by apply cg_shutdown_kept|]. cbn.
  by destruct (law_shutdown f how k) as (_ & _ & _ & ->).
Qed.

Lemma at_recv f : f ≠ fd → maintains Q (sys (sys_recv f kReadChunk)).
Proof.
  intros Hne. apply at_call. intros k [Hg Hr]. split; [by apply cg_recv_kept|].
  destruct (sys_recv f kReadChunk k) as [[n buf] k'] eqn:H. apply law_recv in H as (_ & _ & Ho & _). cbn. by rewrite Ho.
Qed.

(** Accepting other clients. *)
Lemma accept_calm t k a t' k' :
  accept_connection t k = (a, t', k') → calm r k → calm r k' ∧ ac_fd a ≠ fd.
Proof.
  intros Hacc [Hg Hr]. pose proof (cg_open k Hg) as Hopen.
  destruct (accept_connection_spec _ _ _ _ _ Hacc) as (_ & Hsame & Hn). split; [split|].
  - unfold accept_connection in Hacc. pose proof (kk_accept (ts_fd t) k Hg) as Hg1.
    destruct (sys_accept (ts_fd t) k) as [[n addr] k1] eqn:Ha. cbn in Hg1.
    destruct (n <? 0)%Z eqn:Hneg; [repeat case_match; by simplify_eq|].
    assert (n ≠ fd) as Hne.
    { apply law_accept in Ha as [[? _]|(_ & ? & _)]; [lia|]. by intros ->. }
    pose proof (nonblocking_kept good n k1 Hg1) as Hg2. destruct (set_nonblocking n k1) as [[] k2]; cbn in Hacc, Hg2.
    + pose proof (nodelay_kept good n k2 Hg2) as Hg3. destruct (set_tcp_nodelay n k2) as [b k3]. by simplify_eq.
    + simplify_eq. by apply cg_close_kept.
  - by rewrite (proj2 (Hsame fd Hopen)).
  - pose proof (cg_fd (good := good)). destruct Hn as [[? _]|(_ & ? & _)]; [lia|]. by intros Heq; rewrite Heq in *.
Qed.

Lemma at_admit f peer : f ≠ fd → maintains Q (admit_client f peer).
Proof.
  intros Hne. unfold admit_client. apply maintains_bind; [apply maintains_gets|]. intros size.
  apply maintains_bind.
  { apply maintains_when, maintains_bind; [|auto with maintains]. apply at_call. intros k. apply (send_buffer_kept (calm r)). }
  intros _. cbv zeta. apply maintains_bind.
  { apply maintains_modify. intros s HQ. destruct (sessions_ s !! f); [done|].
    apply at_insert; [cbn; congruence|congruence|done]. }
  intros _. apply maintains_bind; [apply at_add|]. intros ok. apply ensures_if.
  - apply maintains_bind; [|intros _; by apply at_close]. apply maintains_modify.
    intros s [Hk (c & Hc & Hrest) Ha Hcl]. split; cbn; [done| | |done].
    + exists c. by rewrite lookup_delete_ne.
    + intros f' c' [_ Hc']%lookup_delete_Some. by apply Ha.
  - apply maintains_bind; [apply at_ref|]. intros c. apply maintains_bind; [apply maintains_gets|]. intros n.
    apply maintains_wiring; [apply at_wiring|]. unfold log_connection_count, print. auto with keeps.
Qed.

Lemma at_clock : maintains Q (sys monotonic_seconds).
Proof. apply at_call. intros k. apply (clock_kept (calm r)). Qed.

Lemma at_pause : maintains Q pause_accepting.
Proof.
  unfold pause_accepting. apply maintains_bind; [apply maintains_get|]. intros s. apply ensures_if; [auto with maintains|].
  apply maintains_bind; [apply at_clock|]. intros now.
  apply maintains_bind; [apply maintains_wiring; [apply at_wiring|auto with keeps]|]. intros _.
  apply maintains_bind; [apply at_update|]. intros _. apply maintains_bind; [apply maintains_get|]. intros s1.
  apply maintains_wiring; [apply at_wiring|]. unfold eprint. auto with keeps.
Qed.

Lemma at_accept : maintains Q accept_pending.
Proof.
  unfold accept_pending. apply maintains_bind; [apply maintains_gets|]. intros k0. generalize (S (sys_work k0)).
  intros fuel. induction fuel as [|fuel IH]; cbn [accept_loop]; [auto with maintains|].
  intros s res s' Hrun HQ. unfold bind at 1, lift_accept in Hrun.
  destruct (accept_connection (listener_ s) (kern s)) as [[a t] k] eqn:Ha. cbn [obind] in Hrun.
  destruct (accept_calm _ _ _ _ _ Ha (at_kern _ _ _ _ HQ)) as [Hk Hne].
  set (s1 := set_kern k (set_listener t s)) in Hrun. assert (Q s1) as H1 by by destruct HQ.
  refine (_ s1 res s' Hrun H1).
  apply ensures_if; [|apply maintains_bind; [by apply at_admit|done]].
  apply ensures_if; [auto with maintains|]. apply ensures_if; [apply at_pause|].
  apply maintains_wiring; [apply at_wiring|]. unfold eprint. auto with keeps.
Qed.

Lemma at_reap : maintains Q reap_closed.
Proof.
  unfold reap_closed. apply maintains_bind_gets. intros s HQ a s' Hrun.
  refine (maintains_bind Q _ _ _ _ s a s' Hrun HQ).
  - apply maintains_for_each. intros f Hf. apply at_close. intros ->. by apply (at_closed _ _ _ _ HQ).
  - intros _. apply maintains_modify. intros s1 []. split; cbn; [done..|set_solver].
Qed.

(** Output to others. *)
Section Others.
Context (f : Z) (Hf : f ≠ fd).

Lemma other_safe s c : Q s → sessions_ s !! f = Some c → cs_fd c ≠ fd.
Proof. intros HQ Hc Heq. by apply Hf, (at_alone _ _ _ _ HQ f c). Qed.

Lemma other_assign g : (∀ c, cs_fd (g c) = cs_fd c) → maintains Q (assign f g).
Proof. intros Hg. by apply at_assign. Qed.

Lemma other_send_to m : maintains Q (send_to f m).
Proof.
  apply (robust_send_to Q f (λ x, x ≠ fd)); eauto using at_wiring, other_safe, other_assign, at_drop, at_send, at_update.
Qed.

Lemma other_writable : maintains Q (on_writable f).
Proof.
  apply (robust_writable Q f (λ x, x ≠ fd)); eauto using at_wiring, other_safe, other_assign, at_drop, at_send, at_update.
Qed.

Lemma other_close reason : maintains Q (begin_orderly_close f reason).
Proof.
  apply (robust_close Q f (λ x, x ≠ fd));
    eauto using at_wiring, other_safe, other_assign, at_drop, at_send, at_update, at_shutdown.
Qed.

End Others.

End Steps.

(** Output to the client itself: the kernel takes it, or what is left is within
    the limit. *)
Section Own.
Context (r h : bytes).

Lemma idle_pending c : has_pending_output c = false → pending_bytes c = 0%Z.
Proof.
  unfold has_pending_output, pending_bytes, wrap_size. intros H%Z.ltb_ge.
  pose proof (Z.mod_pos_bound (str_size (cs_outbuf c) - cs_out_start c) (2^64)). lia.
Qed.

Lemma own_flush_loop fuel s b s' :
  flush_loop fuel fd s = Done (b, s') → attended false r h s → b = true ∧ attended true r h s'.
Proof.
  revert s. induction fuel as [|fuel IH]; intros s; cbn [flush_loop]; [done|]. intros Hrun HQ.
  destruct (at_session _ _ _ _ HQ) as (c & Hc & Hcfd & Hcl & Hfr & _).
  unfold bind at 1, deref_session in Hrun. rewrite Hc in Hrun. cbn [obind] in Hrun.
  destruct (has_pending_output c) eqn:Hp.
  2: { injection Hrun as <- <-. split; [done|]. destruct HQ. split; [done| |done..]. exists c.
       split_and!; [done..|]. rewrite (idle_pending c Hp). done. }
  destruct (negb _) eqn:Hsz; [done|]. apply negb_false_iff, Z.eqb_eq in Hsz. unfold bind at 1, sys in Hrun.
  pose proof (at_send false r h (cs_fd c) (pending c) s) as Hkeep. unfold sys in Hkeep. rewrite Hcfd in *.
  destruct (sys_send fd (pending c) (kern s)) as [n k] eqn:Hs. specialize (Hkeep n _ eq_refl HQ). cbn [obind] in Hrun.
  apply cg_send in Hs; [|apply HQ|].
  2: { intros Hnil. rewrite Hnil in Hsz. unfold has_pending_output in Hp. rewrite Hsz in Hp. done. }
  unfold bind at 1, errno_now, gets in Hrun. cbn [obind kern set_kern] in Hrun. destruct Hs as [Hpos|[Hneg [Herr|[Herr Hsize]]]].
  - rewrite (proj2 (Z.ltb_lt 0 n)) in Hrun by done. unfold bind in Hrun at 1.
    destruct (assign fd _ _) as [[u s1]| | |] eqn:Ha in Hrun; try done. apply IH in Hrun; [done|].
    refine (at_assign false r h fd _ _ _ _ _ _ Ha Hkeep); done.
  - rewrite (proj2 (Z.ltb_ge 0 n)), (proj2 (Z.ltb_lt n 0)), Herr in Hrun by lia. by apply IH in Hrun.
  - rewrite (proj2 (Z.ltb_ge 0 n)), (proj2 (Z.ltb_lt n 0)) in Hrun by lia.
    destruct (bool_decide (sys_errno k = EINTR)); cbn [andb] in Hrun; [by apply IH in Hrun|].
    rewrite Herr in Hrun. injection Hrun as <- <-. split; [done|]. destruct Hkeep. split; [done| |done..].
    exists c. cbn. by rewrite Hsz.
Qed.

Lemma own_settle c p : cs_closing c = false → maintains (attended true r h) (settle fd c p).
Proof.
  intros Hcl. unfold settle, note_backlog. rewrite Hcl, andb_false_r.
  assert (∀ g, (∀ c, wire_part (g c) = wire_part c) → maintains (attended true r h) (assign fd g)) as Ha
    by apply at_assign_same.
  apply maintains_bind.
  - assert (∀ b t, maintains (attended true r h) (assign fd (set_backlogged b) ;;; print t)) as Hset.
    { intros b t. apply maintains_bind; [by apply Ha|]. intros _.
      apply maintains_wiring; [apply at_wiring|]. unfold print. auto with keeps. }
    apply ensures_if; [apply Hset|]. apply ensures_if; [apply Hset|auto with maintains].
  - intros _. apply maintains_when, maintains_bind; [by apply Ha|]. intros _.
    apply maintains_bind; [apply at_update|]. auto with maintains.
Qed.

(** Erasing the consumed prefix leaves the same pending. *)
Lemma reclaimed_within c :
  (kReadChunk < cs_out_start c)%Z → (pending_bytes c ≤ kMaxOutputBytes)%Z →
  (pending_bytes (set_out (erase0 (cs_outbuf c) (Z.to_nat (cs_out_start c))) 0 c) ≤ kMaxOutputBytes)%Z.
Proof.
  unfold kReadChunk, pending_bytes, str_size, erase0, wrap_size. cbn. rewrite length_drop, Z.sub_0_r. intros Hs.
  destruct (decide (cs_out_start c ≤ Z.of_nat (length (cs_outbuf c)))%Z).
  - by replace (Z.of_nat (length (cs_outbuf c) - Z.to_nat (cs_out_start c)))
      with (Z.of_nat (length (cs_outbuf c)) - cs_out_start c)%Z by lia.
  - intros _. replace (length (cs_outbuf c) - Z.to_nat (cs_out_start c)) with 0 by lia. done.
Qed.

Lemma own_finish : maintains (attended true r h) (flush_finish fd).
Proof.
  unfold flush_finish. apply maintains_bind.
  { apply at_assign; [apply reclaim_fd|]. intros _ c. unfold reclaim. destruct (has_pending_output c); cbn.
    - destruct (Z.ltb_spec kReadChunk (cs_out_start c)); [|done]. split_and!; [done..|]. intros _. apply reclaimed_within. lia.
    - done. }
  intros _ s a s' Hrun HQ. destruct (at_session _ _ _ _ HQ) as (c & Hc & _ & Hcl & _ & Hp).
  unfold bind, deref_session in Hrun. rewrite Hc in Hrun. cbn [obind] in Hrun.
  rewrite (proj2 (Z.ltb_ge _ _)) in Hrun by auto. exact (own_settle c _ Hcl s a s' Hrun HQ).
Qed.

Lemma own_flush : ensures (attended false r h) (flush fd) (attended true r h).
Proof.
  intros s a s' Hrun HQ. unfold flush in Hrun. unfold bind at 1, deref_session in Hrun.
  destruct (sessions_ s !! fd); [|done]. cbn [obind] in Hrun. unfold bind at 1, gets in Hrun. cbn [obind] in Hrun.
  unfold bind at 1 in Hrun. destruct (flush_loop _ fd s) as [[b s1]| | |] eqn:Hl; try done. cbn [obind] in Hrun.
  destruct (own_flush_loop _ _ _ _ Hl HQ) as [-> HQ1]. exact (own_finish s1 a s' Hrun HQ1).
Qed.

Lemma attended_weaken s : attended true r h s → attended false r h s.
Proof. intros [Hk (c & ? & ? & ? & ? & _) ? ?]. split; [done|by exists c|done..]. Qed.

Lemma own_send_to m : maintains (attended true r h) (send_to fd m).
Proof.
  unfold send_to. apply maintains_bind; [apply kept_is_session|]. intros found. apply maintains_when.
  apply (ensures_bind _ _ (attended false r h)); [|intros _; apply own_flush].
  intros s a s' Hrun HQ%attended_weaken. refine (at_assign false r h fd _ _ _ _ _ _ Hrun HQ); done.
Qed.

Lemma own_writable : maintains (attended true r h) (on_writable fd).
Proof.
  unfold on_writable. apply maintains_bind; [apply kept_is_session|]. intros found. apply maintains_when.
  intros s a s' Hrun HQ%attended_weaken. by eapply own_flush.
Qed.

End Own.

#[local] Instance attended_kept r h : Kept (attended true r h) (λ _, True) (λ f, f ≠ fd).
Proof.
  split.
  - apply at_wiring.
  - apply at_assign_same.
  - intros f _. apply at_ref.
  - intros f m. destruct (decide (f = fd)) as [->|Hf]; [apply own_send_to|by apply other_send_to].
  - intros f. destruct (decide (f = fd)) as [->|Hf]; [apply own_writable|by apply other_writable].
  - apply at_update.
  - apply at_clock.
  - apply at_call. intros k. apply kk_stopped.
  - apply at_accept.
  - intros f Hf. by apply at_recv.
  - intros f g Hf. by apply other_assign.
  - intros f reason Hf. by apply other_close.
  - intros f reason Hf. by apply at_drop.
  - apply at_reap.
Qed.

#[local] Instance served_kept : Kept served (λ _, True) (λ f, f ≠ fd).
Proof.
  split; intros; try (apply maintains_exists; intros data).
  - destruct H0 as [r H0]. exists r. by eapply at_wiring.
  - by apply at_assign_same.
  - apply at_ref.
  - apply (kept_send (Kept := attended_kept data data)).
  - apply (kept_writable (Kept := attended_kept data data)).
  - apply at_update.
  - apply at_clock.
  - apply (kept_stopped (Kept := attended_kept data data)).
  - apply at_accept.
  - by apply at_recv.
  - by apply other_assign.
  - by apply other_close.
  - by apply at_drop.
  - apply at_reap.
Qed.

(** ** Input from the client *)

Lemma own_line r c n s a s' :
  handle_line fd c n s = Done (a, s') → attended true r r s → sessions_ s !! fd = Some c →
  find_char LF (cs_inbuf c) = Some n → says_quit (chomp_cr (take n (cs_inbuf c))) = false → attended true r r s'.
Proof.
  intros Hrun [Hk (c' & Hc' & Hcfd & Hcl & (raws & Hraws & Hr) & Hp) Ha Hclosed] Hc Hfind Hq.
  rewrite Hc in Hc'. injection Hc' as <-.
  unfold handle_line, bind at 1, assign in Hrun. rewrite Hc in Hrun. cbn [obind] in Hrun. cbv zeta in Hrun.
  unfold substr0 in Hrun. set (line := chomp_cr _) in Hrun. set (s1 := set_sessions _ s) in Hrun.
  assert (attended true r r s1) as H1.
  { apply find_Some in Hfind as (Heq & Hlf & _). split; cbn; [done| | |done].
    - eexists. rewrite lookup_insert_eq. split_and!; [done..| |done].
      exists (raws ++ [take n (cs_inbuf c)]). split; [by apply Forall_app; split; [|constructor]|].
      rewrite Hr, wire_snoc, <-!app_assoc. cbn. unfold erase0. rewrite Nat.add_1_r. by rewrite Heq at 1.
    - intros f c2. destruct (decide (f = fd)) as [->|Hf]; [done|]. rewrite lookup_insert_ne by done. apply Ha. }
  refine (_ s1 a s' Hrun H1). apply maintains_bind; [apply maintains_gets|]. intros verbose. apply maintains_bind.
  - apply maintains_when, maintains_wiring; [apply at_wiring|]. unfold print. auto with keeps.
  - intros _. by apply (kept_request _ (λ _, True) (λ f, f ≠ fd)).
Qed.

Lemma own_consume r : maintains (attended true r r) (consume_messages fd).
Proof.
  unfold consume_messages. apply maintains_bind; [apply maintains_get|]. intros s0. generalize (S (length (default [] (cs_inbuf <$> sessions_ s0 !! fd)))).
  intros fuel. induction fuel as [|fuel IH]; cbn [consume_loop]; [auto with maintains|].
  apply maintains_bind; [apply kept_is_session|]. intros found. apply ensures_if; [auto with maintains|].
  intros s a s' Hrun HQ. destruct (at_session _ _ _ _ HQ) as (c & Hc & Hcfd & Hcl & (raws & Hraws & Hr) & Hp).
  destruct (at_kern _ _ _ _ HQ) as [Hg Hrec]. destruct (cg_polite _ Hg) as [Hquit Hlong]. rewrite Hrec, Hr in Hquit, Hlong.
  rewrite (lines_of_prefix raws) in Hquit, Hlong by done. cbn [fst snd] in *.
  unfold bind at 1, deref_session in Hrun. rewrite Hc in Hrun. cbn [obind] in Hrun.
  destruct (find_char LF (cs_inbuf c)) as [n|] eqn:Hfind.
  - rewrite (lines_of_found _ _ Hfind) in Hquit. cbn [fst] in Hquit.
    apply Forall_app in Hquit as [_ [Hq _]%Forall_cons]. unfold bind at 1 in Hrun.
    destruct (handle_line fd c n s) as [[u s1]| | |] eqn:Hline; try done. cbn [obind] in Hrun.
    assert (attended true r r s1) as H1 by (by eapply own_line). refine (_ s1 a s' Hrun H1).
    apply maintains_bind; [apply kept_is_session|]. intros found'. apply ensures_if; [auto with maintains|].
    apply maintains_bind; [apply at_ref|]. intros c1. apply ensures_if; [auto with maintains|done].
  - apply find_None in Hfind. rewrite (lines_of_none _ Hfind) in Hlong. cbn [snd] in Hlong.
    rewrite (proj2 (Z.ltb_ge _ _)) in Hrun by done. by injection Hrun as _ <-.
Qed.

Lemma own_read fuel : maintains served (read_loop fuel fd).
Proof.
  induction fuel as [|fuel IH]; cbn [read_loop]; [auto with maintains|].
  apply maintains_bind; [apply kept_is_session|]. intros found. apply ensures_if; [auto with maintains|].
  intros s a s' Hrun [r HQ]. destruct (at_session _ _ _ _ HQ) as (c & Hc & Hcfd & Hcl & Hfr & Hp).
  unfold bind at 1, deref_session in Hrun. rewrite Hc in Hrun. cbn [obind] in Hrun. rewrite Hcl in Hrun.
  unfold bind at 1, sys in Hrun. destruct HQ as [[Hg Hrec] _ Ha Hclosed]. pose proof (cg_recv_kept fd _ Hg) as Hg1.
  destruct (sys_recv fd kReadChunk (kern s)) as [[n buf] k] eqn:Hk. cbn [obind snd] in Hrun, Hg1.
  destruct (law_recv _ _ _ _ _ _ Hk) as (_ & Hr & _). apply cg_recv in Hk; [|done]. rewrite Hrec in Hr.
  unfold bind at 1, errno_now, gets in Hrun. cbn [obind kern set_kern] in Hrun. destruct Hk as [Hpos|[Hneg Herr]].
  - rewrite (proj2 (Z.ltb_lt 0 n)) in Hrun, Hr by done.
    set (s1 := set_kern k s) in Hrun. assert (attended true (r ++ buf) r s1) as H1 by (split; [done|by exists c|done..]).
    refine (_ s1 a s' Hrun H1). apply (ensures_bind _ _ (attended true (r ++ buf) r)); [apply maintains_gets|]. intros verbose.
    apply (ensures_bind _ _ (attended true (r ++ buf) r)).
    { apply maintains_when, maintains_wiring; [apply at_wiring|]. unfold print. auto with keeps. }
    intros _. apply (ensures_bind _ _ (attended true (r ++ buf) (r ++ buf))).
    { intros s2 b s3. unfold assign. destruct (sessions_ s2 !! fd) as [c2|] eqn:Hc2; [|done]. intros [= _ <-].
      intros [Hk2 (c' & Hc' & E1 & E2 & (raws & Hraws & E3) & E4) Ha2 Hcl2]. simplify_eq. split; cbn; [done| | |done].
      - eexists. rewrite lookup_insert_eq. split_and!; [done..| |done]. exists raws. by rewrite E3, <-app_assoc at 1.
      - intros f c3. destruct (decide (f = fd)) as [->|Hf]; [done|]. rewrite lookup_insert_ne by done. apply Ha2. }
    intros _. apply (ensures_bind _ _ served).
    { intros s2 b s3 Hrun2 H2. exists (r ++ buf). by eapply own_consume. }
    intros more. apply ensures_if; [auto with maintains|]. apply ensures_if; [auto with maintains|done].
  - rewrite (proj2 (Z.ltb_ge 0 n)) in Hrun, Hr by lia. rewrite app_nil_r in Hr.
    rewrite (proj2 (Z.eqb_neq n 0)) in Hrun by lia.
    assert (served (set_kern k s)) as H1 by (exists r; split; [done|by exists c|done..]).
    destruct (bool_decide (sys_errno k = EINTR)) eqn:He; [exact (IH _ _ _ Hrun H1)|].
    apply bool_decide_eq_false in He. destruct Herr as [?|Hw]; [done|]. rewrite Hw in Hrun. by injection Hrun as _ <-.
Qed.

(** ** Events *)

Lemma own_event e : (ev_fd e = fd → ev_hangup e = false) → maintains served (handle_event e).
Proof.
  intros Hh. destruct (decide (ev_fd e = fd)) as [Heq|Hne]; [|by apply (kept_event_of _ _ _)].
  unfold handle_event. rewrite Heq, (Hh Heq). apply maintains_bind; [apply maintains_gets|]. intros l.
  apply ensures_if; [apply kept_accept|]. assert (maintains served (on_readable fd)) as Hread.
  { unfold on_readable. apply maintains_bind; [apply maintains_gets|]. intros k. apply own_read. }
  assert (maintains served (on_writable fd)) as Hwrite by apply kept_writable.
  pose proof (kept_is_session (K := K) (L := EventLoop) served fd). cbn [when]. auto 20 with maintains.
Qed.

(** The wait reports no error for the client. *)
Lemma wait_no_hangup l timeout k n es l' k' :
  loop_wait l timeout k = Done (n, es, l', k') → good k → ∀ e, e ∈ es → ev_fd e = fd → ev_hangup e = false.
Proof.
  cbn [loop_wait event_loop_i]. unfold wait, kq_wait_none. intros Hw Hg e He Hfd. destruct (backend_ l).
  - injection Hw as Hw. unfold poll_wait in Hw. destruct (pollfds_ l) as [|p v]; [simplify_eq; set_solver|].
    destruct (sys_poll (p :: v) timeout k) as [[ready revs] k1] eqn:Hp. destruct (ready <? 0)%Z; [simplify_eq; set_solver|].
    remember (p :: v) as fds. cbv zeta in Hw. destruct (ready =? 0)%Z; [simplify_eq; set_solver|]. injection Hw as _ <- _ _.
    apply list_elem_of_fmap in He as (q & -> & [_ Hq]%list_elem_of_filter). cbn in Hfd |- *.
    apply list_elem_of_lookup in Hq as [i Hq]. unfold store_revents in Hq.
    apply lookup_zip_with_Some in Hq as (p0 & rev & -> & Hi & Hr). cbn in *.
    by rewrite (cg_poll _ _ _ _ _ _ Hg Hp i p0 rev Hi Hr Hfd).
  - destruct have_kqueue; [|simplify_eq; set_solver]. unfold kq_wait in Hw. case_decide; [simplify_eq; set_solver|].
    cbv zeta in Hw. destruct (sys_kevent_wait _ _ _ k) as [[ready evs] k1] eqn:Hp.
    destruct (ready <? 0)%Z; [simplify_eq; set_solver|].
    destruct (kq_coalesce_spec evs [] ∅ []) as (out & seen & Hout & Hco).
    { split; [|set_solver|set_solver]. intros f i. rewrite lookup_empty. set_solver. }
    rewrite Hout in Hw. cbn [obind] in Hw. injection Hw as _ <- _ _.
    rewrite (co_summary _ _ _ Hco e He). cbn. unfold reports. apply not_true_iff_false. rewrite existsb_exists.
    intros (ev & Hin%list_elem_of_In & [Hid%Z.eqb_eq Hs]%andb_true_iff). unfold says_error in Hs.
    by rewrite (cg_kevent _ _ _ _ _ _ _ Hg Hp ev Hin) in Hs by congruence.
Qed.

Lemma served_iteration : maintains served iteration.
Proof.
  apply (kept_iteration _ _ _). intros s n es s' Hw [r HQ]. unfold lift_wait in Hw.
  destruct (loop_wait (loop_ s) 1000 (kern s)) as [[[[n' es'] l] k]| | |] eqn:Hl; try done. injection Hw as <- <- <-. split.
  - destruct (loop_wait_rooted (calm r) _ _ _ _ _ _ _ Hl (at_kern _ _ _ _ HQ)) as [_ Hk]. exists r. by apply at_loop.
  - intros e He. apply own_event. eapply wait_no_hangup; [exact Hl|apply HQ|done].
Qed.

End Service.

Section Claims.
Context {P : Platform} `{!Kernel K, !KernelView K, !KernelLaws K}.
Context `{!HashOrder (Server EventLoop K), !HashOrderLaws (Server EventLoop K)}.

Abbreviation server := (Server EventLoop K).
Implicit Types s : server.

Lemma reachable_served fd good s0 s c :
  Courteous (K := K) fd good → idle s0 → vacant s0 → rtc pass s0 s →
  sessions_ s !! fd = Some c → cs_closing c = false → good (kern s) → served fd good s.
Proof.
  intros Hc Hidle Hv Hr Hfd Hclosing Hg. destruct (reachable_explained s0 s Hidle Hv Hr) as [(Hinv & Hf & Hcl) [tr Hx]].
  destruct (inv_session s fd c Hinv Hfd) as (Hcore & Hio & _).
  exists (received (kern s) fd). split; [done| | |rewrite Hcl; set_solver].
  - exists c. split_and!; [done|apply Hcore|done| |].
    + destruct (xp_input _ _ _ Hx fd c Hfd) as (raws & rest & Hrec & Hraws & _ & Hin). exists raws.
      by rewrite (Hin Hclosing).
    + intros _. destruct (io_ok_pre c Hio) as [Hpre _]. rewrite out_wf_pending by (by apply out_pre_wf). apply Hio.
  - intros f c' Hf' Heq. destruct (inv_session s f c' Hinv Hf') as (Hcore' & _). by rewrite <-(core_key f c' Hcore').
Qed.

(** C6: a well-behaved client is served, whatever the others do.  Once a client
    is connected, and as long as it keeps the connection up, sends lines of at
    most 64 KiB other than QUIT, and never leaves the socket full with more
    than 16 MiB waiting for it, it stays connected over any number of passes,
    and at the end of each of them the server has said one reply for each line
    received from it, in well-formed messages: these have been handed to the
    kernel but for at most 16 MiB, for which the server is waiting to write.
    No other client can have it dropped or left without a reply by what it
    sends, by not reading or by closing.  (As in all theorems on passes, only
    finitely many bytes arrive between two waits: a peer that kept
    [on_readable] supplied with full chunks for ever would keep the server in
    that loop.) *)
Theorem courteous_client_served fd good s0 s1 s c :
  Courteous (K := K) fd good → idle s0 → vacant s0 → rtc pass s0 s1 →
  sessions_ s1 !! fd = Some c → cs_closing c = false → good (kern s1) → rtc pass s1 s →
  ∃ c' ms, sessions_ s !! fd = Some c' ∧ cs_closing c' = false
    ∧ sent (kern s) fd ++ pending c' = wire (render <$> ms) ∧ Forall valid_message ms
    ∧ length (filter (λ m, is_reply m = true) ms) = length (lines_of (received (kern s) fd)).1
    ∧ (str_size (pending c') ≤ kMaxOutputBytes)%Z
    ∧ (pending c' ≠ [] → cs_write_interest c' = true).
Proof.
  intros Hc Hidle Hv Hr1 Hfd Hclosing Hg Hr. assert (rtc pass s0 s) as Hr0 by (by etrans).
  assert (served fd good s) as [r HQ].
  { eapply maintains_passes; [apply served_iteration, _|exact Hr|]. by eapply reachable_served. }
  destruct (at_session _ _ _ _ _ _ HQ) as (c' & Hc' & _ & Hcl & _ & _).
  destruct (reachable_idle s0 s Hidle Hr0) as (Hinv & _). destruct (inv_session s fd c' Hinv Hc') as (_ & [] & _).
  destruct (reachable_typed s0 s fd c' Hidle Hv Hr0 Hc') as (ms & Hms & Hval & Hn).
  exists c', ms. split_and!; try done; [by apply Hn|]. intros Hp. rewrite io_write. by apply bool_decide_eq_true.
Qed.

End Claims.

(** ** Witness

    A client of the scripted kernel whose sends all succeed, for which no error
    is reported, and which sends what is left to be received in polite steps. *)

Definition own {A : Type} (fd : Z) (l : list (Z * A)) : list A := snd <$> filter (λ x, x.1 = fd) l.

#[local] Instance polite_dec data : Decision (polite data).
Proof. unfold polite. apply _. Defined.

Fixpoint steady (data : bytes) (l : list recv_answer) : Prop :=
  polite data
  ∧ match l with
    | [] => True
    | RecvData buf :: l => (0 < str_size buf ≤ kReadChunk)%Z ∧ steady (data ++ buf) l
    | RecvFail _ :: _ => False
    end.

#[local] Instance steady_dec data l : Decision (steady data l).
Proof. revert data. induction l as [|[buf|e] l IH]; intros data; cbn [steady]; apply _. Defined.

Definition no_error (fd : Z) (revents : gmap Z Z) : Prop :=
  Z.land (default 0%Z (revents !! fd)) (Z.lor POLLERR POLLNVAL) = 0%Z.

#[local] Instance no_error_dec fd revents : Decision (no_error fd revents).
Proof. unfold no_error. apply _. Defined.

Definition behaves (fd : Z) (k : Script) : Prop :=
  fd ∈ sc_open k ∧ Forall (λ x : Z * send_answer, x.1 ≠ fd) (sc_send k) ∧ Forall (no_error fd) (sc_poll k)
  ∧ Forall (Forall (λ e, ke_ident e = fd → Z.land (ke_flags e) EV_ERROR = 0%Z)) (sc_kevents k)
  ∧ steady (received k fd) (own fd (sc_recv k)).

Lemma next_for_own {A} fd (l : list (Z * A)) :
  match next_for fd l with
  | Some (a, l') => own fd l = a :: own fd l'
  | None => own fd l = []
  end.
Proof.
  induction l as [|[fd' a] l IH]; [done|]. cbn [next_for]. destruct (Z.eqb_spec fd fd') as [->|Hne].
  - unfold own. by rewrite filter_cons_True.
  - unfold own in *. rewrite filter_cons_False by (cbn; congruence). destruct (next_for fd l) as [[b l']|]; cbn [mbind option_bind]; [|done].
    by rewrite filter_cons_False by (cbn; congruence).
Qed.

Lemma next_for_other {A} f fd (l : list (Z * A)) a l' :
  next_for f l = Some (a, l') → f ≠ fd → own fd l' = own fd l.
Proof.
  revert l'. induction l as [|[f' b] l IH]; intros l'; [done|]. cbn [next_for]. unfold own in *.
  destruct (Z.eqb_spec f f') as [->|Hne].
  - intros [= -> ->] Hf. by rewrite filter_cons_False.
  - destruct (next_for f l) as [[x l2]|]; [|done]. intros [= -> <-] Hf. rewrite !filter_cons. cbn.
    specialize (IH _ eq_refl Hf). by case_decide; cbn; rewrite IH.
Qed.

Lemma next_for_Forall {A} (Q : Z * A → Prop) f l a l' : next_for f l = Some (a, l') → Forall Q l → Forall Q l'.
Proof.
  revert l'. induction l as [|[f' b] l IH]; intros l'; [done|]. cbn [next_for].
  destruct (f =? f')%Z; [by intros [= _ ->] [_ ?]%Forall_cons|].
  destruct (next_for f l) as [[x l2]|]; [|done]. intros [= -> <-] [? ?]%Forall_cons. constructor; [done|]. by apply IH.
Qed.



(** Nothing to send to [fd] is answered otherwise. *)
Lemma own_nil {A} fd (l : list (Z * A)) : Forall (λ x, x.1 ≠ fd) l → own fd l = [].
Proof.
  intros Hl. unfold own. induction Hl as [|[f a] l Hne _ IH]; [done|]. by rewrite filter_cons_False.
Qed.

Section Behaves.
Context (fd : Z) (Hfd : (0 ≤ fd)%Z).

(** Calls that leave the future of [fd] alone. *)
Lemma behaves_same (k k' : Script) :
  fd ∈ sc_open k' → sc_send k' = sc_send k → sc_poll k' = sc_poll k → sc_kevents k' = sc_kevents k →
  sc_recv k' = sc_recv k → received k' fd = received k fd → behaves fd k → behaves fd k'.
Proof. unfold behaves. intros ? -> -> -> -> ->. by intros (_ & ?). Qed.

Lemma behaves_send f data k : behaves fd k → behaves fd (sys_send f data k).2.
Proof.
  intros (Ho & Hs & Hrest). pose proof (script_send_law f data k _ _ (surjective_pairing _)) as (_ & _ & _ & _ & _ & Hr & _).
  specialize (Hr fd). revert Hr. cbn [sys_send script_kernel]. unfold script_send.
  destruct (next_for f (sc_send k)) as [[[n|e] l]|] eqn:Hn; cbn [snd]; intros Hr;
    (split; [done|]); (split; [cbn; by eauto using next_for_Forall|]); rewrite Hr; exact Hrest.
Qed.

Lemma behaves_recv f k : behaves fd k → behaves fd (sys_recv f kReadChunk k).2.
Proof.
  intros (Ho & Hs & Hp & Hk & Hst). destruct (sys_recv f kReadChunk k) as [[n buf] k'] eqn:H.
  destruct (script_recv_law f kReadChunk k n buf k' H) as (_ & Hown & Hother & _). cbn [snd].
  cbn [sys_recv script_kernel] in H. unfold script_recv in H. pose proof (next_for_own f (sc_recv k)) as Hnext.
  assert (f = fd → steady (received k' fd) (own fd (sc_recv k'))) as Hf.
  { intros ->. destruct (next_for fd (sc_recv k)) as [[[b|e] l]|]; rewrite Hnext in Hst; [|by destruct Hst|].
    - destruct Hst as (_ & [Hpos Hmax] & Hst). rewrite take_ge in H by (unfold str_size in *; lia).
      rewrite Hown. injection H as <- <- <-. by rewrite (proj2 (Z.ltb_lt _ _)).
    - rewrite Hown. injection H as <- <- <-. cbn [sc_recv sc_with_recv Z.ltb Z.compare]. by rewrite Hnext, app_nil_r. }
  assert (sc_open k' = sc_open k ∧ sc_send k' = sc_send k ∧ sc_poll k' = sc_poll k ∧ sc_kevents k' = sc_kevents k
    ∧ (f ≠ fd → own fd (sc_recv k') = own fd (sc_recv k))) as (E1 & E2 & E3 & E4 & Hne).
  { destruct (next_for f (sc_recv k)) as [[[b|e] l]|] eqn:Hn; injection H as <- <- <-; cbn;
      eauto 10 using next_for_other. }
  unfold behaves. rewrite E1, E2, E3, E4. split_and!; [done..|].
  destruct (decide (f = fd)) as [->|Hf2]; [by apply Hf|]. by rewrite Hother, Hne by done.
Qed.

Lemma behaves_accept f k : behaves fd k → behaves fd (sys_accept f k).2.
Proof.
  intros Hk. destruct (sys_accept f k) as [[n addr] k'] eqn:H. pose proof (law_accept _ _ _ _ _ H) as Hlaw. cbn [snd].
  assert (sc_send k' = sc_send k ∧ sc_poll k' = sc_poll k ∧ sc_kevents k' = sc_kevents k ∧ sc_recv k' = sc_recv k)
    as (? & ? & ? & ?).
  { cbn [sys_accept script_kernel] in H. unfold script_accept in H. by repeat case_match; simplify_eq. }
  apply behaves_same with k; try done.
  - destruct Hk as [Ho _]. destruct Hlaw as [[_ (E & _)]|(_ & _ & E & _)]; cbn in E; rewrite E; set_solver.
  - destruct Hk as [Ho _]. destruct Hlaw as [[_ (_ & _ & _ & E)]|(_ & Hn & _ & _ & _ & _ & E)]; [apply E|].
    apply E. by intros ->.
Qed.

#[local] Instance behaves_kept : KernelKept (behaves fd).
Proof.
  split; intros; try done.
  - by apply behaves_send.
  - by apply behaves_accept.
  - destruct H as (? & ? & Hp & ? & ?). split_and!; try done. cbn. by destruct Hp.
  - pose proof (script_new_fd_fresh k) as Hn. apply behaves_same with k; try done; cbn.
    + destruct H as [? _]. set_solver.
    + rewrite lookup_delete_ne; [done|]. intros <-. by destruct H.
  - cbn. unfold script_kevent_change. destruct (script_changes cs (sc_filters k)).
    by apply behaves_same with k; [apply H|..].
  - destruct H as (? & ? & ? & Hk & ?). split_and!; try done. cbn. by destruct Hk.
Qed.

(** The head of a list of answers, or the default. *)
Lemma Forall_head {A} (Q : A → Prop) (d : A) l : Q d → Forall Q l → Q (default d (head l)).
Proof. intros Hd Hl. by destruct Hl. Qed.

#[local] Instance behaves_courteous : Courteous (K := Script) fd (behaves fd).
Proof.
  split; try apply _; intros; try done.
  - by destruct H.
  - destruct H as (_ & _ & _ & _ & Hs). by destruct (own fd (sc_recv k)) as [|[]]; destruct Hs.
  - left. destruct H as (_ & Hs & _). revert H1. cbn [sys_send script_kernel]. unfold script_send.
    pose proof (next_for_own fd (sc_send k)) as Hn. rewrite (own_nil _ _ Hs) in Hn.
    destruct (next_for fd (sc_send k)) as [[]|]; [done|]. intros [= <- _]. destruct data; [done|]. unfold str_size. cbn. lia.
  - destruct H as (_ & _ & _ & _ & Hs). revert H0. cbn [sys_recv script_kernel]. unfold script_recv.
    pose proof (next_for_own fd (sc_recv k)) as Hn. destruct (next_for fd (sc_recv k)) as [[[b|e] l]|]; rewrite Hn in Hs.
    + destruct Hs as (_ & [Hpos Hmax] & _). rewrite take_ge by (unfold str_size in *; lia). intros [= <- _ _]. by left.
    + by destruct Hs.
    + intros [= <- _ <-]. right. split; [lia|]. by right.
  - destruct H as (_ & _ & Hp & _). revert H0. cbn [sys_poll script_kernel]. unfold script_poll. intros [= _ <- _].
    rewrite list_lookup_fmap, H1 in H2. injection H2 as <-. rewrite H3. by apply (Forall_head (no_error fd)).
  - destruct H as (_ & _ & _ & Hk & _). revert H0. cbn [sys_kevent_wait script_kernel]. unfold script_kevent_wait.
    intros [= _ <- _]. apply (Forall_head _ []) in Hk; [|constructor]. rewrite Forall_forall in Hk. by apply Hk.
  - by apply behaves_recv.
  - apply behaves_same with k; try done. destruct H0 as [? _]. cbn. set_solver.
Qed.

End Behaves.

#[local] Existing Instances demo_platform demo_order demo_order_laws.

(** Client 5 of the demonstration behaves; it is served although 6 does not
    read. *)
Lemma courteous_client_served_witness :
  ∃ c ms, sessions_ demo_trading !! 5%Z = Some c ∧ cs_closing c = false
    ∧ sent (kern demo_trading) 5 ++ pending c = wire (render <$> ms)
    ∧ length (filter (λ m, is_reply m = true) ms) = 2.
Proof.
  destruct (courteous_client_served 5 (behaves 5) demo_server demo_connected demo_trading (session_of demo_connected 5))
    as (c & ms & Hc & Hcl & Hs & _ & Hn & _).
  - apply behaves_courteous. lia.
  - exact demo_idle.
  - split; reflexivity.
  - apply rtc_once. vm_compute. reflexivity.
  - apply session_of_some. vm_compute. reflexivity.
  - vm_compute. reflexivity.
  - split; [|split; [|split; [|split]]]; apply (bool_decide_unpack _); vm_compute; exact I.
  - apply rtc_once. vm_compute. reflexivity.
  - exists c, ms. split; [exact Hc|]. split; [exact Hcl|]. split; [exact Hs|]. rewrite Hn. vm_compute. reflexivity.
Defined.
