(* ===== verification/ServerRemarks.v ===== *)
(** * ServerRemarks: behaviour that the comments do not suggest

    What the server does when the submitter of an order is dropped, in general,
    and single runs of the executable model in which it does something a reader
    of the sources' comments would not expect. *)

From S2P Require Import Prelude CxxString Framing MessageParser OrderBook OrderBookSpec Kernel EventLoop.
From S2P Require Import SocketUtils ClientSession TcpServer ExchangeServer ExchangeSpec ServerInv ServerOutput.
From S2P Require Import ServerProtocol ServerLoop ServerTheorems.

(** The fields of a valid order. *)
Lemma order_fields line :
  cmd_valid (parse line) = true → cmd_type (parse line) ∈ [BUY; SELL] →
  cmd_instrument (parse line) ∈ kInstruments ∧ (0 < cmd_quantity (parse line) ≤ LONG_MAX)%Z.
Proof.
  intros Hv Ht. destruct (parse_valid_accepts line Hv) as [r Hr]. pose proof (parse_accepts line r Hr) as Hp.
  rewrite Hp in *. inversion Hr as [| i tq tp q p Hi Hq Hq0|i tq tp q p Hi Hq Hq0| | | |]; subst; try set_solver; cbn;
    apply numeral_bound in Hq; unfold LONG_MAX; (split; [done|lia]).
Qed.

Section Remarks.
Context `{!Kernel K, !KernelView K, !KernelLaws K}.
Context `{!EventLoopI K L, !EventLoopLaws K L} `{!HashOrder (Server L K), !HashOrderLaws (Server L K)}.

Abbreviation server := (Server L K).
Implicit Types s : server.

Lemma trader_required fd c type s :
  inv s → sessions_ s !! fd = Some c → cs_logged_in c = true →
  require_logged_in_trader fd type s = Done (true, s).
Proof.
  intros Hinv Hfd Hlog. destruct (inv_session s fd c Hinv Hfd) as ([] & _).
  unfold require_logged_in_trader, reject_wrong_role, bind, session_ref, ret. rewrite Hfd. cbn [obind].
  rewrite (proj2 core_trader Hlog). cbn [obind orb bool_decide]. rewrite bool_decide_false, bool_decide_true by done.
  cbn [orb obind]. rewrite Hfd. cbn [obind]. by rewrite Hlog.
Qed.

(** C40: executions that nobody hears of.  A logged-in trader's order is
    matched against resting orders, and its submitter is dropped while the
    order is acknowledged (the send fails, or its output is too long).  All
    executions have then taken place in the book, which keeps that state but
    for the orders of clients that are gone; but only the first of them is
    announced, to its two parties and the subscribers: every client still
    connected got exactly the notice of that one, and those of the others,
    whose orders were filled too, are not told. *)
Theorem submitter_dropped_loses_executions fd c line b id e lost s s2 :
  let cmd := parse line in
  inv s → sessions_ s !! fd = Some c → cs_logged_in c = true →
  cmd_valid cmd = true → cmd_type cmd ∈ [BUY; SELL] →
  add_order (book_ s) fd (cmd_instrument cmd) (side_of (cmd_type cmd)) (cmd_quantity cmd) (cmd_price cmd)
    = Done (id, b, e :: lost) →
  send_to fd (order_accepted id) (set_book b s) = Done (tt, s2) → sessions_ s2 !! fd = None →
  ∃ s', handle_message fd line s = Done (tt, s') ∧ inv s'
    ∧ level_equiv (levels (book_ s')) (connected_levels s' (levels b))
    ∧ (∀ f c', sessions_ s' !! f = Some c' →
         ∃ c0, sessions_ s !! f = Some c0 ∧ stream s' f c' = stream s f c0 ++ notice (view s) e f)
    ∧ ∀ f, f ≠ fd → notice (view s) e f = [] →
         sessions_ s' !! f = sessions_ s !! f ∧ sent (kern s') f = sent (kern s) f.
Proof.
  intros cmd Hinv Hfd Hlog Hv Ht Hadd Hsend Hgone. pose proof (inv_core s Hinv) as Hc.
  destruct (order_fields line Hv Ht) as [Hi Hq]. fold cmd in Hi, Hq.
  assert (next_order_id_ (book_ s) < LONG_MAX)%Z as Hlt.
  { unfold add_order in Hadd. destruct (Z.leb_spec LONG_MAX (next_order_id_ (book_ s))); [done|lia]. }
  destruct (add_order_refines (book_ s) fd (cmd_instrument cmd) (side_of (cmd_type cmd)) (cmd_quantity cmd)
    (cmd_price cmd)) as (b' & Hwf & Hadd' & Heq); [apply Hc|done|done|].
  pose proof (spec_add_instrument (levels (book_ s)) fd (cmd_instrument cmd) (side_of (cmd_type cmd))
    (cmd_quantity cmd) (cmd_price cmd)) as Hxi.
  pose proof (spec_add_owner (levels (book_ s)) fd (cmd_instrument cmd) (side_of (cmd_type cmd))
    (cmd_quantity cmd) (cmd_price cmd)) as Hown.
  destruct (spec_add _ _ _ _ _ _) as [[id' lb] xs] eqn:Hspec. cbn [fst snd] in *.
  rewrite Hadd' in Hadd. injection Hadd as -> -> ->. apply Forall_cons in Hxi as [Hei _].
  destruct (book_inv fd c b s) as [Hr Hinv1]; [done..| |].
  { intros s0 j p x Hx. rewrite (proj2 Heq) in Hx. by eapply Hown. }
  assert (order_accepted id ≠ []) as Hne by done.
  pose proof (send_to_announces (OV := must_return) fd (order_accepted id) _ Hinv1 (small_order_accepted id) Hne) as Hack.
  destruct (wp_elim _ _ _ _ _ Hack Hsend) as [Hinv2 Ha2].
  assert (agrees (view s) s2) as Hag2.
  { destruct Ha2 as (? & _ & Hd2). eapply agrees_delivers, Hd2. exact (view_agrees s). }
  rewrite <-Hei in Hi.
  destruct (wp_done_inv _ _ _ (publish_spec (view s) e s2 Hinv2 Hag2 Hi)) as ([] & s3 & Hpub & Hinv3 & Ha3).
  assert (sessions_ s3 !! fd = None) as Hgone3.
  { destruct (sessions_ s3 !! fd) as [c3|] eqn:Hc3; [|done]. destruct Ha3 as (T & _ & Hd3).
    apply (dl_session _ _ _ _ Hd3) in Hc3 as (? & ? & _). congruence. }
  assert (outcome_of fd false (with_book (view s) (levels b)) (also (just fd (order_accepted id)) (notice (view s) e)) s s3) as [].
  { eapply outcome_intro; [done|exact Hr|by eapply announces_trans|exact (view_agrees s)|done]. }
  exists s3. split_and!; [|done|done|..].
  - assert (handle_order fd cmd s = Done (tt, s3)) as Hrun.
    { unfold handle_order, bind. rewrite (trader_required fd c) by done. cbn [obind negb]. unfold lift_add_order.
      change (if decide _ then _ else _) with (side_of (cmd_type cmd)). rewrite Hadd'. cbn [obind fst snd].
      rewrite Hsend. cbn [obind publish_all]. unfold bind. rewrite Hpub. cbn [obind]. unfold is_session, gets.
      cbn [obind]. by rewrite bool_decide_false by (rewrite Hgone3; by intros [? ?]). }
    unfold handle_message. fold cmd. cbv zeta. rewrite Hv. cbn [negb].
    rewrite !elem_of_cons in Ht. destruct Ht as [Ht|[Ht|Ht]]; [rewrite Ht; exact Hrun..|set_solver].
  - intros f c' Hf. destruct (oc_session f c' Hf) as (c0 & Hc0 & _ & _ & Hst & _). exists c0. split; [done|].
    rewrite Hst. unfold also, just. rewrite decide_False; [done|]. intros ->; congruence.
  - intros f Hf Hnil. apply oc_others; [done|]. unfold also, just. by rewrite decide_False, Hnil.
Qed.

End Remarks.

#[local] Existing Instances demo_platform demo_order demo_order_laws.

(** Client 6 buys 12 against the resting orders of 4 and 5, and the
    acknowledgement to 6 fails with EPIPE: 4 and the subscriber 7 hear of the
    first trade, 5, whose order is gone, of nothing. *)
Lemma submitter_dropped_loses_executions_witness :
  ∃ s', handle_message 6 buy_line demo_trading = Done (tt, s')
    ∧ queue_at (book_ s') (Side_SELL, lit "JNST") = []
    ∧ is_Some (sessions_ s' !! 5%Z) ∧ sent (kern s') 5 = sent (kern demo_trading) 5
    ∧ sent (kern s') 4 = sent (kern demo_trading) 4 ++ lit "SOLD JNST 5 10" ++ [LF]
    ∧ sent (kern s') 7 = sent (kern demo_trading) 7 ++ lit "TRADE JNST 5 10" ++ [LF].
Proof.
  destruct (add_order (book_ demo_trading) 6 (lit "JNST") Side_BUY 12 10) as [[[id b] [|e lost]]| | |] eqn:Hadd;
    [vm_compute in Hadd; discriminate Hadd| |vm_compute in Hadd; discriminate Hadd..].
  destruct (send_to 6 (order_accepted id) (set_book b demo_trading)) as [[[] s2]| | |] eqn:Hsend.
  2-4: exfalso; vm_compute in Hadd; injection Hadd as <- <- <- <-; vm_compute in Hsend; discriminate Hsend.
  destruct (submitter_dropped_loses_executions 6 (session_of demo_trading 6) buy_line b id e lost demo_trading s2)
    as (s' & Hrun & _ & _ & _ & _).
  - apply demo_trading_idle.
  - apply session_of_some. vm_compute. reflexivity.
  - vm_compute. reflexivity.
  - vm_compute. reflexivity.
  - apply list_elem_of_here.
  - exact Hadd.
  - exact Hsend.
  - rewrite (final_done _ _ _ Hsend). vm_compute in Hadd. injection Hadd as <- <- <- <-. vm_compute. reflexivity.
  - exists s'. split; [exact Hrun|]. rewrite (final_done _ _ _ Hrun). split; [vm_compute; reflexivity|].
    split; [apply (proj1 (bool_decide_eq_true (is_Some _))); vm_compute; reflexivity|].
    split; [|split]; vm_compute; reflexivity.
Defined.

(** The line limit: a message of more than 64 KiB is accepted when its
    newline arrives in the same read, because only what is left in the buffer
    without a newline is measured; here a line of 65600 bytes gets the reply
    to an unknown command and the client stays connected. *)
Theorem long_line_accepted :
  let line := repeat "A"%char (Z.to_nat 65600) in
  let s := set_sessions (<[7%Z := set_inbuf (line ++ [LF]) (session_of demo_trading 7)]>
             (sessions_ demo_trading)) demo_trading in
  ∃ s', consume_messages 7 s = Done (true, s') ∧ (kMaxLineBytes < str_size line)%Z
    ∧ cs_closing (session_of s' 7) = false
    ∧ sent (kern s') 7 = sent (kern demo_trading) 7 ++ error (lit "Unknown command").
Proof.
  intros line s. destruct (consume_messages 7 s) as [[more s']| | |] eqn:Hrun.
  2-4: exfalso; assert (goes_on (consume_messages 7 s) = true) as H by (vm_compute; reflexivity);
       rewrite Hrun in H; discriminate H.
  assert (more = true) as ->.
  { assert (goes_on (consume_messages 7 s) = true) as H by (vm_compute; reflexivity).
    by rewrite Hrun in H. }
  exists s'. split; [done|]. rewrite (final_done _ _ _ Hrun). split; [vm_compute; reflexivity|].
  split; vm_compute; reflexivity.
Qed.

(** The code [m] returns [a] from [s], in a state that passes [test]. *)
Definition returns {A} `{!EqDecision A} (m : M (Server EventLoop Script) A) (s : Server EventLoop Script)
    (a : A) (test : Server EventLoop Script → bool) : bool :=
  match m s with Done (a', s') => bool_decide (a' = a) && test s' | _ => false end.

Lemma returns_done {A} `{!EqDecision A} (m : M (Server EventLoop Script) A) s a test :
  returns m s a test = true → ∃ s', m s = Done (a, s') ∧ test s' = true.
Proof.
  unfold returns. destruct (m s) as [[a' s']| | |]; [|done..].
  intros [->%bool_decide_eq_true Ht]%andb_true_iff. by exists s'.
Qed.

(** A kernel in which nothing more happens, except what is given. *)
Definition quiet_kernel (sends : list (Z * send_answer)) (accepts : list accept_answer) : Script :=
  mkScript EAGAIN (sc_open (kern demo_trading)) (sc_traffic (kern demo_trading)) sends [] accepts [] []
    1000 [] ∅.

(** consume_messages answers false although the session exists: after an
    oversized line the refusal is still to be sent, so the client is closing,
    not dropped. *)
Theorem oversized_is_closing_not_dropped :
  let s := set_sessions (<[7%Z := set_inbuf (repeat "A"%char (Z.to_nat 65537)) (session_of demo_trading 7)]>
             (sessions_ demo_trading)) (set_kern (quiet_kernel [(7%Z, SendFail EAGAIN)] []) demo_trading) in
  ∃ s', consume_messages 7 s = Done (false, s')
    ∧ (bool_decide (is_Some (sessions_ s' !! 7%Z)) && cs_closing (session_of s' 7)
       && bool_decide (pending (session_of s' 7) = error oversized_text)) = true.
Proof. apply returns_done. vm_compute. reflexivity. Qed.

(** An old accept failure is printed again: the connection that was aborted
    before it could be accepted sets no error, and the one of an earlier
    failure is reported; the connection waiting behind it is not accepted. *)
Theorem stale_accept_error :
  let t := listener_ demo_trading in
  let old := lit "accept() failed: earlier" in
  let s := set_listener (ts_set_error t old)
             (set_kern (quiet_kernel [] [AcceptFail ECONNABORTED; AcceptFd 8 (mkSockaddr 0 0)]) demo_trading) in
  ∃ s', accept_pending s = Done (tt, s')
    ∧ (bool_decide (last (log_ s') = Some (Stderr (lit "exchange_server: " ++ old ++ [LF])))
       && bool_decide (sessions_ s' !! 8%Z = None) && (length (sc_accept (kern s')) =? 1)%nat) = true.
Proof. apply returns_done. vm_compute. reflexivity. Qed.

(** A refused LOGIN decides nothing: 4 takes the name, 5 asks for it too and
    is refused, and then becomes a market-data client. *)
Theorem refused_login_leaves_role :
  ∃ s', (handle_message 4 (lit "LOGIN ann") ;;; handle_message 5 (lit "LOGIN ann") ;;;
         handle_message 5 (lit "SUBSCRIBE JNST")) demo_connected = Done (tt, s')
    ∧ (bool_decide (sent (kern s') 5 = name_in_use (lit "ann") ++ ok)
       && bool_decide (cs_role (session_of s' 5) = Role_MARKET_DATA)) = true.
Proof. apply returns_done. vm_compute. reflexivity. Qed.
