(* ===== verification/ServerMain.v ===== *)
(** * ServerMain: start-up of the server (src/exchange_server.cpp: the
    constructor and [start] of [ExchangeServer], [env_flag], [usage], [main])

    The command line and the environment are decoded into a configuration, or
    an exit status with a message; the server is built from the configuration,
    started and run.  The theorems: which configuration a command line gives,
    and that a server that has started satisfies the invariant from which
    ServerTheorems.v proves the main loop safe, while one that fails to start
    leaves no descriptor open; and what [main] as a whole does, on every path. *)

From S2P Require Import Prelude CxxString OrderBook Kernel EventLoop SocketUtils Signals KeptCalls TcpServer.
From S2P Require Import ClientSession ExchangeServer ServerKept ServerInv ServerOutput ServerTrace ServerLoop.
From S2P Require Import ServerTheorems ServerResources ServerProcess.

Definition kDefaultPort : Z := 5000.
Definition kDefaultHost : bytes := lit "127.0.0.1".

(** ** Start-up of the server *)

Section Start.
Context `{!Kernel K, !SocketCalls K, !EventLoopI K L}.

Definition lift_start (backlog : Z) : M (Server L K) bool :=
  λ s, let '(ok, t, k) := start_listening backlog (listener_ s) (kern s) in
       Done (ok, set_kern k (set_listener t s)).

Definition start : M (Server L K) bool :=
  let* ok := lift_start SOMAXCONN in
  if negb ok then
    let* e := gets (λ s, ts_error (listener_ s)) in
    eprint (lit "exchange_server: " ++ c_str e ++ [LF]) ;;;
    ret false
  else
    let* fd := gets (λ s, ts_fd (listener_ s)) in
    let* ok := lift_add fd true false in
    if negb ok then
      eprint (lit "exchange_server: cannot register listening socket" ++ [LF]) ;;;
      ret false
    else
      let* s := get in
      print (lit "Exchange Server listening on " ++ c_str (ts_host (listener_ s)) ++ lit ":"
             ++ to_string (ts_port (listener_ s)) ++ lit " (listening socket fd "
             ++ to_string (ts_fd (listener_ s)) ++ lit ", I/O backend "
             ++ backend_name (loop_backend (loop_ s)) ++ lit ")" ++ [LF]) ;;;
      ret true.

End Start.

(** ** Command line *)

Record Config : Type := mkConfig {
  c_host : bytes;
  c_port : Z;
  c_backend : Backend;
  c_verbose : bool;
  c_send_buffer_bytes : Z
}.

Definition server_usage (program : bytes) : printed :=
  Stderr (lit "usage: " ++ program ++ lit " [host] [port] [--backend=poll|kqueue] [--verbose]" ++ [LF]
    ++ [LF] ++ lit "  host, port          address to listen on (default " ++ kDefaultHost ++ lit " "
    ++ to_string kDefaultPort ++ lit ")" ++ [LF]
    ++ lit "  --backend=NAME      I/O readiness mechanism" ++ [LF]
    ++ lit "  --verbose, -v       log every recv() and every framed message" ++ [LF]
    ++ [LF] ++ lit "Environment: EXCHANGE_BACKEND, EXCHANGE_VERBOSE, EXCHANGE_SNDBUF" ++ [LF]).

(** [std::getenv] *)
Definition Environment : Type := bytes → option bytes.

Definition env_flag (env : Environment) (name : bytes) : bool :=
  match env name with
  | None | Some [] => false
  | Some value => negb (bool_decide (value = lit "0"))
  end.

(** What one argument is. *)
Inductive argument : Type :=
| ArgVerbose
| ArgBackend (name : bytes)
| ArgHelp
| ArgUnknown
| ArgPositional (text : bytes).

#[global] Instance argument_eq_dec : EqDecision argument.
Proof. solve_decision. Defined.

Definition backend_prefix : bytes := lit "--backend=".

Definition classify (arg : bytes) : argument :=
  if bool_decide (arg = lit "-v") || bool_decide (arg = lit "--verbose") then ArgVerbose
  else if bool_decide (take 10 arg = backend_prefix) then ArgBackend (drop 10 arg)
  else if bool_decide (arg = lit "-h") || bool_decide (arg = lit "--help") then ArgHelp
  else match arg with
       | c :: _ => if decide (c = "-"%char) then ArgUnknown else ArgPositional arg
       | [] => ArgPositional arg
       end.

Section Arguments.
Context {P : Platform}.

Definition bad_backend (name : bytes) (used : Backend) : printed :=
  Stderr (lit "exchange_server: unsupported backend '" ++ c_str name ++ lit "'; using "
          ++ backend_name used ++ [LF]).

(** Selecting a back end by name, with the complaint about an unknown one. *)
Definition select_backend (name : bytes) : Backend * list printed :=
  let '(b, ok) := parse_backend name in (b, if (ok : bool) then [] else [bad_backend name b]).

Definition env_send_buffer (env : Environment) : Z :=
  match env (lit "EXCHANGE_SNDBUF") with
  | None => 0
  | Some value => let n := atoi value in if (n <? 0)%Z then 0 else n
  end.

Definition env_backend (env : Environment) : Backend * list printed :=
  match env (lit "EXCHANGE_BACKEND") with
  | None => (default_backend, [])
  | Some name => select_backend name
  end.

(** The loop over the arguments: an exit status, or whether output is verbose,
    the back end and the positional arguments; and what is printed. *)
Fixpoint scan (program : bytes) (verbose : bool) (backend : Backend) (positional : list bytes)
    (args : list bytes) : (Z + bool * Backend * list bytes) * list printed :=
  match args with
  | [] => (inr (verbose, backend, positional), [])
  | arg :: args =>
      match classify arg with
      | ArgVerbose => scan program true backend positional args
      | ArgBackend name =>
          let '(b, out) := select_backend name in
          let '(r, out') := scan program verbose b positional args in (r, out ++ out')
      | ArgHelp => (inl 0%Z, [server_usage program])
      | ArgUnknown => (inl 2%Z, [server_usage program])
      | ArgPositional text => scan program verbose backend (positional ++ [text]) args
      end
  end.

(** The first part of [main]: the configuration, or the exit status. *)
Definition configure (env : Environment) (program : bytes) (args : list bytes)
    : (Z + Config) * list printed :=
  let send_buffer_bytes := env_send_buffer env in
  let '(backend, out) := env_backend env in
  let '(r, out') := scan program (env_flag env (lit "EXCHANGE_VERBOSE")) backend [] args in
  match r with
  | inl status => (inl status, out ++ out')
  | inr (verbose, backend, positional) =>
      match positional with
      | [] => (inr (mkConfig kDefaultHost kDefaultPort backend verbose send_buffer_bytes), out ++ out')
      | [host] => (inr (mkConfig host kDefaultPort backend verbose send_buffer_bytes), out ++ out')
      | [host; text] =>
          let port := atoi (c_str text) in
          if (port <=? 0)%Z || (65535 <? port)%Z then
            (inl 2%Z, out ++ out' ++ [Stderr (lit "exchange_server: invalid port '" ++ c_str text
                                               ++ lit "'" ++ [LF])])
          else (inr (mkConfig host port backend verbose send_buffer_bytes), out ++ out')
      | _ => (inl 2%Z, out ++ out' ++ [server_usage program])
      end
  end.

Context `{!Kernel K, !SocketCalls K, !SignalCalls K, !HashOrder (Server EventLoop K)}.

(** [ExchangeServer(host, port, backend, verbose, send_buffer_bytes)] *)
Definition new_server (c : Config) (k : K) (out : list printed) : Server EventLoop K :=
  let '(l, k) := new_loop (c_backend c) k in
  fresh_server (new_tcp_server (c_host c) (c_port c)) l (c_verbose c) (c_send_buffer_bytes c) k out.

(** The implicit [~ExchangeServer]: its members in the reverse order of their
    declaration, the event loop and then the listening socket. *)
Definition destroy_server (s : Server EventLoop K) : K :=
  destroy_tcp_server (listener_ s) (destroy_loop (loop_ s) (kern s)).

(** The last part of [main]: the exit status, the text printed and the kernel
    at the end; the main loop is given [fuel] passes. *)
Definition serve (fuel : nat) (c : Config) (k : K) (out : list printed) : outcome (Z * list printed * K) :=
  obind
    ((let* ok := start in if negb ok then ret 1%Z else run fuel ;;; ret 0%Z) (new_server c k out))
    (λ '(status, s), Done (status, log_ s, destroy_server s)).

Definition main (fuel : nat) (env : Environment) (program : bytes) (args : list bytes) (k : K)
    : outcome (Z * list printed * K) :=
  let '(choice, out) := configure env program args in
  match choice with
  | inl status => Done (status, out, k)
  | inr c =>
      let k := install_handlers k in
      let '(_, k) := raise_fd_limit k in
      serve fuel c k out
  end.

End Arguments.

(** ** Theorems *)

Section Startup.
Context {P : Platform} `{!Kernel K, !KernelView K, !KernelLaws K, !SocketCalls K, !SocketLaws K}.
Context `{!HashOrder (Server EventLoop K), !HashOrderLaws (Server EventLoop K)}.

(** A server that has stopped before its main loop. *)
Definition gave_up (s0 s : Server EventLoop K) : Prop :=
  open_fds (destroy_tcp_server (listener_ s) (kern s)) = open_fds (kern s0)
  ∧ ∃ why, log_ s = log_ s0 ++ [Stderr (lit "exchange_server: " ++ why)].

(** A server that is listening. *)
Definition listening (s0 s : Server EventLoop K) : Prop :=
  idle s ∧ vacant s ∧ (0 ≤ lfd s)%Z ∧ lfd s ∉ open_fds (kern s0)
  ∧ open_fds (kern s) = {[lfd s]} ∪ open_fds (kern s0).

Lemma start_spec c k out :
  let s0 := new_server c k out in
  ∃ ok s, start s0 = Done (ok, s) ∧ if (ok : bool) then listening s0 s else gave_up s0 s.
Proof.
  unfold new_server. destruct (new_loop (c_backend c) k) as [l k0] eqn:Hl.
  destruct (new_loop_wf _ _ _ _ Hl) as [Hwf _]. cbv zeta.
  set (s0 := fresh_server _ l _ _ k0 out). unfold start, bind, lift_start, start_listening. cbn [listener_ s0
    fresh_server new_tcp_server ts_host ts_port kern].
  destruct (create_listening_socket (c_host c) (c_port c) SOMAXCONN k0) as [[fd e] k1] eqn:Hc.
  apply create_listening_created in Hc as [Hc _].
  destruct Hc as [(Hpos & -> & Hfresh & Ho & _)|(-> & (why & -> & _) & Ho)].
  2: { eexists false, _. split; [reflexivity|]. split; [done|]. by eexists. }
  rewrite (proj2 (Z.leb_le 0 fd)) by done. cbn [negb obind].
  destruct (law_loop_add (EventLoopLaws := event_loop_laws) l fd true false k1 Hwf) as (ok & l' & k2 & Hadd & Hwf' & (Ho2 & _) & _ & Hint & _).
  unfold gets, lift_add. cbn [obind listener_ set_kern set_listener ts_fd loop_ kern s0 fresh_server].
  rewrite Hadd. cbn [obind]. destruct ok; cbn [negb].
  - eexists true, _. split; [reflexivity|]. split_and!; [|done|done|done|cbn; by rewrite Ho2, Ho].
    apply (fresh_idle (mkTCPServer (c_host c) (c_port c) fd []) l'); [done|by apply Hint|].
    cbn. rewrite Ho2, Ho. set_solver.
  - eexists false, _. split; [reflexivity|]. split; [|by eexists].
    unfold destroy_tcp_server. cbn. rewrite (proj2 (Z.leb_le 0 fd)) by done.
    destruct (law_close fd k2) as (-> & _). rewrite Ho2, Ho. set_solver.
Qed.

(** Start-up.  A server built from any configuration either starts: it
    listens on a newly opened descriptor, no client is connected, and in every
    state its main loop then reaches the invariant holds and the next pass
    returns (or an order id overflows).  Or it reports why on standard error,
    and destroying it leaves exactly the descriptors of before open. *)
Theorem server_starts c k out :
  let s0 := new_server c k out in
  ∃ ok s, start s0 = Done (ok, s)
    ∧ if (ok : bool) then
        listening s0 s
        ∧ ∀ s', rtc pass s s' →
            idle s' ∧ (iteration s' = Overflow ∨ ∃ go s'', iteration s' = Done (go, s'') ∧ idle s'')
      else gave_up s0 s.
Proof.
  intros s0. destruct (start_spec c k out) as (ok & s & Hs & Hr). exists ok, s.
  split; [exact Hs|]. destruct ok; [|exact Hr]. split; [exact Hr|].
  intros s' Hreach. apply reachable_returns with s; [|done]. apply Hr.
Qed.

(** *** From [main] to its exit status *)

Definition kq_fds (l : EventLoop) : gset Z := if (0 <=? kq_ l)%Z then {[kq_ l]} else ∅.

Lemma destroy_loop_open l (k : K) : open_fds (destroy_loop l k) = open_fds k ∖ kq_fds l.
Proof. unfold destroy_loop, kq_fds. destruct (0 <=? _)%Z; [apply law_close|by rewrite difference_empty_L]. Qed.

(** A new loop holds at most the kqueue open. *)
Lemma new_loop_opens backend (k : K) :
  open_fds (new_loop backend k).2 ∖ kq_fds (new_loop backend k).1 = open_fds k.
Proof.
  unfold new_loop. destruct have_kqueue; [|apply difference_empty_L]. destruct backend; [apply difference_empty_L|].
  destruct (sys_kqueue k) as [n k1] eqn:Hq. apply law_kqueue in Hq. unfold kq_fds. cbn.
  destruct Hq as [[Hneg (Ho & _)]|(Hpos & Hfresh & Ho & _)].
  - rewrite (proj2 (Z.leb_gt 0 n)) by done. by rewrite difference_empty_L.
  - rewrite (proj2 (Z.leb_le 0 n)) by done. rewrite Ho. set_solver.
Qed.

Lemma destroy_server_open (s : Server EventLoop K) :
  open_fds (destroy_server s) = open_fds (destroy_tcp_server (listener_ s) (kern s)) ∖ kq_fds (loop_ s).
Proof.
  unfold destroy_server, destroy_tcp_server. destruct (0 <=? ts_fd (listener_ s))%Z; [|apply destroy_loop_open].
  rewrite !(proj1 (law_close _ _)), destroy_loop_open. set_solver.
Qed.

(** The main loop with [fuel] passes. *)
Lemma run_loop_cases fuel (s : Server EventLoop K) :
  idle s →
  match run_loop fuel s with
  | Done (_, s') => ∃ s1, rtc pass s s1 ∧ iteration s1 = Done (false, s')
  | OutOfFuel => ∃ s', nsteps pass fuel s s'
  | Overflow => ∃ s', rtc pass s s' ∧ iteration s' = Overflow
  | Dangling => False
  end.
Proof.
  revert s. induction fuel as [|fuel IH]; intros s Hs; cbn [run_loop]; [exists s; constructor|]. unfold bind.
  destruct (reachable_returns s s Hs (rtc_refl _ _)) as [_ [Ho|(go & s2 & Hi & Hs2)]].
  { rewrite Ho. exists s. by split; [constructor|]. }
  rewrite Hi. cbn. destruct go; [|exists s; by split; [constructor|]]. specialize (IH s2 Hs2).
  assert (pass s s2) as Hp by exact Hi. destruct (run_loop fuel s2) as [[u s']| | |]; try done.
  - destruct IH as (s1 & ? & ?). exists s1. split; [by eapply rtc_l|done].
  - destruct IH as (s1 & ?). exists s1. by econstructor.
  - destruct IH as (s1 & ? & ?). exists s1. split; [by eapply rtc_l|done].
Qed.

Section Process.
Context `{!SignalCalls K, !SignalLaws K}.
Context (I : K → Prop) `{!KernelKept I, !FdKept I, !SocketKept I}.

(** [run] closes every client's descriptor, and none else. *)
Lemma run_spec fuel (s : Server EventLoop K) :
  idle s → vacant s → I (kern s) →
  match run fuel s with
  | Done (_, s') =>
      open_fds (kern s') = open_fds (kern s) ∧ anchors s' = anchors s ∧ I (kern s')
      ∧ ∃ s1 s2, rtc pass s s1 ∧ iteration s1 = Done (false, s2)
  | OutOfFuel => ∃ s', nsteps pass fuel s s'
  | Overflow => ∃ s', rtc pass s s' ∧ iteration s' = Overflow
  | Dangling => False
  end.
Proof.
  intros Hs Hv HI. pose proof (run_loop_cases fuel s Hs) as Hloop. unfold run, bind.
  destruct (run_loop fuel s) as [[u s2]| | |]; try done. cbn [obind]. destruct Hloop as (s1 & Hr & Hi).
  assert (idle s2) as Hs2.
  { pose proof (reachable_idle s s1 Hs Hr) as Hs1. exact (wp_elim _ _ _ _ _ (iteration_spec (OV := True) Logic.I s1 Hs1) Hi). }
  assert (rooted I (anchors s) s2) as Hroot.
  { eapply (rooted_iteration I); [exact Hi|]. eapply maintains_passes; [exact (rooted_iteration I _)|exact Hr|done]. }
  assert (accounted (open_fds (kern s)) s2) as Hacc.
  { eapply accounted_iteration; [exact Hi|]. eapply accounted_passes; [exact Hr|]. by apply vacant_accounted. }
  destruct (accounted_exact _ _ Hs2 Hacc) as [Ho Hd].
  destruct (wp_done_inv _ _ _ (shutdown_all_spec s2)) as ([] & s' & Hsh & _ & _ & Ho').
  rewrite Hsh. destruct (rooted_shutdown_all I _ _ _ _ Hsh Hroot) as [HI' Ha]. split_and!; [|done|done|by exists s1, s2].
  rewrite Ho', Ho, (proj2 (proj2 Hs2)). cbn. set_solver.
Qed.

Lemma destroy_server_kept s : I (kern s) → I (destroy_server s).
Proof.
  intros Hk. apply (destroy_loop_kept I (loop_ s)) in Hk. unfold destroy_server, destroy_tcp_server.
  destruct (0 <=? _)%Z; eauto with kernel_kept.
Qed.

Lemma start_rooted s ok s' :
  start s = Done (ok, s') → I (kern s) → I (kern s') ∧ kq_ (loop_ s') = kq_ (loop_ s).
Proof.
  unfold start, bind, lift_start, start_listening. intros Hrun Hk.
  pose proof (create_listening_kept I (ts_host (listener_ s)) (ts_port (listener_ s)) SOMAXCONN _ Hk) as H1.
  destruct (create_listening_socket _ _ _ _) as [[fd e] k1]. cbn [obind] in Hrun. cbn [snd] in H1.
  destruct (negb _); [by injection Hrun as _ <-|]. unfold gets, lift_add in Hrun. cbn [obind] in Hrun.
  destruct (loop_add _ _ _ _ _) as [[[ok1 l] k2]| | |] eqn:Ha; try done.
  apply (loop_add_rooted I) in Ha as [Hq H2]; [|done]. cbn in Hrun.
  by destruct ok1; injection Hrun as _ <-.
Qed.

(** The server that [main] starts. *)
Definition started (env : Environment) (program : bytes) (args : list bytes) (k : K) (s : Server EventLoop K) : Prop :=
  ∃ c, (configure env program args).1 = inr c
    ∧ start (new_server c (raise_fd_limit (install_handlers k)).2 (configure env program args).2) = Done (true, s).

(** How serving ends: [begins] is the server that has been started. *)
Definition serve_ends (fuel : nat) (begins : Server EventLoop K → Prop) (k : K) (r : outcome (Z * list printed * K)) : Prop :=
  match r with
  | Done (status, out, k') =>
      open_fds k' = open_fds k
      ∧ ((status = 1%Z ∧ ∃ why, last out = Some (Stderr (lit "exchange_server: " ++ why)))
         ∨ (status = 0%Z ∧ ∃ s s1 s2, begins s ∧ rtc pass s s1 ∧ iteration s1 = Done (false, s2)))
  | OutOfFuel => ∃ s s', begins s ∧ nsteps pass fuel s s'
  | Overflow => ∃ s s', begins s ∧ rtc pass s s' ∧ iteration s' = Overflow
  | Dangling => False
  end.

(** Closing its own two descriptors restores what was open. *)
Lemma destroyed_open c k out s :
  let s0 := new_server c k out in
  kq_ (loop_ s) = kq_ (loop_ s0) →
  open_fds (destroy_tcp_server (listener_ s) (kern s)) = open_fds (kern s0) →
  open_fds (destroy_server s) = open_fds k.
Proof.
  intros s0 Hq Ho. rewrite destroy_server_open, Ho, <-(new_loop_opens (c_backend c) k). unfold kq_fds.
  rewrite Hq. subst s0. unfold new_server. by destruct (new_loop (c_backend c) k).
Qed.

Lemma serve_spec fuel c k out :
  I k →
  serve_ends fuel (λ s, start (new_server c k out) = Done (true, s)) k (serve fuel c k out)
  ∧ ∀ status lg k', serve fuel c k out = Done (status, lg, k') → I k'.
Proof.
  intros HI. destruct (start_spec c k out) as (ok & s & Hs & Hok).
  assert (I (kern (new_server c k out))) as HI0.
  { pose proof (new_loop_kept I (c_backend c) k HI) as H. unfold new_server. by destruct (new_loop _ _). }
  destruct (start_rooted _ _ _ Hs HI0) as [HIs Hq].
  unfold serve, bind. rewrite Hs. cbn [obind]. destruct ok; cbn [negb].
  - destruct Hok as (Hidle & Hv & Hpos & Hfresh & Ho). pose proof (run_spec fuel s Hidle Hv HIs) as Hrun.
    destruct (run fuel s) as [[[] s']| | |]; cbn [obind]; [|split; [|done]..|done].
    + destruct Hrun as (Ho' & Ha & HI' & s1 & s2 & Hr & Hi).
      split; [|intros ??? [= _ _ <-]; by apply destroy_server_kept].
      split; [|right; split; [done|by exists s, s1, s2]].
      injection Ha as Hq' Hl. apply destroyed_open with c out; [by rewrite Hq', Hq|].
      unfold destroy_tcp_server. change (ts_fd (listener_ s')) with (lfd s'). rewrite Hl.
      rewrite (proj2 (Z.leb_le 0 (lfd s))) by done.
      rewrite (proj1 (law_close _ _)), Ho', Ho. set_solver.
    + destruct Hrun as (s' & Hr). by exists s, s'.
    + destruct Hrun as (s' & Hr). by exists s, s'.
  - destruct Hok as [Ho (why & Hlog)]. cbn [ret obind]. split; [|intros ??? [= _ _ <-]; by apply destroy_server_kept].
    split; [by eapply destroyed_open|]. left. split; [done|]. exists why. by rewrite Hlog, last_snoc.
Qed.

Lemma main_spec fuel env program args k c :
  I (install_handlers k) → (configure env program args).1 = inr c →
  serve_ends fuel (started env program args k) k (main fuel env program args k)
  ∧ ∀ status out k', main fuel env program args k = Done (status, out, k') → I k'.
Proof.
  intros HI Hc. unfold main, started. destruct (configure env program args) as [choice out].
  cbn [fst snd] in *. subst choice. pose proof (raise_fd_limit_kept I _ HI) as HI1.
  pose proof (raise_fd_limit_quiet (install_handlers k)) as (Ho1 & _). pose proof (install_quiet k) as (Ho0 & _).
  destruct (raise_fd_limit (install_handlers k)) as [lim k1]. cbn [snd] in *.
  destruct (serve_spec fuel c k1 out HI1) as [Hends HI']. split; [|exact HI'].
  revert Hends. unfold serve_ends. destruct (serve fuel c k1 out) as [[[status lg] k']| | |]; [|..|done].
  - rewrite Ho1, Ho0. intros [Ho [H|(H & s & s1 & s2 & H1 & H2)]]; (split; [done|]); [by left|].
    right. split; [done|]. exists s, s1, s2. split; [by exists c|done].
  - intros (s & s' & H1 & H2). exists s, s'. split; [by exists c|done].
  - intros (s & s' & H1 & H2). exists s, s'. split; [by exists c|done].
Qed.

End Process.

#[global] Instance anything_kept : KernelKept (K := K) (λ _, True).
Proof. done. Qed.

#[global] Instance anything_kept_fds : FdKept (K := K) (λ _, True).
Proof. done. Qed.

#[global] Instance anything_kept_sockets : SocketKept (K := K) (λ _, True).
Proof. done. Qed.

(** C7: the whole program.  For every command line, environment and behaviour
    of clients and kernel, [main] either refuses the command line, with the
    status and messages of [configure] and without a system call; or it cannot
    start (no listening socket, or the event loop refuses it), says why on
    standard error and returns 1; or it serves until a pass
    of its main loop ends the loop and returns 0.  In all cases exactly the
    descriptors of before are open when it returns.  When it has not returned
    it has been through as many passes as it was given, or an order id has
    overflowed; it never uses an erased session or list node. *)
Theorem main_correct `{!SignalCalls K, !SignalLaws K} fuel env program args (k : K) :
  match (configure env program args).1 with
  | inl status => main fuel env program args k = Done (status, (configure env program args).2, k)
  | inr _ => serve_ends fuel (started env program args k) k (main fuel env program args k)
  end.
Proof.
  destruct ((configure env program args).1) as [status|c] eqn:Hc.
  - unfold main. destruct (configure env program args) as [[]]; by simplify_eq/=.
  - by apply (main_spec (λ _, True) fuel env program args k c).
Qed.

End Startup.

(** *** Command line *)

Section CommandLine.
Context {P : Platform}.

(** What each argument means, by its text. *)
Inductive says : bytes → argument → Prop :=
| says_v : says (lit "-v") ArgVerbose
| says_verbose : says (lit "--verbose") ArgVerbose
| says_backend name : says (lit "--backend=" ++ name) (ArgBackend name)
| says_h : says (lit "-h") ArgHelp
| says_help : says (lit "--help") ArgHelp
| says_text text : head text ≠ Some "-"%char → says text (ArgPositional text)
| says_other text : head text = Some "-"%char →
    text ∉ [lit "-v"; lit "--verbose"; lit "-h"; lit "--help"] →
    (∀ name, text ≠ lit "--backend=" ++ name) → says text ArgUnknown.

(** The code's tests tell the same meaning. *)
Lemma classify_says text m : says text m ↔ classify text = m.
Proof.
  split.
  - destruct 1 as [| |name| | |text Hd|text Hd Hno Hb]; try reflexivity.
    + assert (∀ t, head t = Some "-"%char → text ≠ t) as Hne by (by intros t Ht ->).
      unfold classify. rewrite (bool_decide_false (take 10 text = _)).
      2: { destruct text as [|c text]; [done|]. intros [= -> _]. by apply Hd. }
      rewrite !bool_decide_false by (by apply Hne).
      destruct text as [|c text]; [done|]. cbn. rewrite decide_False; [done|]. intros ->. by apply Hd.
    + unfold classify. rewrite !not_elem_of_cons in Hno. destruct Hno as (? & ? & ? & ? & _).
      rewrite (bool_decide_false (take 10 text = _)).
      2: { intros Ht. apply (Hb (drop 10 text)). rewrite <-(take_drop 10 text) at 1. by rewrite Ht. }
      rewrite !bool_decide_false by done. destruct text as [|c text]; [done|]. cbn in Hd |- *.
      rewrite decide_True; [done|]. by injection Hd.
  - intros <-. unfold classify.
    destruct (bool_decide_reflect (text = lit "-v")) as [->|H1]; [constructor|].
    destruct (bool_decide_reflect (text = lit "--verbose")) as [->|H2]; [constructor|].
    destruct (bool_decide_reflect (take 10 text = backend_prefix)) as [H3|H3]; cbn [orb].
    { rewrite <-(take_drop 10 text) at 1. rewrite H3. constructor. }
    destruct (bool_decide_reflect (text = lit "-h")) as [->|H4]; [constructor|].
    destruct (bool_decide_reflect (text = lit "--help")) as [->|H5]; [constructor|]. cbn [orb].
    destruct text as [|c text]; [by constructor|]. case_decide as Hc; [|constructor; cbn; congruence].
    subst c. apply says_other; [done|set_solver|]. intros name Hn. apply H3. by rewrite Hn.
Qed.

Lemma says_all args ms : Forall2 says args ms ↔ ms = classify <$> args.
Proof.
  revert ms. induction args as [|a args IH]; intros ms; split.
  - by inversion 1.
  - intros ->. constructor.
  - inversion 1 as [|? m ? ms' Hm Hms]; subst. rewrite fmap_cons. f_equal; [by apply classify_says in Hm|by apply IH].
  - intros ->. constructor; [by apply classify_says|by apply IH].
Qed.

Definition stops (m : argument) : bool :=
  match m with ArgHelp | ArgUnknown => true | _ => false end.

(** The positional arguments, and the back ends named. *)
Definition texts (ms : list argument) : list bytes :=
  omap (λ m, match m with ArgPositional text => Some text | _ => None end) ms.

Definition named (ms : list argument) : list bytes :=
  omap (λ m, match m with ArgBackend name => Some name | _ => None end) ms.

(** kqueue(2) unless the last name given is poll or there is no kqueue. *)
Definition backend_for (name : option bytes) : Backend :=
  if have_kqueue && negb (bool_decide (name = Some (lit "poll"))) then Kqueue else Poll.

Lemma parse_backend_for name : (parse_backend name).1 = backend_for (Some name).
Proof.
  unfold parse_backend, backend_for, default_backend. destruct (decide (name = lit "poll")) as [->|Hp].
  { by rewrite andb_false_r. }
  rewrite bool_decide_false by congruence. rewrite andb_true_r. case_decide; by destruct have_kqueue.
Qed.

Lemma scan_spec program v names pos args :
  let ms := classify <$> args in
  (scan program v (backend_for (last names)) pos args).1
  = match find stops ms with
    | Some ArgHelp => inl 0%Z
    | Some _ => inl 2%Z
    | None => inr (v || bool_decide (ArgVerbose ∈ ms), backend_for (last (names ++ named ms)), pos ++ texts ms)
    end.
Proof.
  revert v names pos. induction args as [|a args IH]; intros v names pos.
  { cbn. rewrite !app_nil_r, bool_decide_false by set_solver. by rewrite orb_false_r. }
  rewrite fmap_cons. cbn [scan find]. destruct (classify a) as [|name| | |text] eqn:Ha; cbn [stops]; [|..|done|done|].
  - cbn zeta. rewrite IH. destruct (find _ _); [done|]. cbn.
    rewrite (bool_decide_true (ArgVerbose ∈ _ :: _)) by left. by rewrite orb_true_r.
  - cbn zeta. unfold select_backend. destruct (parse_backend name) as [b ok] eqn:Hb.
    assert (b = backend_for (last (names ++ [name]))) as ->
      by (rewrite last_snoc, <-parse_backend_for; by rewrite Hb).
    specialize (IH v (names ++ [name]) pos). cbn zeta in IH.
    destruct (scan program v _ pos args) as [r out]. cbn [fst] in *. subst r.
    destruct (find _ _); [done|]. rewrite <-app_assoc. cbn.
    rewrite (bool_decide_ext (ArgVerbose ∈ ArgBackend name :: _) (ArgVerbose ∈ classify <$> args)); [done|set_solver].
  - cbn zeta. rewrite IH. destruct (find _ _); [done|]. rewrite <-app_assoc.
    cbn.
    rewrite (bool_decide_ext (ArgVerbose ∈ ArgPositional text :: _) (ArgVerbose ∈ classify <$> args)); [done|set_solver].
Qed.

Lemma env_verbose env :
  env_flag env (lit "EXCHANGE_VERBOSE")
  = bool_decide (env (lit "EXCHANGE_VERBOSE") ∉ [None; Some []; Some (lit "0")]).
Proof.
  apply eq_true_iff_eq. rewrite bool_decide_eq_true, !not_elem_of_cons. unfold env_flag.
  destruct (env _) as [[|c v]|]; [naive_solver| |naive_solver].
  rewrite negb_true_iff, bool_decide_eq_false. split; [|intros (_ & _ & H & _) Heq; by rewrite Heq in H].
  intros Hv. split_and!; [done|done|congruence|set_solver].
Qed.

Lemma env_names env :
  (env_backend env).1 = backend_for (last (option_list (env (lit "EXCHANGE_BACKEND")))).
Proof.
  unfold env_backend. destruct (env _) as [name|]; cbn.
  - rewrite <-parse_backend_for. unfold select_backend. by destruct (parse_backend name).
  - unfold default_backend, backend_for. by rewrite andb_true_r.
Qed.

(** C37: the command line.  Every argument has exactly one meaning ([says]):
    -v or --verbose; --backend=NAME; -h or --help; any other text that starts
    with a dash is unknown; all other text is positional.  If some argument
    asks for help or is unknown the exit status is 0 or 2, by the first of
    them.  Otherwise the server is configured, unless there are more than two
    positional arguments or the second is not a number from 1 to 65535, when
    the status is 2: the positional arguments are host and port, 127.0.0.1 and
    5000 by default; the back end is poll if that is the last one named, in
    EXCHANGE_BACKEND and then on the command line, or if there is no kqueue,
    and kqueue otherwise; output is verbose if an argument says so or
    EXCHANGE_VERBOSE is set, not empty and not 0; the send buffer has the size
    EXCHANGE_SNDBUF if that is a positive number, and the default (0) if not. *)
Theorem configure_correct env program args :
  ∃ ms, (∀ ms', Forall2 says args ms' ↔ ms' = ms) ∧
  let pos := texts ms in
  let names := option_list (env (lit "EXCHANGE_BACKEND")) ++ named ms in
  let port := match pos !! 1%nat with None => 5000%Z | Some t => atoi (c_str t) end in
  let quiet_values := [None; Some []; Some (lit "0")] in
  (configure env program args).1
  = match find stops ms with
    | Some ArgHelp => inl 0%Z
    | Some _ => inl 2%Z
    | None =>
        if decide (length pos ≤ 2 ∧ (1 ≤ port ≤ 65535)%Z)
        then inr (mkConfig (default (lit "127.0.0.1") (pos !! 0%nat)) port
                    (if have_kqueue && negb (bool_decide (last names = Some (lit "poll"))) then Kqueue else Poll)
                    (bool_decide (ArgVerbose ∈ ms ∨ env (lit "EXCHANGE_VERBOSE") ∉ quiet_values))
                    (match env (lit "EXCHANGE_SNDBUF") with None => 0 | Some v => Z.max 0 (atoi v) end))
        else inl 2%Z
    end.
Proof.
  exists (classify <$> args). split; [apply says_all|].
  intros pos names port quiet_values.
  assert (env_send_buffer env = match env (lit "EXCHANGE_SNDBUF") with None => 0 | Some v => Z.max 0 (atoi v) end)%Z as <-.
  { unfold env_send_buffer. destruct (env (lit "EXCHANGE_SNDBUF")) as [v|]; [|done]. cbv zeta. destruct (Z.ltb_spec (atoi v) 0); lia. }
  change (if _ && _ then Kqueue else Poll) with (backend_for (last names)).
  unfold configure. cbv zeta. pose proof (env_names env) as Hb. destruct (env_backend env) as [b out]. cbn [fst] in Hb. subst b.
  pose proof (scan_spec program (env_flag env (lit "EXCHANGE_VERBOSE")) (option_list (env (lit "EXCHANGE_BACKEND"))) [] args) as Hscan.
  cbn zeta in Hscan. destruct (scan _ _ _ _ _) as [r out']. cbn [fst] in Hscan. subst r.
  destruct (find stops _) as [m|]; [by destruct m|]. fold names. cbn [app]. fold pos.
  rewrite bool_decide_or, env_verbose, orb_comm.
  destruct pos as [|host [|text [|t more]]] eqn:Hpos; cbn in port |- *.
  - by rewrite decide_True by (unfold port; lia).
  - by rewrite decide_True by (unfold port; lia).
  - fold port. destruct (Z.leb_spec port 0), (Z.ltb_spec 65535 port); cbn [orb fst];
      [by rewrite decide_False by lia..|by rewrite decide_True by lia].
  - by rewrite decide_False by lia.
Qed.

End CommandLine.

(** ** Witness *)

#[local] Instance start_platform : Platform := true.

#[local] Instance start_order : HashOrder (Server EventLoop Script) := {
  fd_order := λ _ X, elements X;
  name_order := λ _ X, elements X
}.

#[local] Instance start_order_laws : HashOrderLaws (Server EventLoop Script).
Proof. by split. Qed.

Definition start_config : Config := mkConfig kDefaultHost kDefaultPort Poll false 0.

(** A run of the program on a kernel that sets the stop flag at once. *)
Lemma main_correct_witness :
  serve_ends 1 (started (λ _, None) (lit "exchange_server") [] idle_script) idle_script
    (main 1 (λ _, None) (lit "exchange_server") [] idle_script).
Proof. exact (main_correct 1 (λ _, None) (lit "exchange_server") [] idle_script). Defined.

Example main_returns_zero :
  match main 1 (λ _, None) (lit "exchange_server") [] idle_script with
  | Done (status, _, k) => (status, sc_open k)
  | _ => (1%Z, ∅)
  end = (0%Z, sc_open idle_script).
Proof. vm_compute. reflexivity. Qed.

(** On this kernel the server starts. *)
Example start_succeeds :
  match start (new_server start_config idle_script []) with
  | Done (ok, _) => ok
  | _ => false
  end = true.
Proof. vm_compute. reflexivity. Qed.

Example configure_example :
  (configure (λ _, None) (lit "exchange_server")
     [lit "--verbose"; lit "0.0.0.0"; lit "--backend=poll"; lit "6000"]).1
  = inr (mkConfig (lit "0.0.0.0") 6000 Poll true 0).
Proof. vm_compute. reflexivity. Qed.
