(* ===== verification/Shutdown.v ===== *)
(** * Shutdown: the server and its signals

    The server's [main] run as a [Process]: a connection whose peer has gone
    does not end it, and SIGINT or SIGTERM does, but in good order. *)

From S2P Require Import Prelude CxxString OrderBook Kernel EventLoop SocketUtils Signals KeptCalls TcpServer.
From S2P Require Import ClientSession ExchangeServer ServerKept ServerInv ServerTrace ServerLoop.
From S2P Require Import ServerTheorems ServerResources ServerProcess ServerMain.

Section Shutdown.
Context {P : Platform} `{!Kernel K, !KernelView K, !KernelLaws K, !SocketCalls K, !SocketLaws K}.
Context `{!Arrivals K, !ArrivalLaws K} {F : SendFlags}.
Context `{!HashOrder (Server EventLoop (Process K)), !HashOrderLaws (Server EventLoop (Process K))}.

Abbreviation server := (Server EventLoop (Process K)).
Implicit Types (s : server) (p : Process K).

(** A pass that begins with the request ends the loop at once. *)
Lemma told_pass s : handled (kern s) → told_to_stop (kern s) → ∃ s', iteration s = Done (false, s').
Proof.
  intros Hp Ht%told_stopped; [|done]. unfold iteration, bind, sys. destruct (sys_stopped (kern s)) as [stop p].
  cbn in Ht. subst stop. cbn. by eexists.
Qed.

Lemma started_handled env program args p s :
  p_killed p = false → started env program args p s → handled (kern s).
Proof.
  intros Hp (c & _ & Hs). assert (ready false (raise_fd_limit (install_handlers p)).2) as Hr.
  { apply (raise_fd_limit_kept (ready false)). by split; [apply install_handled|]. }
  apply (start_rooted (ready false)) in Hs as [[? _] _]; [done|].
  apply (new_loop_kept (ready false) (c_backend c)) in Hr. unfold new_server. by destruct (new_loop _ _).
Qed.

Lemma run_loop_stops n s s1 s2 :
  nsteps pass n s s1 → iteration s1 = Done (false, s2) → run_loop (S n) s = Done (tt, s2).
Proof.
  induction 1 as [s|n s s3 s1 Hp _ IH]; intros Hi; cbn [run_loop]; unfold bind; [by rewrite Hi|].
  unfold pass in Hp. rewrite Hp. exact (IH Hi).
Qed.

(** C19: signals.  In every state that the main loop of a started server
    reaches the process is alive, with SIGPIPE ignored and SIGINT and SIGTERM
    handled, whatever signals have arrived and whichever peers have gone;
    whether send() suppresses SIGPIPE or not does not matter.  As soon as
    SIGINT or SIGTERM has arrived the next pass is the last: given enough
    passes, [main] returns 0, not killed, with all descriptors of its own
    closed. *)
Theorem stops_on_signal env program args p s s' :
  p_killed p = false → started env program args p s → rtc pass s s' →
  handled (kern s')
  ∧ (told_to_stop (kern s') →
     ∃ fuel out p', main fuel env program args p = Done (0%Z, out, p')
       ∧ p_killed p' = false ∧ open_fds p' = open_fds p).
Proof.
  intros Hp Hs Hr. pose proof (started_handled _ _ _ _ _ Hp Hs) as Hh.
  assert (rooted (ready false) (anchors s) s') as [[Hh' _] _].
  { eapply maintains_passes; [exact (rooted_iteration (ready false) _)|exact Hr|]. by split. }
  split; [done|]. intros Ht. destruct (told_pass s' Hh' Ht) as (s2 & Hi). apply rtc_nsteps in Hr as [n Hn].
  destruct (wp_done_inv _ _ _ (shutdown_all_spec s2)) as ([] & s3 & Hsh & _).
  destruct Hs as (c & Hc & Hs).
  assert (main (S n) env program args p = Done (0%Z, log_ s3, destroy_server s3)) as Hmain.
  { unfold main. destruct (configure env program args) as [choice out]. cbn [fst snd] in *. subst choice.
    destruct (raise_fd_limit (install_handlers p)) as [lim p1]. cbn [snd] in Hs. unfold serve, bind.
    rewrite Hs. cbn [obind negb]. unfold run, bind. rewrite (run_loop_stops n s s' s2 Hn Hi). cbn [obind]. by rewrite Hsh. }
  exists (S n), (log_ s3), (destroy_server s3). split; [done|].
  destruct (main_spec (ready false) (S n) env program args p c) as [Hends HI]; [|done|].
  { by split; [apply install_handled|]. }
  destruct (HI _ _ _ Hmain) as [[Hk _] _]. rewrite Hmain in Hends. by destruct Hends as [Ho _].
Qed.

End Shutdown.

(** ** Witness

    SIGPIPE and then SIGTERM arrive at the fifth look at the flag. *)

#[local] Instance stop_platform : Platform := false.

(** The headers do not define MSG_NOSIGNAL. *)
#[local] Instance stop_flags : SendFlags := false.

#[local] Instance stop_order : HashOrder (Server EventLoop (Process Script)) := {
  fd_order := λ _ X, elements X;
  name_order := λ _ X, elements X
}.

#[local] Instance stop_order_laws : HashOrderLaws (Server EventLoop (Process Script)).
Proof. by split. Qed.

(** A [true] in the list of answers stands for SIGTERM, after SIGPIPE. *)
#[local] Instance script_arrivals : Arrivals Script := λ k,
  let '(stop, k) := sys_stopped k in ((if (stop : bool) then [SIGPIPE; SIGTERM] else [SIGPIPE]), k).

#[local] Instance script_arrival_laws : ArrivalLaws Script.
Proof. done. Qed.

(** A client connects, sends a request and is gone when it is answered. *)
Definition stop_script : Script :=
  mkScript EAGAIN ∅ ∅ [(1%Z, SendFail EPIPE)] [(1%Z, RecvData (lit "LOGIN ann" ++ [LF]))]
    [AcceptFd 1 (mkSockaddr 16777343 4660)] [{[0%Z := POLLIN]}; {[1%Z := POLLIN]}] [] 1000
    [false; false; false; false; true] ∅.

Definition stop_process : Process Script := new_process stop_script.

Definition stop_start : Server EventLoop (Process Script) :=
  match start (new_server (mkConfig kDefaultHost kDefaultPort Poll false 0)
                 (raise_fd_limit (install_handlers stop_process)).2 []) with
  | Done (_, s) => s
  | _ => new_server (mkConfig kDefaultHost kDefaultPort Poll false 0) stop_process []
  end.

Definition stop_next (s : Server EventLoop (Process Script)) : Server EventLoop (Process Script) :=
  match iteration s with Done (_, s') => s' | _ => s end.

Lemma stop_started : started (λ _, None) (lit "exchange_server") [] stop_process stop_start.
Proof. eexists. split; [reflexivity|]. vm_compute. reflexivity. Qed.

Lemma stop_passes : rtc pass stop_start (stop_next (stop_next stop_start)).
Proof. eapply rtc_l; [|eapply rtc_l; [|apply rtc_refl]]; [instantiate (1 := stop_next stop_start)|]; vm_compute; reflexivity. Qed.

Lemma stops_on_signal_witness :
  let s := stop_next (stop_next stop_start) in
  handled (kern s) ∧ sc_send (p_kern (kern s)) = []
  ∧ ∃ fuel out p', main fuel (λ _, None) (lit "exchange_server") [] stop_process = Done (0%Z, out, p')
      ∧ p_killed p' = false ∧ open_fds p' = ∅.
Proof.
  intros s. destruct (stops_on_signal (λ _, None) (lit "exchange_server") [] stop_process stop_start s
    eq_refl stop_started stop_passes) as [Hh Hstop].
  split; [exact Hh|]. split; [vm_compute; reflexivity|]. apply Hstop.
  right. exists SIGTERM. split; [|discriminate]. vm_compute. right. left.
Defined.
