(* ===== verification/TcpClient.v ===== *)
(** * TcpClient: the client's end of a connection (src/network/tcp_client.{hpp,cpp})

    Connecting, sending one complete message over a non-blocking socket,
    receiving and reassembling messages, half-close and close.  The theorems:
    sending hands the kernel exactly the message (or a prefix, with a reason,
    when the connection failed) and ends; receiving yields exactly the
    complete lines of the byte stream the kernel delivered, whatever pieces it
    came in, and keeps the incomplete tail. *)

From S2P Require Import Prelude CxxString Framing Kernel SocketUtils.

Record TCPClient : Type := mkTCPClient {
  tc_host : bytes;
  tc_port : Z;
  tc_fd : Z;
  tc_inbuf : bytes;
  tc_error : bytes
}.

Definition new_client (host : bytes) (port : Z) : TCPClient := mkTCPClient host port (-1) [] [].

Definition tc_set_fd (fd : Z) (c : TCPClient) : TCPClient :=
  mkTCPClient (tc_host c) (tc_port c) fd (tc_inbuf c) (tc_error c).
Definition tc_set_inbuf (b : bytes) (c : TCPClient) : TCPClient :=
  mkTCPClient (tc_host c) (tc_port c) (tc_fd c) b (tc_error c).
Definition tc_set_error (e : bytes) (c : TCPClient) : TCPClient :=
  mkTCPClient (tc_host c) (tc_port c) (tc_fd c) (tc_inbuf c) e.

(** A client that waits for room in the send buffer relies on its peer: the
    budget [sys_stall] bounds how often the environment still interrupts a
    send or has it wait for room. *)
Class Stalls (K : Type) : Type := sys_stall : K → nat.

Class StallLaws (K : Type) `{!Kernel K, !KernelView K, !Stalls K} : Prop := {
  stall_send fd data k n k' :
    sys_send fd data k = (n, k') →
    sys_stall k' ≤ sys_stall k ∧ ((n < 0)%Z → sys_errno k' = EINTR → sys_stall k' < sys_stall k);
  stall_poll fd data k n k' r revs k'' :
    sys_send fd data k = (n, k') → (n < 0)%Z → would_block (sys_errno k') = true →
    sys_poll [mkPollfd fd POLLOUT 0] (-1) k' = (r, revs, k'') → sys_stall k'' < sys_stall k
}.

Section Client.
Context `{!Kernel K}.

(** Client code works on the client object and the kernel. *)
Abbreviation CM := (M (TCPClient * K)).

Definition call {A : Type} (f : K → A * K) : CM A :=
  λ '(c, k), let '(a, k) := f k in Done (a, (c, k)).

Definition field {A : Type} (f : TCPClient → A) : CM A := gets (λ s, f s.1).
Definition store (f : TCPClient → TCPClient) : CM unit := modify (λ s, (f s.1, s.2)).
Definition client_errno : CM errno := gets (λ s, sys_errno s.2).

(** [error_ = std::string(what) + std::strerror(errno)] *)
Definition set_failure (what : bytes) : CM unit :=
  let* e := client_errno in store (tc_set_error (what ++ sys_strerror e)).

Definition connect_to_server `{!SocketCalls K} : CM bool :=
  let* host := field tc_host in
  let* port := field tc_port in
  let* r := call (connect_to host port) in
  store (tc_set_fd r.1) ;;;
  match r.2 with Some e => store (tc_set_error e) | None => ret tt end ;;;
  if (r.1 <? 0)%Z then ret false
  else
    let* _ := call (set_tcp_nodelay r.1) in
    let* _ := call (set_nonblocking r.1) in
    ret true.

(** The loop of [send_message]; [sent] bytes have been written. *)
Fixpoint send_loop (fuel : nat) (line : bytes) (sent : Z) : CM bool :=
  match fuel with
  | O => out_of_fuel
  | S fuel =>
      if (sent <? str_size line)%Z then
        let* fd := field tc_fd in
        let* written := call (sys_send fd (drop (Z.to_nat sent) line)) in
        let* e := client_errno in
        if (0 <? written)%Z then send_loop fuel line (wrap_size (sent + written))
        else if (written <? 0)%Z && bool_decide (e = EINTR) then send_loop fuel line sent
        else if (written <? 0)%Z && would_block e then
          let* r := call (sys_poll [mkPollfd fd POLLOUT 0] (-1)) in
          let* e := client_errno in
          if (r.1 <? 0)%Z && negb (bool_decide (e = EINTR)) then
            set_failure (lit "poll() failed: ") ;;; ret false
          else send_loop fuel line sent
        else set_failure (lit "send() failed: ") ;;; ret false
      else ret true
  end.

Definition send_message `{!Stalls K} (line : bytes) : CM bool :=
  let* fd := field tc_fd in
  if (fd <? 0)%Z then ret false
  else
    let* budget := gets (λ s, sys_stall s.2) in
    send_loop (S (length line + budget)) line 0.

(** [sizeof(buffer)] *)
Definition kClientBuffer : Z := 8192.

(** Taking the complete lines out of [inbuf_]. *)
Fixpoint split_loop (fuel : nat) (inbuf : bytes) (out : list bytes) : outcome (bytes * list bytes) :=
  match fuel with
  | O => OutOfFuel
  | S fuel =>
      match find_char LF inbuf with
      | None => Done (inbuf, out)
      | Some newline =>
          split_loop fuel (erase0 inbuf (newline + 1)) (out ++ [chomp_cr (substr0 inbuf newline)])
      end
  end.

Fixpoint receive_loop (fuel : nat) (out : list bytes) : CM (bool * list bytes) :=
  match fuel with
  | O => out_of_fuel
  | S fuel =>
      let* fd := field tc_fd in
      let* r := call (sys_recv fd kClientBuffer) in
      let* e := client_errno in
      let '(received, buffer) := r in
      if (0 <? received)%Z then
        let* inbuf := field (λ c, tc_inbuf c ++ buffer) in
        let* split := (λ s, obind (split_loop (S (length inbuf)) inbuf out) (λ r, Done (r, s))) in
        store (tc_set_inbuf split.1) ;;;
        if (received <? kClientBuffer)%Z then ret (true, split.2) else receive_loop fuel split.2
      else if (received =? 0)%Z then
        store (tc_set_error (lit "server closed the connection")) ;;; ret (false, out)
      else if bool_decide (e = EINTR) then receive_loop fuel out
      else if would_block e then ret (true, out)
      else set_failure (lit "recv() failed: ") ;;; ret (false, out)
  end.

(** [receive_messages(out)]: the result and the messages now in [out]. *)
Definition receive_messages (out : list bytes) : CM (bool * list bytes) :=
  let* budget := gets (λ s, sys_work s.2) in receive_loop (S budget) out.

Definition shutdown_writes : CM unit :=
  let* fd := field tc_fd in
  when (0 <=? fd)%Z (call (λ k, (tt, sys_shutdown fd SHUT_WR k))).

Definition disconnect : CM unit :=
  let* fd := field tc_fd in
  when (0 <=? fd)%Z (call (λ k, (tt, sys_close fd k)) ;;; store (tc_set_fd (-1))).

(** [~TCPClient] *)
Definition destroy_client : CM unit := disconnect.

(** Successive calls of [receive_messages] with one vector, while the
    connection lives. *)
Fixpoint receive_calls (n : nat) (out : list bytes) : CM (bool * list bytes) :=
  match n with
  | O => ret (true, out)
  | S n =>
      let* r := receive_messages out in
      if (r.1 : bool) then receive_calls n r.2 else ret r
  end.

(** The bytes that a sequence of recv(2) calls on [fd] returned. *)
Inductive receives (fd : Z) : K → bytes → K → Prop :=
| receives_none k : receives fd k [] k
| receives_data k n buf k1 data k2 :
    sys_recv fd kClientBuffer k = (n, buf, k1) → (0 < n)%Z →
    receives fd k1 data k2 → receives fd k (buf ++ data) k2
| receives_fail k n buf k1 data k2 :
    sys_recv fd kClientBuffer k = (n, buf, k1) → (n ≤ 0)%Z →
    receives fd k1 data k2 → receives fd k data k2.

Lemma receives_trans fd k1 d1 k2 d2 k3 :
  receives fd k1 d1 k2 → receives fd k2 d2 k3 → receives fd k1 (d1 ++ d2) k3.
Proof.
  induction 1; intros Hr; rewrite <-?app_assoc;
    [done|eapply receives_data|eapply receives_fail]; eauto.
Qed.

(** The reassembly loop finds exactly the lines of the buffer. *)
Lemma split_loop_lines fuel inbuf out :
  length inbuf < fuel →
  split_loop fuel inbuf out = Done ((lines_of inbuf).2, out ++ (chomp_cr <$> (lines_of inbuf).1)).
Proof.
  revert inbuf out. induction fuel as [|fuel IH]; intros inbuf out Hf; [lia|]. cbn [split_loop].
  destruct (find_char LF inbuf) as [n|] eqn:Hn.
  - rewrite (lines_of_found _ _ Hn). unfold erase0, substr0. rewrite Nat.add_1_r.
    apply find_Some in Hn as (_ & _ & Hlt).
    rewrite IH by (rewrite length_drop; lia). cbn. by rewrite <-app_assoc.
  - rewrite lines_of_none by by apply find_None. cbn. by rewrite app_nil_r.
Qed.

End Client.

Section Theorems.
Context `{!Kernel K, !KernelView K, !KernelLaws K}.

(** Client code has no signed arithmetic that could overflow. *)
#[local] Instance no_overflow : Tolerance := False.

Implicit Types s : TCPClient * K.

Lemma wp_call {A} (f : K → A * K) (Q : A → TCPClient * K → Prop) s :
  (∀ a k, f s.2 = (a, k) → Q a (s.1, k)) → wp (call f) Q s.
Proof.
  destruct s as [c k]. cbn. intros HQ. destruct (f k) as [a k'] eqn:Hf.
  eapply wp_done; [|by apply HQ]. cbn. by rewrite Hf.
Qed.

Lemma wp_field {A} (f : TCPClient → A) (Q : A → TCPClient * K → Prop) s :
  Q (f s.1) s → wp (field f) Q s.
Proof. intros HQ. by apply wp_gets. Qed.

Lemma wp_store f (Q : unit → TCPClient * K → Prop) s : Q tt (f s.1, s.2) → wp (store f) Q s.
Proof. intros HQ. by apply wp_modify. Qed.

Lemma wp_set_failure what (Q : unit → TCPClient * K → Prop) s :
  Q tt (tc_set_error (what ++ sys_strerror (sys_errno s.2)) s.1, s.2) → wp (set_failure what) Q s.
Proof. intros HQ. by apply wp_bind, wp_gets, wp_store. Qed.

(** What sending did: the bytes [data] went out on the client's socket, and
    nothing else happened to the descriptors. *)
Definition transmitted (s : TCPClient * K) (data : bytes) (s' : TCPClient * K) : Prop :=
  sent s'.2 (tc_fd s.1) = sent s.2 (tc_fd s.1) ++ data
  ∧ (∀ fd, fd ≠ tc_fd s.1 → sent s'.2 fd = sent s.2 fd)
  ∧ open_fds s'.2 = open_fds s.2
  ∧ tc_fd s'.1 = tc_fd s.1 ∧ tc_inbuf s'.1 = tc_inbuf s.1.

Lemma transmitted_trans s1 d1 s2 d2 s3 :
  transmitted s1 d1 s2 → transmitted s2 d2 s3 → transmitted s1 (d1 ++ d2) s3.
Proof.
  intros (H1 & H2 & H3 & H4 & H5) (H1' & H2' & H3' & H4' & H5'). rewrite H4 in *.
  split_and!; [|intros fd Hfd|congruence..].
  - by rewrite H1', H1, app_assoc.
  - by rewrite H2', H2.
Qed.

Lemma transmitted_quiet c (k k' : K) c' :
  open_fds k' = open_fds k → (∀ fd, sent k' fd = sent k fd) →
  tc_fd c' = tc_fd c → tc_inbuf c' = tc_inbuf c → transmitted (c, k) [] (c', k').
Proof. intros Ho Hs Hf Hi. split_and!; cbn; auto. by rewrite Hs, app_nil_r. Qed.

(** The result of [send_message]: all of the line, or a prefix of it and a
    reason. *)
Definition send_result (line : bytes) (s : TCPClient * K) (b : bool) (s' : TCPClient * K) : Prop :=
  if b then transmitted s line s'
  else tc_error s'.1 ≠ [] ∧ ∃ part, part `prefix_of` line ∧ transmitted s part s'.

Lemma send_result_step s s1 s' data line b :
  transmitted s data s1 → send_result line s1 b s' → send_result (data ++ line) s b s'.
Proof.
  intros Ht. destruct b; cbn; [by apply transmitted_trans|]. intros (He & part & Hp & Ht').
  split; [done|]. exists (data ++ part). split; [by apply prefix_app|by eapply transmitted_trans].
Qed.

Lemma send_failed what line s c k :
  transmitted s [] (c, k) → what ≠ [] →
  wp (set_failure what ;;; ret false) (λ b s', send_result line s b s') (c, k).
Proof.
  intros Ht Hw. apply wp_bind, wp_set_failure, wp_ret. split; [by destruct what|].
  exists []. split; [apply prefix_nil|]. exact Ht.
Qed.

Context `{!Stalls K, !StallLaws K}.

Lemma send_loop_spec fuel line (n : nat) s :
  (str_size line < 2 ^ 64)%Z → n ≤ length line → length line - n + sys_stall s.2 < fuel →
  wp (send_loop fuel line (Z.of_nat n)) (λ b s', send_result (drop n line) s b s') s.
Proof.
  intros Hsize. revert n s. induction fuel as [|fuel IH]; intros n [c k] Hn Hf; [lia|].
  cbn [send_loop snd] in *. unfold str_size in *.
  destruct (Z.ltb_spec (Z.of_nat n) (Z.of_nat (length line))) as [Hlt|Hge].
  2: { apply wp_ret. cbn. rewrite drop_ge by lia. by apply transmitted_quiet. }
  rewrite Nat2Z.id. apply wp_bind, wp_field. apply wp_bind, wp_call. cbn [fst snd]. intros w k1 Hsend.
  pose proof (law_send _ _ _ _ _ Hsend) as (Hle & Ho & _ & Hs & Hs' & _).
  pose proof (stall_send _ _ _ _ _ Hsend) as [Hst Hst'].
  unfold str_size in Hle. rewrite length_drop in Hle.
  assert (transmitted (c, k) (take (Z.to_nat w) (drop n line)) (c, k1)) as Htr by done.
  apply wp_bind, wp_gets. cbn [snd]. destruct (Z.ltb_spec 0 w) as [Hpos|Hneg].
  { replace (wrap_size (Z.of_nat n + w)) with (Z.of_nat (n + Z.to_nat w))
      by (rewrite wrap_size_id; lia).
    eapply wp_mono; [apply IH; cbn; lia|]. intros b s' Hr. rewrite <-drop_drop in Hr.
    rewrite <-(take_drop (Z.to_nat w) (drop n line)). by eapply send_result_step. }
  rewrite Z2Nat.nonpos in Htr by done. cbn [take] in Htr.
  destruct ((w <? 0)%Z && bool_decide (sys_errno k1 = EINTR)) eqn:Hintr.
  { apply andb_true_iff in Hintr as [Hw%Z.ltb_lt He%bool_decide_eq_true_1].
    eapply wp_mono; [apply IH; cbn; [lia|specialize (Hst' Hw He); lia]|].
    intros b s' Hr. by eapply (send_result_step _ _ _ []). }
  destruct ((w <? 0)%Z && would_block (sys_errno k1)) eqn:Hblock; [|by apply send_failed].
  apply andb_true_iff in Hblock as [Hw%Z.ltb_lt Hb].
  apply wp_bind, wp_call. cbn [fst snd]. intros [r revs] k2 Hpoll.
  pose proof (stall_poll _ _ _ _ _ _ _ _ Hsend Hw Hb Hpoll) as Hst2.
  apply law_poll in Hpoll as (Ho2 & Hs2 & _).
  assert (transmitted (c, k) [] (c, k2)) as Htr2.
  { eapply (transmitted_trans _ [] _ []); [exact Htr|by apply transmitted_quiet]. }
  apply wp_bind, wp_gets. cbn [fst snd]. destruct ((r <? 0)%Z && negb _); [by apply send_failed|].
  eapply wp_mono; [apply IH; cbn; lia|]. intros b s' Hr. by eapply (send_result_step _ _ _ []).
Qed.

Lemma send_message_spec line s :
  (0 ≤ tc_fd s.1)%Z → (str_size line < 2 ^ 64)%Z →
  wp (send_message line) (λ b s', send_result line s b s') s.
Proof.
  intros Hfd Hsize. apply wp_bind, wp_field. rewrite (proj2 (Z.ltb_ge _ _)) by done.
  apply wp_bind, wp_gets. apply (send_loop_spec _ line 0); [done|lia|lia].
Qed.

End Theorems.

(** Parts of the kernel state that the system calls of sending and receiving
    do not touch are not touched by the client. *)
Section Frame.
Context `{!Kernel K} {B : Type} (f : K → B).
Hypothesis keep_send : ∀ fd data k, f (sys_send fd data k).2 = f k.
Hypothesis keep_recv : ∀ fd cap k, f (sys_recv fd cap k).2 = f k.
Hypothesis keep_poll : ∀ fds timeout k, f (sys_poll fds timeout k).2 = f k.

Abbreviation fk := (λ s : TCPClient * K, f s.2).

Lemma keeps_call {A} (g : K → A * K) : (∀ k, f (g k).2 = f k) → keeps fk (call g).
Proof.
  intros Hg [c k] a s' Hc. specialize (Hg k). cbn in Hc. destruct (g k) as [a' k'].
  injection Hc as <- <-. exact Hg.
Qed.

Lemma send_message_keeps `{!Stalls K} line : keeps fk (send_message line).
Proof.
  assert (∀ fuel n, keeps fk (send_loop fuel line n)) as Hloop.
  { induction fuel as [|fuel IH]; intros n; cbn [send_loop]; [done|].
    unfold set_failure, field, client_errno, store. auto 20 using keeps_call with keeps. }
  unfold send_message, field. auto 20 with keeps.
Qed.

Lemma receive_messages_keeps out : keeps fk (receive_messages out).
Proof.
  assert (∀ (o : outcome (bytes * list bytes)), keeps fk (λ s, obind o (λ r, Done (r, s)))) as Hpure.
  { by intros [] ? ? ? [= _ <-]. }
  assert (∀ fuel out, keeps fk (receive_loop fuel out)) as Hloop.
  { induction fuel as [|fuel IH]; intros out'; cbn [receive_loop]; [done|].
    unfold set_failure, field, client_errno, store. auto 20 using keeps_call with keeps. }
  unfold receive_messages. auto with keeps.
Qed.

End Frame.

Section Receiving.
Context `{!Kernel K, !KernelView K, !KernelLaws K}.

Implicit Types s : TCPClient * K.

(** What receiving did: the kernel delivered [data]; the complete lines of
    the buffered bytes and [data] went to [out], the rest is buffered. *)
Definition reassembled s (out : list bytes) (r : bool * list bytes) s' (data : bytes) : Prop :=
  receives (tc_fd s.1) s.2 data s'.2
  ∧ received s'.2 (tc_fd s.1) = received s.2 (tc_fd s.1) ++ data
  ∧ r.2 = out ++ (chomp_cr <$> (lines_of (tc_inbuf s.1 ++ data)).1)
  ∧ tc_inbuf s'.1 = (lines_of (tc_inbuf s.1 ++ data)).2
  ∧ tc_fd s'.1 = tc_fd s.1 ∧ receiving s.2 s'.2
  ∧ (r.1 = false → tc_error s'.1 ≠ []).

Lemma receives_received fd (k : K) data k' :
  receives fd k data k' → received k' fd = received k fd ++ data.
Proof.
  induction 1 as [k|k n buf k1 data k2 Hr Hn _ IH|k n buf k1 data k2 Hr Hn _ IH]; [by rewrite app_nil_r|..];
    apply law_recv in Hr as (_ & Hr & _); rewrite IH, Hr.
  - rewrite (proj2 (Z.ltb_lt 0 n)) by done. by rewrite app_assoc.
  - rewrite (proj2 (Z.ltb_ge 0 n)), app_nil_r by done. done.
Qed.

(** Nothing is buffered that could be a complete message. *)
Definition line_start s : Prop := LF ∉ tc_inbuf s.1.

Lemma reassembled_line_start s out r s' data : reassembled s out r s' data → line_start s'.
Proof. intros (_ & _ & _ & Hi & _). unfold line_start. rewrite Hi. apply lines_of_rest. Qed.

(** Receiving in two steps is receiving once. *)
Lemma reassembled_trans s out d1 b s1 out1 r s2 d2 :
  reassembled s out (b, out1) s1 d1 → reassembled s1 out1 r s2 d2 →
  reassembled s out r s2 (d1 ++ d2).
Proof.
  intros (H1 & Hr & H2 & H3 & H4 & H5 & _) (H1' & Hr' & H2' & H3' & H4' & H5' & H6'). cbn in H2.
  rewrite H4 in *. rewrite H3 in *. unfold reassembled.
  rewrite (app_assoc (tc_inbuf s.1)), (lines_of_app (_ ++ d1)). cbn. split_and!.
  - by eapply receives_trans.
  - by rewrite Hr', Hr, app_assoc.
  - by rewrite H2', H2, fmap_app, app_assoc.
  - done.
  - congruence.
  - by etrans.
  - done.
Qed.

Lemma reassembled_nothing c c' (k k' : K) out b :
  LF ∉ tc_inbuf c → receives (tc_fd c) k [] k' → receiving k k' →
  tc_fd c' = tc_fd c → tc_inbuf c' = tc_inbuf c → (b = false → tc_error c' ≠ []) →
  reassembled (c, k) out (b, out) (c', k') [].
Proof.
  intros Hlf Hr Hq Hf Hi He. unfold reassembled. cbn. rewrite (receives_received _ _ _ _ Hr).
  rewrite !app_nil_r, lines_of_none by done. split_and!; try done. by rewrite app_nil_r.
Qed.

(** One pass over a non-empty buffer. *)
Lemma reassembled_chunk c (k k' : K) n buf out b :
  sys_recv (tc_fd c) kClientBuffer k = (n, buf, k') → (0 < n)%Z → b = true →
  reassembled (c, k) out (b, out ++ (chomp_cr <$> (lines_of (tc_inbuf c ++ buf)).1))
    (tc_set_inbuf (lines_of (tc_inbuf c ++ buf)).2 c, k') buf.
Proof.
  intros Hr Hn ->. pose proof (law_recv _ _ _ _ _ _ Hr) as (Hq & Hb & _).
  rewrite (proj2 (Z.ltb_lt 0 n)) in Hb by done. split_and!; try done.
  rewrite <-(app_nil_r buf). eapply receives_data; [done|done|apply receives_none].
Qed.

#[local] Instance no_overflow' : Tolerance := False.

Lemma receive_loop_spec fuel out s :
  line_start s → sys_work s.2 < fuel →
  wp (receive_loop fuel out) (λ r s', ∃ data, reassembled s out r s' data) s.
Proof.
  revert out s. induction fuel as [|fuel IH]; intros out [c k] Hlf Hf; [lia|].
  cbn [receive_loop fst snd] in *. apply wp_bind, wp_field. apply wp_bind, wp_call. cbn [fst snd].
  intros [n buf] k1 Hrecv. pose proof (law_recv _ _ _ _ _ _ Hrecv) as (Hq & _ & _ & Hpos & Hintr).
  assert ((n ≤ 0)%Z → receives (tc_fd c) k [] k1) as Hfail.
  { intros Hn. eapply receives_fail; [done|done|apply receives_none]. }
  apply wp_bind, wp_gets. cbn [snd]. destruct (Z.ltb_spec 0 n) as [Hn|Hn].
  { apply wp_bind, wp_field, wp_bind.
    eapply wp_done; [cbv beta; rewrite split_loop_lines by lia; reflexivity|].
    apply wp_bind, wp_store. cbn [fst snd].
    pose proof (reassembled_chunk c k k1 n buf out true Hrecv Hn eq_refl) as Hc.
    destruct (n <? kClientBuffer)%Z; [apply wp_ret; by eexists|].
    eapply wp_mono; [apply IH; [by eapply reassembled_line_start|cbn; destruct (Hpos Hn) as (_&_&?); lia]|].
    intros r s' [data Hr]. exists (buf ++ data). by eapply reassembled_trans. }
  specialize (Hfail Hn). destruct (Z.eqb_spec n 0) as [->|Hne].
  { apply wp_bind, wp_store, wp_ret. exists []. by apply reassembled_nothing. }
  case_bool_decide as He.
  { assert (n < 0)%Z as Hn' by lia. specialize (Hintr Hn' He).
    eapply wp_mono; [apply IH; [done|cbn; lia]|]. intros r s' [data Hr]. exists data.
    eapply (reassembled_trans _ _ [] true); [|done]. by apply reassembled_nothing. }
  destruct (would_block _); [apply wp_ret|apply wp_bind, wp_set_failure, wp_ret];
    exists []; by apply reassembled_nothing.
Qed.

Lemma receive_messages_spec out s :
  line_start s → wp (receive_messages out) (λ r s', ∃ data, reassembled s out r s' data) s.
Proof. intros Hlf. apply wp_bind, wp_gets. apply receive_loop_spec; [done|lia]. Qed.

Lemma receive_calls_spec n out s :
  line_start s → wp (receive_calls n out) (λ r s', ∃ data, reassembled s out r s' data) s.
Proof.
  revert out s. induction n as [|n IH]; intros out s Hlf; cbn [receive_calls].
  - apply wp_ret. exists []. destruct s. apply reassembled_nothing; try done. apply receives_none.
  - apply wp_bind. eapply wp_mono; [by apply receive_messages_spec|].
    intros [[] out1] s1 [d1 H1]; [|apply wp_ret; by eexists].
    eapply wp_mono; [apply IH; by eapply reassembled_line_start|]. intros r s2 [d2 H2].
    exists (d1 ++ d2). by eapply reassembled_trans.
Qed.

End Receiving.

Section Claims.
Context `{!Kernel K, !KernelView K, !KernelLaws K, !Stalls K, !StallLaws K}.

(** C34: send_message always returns.  When it answers true the kernel has
    taken over exactly the line, after everything sent before; when it answers
    false it has taken over a prefix of the line and error() tells why.  Other
    connections are untouched, however the message was cut into pieces by
    short writes, interruptions and a full send buffer. *)
Theorem send_message_complete line (c : TCPClient) (k : K) :
  (0 ≤ tc_fd c)%Z → (str_size line < 2 ^ 64)%Z →
  ∃ b s', send_message line (c, k) = Done (b, s') ∧ send_result line (c, k) b s'.
Proof.
  intros Hfd Hsize. destruct (wp_returns _ _ _ (send_message_spec line (c, k) Hfd Hsize)) as [[_ []]|H].
  exact H.
Qed.

(** C35: receive_messages reassembles the stream: any number of calls appends
    to [out] exactly the complete lines (without line terminator) of the bytes
    the kernel delivered, and keeps the incomplete tail; so the messages do
    not depend on how the stream was cut into pieces, and if the stream is a
    sequence of terminated messages these are what the caller gets.  The calls
    return, and a false answer comes with a reason. *)
Theorem receive_messages_reassembles n (c : TCPClient) (k : K) :
  tc_inbuf c = [] →
  ∃ b out c' k' data,
    receive_calls n [] (c, k) = Done (b, out, (c', k'))
    ∧ receives (tc_fd c) k data k' ∧ received k' (tc_fd c) = received k (tc_fd c) ++ data
    ∧ out = chomp_cr <$> (lines_of data).1 ∧ tc_inbuf c' = (lines_of data).2
    ∧ (b = false → tc_error c' ≠ [])
    ∧ ∀ ms, Forall (λ m, LF ∉ m) ms → data = wire ms → out = chomp_cr <$> ms.
Proof.
  intros Hi. assert (line_start (c, k)) as Hl by (unfold line_start; cbn; rewrite Hi; set_solver).
  destruct (wp_returns _ _ _ (receive_calls_spec n [] (c, k) Hl))
    as [[_ []]|([b out] & [c' k'] & Heq & data & Hr & Hrcv & Hout & Hin & _ & _ & He)].
  cbn in *. rewrite Hi in *. cbn in *. exists b, out, c', k', data. split_and!; try done.
  intros ms Hms ->. rewrite Hout, <-(app_nil_r (wire _)), lines_of_messages; [done|done|set_solver].
Qed.

End Claims.

(** ** The scripted kernel *)

#[global] Instance script_stalls : Stalls Script := λ k, length (sc_send k).

#[global] Instance script_stall_laws : StallLaws Script.
Proof.
  assert (∀ fd data (k : Script) n k', sys_send fd data k = (n, k') →
    sys_stall k' ≤ sys_stall k ∧ ((n < 0)%Z → sys_stall k' < sys_stall k)) as Hsend.
  { intros fd data k n k'. unfold sys_send; cbn [script_kernel]. unfold script_send, str_size.
    destruct (next_for fd (sc_send k)) as [[[m|e] l]|] eqn:Hn; intros [= <- <-];
      unfold sys_stall, script_stalls; cbn -[take]; try apply next_for_length in Hn; lia. }
  split.
  - intros fd data k n k' H%Hsend. destruct H. auto.
  - intros fd data k n k' r revs k'' H%Hsend Hn _ [= _ _ <-]. destruct H as [_ H].
    specialize (H Hn). unfold sys_stall, script_stalls in *. cbn in *. lia.
Qed.

(** A kernel that cuts a message into pieces and interrupts. *)
Definition choppy : Script :=
  mkScript (EOTHER 0) {[7%Z]} ∅
    [(7, SendUpTo 3); (7, SendFail EINTR); (7, SendFail EAGAIN); (7, SendUpTo 1)]%Z
    [(7, RecvData (lit "O")); (7, RecvData (lit "K" ++ [CR; LF] ++ lit "SOLD JN"));
     (7, RecvFail EINTR); (7, RecvData (lit "ST 5 100" ++ [LF] ++ lit "TR"))]%Z
    [] [] [] 0 [] ∅.

Definition choppy_client : TCPClient := mkTCPClient (lit "127.0.0.1") 5000 7 [] [].

Lemma send_message_complete_witness :
  ∃ b s', send_message (lit "QUIT" ++ [LF]) (choppy_client, choppy) = Done (b, s')
  ∧ send_result (lit "QUIT" ++ [LF]) (choppy_client, choppy) b s'.
Proof. apply (send_message_complete (lit "QUIT" ++ [LF])); vm_compute; [discriminate|reflexivity]. Defined.

Lemma receive_messages_reassembles_witness :
  ∃ b out c' k' data,
    receive_calls 3 [] (choppy_client, choppy) = Done (b, out, (c', k'))
    ∧ receives 7 choppy data k' ∧ received k' 7 = received choppy 7 ++ data
    ∧ out = chomp_cr <$> (lines_of data).1 ∧ tc_inbuf c' = (lines_of data).2
    ∧ (b = false → tc_error c' ≠ [])
    ∧ ∀ ms, Forall (λ m, LF ∉ m) ms → data = wire ms → out = chomp_cr <$> ms.
Proof. apply (receive_messages_reassembles 3 choppy_client choppy). reflexivity. Defined.

(** On this kernel the message goes out complete and both messages come in. *)
Example choppy_send :
  match send_message (lit "QUIT" ++ [LF]) (choppy_client, choppy) with
  | Done (true, (_, k)) => bool_decide (sent k 7 = lit "QUIT" ++ [LF])
  | _ => false
  end = true.
Proof. vm_compute. reflexivity. Qed.

Example choppy_receive :
  match receive_calls 3 [] (choppy_client, choppy) with
  | Done (true, out, (c, _)) =>
      bool_decide (out = [lit "OK"; lit "SOLD JNST 5 100"]) && bool_decide (tc_inbuf c = lit "TR")
  | _ => false
  end = true.
Proof. vm_compute. reflexivity. Qed.
