(* ===== verification/ClientShell.v ===== *)
(** * ClientShell: the interactive client (src/client_shell.{hpp,cpp})

    One loop over standard input and the socket: lines the user types go to
    the server, messages from the server are printed as they arrive, end of
    input and the QUIT command close the sending direction.  [shell_run_spec]
    says what reaches the server (the initial commands, then the typed lines
    up to QUIT, each once, in order and terminated), that every pass returns,
    and that the connection is closed on every way out.  ShellDisplay.v adds
    what is shown and states the property. *)

From S2P Require Import Prelude CxxString Framing Kernel SocketUtils Signals TcpClient.

Record ClientShellOptions : Type := mkOptions {
  opt_host : bytes;
  opt_port : Z;
  opt_role_name : bytes;
  opt_initial_commands : list bytes;
  opt_help_text : bytes
}.

(** What a session prints first. *)
Definition greeting (options : ClientShellOptions) : bytes :=
  opt_role_name options ++ lit " connected to " ++ c_str (opt_host options) ++ lit ":"
  ++ to_string (opt_port options) ++ lit "." ++ [LF] ++ c_str (opt_help_text options) ++ [LF].

(** Standard input. *)
Class Terminal (K : Type) : Type := sys_read : Z → Z → K → Z * bytes * K.

Definition STDIN_FILENO : Z := 0.

(** The local variables of [run_client_shell], the kernel, the part of
    [g_stop] that the program itself sets, and the text printed. *)
Record Shell (K : Type) : Type := mkShell {
  sh_client : TCPClient;
  sh_kern : K;
  sh_stdin_buffer : bytes;
  sh_stdin_open : bool;
  sh_sent_quit : bool;
  sh_status : Z;
  sh_stop : bool;
  sh_log : list printed
}.

Arguments mkShell {K}.
Arguments sh_client {K} _.
Arguments sh_kern {K} _.
Arguments sh_stdin_buffer {K} _.
Arguments sh_stdin_open {K} _.
Arguments sh_sent_quit {K} _.
Arguments sh_status {K} _.
Arguments sh_stop {K} _.
Arguments sh_log {K} _.

Section Shell.
Context {K : Type}.

Definition sh_set_net (c : TCPClient) (k : K) (s : Shell K) : Shell K :=
  mkShell c k (sh_stdin_buffer s) (sh_stdin_open s) (sh_sent_quit s) (sh_status s) (sh_stop s) (sh_log s).
Definition sh_set_buffer (b : bytes) (s : Shell K) : Shell K :=
  mkShell (sh_client s) (sh_kern s) b (sh_stdin_open s) (sh_sent_quit s) (sh_status s) (sh_stop s) (sh_log s).
Definition sh_set_open (b : bool) (s : Shell K) : Shell K :=
  mkShell (sh_client s) (sh_kern s) (sh_stdin_buffer s) b (sh_sent_quit s) (sh_status s) (sh_stop s) (sh_log s).
Definition sh_set_quit (b : bool) (s : Shell K) : Shell K :=
  mkShell (sh_client s) (sh_kern s) (sh_stdin_buffer s) (sh_stdin_open s) b (sh_status s) (sh_stop s) (sh_log s).
Definition sh_set_status (z : Z) (s : Shell K) : Shell K :=
  mkShell (sh_client s) (sh_kern s) (sh_stdin_buffer s) (sh_stdin_open s) (sh_sent_quit s) z (sh_stop s) (sh_log s).
Definition sh_set_stop (b : bool) (s : Shell K) : Shell K :=
  mkShell (sh_client s) (sh_kern s) (sh_stdin_buffer s) (sh_stdin_open s) (sh_sent_quit s) (sh_status s) b (sh_log s).
Definition sh_print (t : printed) (s : Shell K) : Shell K :=
  mkShell (sh_client s) (sh_kern s) (sh_stdin_buffer s) (sh_stdin_open s) (sh_sent_quit s) (sh_status s) (sh_stop s)
    (sh_log s ++ [t]).

Abbreviation ShM := (M (Shell K)).

(** A member function of the client, and a system call. *)
Definition on_client {A : Type} (m : M (TCPClient * K) A) : ShM A :=
  λ s, obind (m (sh_client s, sh_kern s)) (λ '(a, (c, k)), Done (a, sh_set_net c k s)).

Definition sh_sys {A : Type} (f : K → A * K) : ShM A := on_client (call f).

Definition out (text : bytes) : ShM unit := modify (sh_print (Stdout text)).
Definition err (text : bytes) : ShM unit := modify (sh_print (Stderr text)).

Context `{!Kernel K, !SocketCalls K, !SignalCalls K, !Stalls K, !Terminal K}.

Definition sh_errno : ShM errno := gets (λ s, sys_errno (sh_kern s)).

Definition print_messages (messages : list bytes) : ShM unit :=
  for_each messages (λ message, out (lit "<<< " ++ c_str message ++ [LF])).

(** [fprintf(stderr, "%s: %s\n", options.role_name, client.error().c_str())] *)
Definition report_error (options : ClientShellOptions) : ShM unit :=
  let* e := gets (λ s, tc_error (sh_client s)) in
  err (opt_role_name options ++ lit ": " ++ c_str e ++ [LF]).

(** The loop over the complete lines of standard input. *)
Fixpoint lines_loop (fuel : nat) (options : ClientShellOptions) : ShM unit :=
  match fuel with
  | O => out_of_fuel
  | S fuel =>
      let* buffer := gets sh_stdin_buffer in
      match find_char LF buffer with
      | None => ret tt
      | Some newline =>
          let line := chomp_cr (substr0 buffer newline) in
          modify (sh_set_buffer (erase0 buffer (newline + 1))) ;;;
          if bool_decide (line = []) then lines_loop fuel options
          else
            let* ok := on_client (send_message (line ++ [LF])) in
            if negb ok then
              report_error options ;;;
              modify (sh_set_stop true) ;;;
              modify (sh_set_status 1)
            else if bool_decide (line = lit "QUIT") then
              modify (sh_set_quit true) ;;;
              modify (sh_set_open false) ;;;
              on_client shutdown_writes
            else lines_loop fuel options
      end
  end.

(** [sizeof(buffer)] for standard input *)
Definition kStdinBuffer : Z := 4096.

(** A pass's part about standard input. *)
Definition serve_stdin (options : ClientShellOptions) : ShM unit :=
  let* r := sh_sys (sys_read STDIN_FILENO kStdinBuffer) in
  let* e := sh_errno in
  let '(received, buffer) := r in
  if (received <? 0)%Z then
    if bool_decide (e = EINTR) then ret tt else modify (sh_set_open false)
  else if (received =? 0)%Z then
    modify (sh_set_open false) ;;;
    let* quit := gets sh_sent_quit in
    when (negb quit)
      (modify (sh_set_quit true) ;;;
       let* _ := on_client (send_message (lit "QUIT" ++ [LF])) in
       on_client shutdown_writes)
  else
    let* old := gets sh_stdin_buffer in
    modify (sh_set_buffer (old ++ buffer)) ;;;
    lines_loop (S (length (old ++ buffer))) options.

(** A pass's part about the socket; [false] leaves the loop. *)
Definition serve_socket : ShM bool :=
  let* r := on_client (receive_messages []) in
  print_messages r.2 ;;;
  if negb r.1 then out (lit "Connection closed by the Exchange Server." ++ [LF]) ;;; ret false
  else ret true.

(** One pass of [while (!g_stop)]; [false] leaves the loop. *)
Definition shell_pass (options : ClientShellOptions) : ShM bool :=
  let* signalled := sh_sys sys_stopped in
  let* stop := gets sh_stop in
  if signalled || stop then ret false
  else
    let* fd := gets (λ s, tc_fd (sh_client s)) in
    let* stdin_open := gets sh_stdin_open in
    let watched := mkPollfd fd POLLIN 0
                   :: (if (stdin_open : bool) then [mkPollfd STDIN_FILENO POLLIN 0] else []) in
    let* r := sh_sys (sys_poll watched (-1)) in
    let* e := sh_errno in
    let '(ready, revents) := r in
    if (ready <? 0)%Z then
      if bool_decide (e = EINTR) then ret true
      else
        err (opt_role_name options ++ lit ": poll() failed: " ++ sys_strerror e ++ [LF]) ;;;
        modify (sh_set_status 1) ;;;
        ret false
    else
      let* alive :=
        if negb (Z.land (default 0 (revents !! 0%nat)) (Z.lor (Z.lor POLLIN POLLHUP) POLLERR) =? 0)%Z
        then serve_socket else ret true in
      if negb alive then ret false
      else if negb stdin_open then ret true
      else if (Z.land (default 0 (revents !! 1%nat)) (Z.lor POLLIN POLLHUP) =? 0)%Z then ret true
      else serve_stdin options ;;; ret true.

(** [n] passes of the loop; [true] if it has not been left. *)
Fixpoint shell_passes (n : nat) (options : ClientShellOptions) : ShM bool :=
  match n with
  | O => ret true
  | S n =>
      let* continue := shell_pass options in
      if (continue : bool) then shell_passes n options else ret false
  end.

(** The initial commands; [false] when sending one failed. *)
Fixpoint send_initial (options : ClientShellOptions) (commands : list bytes) : ShM bool :=
  match commands with
  | [] => ret true
  | command :: commands =>
      out (lit ">>> " ++ c_str command ++ [LF]) ;;;
      let* ok := on_client (send_message (command ++ [LF])) in
      if negb ok then report_error options ;;; ret false
      else send_initial options commands
  end.

(** [run_client_shell] once the connection is made: initial commands, [n]
    passes of the loop, and the end when the loop has been left by then. *)
Definition connected_session (n : nat) (options : ClientShellOptions) : ShM (option Z) :=
  let* ok := send_initial options (opt_initial_commands options) in
  if negb ok then ret (Some 1%Z)
  else
    let* running := shell_passes n options in
    if (running : bool) then ret None
    else
      let* quit := gets sh_sent_quit in
      when (negb quit) (on_client shutdown_writes) ;;;
      on_client disconnect ;;;
      let* status := gets sh_status in ret (Some status).

(** The body of [run_client_shell] between the construction of [client] and
    its destruction, with [n] passes of the loop; [None] when the loop has not
    been left by then. *)
Definition shell_body (n : nat) (options : ClientShellOptions) : ShM (option Z) :=
  let* connected := on_client connect_to_server in
  if negb connected then report_error options ;;; ret (Some 1%Z)
  else
    out (greeting options) ;;;
    connected_session n options.

Definition new_shell (options : ClientShellOptions) (k : K) : Shell K :=
  mkShell (new_client (opt_host options) (opt_port options)) k [] true false 0 false [].

(** [run_client_shell]: signals, the body, then [~TCPClient] if it has returned. *)
Definition run_client_shell (n : nat) (options : ClientShellOptions) : ShM (option Z) :=
  sh_sys (λ k, (tt, install_handlers k)) ;;;
  let* result := shell_body n options in
  match result with
  | None => ret None
  | Some status => on_client destroy_client ;;; ret (Some status)
  end.

End Shell.

(** ** What the user's input amounts to *)

(** The lines of the input that are sent: not the empty ones. *)
Definition typed_lines (input : bytes) : list bytes :=
  filter (λ l, l ≠ []) (chomp_cr <$> (lines_of input).1).

(** Up to and including the first QUIT. *)
Fixpoint until_quit (ls : list bytes) : list bytes :=
  match ls with
  | [] => []
  | l :: ls => if decide (l = lit "QUIT") then [l] else l :: until_quit ls
  end.

Lemma until_quit_none ls : lit "QUIT" ∉ ls → until_quit ls = ls.
Proof.
  induction ls as [|l ls IH]; intros Hn; [done|]. cbn. rewrite decide_False by set_solver.
  by rewrite IH by set_solver.
Qed.

Lemma until_quit_app ls1 ls2 : lit "QUIT" ∉ ls1 → until_quit (ls1 ++ ls2) = ls1 ++ until_quit ls2.
Proof.
  induction ls1 as [|l ls IH]; intros Hn; [done|]. cbn. rewrite decide_False by set_solver.
  by rewrite IH by set_solver.
Qed.

(** Input that arrives later: what was not yet complete is continued. *)
Lemma typed_lines_app a b :
  typed_lines (a ++ b) = typed_lines a ++ typed_lines ((lines_of a).2 ++ b).
Proof. unfold typed_lines. rewrite lines_of_app. cbn. by rewrite fmap_app, filter_app. Qed.

Lemma typed_lines_found buffer n :
  find_char LF buffer = Some n →
  typed_lines buffer
  = (if decide (chomp_cr (take n buffer) = []) then [] else [chomp_cr (take n buffer)])
    ++ typed_lines (drop (S n) buffer).
Proof.
  intros Hn. unfold typed_lines. rewrite (lines_of_found _ _ Hn). cbn [fst]. rewrite fmap_cons, filter_cons.
  destruct (decide (chomp_cr (take n buffer) = [])) as [He|He].
  - by rewrite decide_False by tauto.
  - by rewrite decide_True.
Qed.

Lemma typed_lines_none buffer : LF ∉ buffer → typed_lines buffer = [].
Proof. intros Hn. unfold typed_lines. by rewrite lines_of_none. Qed.

(** What read(2) has returned from standard input so far. *)
Class TerminalView (K : Type) : Type := typed : K → bytes.

(** Reading delivers what it says, and what has been read fits in memory; no
    other call reads standard input. *)
Class TerminalLaws (K : Type)
    `{!Kernel K, !KernelView K, !SocketCalls K, !SignalCalls K, !Terminal K, !TerminalView K} : Prop := {
  law_read cap k n buf k' :
    sys_read STDIN_FILENO cap k = (n, buf, k') →
    open_fds k' = open_fds k ∧ (∀ fd, sent k' fd = sent k fd)
    ∧ ((0 < n)%Z → str_size buf = n ∧ typed k' = typed k ++ buf ∧ (str_size (typed k') < 2 ^ 62)%Z)
    ∧ ((n ≤ 0)%Z → typed k' = typed k)
    ∧ (∀ fd, received k' fd = received k fd);
  typed_send fd data k : typed (sys_send fd data k).2 = typed k;
  typed_recv fd cap k : typed (sys_recv fd cap k).2 = typed k;
  typed_poll fds timeout k : typed (sys_poll fds timeout k).2 = typed k;
  typed_shutdown fd how k : typed (sys_shutdown fd how k) = typed k;
  typed_close fd k : typed (sys_close fd k) = typed k;
  typed_sigaction sig d k : typed (sys_sigaction sig d k) = typed k;
  typed_stopped k : typed (sys_stopped k).2 = typed k;
  typed_getfl fd k : typed (sys_getfl fd k).2 = typed k;
  typed_setfl fd flags k : typed (sys_setfl fd flags k).2 = typed k;
  typed_setsockopt fd level opt v k : typed (sys_setsockopt fd level opt v k).2 = typed k;
  typed_socket k : typed (sys_socket k).2 = typed k;
  typed_connect fd addr k : typed (sys_connect fd addr k).2 = typed k;
  typed_getaddrinfo host k : typed (sys_getaddrinfo host k).2 = typed k
}.

Section Spec.
Context `{!Kernel K, !KernelView K, !KernelLaws K, !SocketCalls K, !SocketLaws K, !SignalCalls K, !SignalLaws K}.
Context `{!Stalls K, !StallLaws K, !Terminal K, !TerminalView K, !TerminalLaws K}.

#[local] Instance strict : Tolerance := False.

Implicit Types s : Shell K.

Lemma wp_on_client {A} (m : M (TCPClient * K) A) (Q : A → Shell K → Prop) s :
  wp m (λ a n, Q a (sh_set_net n.1 n.2 s)) (sh_client s, sh_kern s) → wp (on_client m) Q s.
Proof.
  intros [[_ []]|(a & [c k] & Hm & HQ)]%wp_returns. eapply wp_done; [|exact HQ].
  unfold on_client. by rewrite Hm.
Qed.

Lemma wp_sh_sys {A} (f : K → A * K) (Q : A → Shell K → Prop) s :
  (∀ a k, f (sh_kern s) = (a, k) → Q a (sh_set_net (sh_client s) k s)) → wp (sh_sys f) Q s.
Proof. intros HQ. apply wp_on_client, wp_call. cbn. intros a k Hf. by apply HQ. Qed.

(** Everything about a state but the kernel and the client. *)
Definition flags s : bool * bool * Z * bool := (sh_stdin_open s, sh_sent_quit s, sh_status s, sh_stop s).

(** [s'] comes from [s] by transmitting [data] on the connection, without
    reading standard input. *)
Definition sends s (data : bytes) s' : Prop :=
  transmitted (sh_client s, sh_kern s) data (sh_client s', sh_kern s')
  ∧ typed (sh_kern s') = typed (sh_kern s).

Lemma sends_trans s1 d1 s2 d2 s3 : sends s1 d1 s2 → sends s2 d2 s3 → sends s1 (d1 ++ d2) s3.
Proof. intros [H1 H2] [H1' H2']. split; [by eapply transmitted_trans|congruence]. Qed.

Lemma sends_nothing s s' :
  sh_client s' = sh_client s → sh_kern s' = sh_kern s → sends s [] s'.
Proof. intros Hc Hk. split; [|by rewrite Hk]. rewrite Hc, Hk. by apply transmitted_quiet. Qed.

Lemma send_line_spec line s :
  (0 ≤ tc_fd (sh_client s))%Z → (str_size line < 2 ^ 64)%Z →
  wp (on_client (send_message line))
    (λ b s', flags s' = flags s ∧ sh_stdin_buffer s' = sh_stdin_buffer s
             ∧ if b then sends s line s' else ∃ part, part `prefix_of` line ∧ sends s part s') s.
Proof.
  intros Hfd Hsize. apply wp_on_client.
  eapply wp_mono;
    [apply (wp_keeps (λ n, typed n.2)); [by apply send_message_spec|]|].
  { apply (send_message_keeps typed); [apply typed_send|apply typed_poll]. }
  intros [] [c k] [Hr Ht]; cbn in *; (split_and!; [done|done|]); [done|].
  destruct Hr as (_ & part & Hp & Hr). by exists part.
Qed.

Lemma shutdown_writes_spec s :
  wp (on_client shutdown_writes)
    (λ _ s', flags s' = flags s ∧ sh_stdin_buffer s' = sh_stdin_buffer s ∧ sends s [] s') s.
Proof.
  apply wp_on_client, wp_bind, wp_field, wp_when; intros _; [apply wp_call; intros [] k [= <-]|];
    (split_and!; [done|done|]); [|by apply sends_nothing].
  destruct (law_shutdown (tc_fd (sh_client s)) SHUT_WR (sh_kern s)) as (Ho & Hs & _).
  split; [by apply transmitted_quiet|apply typed_shutdown].
Qed.

(** The end of a loop over the lines of [buffer]: they have all been sent; or
    QUIT has been sent and the sending direction closed; or sending failed. *)
Definition lines_sent s (buffer : bytes) s' : Prop :=
  let ls := typed_lines buffer in
  (lit "QUIT" ∉ ls ∧ sends s (wire ls) s' ∧ flags s' = flags s ∧ sh_stdin_buffer s' = (lines_of buffer).2)
  ∨ (lit "QUIT" ∈ ls ∧ sends s (wire (until_quit ls)) s'
     ∧ flags s' = (false, true, sh_status s, sh_stop s))
  ∨ (∃ part, part `prefix_of` wire (until_quit ls) ∧ sends s part s'
     ∧ flags s' = (sh_stdin_open s, sh_sent_quit s, 1%Z, true)).

(** A line that is not QUIT has been sent. *)
Lemma lines_sent_step s s1 s' line buffer rest :
  typed_lines buffer = line ++ typed_lines rest → (lines_of buffer).2 = (lines_of rest).2 →
  lit "QUIT" ∉ line → sends s (wire line) s1 → flags s1 = flags s →
  lines_sent s1 rest s' → lines_sent s buffer s'.
Proof.
  intros Hls Hrest Hq Hs [= Ho Hsq Hst Hsp] Hl. unfold lines_sent in *. cbv zeta in *. rewrite Hls.
  rewrite until_quit_app, wire_app, wire_app, Hrest by done. rewrite <-Ho, <-Hsq, <-Hst, <-Hsp.
  destruct Hl as [(Hn & Hs' & Hf & Hb)|[(Hin & Hs' & Hf)|(part & Hp & Hs' & Hf)]].
  - left. split_and!; [set_solver|by eapply sends_trans| |done]. rewrite Hf. unfold flags. congruence.
  - right; left. split_and!; [set_solver|by eapply sends_trans|done].
  - right; right. exists (wire line ++ part). split_and!; [by apply prefix_app|by eapply sends_trans|done].
Qed.

Lemma report_error_spec options s :
  wp (report_error options) (λ _ s', flags s' = flags s ∧ sends s [] s') s.
Proof. apply wp_bind, wp_gets, wp_modify. split; [done|by apply sends_nothing]. Qed.

Lemma wire_one line : wire [line] = line ++ [LF].
Proof. apply app_nil_r. Qed.

Lemma lines_loop_spec fuel options s :
  (0 ≤ tc_fd (sh_client s))%Z → length (sh_stdin_buffer s) < fuel →
  (str_size (sh_stdin_buffer s) < 2 ^ 63)%Z →
  wp (lines_loop fuel options) (λ _ s', lines_sent s (sh_stdin_buffer s) s') s.
Proof.
  revert s. induction fuel as [|fuel IH]; intros s Hfd Hf Hsize; [lia|]. cbn [lines_loop].
  apply wp_bind, wp_gets. set (b := sh_stdin_buffer s) in *.
  destruct (find_char LF b) as [n|] eqn:Hn.
  2: { apply wp_ret. left. apply find_None in Hn. rewrite typed_lines_none, lines_of_none by done.
       split_and!; [set_solver|by apply sends_nothing|done|done]. }
  pose proof (typed_lines_found _ _ Hn) as Htl. pose proof (f_equal snd (lines_of_found _ _ Hn)) as Hrest.
  apply find_Some in Hn as (_ & _ & Hlt). unfold substr0, erase0. rewrite Nat.add_1_r.
  set (line := chomp_cr (take n b)) in *. cbn [snd] in Hrest.
  assert (length line ≤ length b) as Hline.
  { unfold line. etrans; [apply chomp_cr_length|]. rewrite length_take. lia. }
  set (s1 := sh_set_buffer (drop (S n) b) s).
  assert (length (sh_stdin_buffer s1) < length b) as Hdec by (cbn; rewrite length_drop; lia).
  apply wp_bind, wp_modify. fold s1. unfold str_size in *. case_bool_decide as He.
  { rewrite decide_True in Htl by done. eapply wp_mono; [apply (IH s1 Hfd); lia|].
    intros [] s' Hl. eapply (lines_sent_step s s1); [done|done|set_solver|by apply sends_nothing|done|done]. }
  rewrite decide_False in Htl by done. apply wp_bind.
  eapply wp_mono; [apply (send_line_spec (line ++ [LF]) s1 Hfd); unfold str_size; rewrite length_app; cbn; lia|].
  intros [] s2 (Hfl & Hbuf & Hsend); cbn [negb].
  2: { destruct Hsend as (part & Hp & Hsend). apply wp_bind.
       eapply wp_mono; [apply report_error_spec|]. intros _ s3 [Hfl3 Hs3]. apply wp_bind, wp_modify, wp_modify.
       right; right. exists part. split_and!.
       - rewrite Htl. cbn [app until_quit]. destruct (decide _); [by rewrite wire_one|].
         by apply (prefix_app_r _ _ (wire (until_quit (typed_lines (drop (S n) b))))) in Hp.
       - rewrite <-(app_nil_r part). eapply sends_trans; [exact Hsend|exact Hs3].
       - injection Hfl3 as ???. injection Hfl as ???. unfold flags. cbn in *. congruence. }
  rewrite <-(wire_one line) in Hsend. case_bool_decide as Hq.
  { apply wp_bind, wp_modify, wp_bind, wp_modify. eapply wp_mono; [apply shutdown_writes_spec|].
    intros [] s3 (Hfl3 & _ & Hs3). right; left. rewrite Htl, Hq in *. split_and!; [set_solver| |].
    - cbn [app until_quit]. rewrite decide_True by done. rewrite <-(app_nil_r (wire [_])). eapply sends_trans; [exact Hsend|exact Hs3].
    - injection Hfl3 as ???. injection Hfl as ???. unfold flags. cbn in *. congruence. }
  assert (tc_fd (sh_client s2) = tc_fd (sh_client s1)) as Hfd2 by apply Hsend.
  eapply wp_mono; [apply (IH s2); rewrite ?Hfd2, ?Hbuf; [done|lia|lia]|].
  intros [] s' Hl. rewrite Hbuf in Hl.
  eapply (lines_sent_step s s2); [done|done|set_solver|exact Hsend|done|done].
Qed.

(** ** The loop *)

(** The connection is [fd], and [os] are the open descriptors. *)
Definition connected (fd : Z) (os : gset Z) s : Prop :=
  tc_fd (sh_client s) = fd ∧ (0 ≤ fd)%Z ∧ LF ∉ tc_inbuf (sh_client s) ∧ open_fds (sh_kern s) = os.

(** The commands of the input read so far. *)
Definition input s : list bytes := typed_lines (typed (sh_kern s)).

(** All of the input has been sent, after [base]. *)
Definition reading (fd : Z) (base : bytes) s : Prop :=
  flags s = (sh_stdin_open s, false, 0%Z, false) ∧ lit "QUIT" ∉ input s
  ∧ sh_stdin_buffer s = (lines_of (typed (sh_kern s))).2
  ∧ (str_size (typed (sh_kern s)) < 2 ^ 62)%Z
  ∧ sent (sh_kern s) fd = base ++ wire (input s).

(** Everything up to a typed QUIT has been sent; or the input has ended, and
    a QUIT (or, if sending it failed, a part of it) follows. *)
Definition said_all (fd : Z) (base : bytes) s : Prop :=
  ∃ q, q `prefix_of` lit "QUIT" ++ [LF] ∧ (lit "QUIT" ∈ input s → q = [])
       ∧ sent (sh_kern s) fd = base ++ wire (until_quit (input s)) ++ q.

Definition leaving (fd : Z) (base : bytes) s : Prop :=
  flags s = (false, true, 0%Z, false) ∧ said_all fd base s.

(** Sending a command failed. *)
Definition cut_off (fd : Z) (base : bytes) s : Prop :=
  sent (sh_kern s) fd `prefix_of` base ++ wire (until_quit (input s)).

Definition shell_inv (fd : Z) (os : gset Z) (base : bytes) s : Prop :=
  connected fd os s
  ∧ (reading fd base s ∨ leaving fd base s
     ∨ (cut_off fd base s ∧ sh_stop s = true ∧ sh_status s = 1%Z)).

(** What holds when the loop is left. *)
Definition shell_end (fd : Z) (os : gset Z) (base : bytes) s : Prop :=
  connected fd os s
  ∧ (said_all fd base s ∧ (sh_status s = 0 ∨ sh_status s = 1)%Z ∨ cut_off fd base s ∧ sh_status s = 1%Z).

Lemma reading_said_all fd base s : reading fd base s → said_all fd base s.
Proof.
  intros (_ & Hq & _ & _ & Hs). exists []. split_and!; [apply prefix_nil|done|].
  by rewrite until_quit_none, app_nil_r.
Qed.

Lemma shell_inv_end fd os base s : shell_inv fd os base s → shell_end fd os base s.
Proof.
  intros [Hc [Hr|[[[= _ _ Hst _] Hl]|(Hcut & _ & Hst)]]]; (split; [done|]); auto.
  left. split; [by apply reading_said_all|]. destruct Hr as ([= _ Hst _] & _). auto.
Qed.

(** A change of state that neither sends nor reads input nor moves a flag. *)
Definition silent s s' : Prop :=
  flags s' = flags s ∧ sh_stdin_buffer s' = sh_stdin_buffer s
  ∧ typed (sh_kern s') = typed (sh_kern s) ∧ (∀ fd, sent (sh_kern s') fd = sent (sh_kern s) fd)
  ∧ open_fds (sh_kern s') = open_fds (sh_kern s)
  ∧ tc_fd (sh_client s') = tc_fd (sh_client s)
  ∧ (LF ∉ tc_inbuf (sh_client s) → LF ∉ tc_inbuf (sh_client s')).

#[global] Instance silent_preorder : PreOrder silent.
Proof.
  split; [done|]. intros s1 s2 s3 (?&?&?&Hs&?&?&?) (?&?&?&Hs'&?&?&?).
  split_and!; [congruence|congruence|congruence|intros fd; by rewrite Hs'|congruence|congruence|auto].
Qed.

Lemma shell_inv_silent fd os base s s' : silent s s' → shell_inv fd os base s → shell_inv fd os base s'.
Proof.
  intros (Hf & Hb & Ht & Hs & Ho & Hfd & Hl) [(H1 & H2 & H3 & H4) Hinv].
  pose proof Hf as [= Hf1 Hf2 Hf3 Hf4].
  split; [split_and!; [congruence|done|auto|congruence]|].
  unfold reading, leaving, said_all, cut_off, input in *. rewrite Hf, Hf1, Hf3, Hf4, Hb, Ht, Hs. exact Hinv.
Qed.

Lemma sends_silent s s' :
  sends s [] s' → flags s' = flags s → sh_stdin_buffer s' = sh_stdin_buffer s → silent s s'.
Proof.
  intros [(H1 & H2 & H3 & H4 & H5) H6] Hf Hb. cbn in *. split_and!; try done; [|congruence].
  intros fd. destruct (decide (fd = tc_fd (sh_client s))) as [->|Hne]; [by rewrite H1, app_nil_r|auto].
Qed.

Lemma serve_socket_spec s :
  LF ∉ tc_inbuf (sh_client s) → wp serve_socket (λ _ s', silent s s') s.
Proof.
  intros Hl. apply wp_bind, wp_on_client.
  eapply wp_mono; [apply (wp_keeps (λ n, typed n.2)); [by apply receive_messages_spec|]|].
  { apply (receive_messages_keeps typed), typed_recv. }
  intros r [c k] [[data (Hr & _ & Hout & Hin & Hfd & (Ho & Hs & _) & _)] Ht]. cbn in *.
  assert (silent s (sh_set_net c k s)) as Hsil.
  { split_and!; try done. intros _. cbn. rewrite Hin. apply lines_of_rest. }
  apply wp_bind. eapply wp_mono.
  { apply (wp_for_each _ _ (silent s)); [exact Hsil|]. intros m s' _ Hs'. by apply wp_modify. }
  intros [] s' Hs'. cbv beta. destruct (negb r.1); [|by apply wp_ret]. by apply wp_bind, wp_modify, wp_ret.
Qed.

Lemma connected_sends fd os s data s' : connected fd os s → sends s data s' → connected fd os s'.
Proof.
  intros (H1 & H2 & H3 & H4) [(_ & _ & Ho & Hf & Hi) _]. cbn in *. unfold connected. by rewrite Hf, Hi, Ho.
Qed.

(** New input has been appended to the buffer but not looked at. *)
Definition pending_input (fd : Z) (base : bytes) s : Prop :=
  ∃ old new,
    flags s = (sh_stdin_open s, false, 0%Z, false)
    ∧ typed (sh_kern s) = old ++ new ∧ sh_stdin_buffer s = (lines_of old).2 ++ new
    ∧ (str_size (typed (sh_kern s)) < 2 ^ 62)%Z
    ∧ lit "QUIT" ∉ typed_lines old ∧ sent (sh_kern s) fd = base ++ wire (typed_lines old).

Lemma lines_sent_inv fd os base s s' :
  connected fd os s → pending_input fd base s → lines_sent s (sh_stdin_buffer s) s' →
  shell_inv fd os base s'.
Proof.
  intros Hc (old & new & Hfl & Ht & Hb & Hsize & Hq & Hs) Hl.
  pose proof Hc as (Hfd & _). pose proof Hfl as [= Hsq Hst Hsp].
  unfold lines_sent in Hl. cbv zeta in Hl.
  assert (∀ data, sends s data s' → typed (sh_kern s') = old ++ new ∧ connected fd os s'
    ∧ input s' = typed_lines old ++ typed_lines (sh_stdin_buffer s)
    ∧ sent (sh_kern s') fd = base ++ wire (typed_lines old) ++ data) as Hsends.
  { intros data Hd. split_and!; [by rewrite <-Ht; apply Hd|by eapply connected_sends| |].
    - unfold input. destruct Hd as [_ ->]. by rewrite Ht, typed_lines_app, Hb.
    - destruct Hd as [(Hd & _) _]. cbn in Hd. rewrite Hfd in Hd. by rewrite Hd, Hs, <-app_assoc. }
  destruct Hl as [(Hn & Hd & Hf & Hb')|[(Hin & Hd & Hf)|(part & Hp & Hd & Hf)]];
    destruct (Hsends _ Hd) as (Ht' & Hc' & Hi & Hs'); (split; [done|]).
  - left. injection Hf as ????. split_and!.
    + unfold flags. congruence.
    + rewrite Hi. set_solver.
    + by rewrite Hb', Ht', lines_of_app, Hb.
    + by rewrite Ht', <-Ht.
    + by rewrite Hi, Hs', wire_app.
  - right; left. split; [congruence|]. exists []. split_and!; [apply prefix_nil|done|].
    by rewrite Hi, Hs', until_quit_app, wire_app, app_nil_r.
  - right; right. injection Hf as _ _ Hst' Hsp'. split_and!; [|done..]. unfold cut_off.
    rewrite Hi, Hs', until_quit_app, wire_app by done. by do 2 apply prefix_app.
Qed.

(** End of input: QUIT is sent, unless this fails. *)
Lemma end_of_input_spec fd os base s :
  connected fd os s → reading fd base s →
  wp (on_client (send_message (lit "QUIT" ++ [LF])))
    (λ _ s', shell_inv fd os base s') (sh_set_quit true (sh_set_open false s)).
Proof.
  intros Hc Hr. pose proof (reading_said_all _ _ _ Hr) as (q & _ & Hq & Hs).
  destruct Hr as (Hfl & Hn & _ & _ & Hs'). pose proof Hc as (Hfd & Hpos & _).
  set (s1 := sh_set_quit true (sh_set_open false s)).
  eapply wp_mono; [apply send_line_spec; [by subst|done]|]. intros b s2 (Hfl2 & _ & Hr).
  assert (∃ part, part `prefix_of` lit "QUIT" ++ [LF] ∧ sends s1 part s2) as (part & Hp & Hd)
    by (destruct b; [by eexists|done]).
  split; [by eapply (connected_sends _ _ s1)|]. right; left. injection Hfl as Hsq Hst Hsp.
  split; [rewrite Hfl2; unfold flags; cbn; congruence|].
  exists part. destruct Hd as [(Hd & _) Ht]. cbn in Hd, Ht. rewrite Hfd, Hs' in Hd. unfold input in *. rewrite Ht.
  split_and!; [done|done|]. by rewrite Hd, until_quit_none, app_assoc.
Qed.

Lemma serve_stdin_spec fd os base options s :
  connected fd os s → reading fd base s →
  wp (serve_stdin options) (λ _ s', shell_inv fd os base s') s.
Proof.
  intros Hc Hr. apply wp_bind, wp_sh_sys. intros [n buf] k Hread.
  apply law_read in Hread as (Ho & Hs & Hpos & Hneg & _). set (s1 := sh_set_net (sh_client s) k s).
  apply wp_bind, wp_gets. cbv beta zeta.
  assert (connected fd os s1) as Hc1 by (destruct Hc as (?&?&?&?); split_and!; cbn; congruence || done).
  assert ((n ≤ 0)%Z → silent s s1) as Hsil by (intros Hn; split_and!; cbn; auto).
  assert ((n ≤ 0)%Z → reading fd base s1) as Hr1.
  { intros Hn. destruct Hr as (?&?&?&?&?). unfold reading, input. cbn. by rewrite Hneg, Hs. }
  destruct (Z.ltb_spec n 0) as [Hlt|Hge].
  { assert (n ≤ 0)%Z as Hn by lia. case_bool_decide; [apply wp_ret|apply wp_modify].
    - split; [done|]. left. auto.
    - split; [done|]. left. destruct (Hr1 Hn) as (Hfl & ?). injection Hfl as ???. split; [|done].
      unfold flags. cbn in *. congruence. }
  destruct (Z.eqb_spec n 0) as [->|Hne].
  { specialize (Hr1 ltac:(done)). apply wp_bind, wp_modify, wp_bind, wp_gets.
    assert (sh_sent_quit (sh_set_open false s1) = false) as -> by (destruct Hr1 as ([= ? _ _] & _); done).
    cbn [negb when]. apply wp_bind, wp_modify, wp_bind.
    eapply wp_mono; [by apply (end_of_input_spec fd os base)|]. intros b s2 Hinv.
    eapply wp_mono; [apply shutdown_writes_spec|]. intros [] s3 (? & ? & ?).
    eapply shell_inv_silent; [|exact Hinv]. by apply sends_silent. }
  destruct Hpos as (Hlen & Ht & Hsize); [lia|]. destruct Hr as (Hfl & Hq & Hb & _ & Hsent).
  apply wp_bind, wp_gets, wp_bind, wp_modify. set (s2 := sh_set_buffer _ s1).
  assert (pending_input fd base s2) as Hp.
  { exists (typed (sh_kern s)), buf. split_and!; try done; cbn; [by rewrite Hb|by rewrite Hs]. }
  eapply wp_mono; [apply (lines_loop_spec _ _ s2)|].
  - cbn. destruct Hc as (-> & ? & _). done.
  - cbn. lia.
  - cbn. unfold str_size in *. rewrite Hb. rewrite Ht in Hsize. rewrite (lines_of_concat (typed _)) in Hsize.
    rewrite !length_app in *. lia.
  - intros [] s3 Hl. by eapply (lines_sent_inv fd os base s2).
Qed.

Lemma shell_pass_spec fd os base options s :
  shell_inv fd os base s →
  wp (shell_pass options) (λ b s', if b then shell_inv fd os base s' else shell_end fd os base s') s.
Proof.
  intros Hinv. apply wp_bind, wp_sh_sys. intros signalled k Hstop.
  pose proof (law_stopped (sh_kern s)) as (Ho & Hs & _). pose proof (typed_stopped (sh_kern s)) as Ht.
  rewrite Hstop in Ho, Hs, Ht. set (s1 := sh_set_net (sh_client s) k s).
  assert (shell_inv fd os base s1) as H1 by by apply (shell_inv_silent _ _ _ s).
  apply wp_bind, wp_gets. destruct (signalled || sh_stop s1) eqn:Hgo; [by apply wp_ret, shell_inv_end|].
  apply orb_false_iff in Hgo as [_ Hgo]. apply wp_bind, wp_gets, wp_bind, wp_gets. cbv zeta.
  apply wp_bind, wp_sh_sys. intros [ready revents] k2 Hpoll.
  pose proof (f_equal (λ r, typed r.2) Hpoll) as Ht2. cbn in Ht2. rewrite typed_poll in Ht2.
  apply law_poll in Hpoll as (Ho2 & Hs2 & _). set (s2 := sh_set_net (sh_client s1) k2 s1).
  assert (shell_inv fd os base s2) as H2 by by apply (shell_inv_silent _ _ _ s1).
  apply wp_bind, wp_gets. destruct (ready <? 0)%Z.
  { case_bool_decide; [by apply wp_ret|]. apply wp_bind, wp_modify, wp_bind, wp_modify, wp_ret.
    destruct (shell_inv_end _ _ _ _ H2) as [Hc [[Hall _]|[Hcut _]]]; (split; [done|]); cbn; auto. }
  apply wp_bind. eapply (wp_mono _ (λ _ s3, silent s2 s3)).
  { destruct (negb _); [apply serve_socket_spec|by apply wp_ret]. destruct H2 as [(_ & _ & ? & _) _]. done. }
  intros alive s3 Hsil. assert (shell_inv fd os base s3) as H3 by by apply (shell_inv_silent _ _ _ s2).
  destruct alive; cbn [negb]; [|by apply wp_ret, shell_inv_end].
  destruct (sh_stdin_open s1) eqn:Hopen; cbn [negb]; [|by apply wp_ret].
  destruct (Z.land _ _ =? 0)%Z; [by apply wp_ret|]. apply wp_bind.
  assert (flags s3 = flags s1) as [= Hf1 Hf2 Hf3 Hf4] by apply Hsil.
  destruct H3 as [Hc3 [Hr|[[Hfl _]|(_ & Hst & _)]]].
  - eapply wp_mono; [by apply (serve_stdin_spec fd os base)|]. intros [] s4 H4. by apply wp_ret.
  - injection Hfl as ????. cbn in Hopen. congruence.
  - cbn in Hgo. congruence.
Qed.

Lemma shell_passes_spec n fd os base options s :
  shell_inv fd os base s →
  wp (shell_passes n options) (λ b s', if b then shell_inv fd os base s' else shell_end fd os base s') s.
Proof.
  revert s. induction n as [|n IH]; intros s Hinv; [by apply wp_ret|]. cbn [shell_passes].
  apply wp_bind. eapply wp_mono; [by apply shell_pass_spec|]. intros [] s' Hs'; [by apply IH|by apply wp_ret].
Qed.

(** ** From the start to the end *)

Lemma typed_connect_to host port (k : K) : typed (connect_to host port k).2 = typed k.
Proof.
  unfold connect_to. set (h := match host with [] => _ | _ => host end).
  assert (typed (resolve_ipv4 h k).2 = typed k) as Hr.
  { unfold resolve_ipv4. destruct (_ || _); [done|]. destruct (sys_inet_pton _); [done|].
    pose proof (typed_getaddrinfo (c_str h) k) as H. destruct (sys_getaddrinfo _ k) as [[rc [a|]] k1]; [|done].
    by destruct (negb _). }
  destruct (resolve_ipv4 h k) as [[addr|e] k1]; [|done]. cbn in Hr.
  pose proof (typed_socket k1) as H2. destruct (sys_socket k1) as [n k2]; cbn in H2.
  destruct (n <? 0)%Z; [cbn; congruence|].
  pose proof (typed_connect n (mkSockaddr addr (htons port)) k2) as H3.
  destruct (sys_connect n _ k2) as [r k3]; cbn in H3. destruct (r <? 0)%Z; cbn; rewrite ?typed_close; congruence.
Qed.

Lemma typed_options (fd : Z) (k : K) :
  typed (set_nonblocking fd (set_tcp_nodelay fd k).2).2 = typed k.
Proof.
  unfold set_tcp_nodelay. pose proof (typed_setsockopt fd IPPROTO_TCP TCP_NODELAY 1 k) as H1.
  destruct (sys_setsockopt fd _ _ _ k) as [r k1]; cbn in *. unfold set_nonblocking.
  pose proof (typed_getfl fd k1) as H2. destruct (sys_getfl fd k1) as [g k2]; cbn in *.
  destruct (g =? -1)%Z; cbn; [congruence|].
  pose proof (typed_setfl fd (Z.lor g O_NONBLOCK) k2) as H3. destruct (sys_setfl fd _ k2); cbn in *. congruence.
Qed.

(** Connecting opens one new descriptor, or none. *)
Lemma connect_spec s :
  tc_inbuf (sh_client s) = [] →
  wp (on_client connect_to_server)
    (λ b s', flags s' = flags s ∧ sh_stdin_buffer s' = sh_stdin_buffer s
      ∧ typed (sh_kern s') = typed (sh_kern s)
      ∧ let fd := (connect_to (tc_host (sh_client s)) (tc_port (sh_client s)) (sh_kern s)).1.1 in
        tc_fd (sh_client s') = fd
        ∧ if b then fd ∉ open_fds (sh_kern s) ∧ sent (sh_kern s') fd = [] ∧ received (sh_kern s') fd = []
                  ∧ connected fd ({[fd]} ∪ open_fds (sh_kern s)) s'
          else fd = (-1)%Z ∧ open_fds (sh_kern s') = open_fds (sh_kern s)) s.
Proof.
  intros Hin. apply wp_on_client, wp_bind, wp_field, wp_bind, wp_field, wp_bind, wp_call. cbn [fst snd].
  intros [fd e] k Hconn. rewrite Hconn. cbn [fst snd]. pose proof (typed_connect_to (tc_host (sh_client s)) (tc_port (sh_client s)) (sh_kern s)) as Ht.
  rewrite Hconn in Ht. cbn in Ht. pose proof (connect_to_created _ _ _ _ _ _ Hconn) as [Hres _].
  apply wp_bind, wp_store, wp_bind. cbn [fst snd].
  eapply (wp_mono _ (λ _ n, tc_fd n.1 = fd ∧ tc_inbuf n.1 = [] ∧ n.2 = k)).
  { destruct e; [apply wp_store|apply wp_ret]; done. }
  intros [] [c k'] (Hfd & Hi & Hk). cbn in Hfd, Hi, Hk. subst fd k'.
  destruct Hres as [(Hpos & _ & Hfresh & Ho & Hnil & Hnew)|(Hm & _ & Ho)].
  2: { rewrite Hm. apply wp_ret. by split_and!. }
  rewrite (proj2 (Z.ltb_ge _ 0)) by done. apply wp_bind, wp_call. cbn [fst snd]. intros b1 k1 Hk1.
  apply wp_bind, wp_call. cbn [fst snd]. intros b2 k2 Hk2. apply wp_ret.
  pose proof (set_tcp_nodelay_quiet (tc_fd c) k) as (Ho1 & Hs1 & _ & Hr1). rewrite Hk1 in Ho1, Hs1, Hr1.
  pose proof (set_nonblocking_quiet (tc_fd c) k1) as (Ho2 & Hs2 & _ & Hr2). rewrite Hk2 in Ho2, Hs2, Hr2.
  pose proof (typed_options (tc_fd c) k) as Ht2. rewrite Hk1 in Ht2. cbn in Ht2. rewrite Hk2 in Ht2.
  cbn in *. unfold connected. cbn. rewrite Hi, Hs2, Hs1, Hr2, Hr1, Ho2, Ho1, Ho. split_and!; try done; [congruence|set_solver].
Qed.

Lemma send_initial_spec options commands s :
  (0 ≤ tc_fd (sh_client s))%Z → Forall (λ c, str_size c < 2 ^ 63)%Z commands →
  wp (send_initial options commands)
    (λ b s', if b then sends s (wire commands) s' ∧ flags s' = flags s
                       ∧ sh_stdin_buffer s' = sh_stdin_buffer s
             else ∃ part, part `prefix_of` wire commands ∧ sends s part s') s.
Proof.
  intros Hfd Hall. revert s Hfd. induction Hall as [|c cs Hc Hcs IH]; intros s Hfd; cbn [send_initial].
  { apply wp_ret. split_and!; [by apply sends_nothing|done|done]. }
  apply wp_bind, wp_modify, wp_bind.
  eapply wp_mono; [apply send_line_spec; [done|unfold str_size in *; rewrite length_app; cbn; lia]|].
  intros [] s1 (Hfl & Hb & Hsend); cbn [negb].
  - assert (tc_fd (sh_client s1) = tc_fd (sh_client s)) as Hfd1 by apply Hsend.
    eapply wp_mono; [apply IH; by rewrite Hfd1|]. intros [] s2.
    + intros (Hs2 & Hf2 & Hb2). split_and!; [by eapply sends_trans|by rewrite Hf2|by rewrite Hb2].
    + intros (part & Hp & Hs2). exists ((c ++ [LF]) ++ part).
      split; [by apply (prefix_app (c ++ [LF]))|]. by eapply sends_trans.
  - destruct Hsend as (part & Hp & Hsend). apply wp_bind. eapply wp_mono; [apply report_error_spec|].
    intros [] s2 [_ Hs2]. apply wp_ret. exists part. split; [by apply prefix_app_r|].
    rewrite <-(app_nil_r part). by eapply sends_trans.
Qed.

(** Nothing observable but the set of open descriptors changes. *)
Definition same_traffic s s' : Prop :=
  typed (sh_kern s') = typed (sh_kern s) ∧ (∀ fd, sent (sh_kern s') fd = sent (sh_kern s) fd)
  ∧ sh_status s' = sh_status s.

(** Closing the connection, if it is open. *)
Lemma disconnect_spec s :
  wp (on_client disconnect)
    (λ _ s', tc_fd (sh_client s') < 0
      ∧ open_fds (sh_kern s')
        = (if (0 <=? tc_fd (sh_client s)) then open_fds (sh_kern s) ∖ {[tc_fd (sh_client s)]}
           else open_fds (sh_kern s))
      ∧ same_traffic s s')%Z s.
Proof.
  apply wp_on_client, wp_bind, wp_field, wp_when; cbn [fst]; intros Hfd; rewrite Hfd.
  - apply wp_bind, wp_call. intros [] k [= <-]. apply wp_store.
    destruct (law_close (tc_fd (sh_client s)) (sh_kern s)) as (Ho & Hs & _).
    split_and!; [done|done|]. split_and!; [apply typed_close|done|done].
  - apply Z.leb_gt in Hfd. by split_and!.
Qed.

(** The state after [run_client_shell], from kernel state [k].  With a status,
    the descriptors that were open before are open and nothing else is.  If
    the connection [fd] was made, what went over it is the initial commands
    and the typed lines up to QUIT (or the QUIT for the end of the input), or,
    with status 1, a prefix of this.  Without a status, the loop is still
    running. *)
Definition shell_outcome (options : ClientShellOptions) (k : K) (r : option Z) s : Prop :=
  let fd := (connect_to (opt_host options) (opt_port options) k).1.1 in
  let base := wire (opt_initial_commands options) in
  match r with
  | None => (0 ≤ fd)%Z ∧ fd ∉ open_fds k ∧ shell_inv fd ({[fd]} ∪ open_fds k) base s
  | Some status =>
      open_fds (sh_kern s) = open_fds k ∧ (tc_fd (sh_client s) < 0)%Z
      ∧ (fd = (-1)%Z ∧ status = 1%Z
         ∨ fd ∉ open_fds k
           ∧ (said_all fd base s ∧ (status = 0 ∨ status = 1)%Z ∨ cut_off fd base s ∧ status = 1%Z))
  end.

(** The same before the connection is closed. *)
Definition shell_ended (options : ClientShellOptions) (k : K) (status : Z) s : Prop :=
  let fd := (connect_to (opt_host options) (opt_port options) k).1.1 in
  let base := wire (opt_initial_commands options) in
  fd ∉ open_fds k ∧ connected fd ({[fd]} ∪ open_fds k) s
  ∧ (said_all fd base s ∧ (status = 0 ∨ status = 1)%Z ∨ cut_off fd base s ∧ status = 1%Z).

Lemma close_ended options k status s :
  shell_ended options k status s →
  wp (on_client disconnect) (λ _ s', shell_outcome options k (Some status) s' ∧ sh_status s' = sh_status s) s.
Proof.
  intros (Hfresh & (Hfd & Hpos & _ & Ho) & Hr). eapply wp_mono; [apply disconnect_spec|].
  intros [] s' (Hneg & Ho' & Ht & Hs & Hst). rewrite Hfd, (proj2 (Z.leb_le 0 _)), Ho in Ho' by done.
  split; [|done]. split_and!; [rewrite Ho'; set_solver|done|]. right. split; [done|].
  unfold said_all, cut_off, input in *. rewrite Ht, Hs. exact Hr.
Qed.

Lemma close_again options k status s :
  shell_outcome options k (Some status) s →
  wp (on_client disconnect) (λ _ s', shell_outcome options k (Some status) s') s.
Proof.
  intros (Ho & Hfd & Hr). eapply wp_mono; [apply disconnect_spec|].
  intros [] s' (Hneg & Ho' & Ht & Hs & Hst). rewrite (proj2 (Z.leb_gt 0 _)) in Ho' by done.
  split_and!; [congruence|done|]. unfold said_all, cut_off, input in *. rewrite Ht, Hs. exact Hr.
Qed.

Lemma shell_end_ended options k s s' :
  let fd := (connect_to (opt_host options) (opt_port options) k).1.1 in
  fd ∉ open_fds k → shell_end fd ({[fd]} ∪ open_fds k) (wire (opt_initial_commands options)) s →
  silent s s' → shell_ended options k (sh_status s) s'.
Proof.
  intros fd Hfresh [(H1 & H2 & H3 & H4) Hr] (_ & _ & Ht & Hs & Ho & Hfd & Hl).
  unfold shell_ended. fold fd. split_and!; [done| |].
  - split_and!; [congruence|done|auto|congruence].
  - unfold said_all, cut_off, input in *. rewrite Ht, Hs. exact Hr.
Qed.

(** The first pass starts with all of the input (none) sent. *)
Lemma reading_start fd commands s s' :
  sends s (wire commands) s' → tc_fd (sh_client s) = fd → sent (sh_kern s) fd = [] →
  typed (sh_kern s) = [] → sh_stdin_buffer s' = [] → flags s' = (true, false, 0%Z, false) →
  reading fd (wire commands) s'.
Proof.
  intros [(Hs & _) Ht] Hfd Hnil Ht0 Hb [= Ho Hsq Hst Hsp]. cbn in Hs. rewrite Hfd, Hnil in Hs.
  unfold reading, input. rewrite Ht, Ht0, Hs, Hb, app_nil_r. cbn.
  split_and!; [unfold flags; congruence|set_solver|done|done|done].
Qed.

(** The connection is made: initial commands, loop and end. *)
Lemma connected_session_spec n options k s :
  let fd := (connect_to (opt_host options) (opt_port options) k).1.1 in
  Forall (λ c, str_size c < 2 ^ 63)%Z (opt_initial_commands options) →
  fd ∉ open_fds k → connected fd ({[fd]} ∪ open_fds k) s → sent (sh_kern s) fd = [] →
  typed (sh_kern s) = [] → sh_stdin_buffer s = [] → flags s = (true, false, 0%Z, false) →
  wp (connected_session n options)
    (λ r s, shell_outcome options k r s ∨ ∃ status, r = Some status ∧ shell_ended options k status s) s.
Proof.
  intros fd Hsize Hfresh Hc Hnil Ht Hb Hfl. pose proof Hc as (Hfd & Hpos & _). apply wp_bind.
  eapply wp_mono; [apply (send_initial_spec _ _ s); [by rewrite Hfd|done]|]. intros [] s2; cbn [negb].
  2: { intros (part & Hp & Hs2). apply wp_ret. right. exists 1%Z. split; [done|].
       split_and!; [done|by eapply connected_sends|]. right. split; [|done].
       destruct Hs2 as [(Hs2 & _) Hty]. cbn in Hs2, Hty. rewrite Hfd, Hnil in Hs2. fold fd.
       unfold cut_off, input. rewrite Hs2, Hty, Ht. cbn. by rewrite app_nil_r. }
  intros (Hs2 & Hf2 & Hb2). apply wp_bind.
  assert (shell_inv fd ({[fd]} ∪ open_fds k) (wire (opt_initial_commands options)) s2) as Hinv.
  { split; [by eapply connected_sends|]. left. eapply reading_start; eauto; congruence. }
  eapply wp_mono; [by apply (shell_passes_spec _ _ _ _ _ _ Hinv)|]. intros [] s3 H3.
  { apply wp_ret. left. cbn. fold fd. by split_and!. }
  apply wp_bind, wp_gets, wp_bind. eapply (wp_mono _ (λ _ s4, silent s3 s4)).
  { apply wp_when; intros _; [|done]. eapply wp_mono; [apply shutdown_writes_spec|].
    intros [] s4 (? & ? & ?). by apply sends_silent. }
  intros [] s4 Hsil. apply wp_bind. eapply wp_mono; [by eapply close_ended, shell_end_ended|].
  intros [] s5 [Hout Hst]. apply wp_bind, wp_gets, wp_ret. left.
  rewrite Hst. assert (flags s4 = flags s3) as [= _ _ -> _] by apply Hsil. done.
Qed.

Lemma shell_body_spec n options k :
  typed k = [] → Forall (λ c, str_size c < 2 ^ 63)%Z (opt_initial_commands options) →
  wp (shell_body n options)
    (λ r s, shell_outcome options k r s ∨ ∃ status, r = Some status ∧ shell_ended options k status s)
    (new_shell options k).
Proof.
  intros Ht0 Hsize. apply wp_bind. eapply wp_mono; [by apply connect_spec|]. cbn [new_shell sh_client sh_kern
    new_client tc_host tc_port]. set (fd := (connect_to _ _ k).1.1).
  intros [] s (Hfl & Hb & Ht & Hfd & Hr); cbn [negb].
  - destruct Hr as (Hfresh & Hnil & _ & Hc). apply wp_bind, wp_modify.
    apply connected_session_spec; cbn; congruence || done.
  - destruct Hr as [Hm Ho]. apply wp_bind. eapply wp_mono; [apply report_error_spec|].
    intros [] s1 [_ [(_ & _ & Ho1 & Hfd1 & _) _]]. cbn in Ho1, Hfd1. apply wp_ret. left.
    cbn. fold fd. rewrite Ho1, Hfd1, Hfd, Hm. split_and!; [done|done|auto].
Qed.

(** From kernel state [k0]; the connection is made after signals have been
    seen to. *)
Lemma shell_run_spec n options k0 :
  typed k0 = [] → Forall (λ c, str_size c < 2 ^ 63)%Z (opt_initial_commands options) →
  ∃ r s, run_client_shell n options (new_shell options k0) = Done (r, s)
         ∧ shell_outcome options (install_handlers k0) r s.
Proof.
  intros Ht0 Hsize. set (k := install_handlers k0).
  assert (typed k = []) as Ht by (unfold k, install_handlers; by rewrite !typed_sigaction).
  assert (wp (run_client_shell n options) (shell_outcome options k) (new_shell options k0))
    as [[_ []]|H]%wp_returns; [|exact H]. apply wp_bind, wp_sh_sys. intros [] k1 [= <-].
  change (sh_set_net _ _ _) with (new_shell options k).
  apply wp_bind. eapply wp_mono; [by apply shell_body_spec|]. intros [status|] s.
  - intros Hs. apply wp_bind. eapply (wp_mono _ (λ _ s', shell_outcome options k (Some status) s')).
    + destruct Hs as [Hs|(st & [= ->] & Hs)]; [by apply close_again|].
      eapply wp_mono; [by apply close_ended|]. by intros [] s' [? _].
    + intros [] s' Hs'. by apply wp_ret.
  - intros [Hs|(st & ? & _)]; [|done]. by apply wp_ret.
Qed.

End Spec.
