(* ===== verification/ShellDisplay.v ===== *)
(** * ShellDisplay: what the interactive client shows

    The lines the shell prints with the mark [<<<] are the messages of the
    server: exactly the complete lines received on the connection, in order,
    each once.  The other half of the shell, what it sends, is in
    ClientShell.v. *)

From S2P Require Import Prelude CxxString Framing Kernel SocketUtils Signals TcpClient ClientShell.

(** A message of the server on the screen. *)
Definition display (message : bytes) : printed := Stdout (lit "<<< " ++ c_str message ++ [LF]).

Definition is_display (p : printed) : bool :=
  match p with Stdout t => bool_decide (take 4 t = lit "<<< ") | Stderr _ => false end.

Definition displayed (log : list printed) : list printed := filter (λ p, is_display p = true) log.
Arguments displayed log : simpl never.

Lemma display_shown m : is_display (display m) = true.
Proof. cbn. by rewrite bool_decide_true. Qed.

Lemma displayed_snoc log p : displayed (log ++ [p]) = displayed log ++ (if is_display p then [p] else []).
Proof. unfold displayed. rewrite filter_app, filter_cons, filter_nil. by destruct (is_display p). Qed.

Section Display.
Context `{!Kernel K, !KernelView K, !KernelLaws K, !SocketCalls K, !SocketLaws K, !SignalCalls K, !SignalLaws K}.
Context `{!Stalls K, !StallLaws K, !Terminal K, !TerminalView K, !TerminalLaws K}.

Implicit Types s : Shell K.

(** The part of the state that decides what is shown of the connection [fd]. *)
Definition screen (fd : Z) s : bytes * bytes * list printed :=
  (tc_inbuf (sh_client s), received (sh_kern s) fd, displayed (sh_log s)).

Definition line_in (fd : Z) s : Z * (bytes * bytes * list printed) := (tc_fd (sh_client s), screen fd s).

(** Everything received is on the screen, but for an unfinished line. *)
Definition shown (fd : Z) s : Prop :=
  let '(ls, rest) := lines_of (received (sh_kern s) fd) in
  tc_inbuf (sh_client s) = rest ∧ displayed (sh_log s) = display ∘ chomp_cr <$> ls.

Definition showing (fd : Z) s : Prop := tc_fd (sh_client s) = fd ∧ shown fd s.

Lemma showing_line_in fd s s' : line_in fd s' = line_in fd s → showing fd s → showing fd s'.
Proof. unfold showing, shown, line_in, screen. by intros [= -> -> -> ->]. Qed.

Lemma shown_screen fd s s' : screen fd s' = screen fd s → shown fd s → shown fd s'.
Proof. unfold shown, screen. by intros [= -> -> ->]. Qed.

(** ** What does not change the screen *)

Definition net_part (fd : Z) (n : TCPClient * K) : Z * bytes * bytes :=
  (tc_fd n.1, tc_inbuf n.1, received n.2 fd).

Lemma keeps_on_client {A} fd (m : M (TCPClient * K) A) :
  keeps (net_part fd) m → keeps (line_in fd) (on_client m).
Proof.
  intros Hm s a s'. unfold on_client, obind. destruct (m _) as [[a' [c k]]| | |] eqn:Hc; try done.
  intros [= <- <-]. apply Hm in Hc as [= H1 H2 H3]. unfold line_in, screen. cbn. congruence.
Qed.

Lemma keeps_net_call {A} fd (g : K → A * K) :
  (∀ k, received (g k).2 fd = received k fd) → keeps (net_part fd) (call g).
Proof.
  intros Hg [c k] a s' Hc. specialize (Hg k). cbn in Hc. destruct (g k) as [a' k'].
  injection Hc as <- <-. cbn in Hg. unfold net_part. cbn. congruence.
Qed.

Lemma keeps_sys {A} fd (g : K → A * K) :
  (∀ k, received (g k).2 fd = received k fd) → keeps (line_in fd) (sh_sys g).
Proof. intros Hg. by apply keeps_on_client, keeps_net_call. Qed.

Lemma received_send fd f data (k : K) : received (sys_send f data k).2 fd = received k fd.
Proof. destruct (sys_send f data k) as [n k'] eqn:H. apply law_send in H. cbn. apply H. Qed.

Lemma received_poll fd fds timeout (k : K) : received (sys_poll fds timeout k).2 fd = received k fd.
Proof. destruct (sys_poll fds timeout k) as [[n revs] k'] eqn:H. apply law_poll in H. cbn. apply H. Qed.

Lemma received_read fd cap (k : K) : received (sys_read STDIN_FILENO cap k).2 fd = received k fd.
Proof. destruct (sys_read _ cap k) as [[n buf] k'] eqn:H. apply law_read in H. cbn. apply H. Qed.

Lemma received_stopped fd (k : K) : received (sys_stopped k).2 fd = received k fd.
Proof. apply law_stopped. Qed.

Lemma received_shutdown fd f how (k : K) : received (sys_shutdown f how k) fd = received k fd.
Proof. apply law_shutdown. Qed.

Lemma received_close fd f (k : K) : received (sys_close f k) fd = received k fd.
Proof. apply law_close. Qed.

Hint Resolve keeps_on_client keeps_net_call keeps_sys received_send received_poll received_read
  received_stopped : keeps.

Lemma send_message_line fd line : keeps (net_part fd) (send_message line).
Proof.
  assert (∀ fuel n, keeps (net_part fd) (send_loop fuel line n)) as Hloop.
  { induction fuel as [|fuel IH]; intros n; cbn [send_loop]; [done|].
    unfold set_failure, field, client_errno, store. auto 20 with keeps. }
  unfold send_message, field. auto 20 with keeps.
Qed.

Lemma shutdown_line fd : keeps (net_part fd) shutdown_writes.
Proof.
  apply keeps_bind; [apply keeps_gets|]. intros f. apply keeps_when, keeps_net_call. intros k.
  apply received_shutdown.
Qed.

(** A text that is not a message of the server. *)
Lemma keeps_print fd p : is_display p = false → keeps (line_in fd) (modify (sh_print p)).
Proof.
  intros Hp. apply keeps_modify. intros s. unfold line_in, screen. cbn. rewrite displayed_snoc, Hp.
  by rewrite app_nil_r.
Qed.

Lemma keeps_err fd t : keeps (line_in fd) (err t).
Proof. by apply keeps_print. Qed.

Hint Resolve send_message_line shutdown_line keeps_err : keeps.

Lemma report_error_line fd options : keeps (line_in fd) (report_error options).
Proof. unfold report_error. auto with keeps. Qed.

Hint Resolve report_error_line : keeps.

Lemma lines_loop_line fd fuel options : keeps (line_in fd) (lines_loop fuel options).
Proof. induction fuel as [|fuel IH]; cbn [lines_loop]; auto 20 with keeps. Qed.

Hint Resolve lines_loop_line : keeps.

Lemma serve_stdin_line fd options : keeps (line_in fd) (serve_stdin options).
Proof. unfold serve_stdin, sh_errno. auto 20 with keeps. Qed.

Lemma send_initial_line fd options commands : keeps (line_in fd) (send_initial options commands).
Proof.
  induction commands as [|c cs IH]; cbn [send_initial]; [auto with keeps|].
  apply keeps_bind; [by apply keeps_print|]. auto 20 with keeps.
Qed.

(** ** What does *)

Lemma print_messages_run ms s :
  ∃ s', print_messages ms s = Done (tt, s') ∧ sh_client s' = sh_client s ∧ sh_kern s' = sh_kern s
    ∧ displayed (sh_log s') = displayed (sh_log s) ++ (display <$> ms).
Proof.
  revert s. induction ms as [|m ms IH]; intros s; [exists s; by rewrite app_nil_r|].
  destruct (IH (sh_print (display m) s)) as (s' & Hrun & Hc & Hk & Hd). exists s'. split_and!; [done..|].
  rewrite Hd. cbn [sh_log sh_print]. by rewrite displayed_snoc, display_shown, <-app_assoc.
Qed.

#[local] Instance no_overflow_shown : Tolerance := False.

Lemma serve_socket_shows fd : maintains (showing fd) serve_socket.
Proof.
  intros s b s' Hrun [Hfd Hsh]. unfold shown in Hsh.
  destruct (lines_of (received (sh_kern s) fd)) as [ls rest] eqn:Hl. destruct Hsh as [Hin Hd].
  refine (wp_elim _ (λ _, showing fd) _ _ _ _ Hrun). apply wp_bind, wp_on_client. eapply wp_mono.
  { apply receive_messages_spec. unfold line_start. cbn. rewrite Hin.
    change rest with (ls, rest).2. rewrite <-Hl. apply lines_of_rest. }
  intros r [c k] (data & _ & Hrcv & Hout & Hbuf & Hfd' & _). cbn in Hrcv, Hout, Hbuf, Hfd'. apply wp_bind.
  destruct (print_messages_run r.2 (sh_set_net c k s)) as (s1 & Hrun1 & Hc1 & Hk1 & Hd1).
  eapply wp_done; [exact Hrun1|]. assert (showing fd s1) as H1.
  { split; [rewrite Hc1; cbn; congruence|]. unfold shown. rewrite Hk1, Hc1, Hd1. cbn.
    rewrite <-Hfd, Hrcv, Hfd, lines_of_app, Hl. cbn. rewrite Hbuf, Hin. split; [done|].
    rewrite Hd, Hout, Hin. cbn. by rewrite fmap_app, !list_fmap_compose. }
  destruct (negb r.1); [|by apply wp_ret]. apply wp_bind, wp_modify, wp_ret.
  refine (showing_line_in fd s1 _ _ H1). unfold line_in, screen. cbn. rewrite displayed_snoc. cbn.
  by rewrite app_nil_r.
Qed.

Lemma line_in_maintained {A} fd (m : M (Shell K) A) : keeps (line_in fd) m → maintains (showing fd) m.
Proof. intros Hm. eapply keeps_maintains; [exact Hm|]. apply showing_line_in. Qed.

Lemma shell_pass_shows fd options : maintains (showing fd) (shell_pass options).
Proof.
  unfold shell_pass. eapply ensures_bind; [apply line_in_maintained; auto with keeps|]. intros signalled.
  eapply ensures_bind; [apply line_in_maintained; auto with keeps|]. intros stop.
  apply ensures_if; [by apply ensures_ret|].
  eapply ensures_bind; [apply line_in_maintained; auto with keeps|]. intros f.
  eapply ensures_bind; [apply line_in_maintained; auto with keeps|]. intros stdin_open. cbv zeta.
  eapply ensures_bind; [apply line_in_maintained; auto with keeps|]. intros [ready revents].
  eapply ensures_bind; [apply line_in_maintained; unfold sh_errno; auto with keeps|]. intros e.
  apply ensures_if; [apply line_in_maintained; auto 10 with keeps|].
  eapply ensures_bind; [apply ensures_if; [apply serve_socket_shows|by apply ensures_ret]|]. intros alive.
  apply line_in_maintained. pose proof (serve_stdin_line fd options). auto 20 with keeps.
Qed.

Lemma shell_passes_shows fd n options : maintains (showing fd) (shell_passes n options).
Proof.
  induction n as [|n IH]; cbn [shell_passes]; [by apply ensures_ret|].
  eapply ensures_bind; [apply shell_pass_shows|]. intros [|]; [done|by apply ensures_ret].
Qed.

Lemma disconnect_shows fd : maintains (shown fd) (on_client disconnect).
Proof.
  intros s a s' Hrun. apply shown_screen. revert Hrun. unfold on_client, disconnect, field, call, store.
  unfold bind, gets, modify, when, obind. cbn. destruct (0 <=? tc_fd (sh_client s))%Z; intros [= _ <-]; [|done].
  unfold screen. cbn. by rewrite received_close.
Qed.

Lemma connected_session_shows fd n options : ensures (showing fd) (connected_session n options) (shown fd).
Proof.
  assert (∀ s, showing fd s → shown fd s) as Hend by by intros s [_ ?].
  eapply ensures_bind; [apply line_in_maintained, send_initial_line|]. intros ok.
  apply ensures_if; [by apply ensures_ret|].
  eapply ensures_bind; [apply shell_passes_shows|]. intros running. apply ensures_if; [by apply ensures_ret|].
  eapply ensures_bind; [apply line_in_maintained; auto with keeps|]. intros quit.
  eapply (ensures_bind _ _ (shown fd)).
  { intros s a s' Hrun Hs. apply Hend. revert Hrun Hs. apply line_in_maintained. auto with keeps. }
  intros _. eapply ensures_bind; [apply disconnect_shows|]. intros _.
  apply (ensures_bind _ _ (shown fd)); [by intros s a s' [= _ <-]|]. intros status. by apply ensures_ret.
Qed.

Lemma connect_keeps_inbuf : keeps (λ n : TCPClient * K, tc_inbuf n.1) connect_to_server.
Proof.
  assert (∀ A (g : K → A * K), keeps (λ n : TCPClient * K, tc_inbuf n.1) (call g)) as Hcall.
  { intros A g [c k] a n. cbn. destruct (g k). by intros [= _ <-]. }
  unfold connect_to_server, field, store. auto 20 with keeps.
Qed.

(** Connecting leaves an empty screen. *)
Lemma connect_shows options (k : K) b s :
  on_client connect_to_server (new_shell options k) = Done (b, s) →
  let fd := (connect_to (opt_host options) (opt_port options) k).1.1 in
  (0 ≤ fd)%Z → b = true ∧ tc_fd (sh_client s) = fd ∧ tc_inbuf (sh_client s) = []
               ∧ received (sh_kern s) fd = [] ∧ sh_log s = [].
Proof.
  intros Hrun fd Hpos.
  assert (keeps (λ s, (tc_inbuf (sh_client s), sh_log s)) (on_client connect_to_server)) as Hkeep.
  { intros s0 b' s0'. unfold on_client, obind. destruct (connect_to_server _) as [[a [c k']]| | |] eqn:Hc; try done.
    intros [= _ <-]. apply connect_keeps_inbuf in Hc. cbn in *. congruence. }
  pose proof (wp_elim _ _ _ _ _ (connect_spec (new_shell options k) eq_refl) Hrun)
    as (_ & _ & _ & Hfd & Hb). cbn in Hfd, Hb. apply Hkeep in Hrun as [= Hin Hlog].
  destruct b; [|destruct Hb as [Hb _]; unfold fd in Hpos; lia]. destruct Hb as (_ & _ & Hnew & _). done.
Qed.

(** What has been printed as messages of the server are exactly the complete
    lines received, whatever else was printed in between. *)
Lemma shell_run_shows n options (k0 : K) r s :
  let k := install_handlers k0 in
  let fd := (connect_to (opt_host options) (opt_port options) k).1.1 in
  is_display (Stdout (greeting options)) = false →
  run_client_shell n options (new_shell options k0) = Done (r, s) → (0 ≤ fd)%Z →
  displayed (sh_log s) = display ∘ chomp_cr <$> (lines_of (received (sh_kern s) fd)).1.
Proof.
  intros k fd Hgreet Hrun Hpos. unfold run_client_shell in Hrun. unfold bind at 1 in Hrun.
  change (sh_sys _ (new_shell options k0)) with (Done (tt, new_shell options k)) in Hrun. cbn [obind] in Hrun.
  assert (ensures (λ s0, s0 = new_shell options k) (shell_body n options) (shown fd)) as Hbody.
  { intros s0 a s1 Hb ->. unfold shell_body, bind, obind in Hb.
    destruct (on_client connect_to_server _) as [[b s2]| | |] eqn:Hc; try done.
    destruct (connect_shows options k b s2 Hc Hpos) as (-> & Hfd & Hin & Hnew & Hlog). cbn [negb] in Hb.
    refine (connected_session_shows fd n options _ a s1 Hb _). split; [done|].
    unfold shown. cbn. fold fd in Hnew. rewrite Hnew, Hlog. cbn [app]. split; [done|].
    change [?p] with ([] ++ [p]). by rewrite displayed_snoc, Hgreet. }
  assert (shown fd s) as Hs.
  { refine (ensures_bind _ _ _ _ _ Hbody _ _ _ _ Hrun eq_refl). intros [status|]; [|by apply ensures_ret].
    eapply ensures_bind; [apply disconnect_shows|]. intros _. by apply ensures_ret. }
  unfold shown in Hs. destruct (lines_of _). apply Hs.
Qed.

(** C33: the interactive client says what the user typed and shows what the
    server said.  Over any number of passes the shell returns from every call,
    and the bytes handed to the kernel for the connection are the initial
    commands followed by the typed non-empty lines up to and including QUIT,
    each once, in order and terminated (followed by a QUIT when the input ends
    first); with exit status 1 possibly only a prefix of this.  The lines it
    has printed as messages of the server are exactly the complete lines
    received on the connection, each once and in order, whenever they arrived
    between the user's own lines.  When it returns, the connection is closed
    and exactly the descriptors of before are open, whichever way it went
    out. *)
Theorem shell_says_and_shows n options (k0 : K) :
  let k := install_handlers k0 in
  typed k0 = [] → Forall (λ c, str_size c < 2 ^ 63)%Z (opt_initial_commands options) →
  is_display (Stdout (greeting options)) = false →
  ∃ r s, run_client_shell n options (new_shell options k0) = Done (r, s) ∧ shell_outcome options k r s
    ∧ let fd := (connect_to (opt_host options) (opt_port options) k).1.1 in
      (0 ≤ fd)%Z →
      displayed (sh_log s) = display ∘ chomp_cr <$> (lines_of (received (sh_kern s) fd)).1.
Proof.
  intros k Ht Hsize Hgreet. destruct (shell_run_spec n options k0 Ht Hsize) as (r & s & Hrun & Hout).
  exists r, s. split_and!; [done|done|]. by apply (shell_run_shows n options k0 r).
Qed.

End Display.

(** The greetings of the two clients are no messages of the server. *)
Lemma role_greets options :
  opt_role_name options ∈ [lit "Trader Client"; lit "Market-Data Client"] →
  is_display (Stdout (greeting options)) = false.
Proof. unfold greeting. intros [->|[->|[]%elem_of_nil]%elem_of_cons]%elem_of_cons; reflexivity. Qed.
