(* ===== verification/ClientScript.v ===== *)
(** * ClientScript: a scripted kernel with a terminal

    [TermScript] adds standard input to the scripted kernel of Kernel.v: a list
    of answers of read(2) and the bytes read so far.  It satisfies all laws the
    client's theorems rely on; the witnesses of ClientShell.v and
    ClientMain.v run on it. *)

From S2P Require Import Prelude CxxString Framing Kernel EventLoop SocketUtils Signals TcpClient ClientShell ShellDisplay.

Record TermScript : Type := mkTerm {
  ts_net : Script;
  ts_stdin : list recv_answer;
  ts_typed : bytes
}.

(** A call of the network part. *)
Definition on_net {A : Type} (f : Script → A * Script) (k : TermScript) : A * TermScript :=
  let '(a, n) := f (ts_net k) in (a, mkTerm n (ts_stdin k) (ts_typed k)).

Definition on_net_ (f : Script → Script) (k : TermScript) : TermScript :=
  mkTerm (f (ts_net k)) (ts_stdin k) (ts_typed k).

#[global] Instance term_kernel : Kernel TermScript := {
  sys_errno := λ k, sys_errno (ts_net k);
  sys_strerror := λ e, sys_strerror (K := Script) e;
  sys_send := λ fd data, on_net (sys_send fd data);
  sys_recv := λ fd cap, on_net (sys_recv fd cap);
  sys_accept := λ fd, on_net (sys_accept fd);
  sys_close := λ fd, on_net_ (sys_close fd);
  sys_shutdown := λ fd how, on_net_ (sys_shutdown fd how);
  sys_getfl := λ fd, on_net (sys_getfl fd);
  sys_setfl := λ fd flags, on_net (sys_setfl fd flags);
  sys_setsockopt := λ fd level opt v, on_net (sys_setsockopt fd level opt v);
  sys_getsockopt := λ fd level opt, on_net (sys_getsockopt fd level opt);
  sys_inet_ntop := λ a, sys_inet_ntop (K := Script) a;
  sys_clock_gettime := on_net sys_clock_gettime;
  sys_stopped := on_net sys_stopped;
  sys_poll := λ fds timeout, on_net (sys_poll fds timeout);
  sys_kqueue := on_net sys_kqueue;
  sys_kevent_change := λ kq cs, on_net (sys_kevent_change kq cs);
  sys_kevent_wait := λ kq cap ts, on_net (sys_kevent_wait kq cap ts);
  sys_work := λ k, sys_work (ts_net k)
}.

#[global] Instance term_view : KernelView TermScript := {
  open_fds := λ k, open_fds (ts_net k);
  sent := λ k, sent (ts_net k);
  received := λ k, received (ts_net k)
}.

#[global] Instance term_sockets : SocketCalls TermScript := {
  sys_socket := on_net sys_socket;
  sys_bind := λ fd addr, on_net (sys_bind fd addr);
  sys_listen := λ fd backlog, on_net (sys_listen fd backlog);
  sys_connect := λ fd addr, on_net (sys_connect fd addr);
  sys_inet_pton := sys_inet_pton (K := Script);
  sys_getaddrinfo := λ host, on_net (sys_getaddrinfo host);
  sys_gai_strerror := sys_gai_strerror (K := Script);
  sys_getpeername := λ fd, on_net (sys_getpeername fd);
  sys_getrlimit := on_net sys_getrlimit;
  sys_setrlimit := λ cur max, on_net (sys_setrlimit cur max)
}.

#[global] Instance term_signals : SignalCalls TermScript := λ _ _ k, k.

#[global] Instance term_stalls : Stalls TermScript := λ k, sys_stall (ts_net k).

Definition with_errno (e : errno) (k : Script) : Script :=
  mkScript e (sc_open k) (sc_traffic k) (sc_send k) (sc_recv k) (sc_accept k) (sc_poll k) (sc_kevents k)
    (sc_clock k) (sc_stop k) (sc_filters k).

(** Without further answers the input has ended. *)
#[global] Instance term_terminal : Terminal TermScript := λ _ cap k,
  match ts_stdin k with
  | [] => (0%Z, [], k)
  | RecvFail e :: l => ((-1)%Z, [], mkTerm (with_errno e (ts_net k)) l (ts_typed k))
  | RecvData buf :: l =>
      let buf := take (Z.to_nat cap) buf in
      if (str_size (ts_typed k ++ buf) <? 2 ^ 62)%Z
      then (str_size buf, buf, mkTerm (ts_net k) l (ts_typed k ++ buf))
      else (0%Z, [], mkTerm (ts_net k) l (ts_typed k))
  end.

#[global] Instance term_typed : TerminalView TermScript := ts_typed.

Lemma on_net_inv {A} (f : Script → A * Script) (k : TermScript) a k' :
  on_net f k = (a, k') → f (ts_net k) = (a, ts_net k') ∧ ts_typed k' = ts_typed k.
Proof. unfold on_net. destruct (f (ts_net k)) as [a' n]. by intros [= <- <-]. Qed.

Lemma quiet_net (k k' : TermScript) : quiet (ts_net k) (ts_net k') → quiet k k'.
Proof. done. Qed.

Lemma on_net_quiet {A} (f : Script → A * Script) (k : TermScript) :
  (∀ n, quiet n (f n).2) → quiet k (on_net f k).2.
Proof.
  intros Hf. specialize (Hf (ts_net k)). unfold on_net. destruct (f (ts_net k)) as [a n]. by apply quiet_net.
Qed.

#[global] Instance term_laws : KernelLaws TermScript.
Proof.
  split.
  - intros fd data k n k' [H _]%on_net_inv. apply (law_send _ _ _ _ _ H).
  - intros fd cap k n buf k' [H _]%on_net_inv. apply (law_recv _ _ _ _ _ _ H).
  - intros lfd k n addr k' [H _]%on_net_inv. apply (law_accept _ _ _ _ _ H).
  - intros fd k. apply (law_close fd (ts_net k)).
  - intros fd how k. apply quiet_net, law_shutdown.
  - intros fd k. apply on_net_quiet, law_getfl.
  - intros fd flags k. apply on_net_quiet, law_setfl.
  - intros fd level opt v k. apply on_net_quiet. intros n. apply law_setsockopt.
  - intros fd level opt k. apply on_net_quiet. intros n. apply law_getsockopt.
  - intros k. split; [apply on_net_quiet; intros n; apply law_clock_gettime|].
    cbn [sys_clock_gettime term_kernel]. unfold on_net. pose proof (law_clock_gettime (ts_net k)) as [_ H].
    destruct (sys_clock_gettime (ts_net k)) as [tv n]. exact H.
  - intros k. apply on_net_quiet, law_stopped.
  - intros kq cs k. apply on_net_quiet, law_kevent_change.
  - intros k n k' [H _]%on_net_inv. apply (law_kqueue _ _ _ H).
  - intros fds timeout k n revs k' [H _]%on_net_inv. apply (law_poll _ _ _ _ _ _ H).
  - intros kq cap ts k n evs k' [H _]%on_net_inv. apply (law_kevent_wait _ _ _ _ _ _ _ H).
Qed.

#[global] Instance term_socket_laws : SocketLaws TermScript.
Proof.
  split.
  - intros k n k' [H _]%on_net_inv. apply (law_socket _ _ _ H).
  - intros fd addr k. apply on_net_quiet, law_bind.
  - intros fd backlog k. apply on_net_quiet, law_listen.
  - intros fd addr k. apply on_net_quiet, law_connect.
  - intros host k. apply on_net_quiet, law_getaddrinfo.
  - intros k. apply on_net_quiet, law_getrlimit.
  - intros cur max k. apply on_net_quiet, law_setrlimit.
Qed.

#[global] Instance term_signal_laws : SignalLaws TermScript.
Proof. done. Qed.

#[global] Instance term_stall_laws : StallLaws TermScript.
Proof.
  split.
  - intros fd data k n k' [H _]%on_net_inv. apply (stall_send _ _ _ _ _ H).
  - intros fd data k n k' r revs k'' [H _]%on_net_inv Hn Hb [H' _]%on_net_inv.
    apply (stall_poll _ _ _ _ _ _ _ _ H Hn Hb H').
Qed.

Lemma on_net_typed {A} (f : Script → A * Script) (k : TermScript) : typed (on_net f k).2 = typed k.
Proof. unfold on_net. by destruct (f (ts_net k)). Qed.

#[global] Instance term_terminal_laws : TerminalLaws TermScript.
Proof.
  split; try (intros; apply on_net_typed || done).
  intros cap k n buf k'. unfold sys_read, term_terminal.
  destruct (ts_stdin k) as [|[b|e] l]; [intros [= <- <- <-]; split_and!; done || lia| |
    intros [= <- <- <-]; split_and!; done || lia].
  destruct (Z.ltb_spec (str_size (ts_typed k ++ take (Z.to_nat cap) b)) (2 ^ 62));
    intros [= <- <- <-]; (split_and!; try done; try lia).
  unfold str_size. intros Hn. assert (take (Z.to_nat cap) b = []) as -> by (apply length_zero_iff_nil; lia).
  by rewrite app_nil_r.
Qed.

(** A session: the server answers a login, the user types a command in two
    pieces, an empty line and QUIT, and a line that is never looked at. *)
Definition demo_options : ClientShellOptions :=
  mkOptions (lit "127.0.0.1") 5000 (lit "Trader Client") [lit "LOGIN alice"] (lit "help").

Definition demo_terminal : TermScript :=
  mkTerm
    (mkScript (EOTHER 0) {[0; 1; 2]}%Z ∅ [(3, SendUpTo 4); (3, SendFail EAGAIN)]%Z
       [(3, RecvData (lit "OK" ++ [LF] ++ lit "ORDER_ACC")); (3, RecvData (lit "EPTED 1" ++ [LF]))]%Z []
       [∅; {[3 := POLLIN; 0 := POLLIN]}; {[3 := POLLIN; 0 := POLLIN]}]%Z [] 0
       [false; false] ∅)
    [RecvData (lit "BUY JNST 5"); RecvData (lit " 100" ++ [CR; LF; LF] ++ lit "QUIT" ++ [LF] ++ lit "BUY")]
    [].

Lemma shell_says_and_shows_witness :
  ∃ r s, run_client_shell 4 demo_options (new_shell demo_options demo_terminal) = Done (r, s)
         ∧ shell_outcome demo_options demo_terminal r s
         ∧ displayed (sh_log s) = display ∘ chomp_cr <$> (lines_of (received (sh_kern s) 3)).1.
Proof.
  destruct (shell_says_and_shows 4 demo_options demo_terminal) as (r & s & Hrun & Hout & Hshow);
    [reflexivity|repeat constructor|reflexivity|].
  exists r, s. split; [exact Hrun|]. split; [exact Hout|]. apply Hshow. discriminate.
Defined.

(** What the session sent and printed. *)
Example demo_session :
  match run_client_shell 4 demo_options (new_shell demo_options demo_terminal) with
  | Done (Some 0%Z, s) =>
      bool_decide (sent (sh_kern s) 3
        = wire [lit "LOGIN alice"; lit "BUY JNST 5 100"; lit "QUIT"])
      && bool_decide (displayed (sh_log s) = [display (lit "OK"); display (lit "ORDER_ACCEPTED 1")])
  | _ => false
  end = true.
Proof. vm_compute. reflexivity. Qed.
