(* ===== verification/EndToEnd.v ===== *)
(** * EndToEnd: clients and server together

    The two ends of a connection: what a user types at the shell becomes the
    requests the exchange serves, and what the exchange says to the client is
    what the shell shows.  The network in between is assumed to
    deliver a prefix of the bytes in order, as TCP does: what one side has
    received is a prefix of what the other has sent. *)

From S2P Require Import Prelude CxxString Framing MessageParser OrderBook OrderBookSpec Kernel EventLoop.
From S2P Require Import SocketUtils Signals ClientSession TcpServer ExchangeServer ExchangeSpec ExchangeTrace.
From S2P Require Import ExchangeMessages ServerInv ServerOutput ServerProtocol ServerTrace ServerLoop.
From S2P Require Import ServerTheorems ServerHistory TcpClient ClientShell ShellDisplay ClientScript.

(** ** What the client sends *)

Section Client.
Context `{!Kernel K, !KernelView K, !KernelLaws K, !SocketCalls K, !SocketLaws K, !SignalCalls K, !SignalLaws K}.
Context `{!Stalls K, !StallLaws K, !Terminal K, !TerminalView K, !TerminalLaws K}.

(** All the commands a shell session can send. *)
Definition session_commands (options : ClientShellOptions) (sh : Shell K) : list bytes :=
  opt_initial_commands options ++ until_quit (typed_lines (typed (sh_kern sh))) ++ [lit "QUIT"].

(** The connection of a session that starts in kernel state [k]. *)
Definition session_fd (options : ClientShellOptions) (k : K) : Z :=
  (connect_to (opt_host options) (opt_port options) (install_handlers k)).1.1.

Lemma shell_sends options k r sh :
  shell_outcome options (install_handlers k) r sh → (0 ≤ session_fd options k)%Z →
  sent (sh_kern sh) (session_fd options k) `prefix_of` wire (session_commands options sh).
Proof.
  unfold session_fd, session_commands. set (fd := (connect_to _ _ _).1.1). intros Hout Hfd.
  set (base := wire (opt_initial_commands options)).
  rewrite !wire_app. fold base. change (wire [lit "QUIT"]) with (lit "QUIT" ++ [LF]).
  assert (said_all fd base sh ∨ cut_off fd base sh) as [(q & Hq & _ & ->)|Hcut].
  { destruct r as [status|].
    - destruct Hout as (_ & _ & [[Hneg _]|(_ & [[? _]|[? _]])]); [|by left|by right].
      fold fd in Hneg. lia.
    - destruct Hout as (_ & _ & [_ [[? _]|[? _]]]%shell_inv_end); [by left|by right]. }
  - apply prefix_app, prefix_app, Hq.
  - etrans; [exact Hcut|]. rewrite app_assoc. by apply prefix_app_r.
Qed.

Lemma until_quit_incl ls l : l ∈ until_quit ls → l ∈ ls.
Proof.
  induction ls as [|x ls IH]; cbn; [done|]. case_decide; set_solver.
Qed.

Lemma session_commands_lines options sh :
  Forall (λ l, LF ∉ l) (opt_initial_commands options) →
  Forall (λ l, LF ∉ l) (session_commands options sh).
Proof.
  intros Hinit. unfold session_commands. rewrite !Forall_app. split_and!; [done| |].
  - apply Forall_forall. intros l Hl%until_quit_incl. unfold typed_lines in Hl.
    apply list_elem_of_filter in Hl as [_ (raw & -> & Hraw)%list_elem_of_fmap].
    intros Hin%chomp_cr_incl. by apply (lines_of_no_LF _ _ Hraw).
  - apply Forall_singleton. by apply clean_LF, lit_clean.
Qed.

End Client.

(** ** What the client hears *)

Section Conversation.
Context `{!Kernel K, !KernelView K, !KernelLaws K}.
Context `{!EventLoopI K L, !EventLoopLaws K L} `{!HashOrder (Server L K), !HashOrderLaws (Server L K)}.
Context `{!Kernel C, !KernelView C, !KernelLaws C, !SocketCalls C, !SocketLaws C, !SignalCalls C, !SignalLaws C}.
Context `{!Stalls C, !StallLaws C, !Terminal C, !TerminalView C, !TerminalLaws C}.

Lemma requests_typed (s : Server L K) tr fd c options (k : C) n r sh :
  accounts_for tr s → sessions_ s !! fd = Some c → typed k = [] →
  Forall (λ l, (str_size l < 2 ^ 63)%Z ∧ LF ∉ l) (opt_initial_commands options) →
  run_client_shell n options (new_shell options k) = Done (r, sh) → (0 ≤ session_fd options k)%Z →
  received (kern s) fd `prefix_of` sent (sh_kern sh) (session_fd options k) →
  requests tr fd `prefix_of` (chomp_cr <$> session_commands options sh).
Proof.
  intros [_ Hall] Hfd Htyped Hinit Hrun Hpos Hnet.
  destruct (shell_run_spec n options k Htyped) as (r' & sh' & Hrun' & Hout).
  { eapply Forall_impl; [exact Hinit|]. by intros l [? _]. }
  rewrite Hrun in Hrun'. injection Hrun' as <- <-.
  destruct (Hall fd c Hfd) as (_ & Hreq & _). etrans; [exact Hreq|].
  assert ((lines_of (received (kern s) fd)).1 `prefix_of` session_commands options sh) as [rest ->].
  { apply lines_of_part.
    - apply session_commands_lines. eapply Forall_impl; [exact Hinit|]. by intros l [_ ?].
    - etrans; [exact Hnet|]. by apply (shell_sends options k r). }
  rewrite fmap_app. by apply prefix_app_r.
Qed.

(** A stream that delivers the beginning of some messages delivers the first of
    them. *)
Lemma delivered_messages (stream : bytes) ms :
  stream `prefix_of` wire (render <$> ms) → Forall valid_message ms →
  (chomp_cr <$> (lines_of stream).1) `prefix_of` (render <$> ms).
Proof.
  intros Hst Hms. assert (Forall clean (render <$> ms)) as Hclean.
  { apply Forall_fmap. eapply Forall_impl; [exact Hms|]. exact render_clean. }
  assert ((lines_of stream).1 `prefix_of` (render <$> ms)) as [rest Heq].
  { apply lines_of_part; [|done]. eapply Forall_impl; [exact Hclean|]. by intros l [? _]. }
  exists rest. rewrite Heq in Hclean |- *. apply Forall_app in Hclean as [Hclean _]. f_equal.
  symmetry. by apply chomp_clean_all.
Qed.

(** C2: the conversation of a user with the exchange, in any state the server
    reaches: there is a history of the exchange that accounts for the state,
    and for a client shell at the other end of a connection, (1) the requests
    in the history are, in order and without gaps, the first of the shell's
    initial commands and typed lines up to QUIT, as far as the network has
    delivered them; and (2) the messages of the server on the shell's screen
    are the first of the messages the exchange has addressed to this client,
    each complete and unaltered (up to a NUL byte, where printing stops),
    however the bytes were cut into pieces. *)
Theorem conversation (s0 s : Server L K) fd c :
  idle s0 → vacant s0 → rtc pass s0 s → sessions_ s !! fd = Some c →
  ∃ tr ms, accounts_for tr s ∧ output tr fd = wire (render <$> ms) ∧ Forall valid_message ms
    ∧ ∀ options (k : C) n r sh,
        typed k = [] → Forall (λ l, (str_size l < 2 ^ 63)%Z ∧ LF ∉ l) (opt_initial_commands options) →
        run_client_shell n options (new_shell options k) = Done (r, sh) →
        (0 ≤ session_fd options k)%Z →
        (received (kern s) fd `prefix_of` sent (sh_kern sh) (session_fd options k) →
         requests tr fd `prefix_of` (chomp_cr <$> session_commands options sh))
        ∧ (is_display (Stdout (greeting options)) = false →
           received (sh_kern sh) (session_fd options k) `prefix_of` sent (kern s) fd →
           displayed (sh_log sh) `prefix_of` (display ∘ render <$> ms)).
Proof.
  intros Hidle Hv Hr Hfd. destruct (reachable_accounted s0 s Hidle Hv Hr) as [tr Ha].
  pose proof Ha as [Hsteps Hall]. destruct (Hall fd c Hfd) as (Hout & _).
  destruct (steps_typed tr _ Hsteps) as [_ Ht]. destruct (Ht fd) as (ms & Hms & Hval & _).
  exists tr, ms. split_and!; [done..|]. intros options k n r sh Htyped Hinit Hrun Hpos.
  split; [by eapply requests_typed|]. intros Hgreet Hnet.
  rewrite (shell_run_shows n options k r sh Hgreet Hrun Hpos), !list_fmap_compose.
  destruct (delivered_messages (received (sh_kern sh) (session_fd options k)) ms) as [rest Hrest]; [|done|].
  - etrans; [exact Hnet|]. rewrite <-Hms, <-Hout. by apply prefix_app_r.
  - rewrite Hrest, fmap_app. by apply prefix_app_r.
Qed.

End Conversation.

(** ** Witness

    Client 5 of the demonstration is a shell with two initial commands; of
    the replies the network has delivered the first and a part of the second. *)

#[local] Existing Instances demo_platform demo_order demo_order_laws.

Definition bob_options : ClientShellOptions :=
  mkOptions (lit "127.0.0.1") 5000 (lit "Trader Client") [lit "LOGIN bob"; lit "SELL JNST 7 10"] [].

Definition bob_terminal : TermScript :=
  mkTerm (mkScript (EOTHER 0) {[0; 1; 2]}%Z ∅ []
    [(3, RecvData (lit "O")); (3, RecvData (lit "K" ++ [LF] ++ lit "ORDER_ACC"))]%Z []
    [{[3 := POLLIN]}; {[3 := POLLIN]}]%Z [] 0 [false; false; true] ∅) [] [].

Definition bob_shell : outcome (option Z * Shell TermScript) :=
  run_client_shell 3 bob_options (new_shell bob_options bob_terminal).

Lemma conversation_witness :
  ∃ tr ms, accounts_for tr demo_trading ∧ output tr 5 = wire (render <$> ms)
    ∧ requests tr 5 `prefix_of` [lit "LOGIN bob"; lit "SELL JNST 7 10"; lit "QUIT"]
    ∧ [display (lit "OK")] `prefix_of` (display ∘ render <$> ms).
Proof.
  destruct (conversation (C := TermScript) demo_server demo_trading 5 (session_of demo_trading 5)
    demo_idle demo_vacant demo_passes) as (tr & ms & Ha & Hout & _ & Htalk).
  { apply session_of_some. vm_compute. reflexivity. }
  exists tr, ms. split; [exact Ha|]. split; [exact Hout|].
  destruct bob_shell as [[r sh]| | |] eqn:Hrun;
    try (exfalso; assert (match bob_shell with Done _ => true | _ => false end = true) as H
           by (vm_compute; reflexivity); rewrite Hrun in H; discriminate H).
  set (fd := session_fd bob_options bob_terminal).
  assert (match bob_shell with Done (_, sh) =>
      bool_decide (typed (sh_kern sh) = [])
      && bool_decide (received (kern demo_trading) 5 = sent (sh_kern sh) fd)
      && bool_decide (received (sh_kern sh) fd `prefix_of` sent (kern demo_trading) 5)
      && bool_decide (displayed (sh_log sh) = [display (lit "OK")])
    | _ => false end = true) as H by (vm_compute; reflexivity).
  rewrite Hrun in H. rewrite !andb_true_iff, !bool_decide_eq_true in H. destruct H as [[[Ht Hup] Hdown] Hshow].
  destruct (Htalk bob_options bob_terminal 3 r sh eq_refl) as [Hsent Hheard].
  - apply (bool_decide_unpack _). vm_compute. exact I.
  - exact Hrun.
  - vm_compute. discriminate.
  - unfold session_commands in Hsent. rewrite Ht in Hsent. split.
    + apply Hsent. fold fd. rewrite Hup. reflexivity.
    + rewrite <-Hshow. apply Hheard; [reflexivity|exact Hdown].
Defined.
