(* ===== verification/ClientMain.v ===== *)
(** * ClientMain: the two client programs (src/trader_client.cpp,
    src/market_data_client.cpp)

    Each [main] turns its arguments into the options of the client shell, or
    exits with status 2, and runs the shell.  The theorems say which options
    the arguments give, and that what a client sends on its own right after
    connecting is accepted by the server's parser. *)

From S2P Require Import Prelude CxxString Framing MessageParser Kernel SocketUtils Signals TcpClient ClientShell.
From S2P Require Import ClientScript.

Definition valid_port (port : Z) : bool := negb ((port <=? 0)%Z || (65535 <? port)%Z).

Definition invalid_port (program text : bytes) : printed :=
  Stderr (program ++ lit ": invalid port '" ++ text ++ lit "'" ++ [LF]).

(** Running the shell, or not. *)
Definition run_options `{!Kernel K, !SocketCalls K, !SignalCalls K, !Stalls K, !Terminal K} (n : nat)
    (choice : (Z + ClientShellOptions) * list printed) (k : K) : outcome (option Z * list printed * K) :=
  match choice with
  | (inl status, out) => Done (Some status, out, k)
  | (inr options, _) =>
      obind (run_client_shell n options (new_shell options k))
        (λ '(r, s), Done (r, sh_log s, sh_kern s))
  end.

Module Trader.

Definition trader_usage (program : bytes) : printed :=
  Stderr (lit "usage: " ++ program ++ lit " [host] [port] [username]" ++ [LF] ++ [LF]
    ++ lit "  host, port   Exchange Server address (default 127.0.0.1 5000)" ++ [LF]
    ++ lit "  username     if given, LOGIN <username> is sent on connect" ++ [LF]).

Definition trader_help_text : bytes :=
  lit "Commands: LOGIN <username> | BUY <instrument> <qty> <price> | SELL <instrument> <qty> <price> | CANCEL <order_id> | QUIT"
  ++ [LF] ++ lit "Instruments: JNST, IMCT.  Lines you type are sent as-is; server messages are printed with '<<<'.".

(** [args] is [argv + 1]. *)
Definition trader_options (program : bytes) (args : list bytes) : (Z + ClientShellOptions) * list printed :=
  if (4 <? 1 + Z.of_nat (length args))%Z then (inl 2%Z, [trader_usage program])
  else
    let options host port commands := mkOptions host port (lit "Trader Client") commands trader_help_text in
    match args with
    | [] => (inr (options (lit "127.0.0.1") 5000%Z []), [])
    | [host] => (inr (options host 5000%Z []), [])
    | host :: text :: rest =>
        let port := atoi text in
        if negb (valid_port port) then (inl 2%Z, [invalid_port (lit "trader_client") text])
        else
          match rest with
          | [] => (inr (options host port []), [])
          | username :: _ => (inr (options host port [lit "LOGIN " ++ username]), [])
          end
    end.

Definition trader_main `{!Kernel K, !SocketCalls K, !SignalCalls K, !Stalls K, !Terminal K} (n : nat) (program : bytes)
    (args : list bytes) : K → outcome (option Z * list printed * K) :=
  run_options n (trader_options program args).

Lemma trader_options_spec program args :
  let port := match args !! 1%nat with None => 5000%Z | Some t => atoi t end in
  (trader_options program args).1
  = if decide (length args ≤ 3 ∧ (1 ≤ port ≤ 65535)%Z)
    then inr (mkOptions (default (lit "127.0.0.1") (args !! 0%nat)) port (lit "Trader Client")
                (match args !! 2%nat with None => [] | Some u => [lit "LOGIN " ++ u] end) trader_help_text)
    else inl 2%Z.
Proof.
  intros port.
  unfold trader_options, valid_port. destruct args as [|host [|text [|u [|x rest]]]]; cbn in port |- *.
  - by rewrite decide_True by (unfold port; lia).
  - by rewrite decide_True by (unfold port; lia).
  - fold port. destruct (Z.leb_spec port 0), (Z.ltb_spec 65535 port); cbn [orb negb fst];
      [by rewrite decide_False by lia..|by rewrite decide_True by lia].
  - fold port. destruct (Z.leb_spec port 0), (Z.ltb_spec 65535 port); cbn [orb negb fst];
      [by rewrite decide_False by lia..|by rewrite decide_True by lia].
  - rewrite (proj2 (Z.ltb_lt 4 _)) by lia. by rewrite decide_False by lia.
Qed.

End Trader.

Module MarketData.

Definition market_data_usage (program : bytes) : printed :=
  Stderr (lit "usage: " ++ program ++ lit " [host] [port] [instrument ...]" ++ [LF] ++ [LF]
    ++ lit "  host, port   Exchange Server address (default 127.0.0.1 5000)" ++ [LF]
    ++ lit "  instrument   one or more of JNST, IMCT; each is subscribed to on connect" ++ [LF]).

Definition market_data_help_text : bytes :=
  lit "Commands: SUBSCRIBE <instrument> | UNSUBSCRIBE <instrument> | QUIT" ++ [LF]
  ++ lit "Instruments: JNST, IMCT.  TRADE updates arrive on their own; server messages are printed with '<<<'.".

Definition unknown_instrument (text : bytes) : printed :=
  Stderr (lit "market_data_client: unknown instrument '" ++ text ++ lit "'" ++ [LF]).

(** The loop over the instruments; [inl] is the first one that is unknown. *)
Fixpoint subscriptions (commands : list bytes) (instruments : list bytes) : bytes + list bytes :=
  match instruments with
  | [] => inr commands
  | i :: instruments =>
      if negb (is_valid_instrument i) then inl i
      else subscriptions (commands ++ [lit "SUBSCRIBE " ++ i]) instruments
  end.

Definition market_data_options (program : bytes) (args : list bytes) : (Z + ClientShellOptions) * list printed :=
  let options host port commands := mkOptions host port (lit "Market-Data Client") commands market_data_help_text in
  match args with
  | [] => (inr (options (lit "127.0.0.1") 5000%Z []), [])
  | [host] => (inr (options host 5000%Z []), [])
  | host :: text :: instruments =>
      let port := atoi text in
      if negb (valid_port port) then (inl 2%Z, [invalid_port (lit "market_data_client") text])
      else
        match subscriptions [] instruments with
        | inl i => (inl 2%Z, [unknown_instrument i; market_data_usage program])
        | inr commands => (inr (options host port commands), [])
        end
  end.

Definition market_data_main `{!Kernel K, !SocketCalls K, !SignalCalls K, !Stalls K, !Terminal K} (n : nat) (program : bytes)
    (args : list bytes) : K → outcome (option Z * list printed * K) :=
  run_options n (market_data_options program args).

Lemma subscriptions_spec commands instruments :
  subscriptions commands instruments
  = match find (λ i, negb (is_valid_instrument i)) instruments with
    | Some i => inl i
    | None => inr (commands ++ ((λ i, lit "SUBSCRIBE " ++ i) <$> instruments))
    end.
Proof.
  revert commands. induction instruments as [|i ins IH]; intros commands; cbn [subscriptions find].
  { by rewrite app_nil_r. }
  destruct (negb (is_valid_instrument i)); [done|]. rewrite IH. destruct (find _ ins); [done|].
  by rewrite fmap_cons, <-app_assoc.
Qed.

Lemma market_data_options_spec program args :
  let port := match args !! 1%nat with None => 5000%Z | Some t => atoi t end in
  let instruments := drop 2 args in
  (market_data_options program args).1
  = if decide ((1 ≤ port ≤ 65535)%Z ∧ Forall (λ i, is_valid_instrument i = true) instruments)
    then inr (mkOptions (default (lit "127.0.0.1") (args !! 0%nat)) port (lit "Market-Data Client")
                ((λ i, lit "SUBSCRIBE " ++ i) <$> instruments) market_data_help_text)
    else inl 2%Z.
Proof.
  intros port instruments.
  unfold market_data_options, valid_port. destruct args as [|host [|text ins]]; cbn in port, instruments |- *.
  - rewrite decide_True; [done|]. split; [unfold port; lia|constructor].
  - rewrite decide_True; [done|]. split; [unfold port; lia|constructor].
  - fold port. unfold instruments. rewrite drop_0, subscriptions_spec.
    destruct (Z.leb_spec port 0), (Z.ltb_spec 65535 port); cbn [orb negb fst];
      [rewrite decide_False by lia; done..|].
    destruct (find _ ins) as [i|] eqn:Hf; cbn [fst].
    + apply List.find_some in Hf as [Hin Hbad]. rewrite decide_False; [done|]. intros [_ Hall].
      rewrite List.Forall_forall in Hall. specialize (Hall i Hin). apply negb_true_iff in Hbad. exact (eq_true_false_abs _ Hall Hbad).
    + rewrite decide_True; [done|]. split; [lia|]. apply List.Forall_forall. intros i Hin.
      apply (List.find_none _ _ Hf) in Hin. by apply negb_false_iff.
Qed.

End MarketData.

(** ** What the server makes of the commands sent on connecting *)

(** The lines the server cuts out of the commands a client sends, parsed. *)
Definition server_reads (commands : list bytes) : list ParsedCommand :=
  parse <$> (chomp_cr <$> (lines_of (wire commands)).1).

Lemma server_reads_lines commands :
  Forall (λ l, LF ∉ l) commands → server_reads commands = parse <$> (chomp_cr <$> commands).
Proof.
  intros Hc. unfold server_reads. rewrite <-(app_nil_r (wire commands)). rewrite lines_of_messages; [done|done|set_solver].
Qed.

Lemma tokens_of_chomp l : tokens_of (chomp_cr l) = tokens_of l.
Proof.
  unfold chomp_cr. destruct (list.last l) as [c|] eqn:Hl; [|done]. case_decide; [|done].
  apply last_Some in Hl as [l' ->]. rewrite removelast_last. subst c. by rewrite tokens_of_trailing.
Qed.

(** LOGIN with any text: the server takes it iff the text is one word of at
    most 64 bytes, white space around it ignored. *)
Lemma login_line u :
  let cmd := parse (chomp_cr (lit "LOGIN " ++ u)) in
  (∀ w, tokens_of u = [w] → length w ≤ 64 → cmd = command_of (RLogin w) [w])
  ∧ (cmd_valid cmd = true → ∃ w, tokens_of u = [w] ∧ length w ≤ 64).
Proof.
  intros cmd.
  assert (tokens_of (chomp_cr (lit "LOGIN " ++ u)) = lit "LOGIN" :: tokens_of u) as Ht.
  { rewrite tokens_of_chomp, tokens_of_unfold.
    change (lit "LOGIN " ++ u) with ([] ++ lit "LOGIN" ++ " "%char :: u).
    rewrite extract_token; [by rewrite tokens_of_space|constructor| |right; eauto].
    apply (bool_decide_unpack _). vm_compute. exact I. }
  split.
  - intros w Hw Hlen. unfold cmd. rewrite (parse_accepts _ (RLogin w)); rewrite Ht, Hw; [done|by constructor].
  - intros (req & Hacc)%parse_valid_accepts. rewrite Ht in Hacc. inversion Hacc as [w Hw| | | | | |]. eauto.
Qed.

Lemma subscribe_lines instruments :
  Forall (λ i, is_valid_instrument i = true) instruments →
  server_reads ((λ i, lit "SUBSCRIBE " ++ i) <$> instruments)
  = (λ i, command_of (RSubscription SUBSCRIBE i) [i]) <$> instruments.
Proof.
  intros Hall. assert (Forall clean ((λ i, lit "SUBSCRIBE " ++ i) <$> instruments)) as Hc.
  { apply Forall_fmap. eapply Forall_impl; [exact Hall|]. intros i Hi%is_valid_instrument_spec. cbn. auto with clean. }
  rewrite server_reads_lines by (eapply Forall_impl; [exact Hc|]; by intros ? [? _]).
  rewrite chomp_clean_all by done. rewrite <-list_fmap_compose. clear Hc.
  induction Hall as [|i ins Hi%is_valid_instrument_spec Hall IH]; [done|]. cbn. f_equal; [|exact IH].
  exact (parse_canonical (RSubscription SUBSCRIBE i) (conj (or_introl eq_refl) Hi)).
Qed.

(** C38: the command lines of the two clients.  Each connects when its port,
    if given, is from 1 to 65535, the trader has at most three arguments, and
    every further argument of the market-data client is an instrument of the
    exchange (else the exit status is 2).  On its own the market-data client
    sends one SUBSCRIBE per instrument, in order, and the server takes each as
    that subscription.  The trader sends LOGIN with its third argument, if
    given, which it does not check: the server takes the line as the login of
    a user iff the argument is, but for white space around it, one word of at
    most 64 bytes, and then of the user of that name; any other argument
    without an end of line makes a line that the server refuses. *)
Theorem client_options_correct program args :
  let host := default (lit "127.0.0.1") (args !! 0%nat) in
  let port := match args !! 1%nat with None => 5000%Z | Some t => atoi t end in
  let port_ok := (1 ≤ port ≤ 65535)%Z in
  let instruments := drop 2 args in
  (Trader.trader_options program args).1
    = (if decide (length args ≤ 3 ∧ port_ok)
       then inr (mkOptions host port (lit "Trader Client")
                   (match args !! 2%nat with None => [] | Some u => [lit "LOGIN " ++ u] end)
                   Trader.trader_help_text)
       else inl 2%Z)
  ∧ (MarketData.market_data_options program args).1
    = (if decide (port_ok ∧ Forall (λ i, is_valid_instrument i = true) instruments)
       then inr (mkOptions host port (lit "Market-Data Client")
                   ((λ i, lit "SUBSCRIBE " ++ i) <$> instruments) MarketData.market_data_help_text)
       else inl 2%Z)
  ∧ (∀ o, (Trader.trader_options program args).1 = inr o →
     match args !! 2%nat with
     | None => server_reads (opt_initial_commands o) = []
     | Some u => LF ∉ u →
         ∃ cmd, server_reads (opt_initial_commands o) = [cmd]
           ∧ (∀ w, tokens_of u = [w] → length w ≤ 64 → cmd = command_of (RLogin w) [w])
           ∧ (cmd_valid cmd = true → ∃ w, tokens_of u = [w] ∧ length w ≤ 64)
     end)
  ∧ (∀ o, (MarketData.market_data_options program args).1 = inr o →
     server_reads (opt_initial_commands o)
     = (λ i, command_of (RSubscription SUBSCRIBE i) [i]) <$> instruments).
Proof.
  intros host port port_ok instruments.
  pose proof (Trader.trader_options_spec program args) as Ht. cbv zeta in Ht. fold port port_ok in Ht.
  pose proof (MarketData.market_data_options_spec program args) as Hm. cbv zeta in Hm. fold port port_ok instruments in Hm.
  split_and!; [exact Ht|exact Hm|..]; intros o.
  - rewrite Ht. clear Ht Hm. case_decide; intros [= <-]. cbn [opt_initial_commands].
    destruct (args !! 2%nat) as [u|]; [|done]. intros Hu. exists (parse (chomp_cr (lit "LOGIN " ++ u))).
    rewrite server_reads_lines; [split; [done|apply login_line]|].
    apply Forall_singleton. change (LF ∉ lit "LOGIN " ++ u). apply not_elem_of_app. auto with clean.
  - rewrite Hm. clear Ht Hm. case_decide as Hd; intros [= <-]. apply subscribe_lines, Hd.
Qed.

(** A market-data client that subscribes to both instruments and quits. *)
Example market_data_session :
  match MarketData.market_data_main 2 (lit "market_data_client")
          [lit "127.0.0.1"; lit "5000"; lit "JNST"; lit "IMCT"]
          (mkTerm (mkScript (EOTHER 0) {[0; 1; 2]}%Z ∅ [] [] [] [{[0 := POLLIN]}]%Z [] 0 [false] ∅) [] []) with
  | Done (r, _, k) =>
      bool_decide (r = Some 0%Z)
      && bool_decide (sent k 3 = wire [lit "SUBSCRIBE JNST"; lit "SUBSCRIBE IMCT"; lit "QUIT"])
  | _ => false
  end = true.
Proof. vm_compute. reflexivity. Qed.
