(* ===== verification/ConnGen.v ===== *)
(** * ConnGen: the connection generator (src/tools/conn_gen.cpp)

    Decodes its command line, opens a number of idle connections, from given
    source addresses in turn if there are any, retrying while the failure is
    transient; reports; holds the connections; closes them.  The theorem:
    from the command line to its end, whatever the kernel and the allocator
    answer, the generator opens at most as many connections as asked for,
    retries each at most 200 times, and closes exactly the descriptors it
    opened.  Printed lines with floating-point numbers are kept as the numbers
    they show. *)

From Stdlib Require Import QArith.QArith_base.
From S2P Require Import Prelude CxxString Kernel EventLoop SocketUtils Signals.

(** [struct timeval]: seconds and microseconds.  A [double] made of one is
    represented by the whole number of microseconds. *)
Definition timeval : Type := Z * Z.
Definition in_microseconds (tv : timeval) : Z := tv.1 * 1000000 + tv.2.

(** [struct rusage], as far as it is read. *)
Record Rusage : Type := mkRusage { ru_maxrss : Z; ru_utime : timeval; ru_stime : timeval }.

(** The clock, sleeping, the process's own usage and number, and whether the
    allocator finds room for a given number of elements. *)
Class GenCalls (K : Type) : Type := {
  sys_gettimeofday : K → timeval * K;
  sys_nanosleep : Z → K → K;
  sys_getrusage : K → (Z * Rusage) * K;
  sys_getpid : K → Z;
  sys_reserve : Z → K → bool * K
}.

Class GenLaws (K : Type) `{!Kernel K, !KernelView K, !SocketCalls K, !GenCalls K} : Prop := {
  law_gettimeofday k : quiet k (sys_gettimeofday k).2;
  law_getrusage k : quiet k (sys_getrusage k).2;
  law_reserve n k : quiet k (sys_reserve n k).2;
  (* while the generator sleeps the environment may do something *)
  law_nanosleep ns k :
    open_fds (sys_nanosleep ns k) = open_fds k ∧ ∀ fd, sent (sys_nanosleep ns k) fd = sent k fd
}.

Definition now_seconds {K} `{!GenCalls K} (k : K) : Z * K :=
  let '(tv, k) := sys_gettimeofday k in (in_microseconds tv, k).

Definition gen_usage (program : bytes) : bytes :=
  lit "usage: " ++ program ++ lit " <host> <port> <count> [options]" ++ [LF] ++ [LF]
  ++ lit "  --report-every N   progress line every N connections (default 5000)" ++ [LF]
  ++ lit "  --src-ips LIST     comma-separated local addresses to bind round-robin." ++ [LF]
  ++ lit "                     Each source address has its own ephemeral port" ++ [LF]
  ++ lit "                     range, which is how you get past ~65k connections" ++ [LF]
  ++ lit "                     to a single server address and port. Create the" ++ [LF]
  ++ lit "                     extra addresses first, e.g." ++ [LF]
  ++ lit "                       ifconfig lo0 alias 127.0.0.2/8" ++ [LF]
  ++ lit "  --hold             keep the connections open until interrupted (default)" ++ [LF]
  ++ lit "  --no-hold          exit as soon as the target count is reached" ++ [LF]
  ++ lit "  --hold-seconds N   hold for N seconds, then close and exit. Use this in" ++ [LF]
  ++ lit "                     scripts: it guarantees the connections are released" ++ [LF]
  ++ lit "                     even if the controlling script dies, which matters" ++ [LF]
  ++ lit "                     because enough held connections can exhaust the system" ++ [LF]
  ++ lit "                     file table and leave the machine unable to fork at all." ++ [LF].

Definition comma : ascii := ",".

(** [start] is the part of the text that is left. *)
Fixpoint split_commas_loop (fuel : nat) (start : bytes) (parts : list bytes) : outcome (list bytes) :=
  match fuel with
  | O => OutOfFuel
  | S fuel =>
      match find_char comma start with
      | None => Done (parts ++ [start])
      | Some n => split_commas_loop fuel (drop (S n) start) (parts ++ [take n start])
      end
  end.

Definition split_commas (text : bytes) : outcome (list bytes) := split_commas_loop (S (length text)) text [].

Definition is_transient (e : errno) : bool :=
  bool_decide (e = ECONNRESET) || bool_decide (e = ECONNREFUSED) || bool_decide (e = ETIMEDOUT)
  || bool_decide (e = EINTR) || bool_decide (e = EAGAIN) || bool_decide (e = EWOULDBLOCK).

(** What the generator prints. *)
Inductive line : Type :=
| Usage (text : bytes)
| Target (target : Z) (host : bytes) (port fd_limit : Z)
| LimitWarning
| Report (established : nat) (elapsed : Z) (rate : Q) (fd_limit : Z)
| NotNumeric
| Stopped (established : nat) (connection : Z) (error : bytes)
| Retries (n : Z)
| OwnUsage (max_rss user system : Z)
| Pid (pid : Z)
| Holding (seconds : Z)
| Closing (n : nat).

Record Gen (K : Type) : Type := mkGen {
  g_connections : list Z;
  g_error : bytes;
  g_retries : Z;
  g_kern : K;
  g_log : list line
}.

Arguments mkGen {K}.
Arguments g_connections {K} _.
Arguments g_error {K} _.
Arguments g_retries {K} _.
Arguments g_kern {K} _.
Arguments g_log {K} _.

Record GenOptions : Type := mkGenOptions {
  o_host : bytes;
  o_port : Z;
  o_target : Z;
  o_report_every : Z;
  o_hold : bool;
  o_hold_seconds : Z;
  o_sources : list bytes
}.

(** ** Command line *)

Definition set_report (v : Z) (o : GenOptions) : GenOptions :=
  mkGenOptions (o_host o) (o_port o) (o_target o) v (o_hold o) (o_hold_seconds o) (o_sources o).
Definition set_hold (h : bool) (n : Z) (o : GenOptions) : GenOptions :=
  mkGenOptions (o_host o) (o_port o) (o_target o) (o_report_every o) h n (o_sources o).
Definition set_sources (l : list bytes) (o : GenOptions) : GenOptions :=
  mkGenOptions (o_host o) (o_port o) (o_target o) (o_report_every o) (o_hold o) (o_hold_seconds o) l.

(** The loop over the options; [None] for a wrong one. *)
Fixpoint gen_args (o : GenOptions) (args : list bytes) : outcome (option GenOptions) :=
  match args with
  | [] => Done (Some o)
  | arg :: args =>
      if bool_decide (arg = lit "--report-every") && negb (bool_decide (args = [])) then
        match args with
        | v :: args' =>
            let n := strtol v in gen_args (set_report (if (n <=? 0)%Z then 5000 else n) o) args'
        | [] => Done None
        end
      else if bool_decide (arg = lit "--src-ips") && negb (bool_decide (args = [])) then
        match args with
        | v :: args' => obind (split_commas v) (λ l, gen_args (set_sources l o) args')
        | [] => Done None
        end
      else if bool_decide (arg = lit "--hold") then gen_args (set_hold true (o_hold_seconds o) o) args
      else if bool_decide (arg = lit "--no-hold") then gen_args (set_hold false (o_hold_seconds o) o) args
      else if bool_decide (arg = lit "--hold-seconds") && negb (bool_decide (args = [])) then
        match args with
        | v :: args' => gen_args (set_hold true (strtol v) o) args'
        | [] => Done None
        end
      else Done None
  end.

(** [args] is [argv + 1]. *)
Definition gen_options (args : list bytes) : outcome (option GenOptions) :=
  match args with
  | host :: port :: target :: args =>
      let port := atoi port in
      let target := strtol target in
      if (port <=? 0)%Z || (65535 <? port)%Z || (target <=? 0)%Z then Done None
      else gen_args (mkGenOptions host port target 5000 true (-1) []) args
  | _ => Done None
  end.

Section Generator.
Context {K : Type}.

Definition gset_connections (l : list Z) (s : Gen K) : Gen K :=
  mkGen l (g_error s) (g_retries s) (g_kern s) (g_log s).
Definition gset_error (e : bytes) (s : Gen K) : Gen K :=
  mkGen (g_connections s) e (g_retries s) (g_kern s) (g_log s).
Definition gset_retries (n : Z) (s : Gen K) : Gen K :=
  mkGen (g_connections s) (g_error s) n (g_kern s) (g_log s).
Definition gset_kern (k : K) (s : Gen K) : Gen K :=
  mkGen (g_connections s) (g_error s) (g_retries s) k (g_log s).
Definition gprint (l : line) (s : Gen K) : Gen K :=
  mkGen (g_connections s) (g_error s) (g_retries s) (g_kern s) (g_log s ++ [l]).

Abbreviation GM := (M (Gen K)).

Definition gsys {A : Type} (f : K → A * K) : GM A :=
  λ s, let '(a, k) := f (g_kern s) in Done (a, gset_kern k s).

Definition say (l : line) : GM unit := modify (gprint l).

Context `{!Kernel K, !SocketCalls K, !SignalCalls K, !GenCalls K}.

Definition gerrno : GM errno := gets (λ s, sys_errno (g_kern s)).

Definition bind_source (fd : Z) (address : bytes) (k : K) : bool * K :=
  match sys_inet_pton (c_str address) with
  | None => (false, k)
  | Some a => let '(rc, k) := sys_bind fd (mkSockaddr a 0) k in ((rc =? 0)%Z, k)
  end.

(** One attempt without a source address: the descriptor and [last_errno]. *)
Definition attempt_plain (o : GenOptions) : GM (Z * errno) :=
  let* r := gsys (connect_to (o_host o) (o_port o)) in
  match r.2 with Some e => modify (gset_error e) | None => ret tt end ;;;
  let* e := gerrno in
  ret (r.1, e).

(** One attempt from a source address.  [last_errno] is only read when the
    descriptor is negative. *)
Definition attempt_from (o : GenOptions) (remote : Z) : GM (Z * errno) :=
  let* fd := gsys sys_socket in
  if (0 <=? fd)%Z then
    let* n := gets (λ s, length (g_connections s)) in
    let source := default [] (o_sources o !! (n `mod` length (o_sources o))%nat) in
    let* bound := gsys (bind_source fd source) in
    let* rc := if negb bound then ret (-1)%Z
               else gsys (sys_connect fd (mkSockaddr remote (htons (o_port o)))) in
    let* e := gerrno in
    if (rc <? 0)%Z then
      modify (gset_error (lit "bind()/connect() from " ++ source ++ lit " failed: " ++ sys_strerror e)) ;;;
      gsys (λ k, (tt, sys_close fd k)) ;;;
      ret ((-1)%Z, e)
    else ret (fd, e)
  else
    let* e := gerrno in
    modify (gset_error (lit "socket() failed: " ++ sys_strerror e)) ;;;
    ret (fd, e).

(** [None] leaves [main] with status 2. *)
Definition attempt (o : GenOptions) : GM (option (Z * errno)) :=
  match o_sources o with
  | [] => let* r := attempt_plain o in ret (Some r)
  | _ =>
      match sys_inet_pton (c_str (o_host o)) with
      | None => say NotNumeric ;;; ret None
      | Some remote => let* r := attempt_from o remote in ret (Some r)
      end
  end.

(** [++retries] on a [long] *)
Definition count_retry : GM unit :=
  λ s, if (LONG_MAX <=? g_retries s)%Z then Overflow else Done (tt, gset_retries (g_retries s + 1) s).

(** How opening one connection went. *)
Inductive opening : Type := Opened (fd : Z) | GiveUp | Abort2.

(** From the label [retry], with [fuel] attempts left. *)
Fixpoint open_one (fuel : nat) (o : GenOptions) (tries : Z) : GM opening :=
  match fuel with
  | O => out_of_fuel
  | S fuel =>
      let* r := attempt o in
      match r with
      | None => ret Abort2
      | Some (fd, last_errno) =>
          if (fd <? 0)%Z then
            (* && evaluates the stop flag last *)
            let* again := if is_transient last_errno && (tries <? 200)%Z
                          then let* stop := gsys sys_stopped in ret (negb stop) else ret false in
            if (again : bool) then
              count_retry ;;;
              gsys (λ k, (tt, sys_nanosleep 2000000 k)) ;;;
              open_one fuel o (tries + 1)
            else ret GiveUp
          else ret (Opened fd)
      end
  end.

Definition report (established : nat) (elapsed fd_limit : Z) : GM unit :=
  let rate := if (0 <? elapsed)%Z then Qmake (Z.of_nat established * 1000000) (Z.to_pos elapsed) else 0%Q in
  say (Report established elapsed rate fd_limit).

(** [report(connections.size(), now_seconds() - started, fd_limit)] *)
Definition report_progress (started fd_limit : Z) : GM unit :=
  let* n := gets (λ s, length (g_connections s)) in
  let* now := gsys now_seconds in
  report n (now - started) fd_limit.

(** The loop over the connections, [left] of which are still to be opened;
    [false] leaves [main] with status 2. *)
Fixpoint open_all (left : nat) (o : GenOptions) (started fd_limit : Z) : GM bool :=
  match left with
  | O => ret true
  | S left' =>
      let* stop := gsys sys_stopped in
      if (stop : bool) then ret true
      else
        let* r := open_one 201 o 0 in
        match r with
        | Abort2 => ret false
        | GiveUp =>
            let* s := get in
            say (Stopped (length (g_connections s)) (o_target o - Z.of_nat left' ) (g_error s)) ;;;
            ret true
        | Opened fd =>
            modify (λ s, gset_connections (g_connections s ++ [fd]) s) ;;;
            let* n := gets (λ s, Z.of_nat (length (g_connections s))) in
            when (n `mod` o_report_every o =? 0)%Z (report_progress started fd_limit) ;;;
            open_all left' o started fd_limit
        end
  end.

(** [n] passes of the loop that holds the connections; [true] if it goes on. *)
Fixpoint hold_loop (n : nat) (o : GenOptions) (hold_until : Z) : GM bool :=
  match n with
  | O => ret true
  | S n =>
      if negb (o_hold o) then ret false
      else
        let* stop := gsys sys_stopped in
        if (stop : bool) then ret false
        else
          let* over := if (0 <=? o_hold_seconds o)%Z
                       then let* now := gsys now_seconds in ret (hold_until <=? now)%Z
                       else ret false in
          if (over : bool) then ret false
          else gsys (λ k, (tt, sys_nanosleep 1000000000 k)) ;;; hold_loop n o hold_until
  end.

(** How [main] ends: with a status; still holding the connections after the
    passes that are looked at; or through an exception that nobody catches. *)
Inductive ending : Type := Exits (status : Z) | Holds | Terminates.

(** The report before the connections are held. *)
Definition summarise (started fd_limit : Z) : GM unit :=
  report_progress started fd_limit ;;;
  let* retries := gets g_retries in
  when (0 <? retries)%Z (say (Retries retries)) ;;;
  let* r := gsys sys_getrusage in
  when (r.1 =? 0)%Z
    (say (OwnUsage (ru_maxrss r.2) (in_microseconds (ru_utime r.2)) (in_microseconds (ru_stime r.2)))) ;;;
  let* pid := gets (λ s, sys_getpid (g_kern s)) in
  say (Pid pid).

(** [main] after the connections have been opened: reporting, holding for at
    most [n] passes, and closing. *)
Definition finish (n : nat) (o : GenOptions) (started fd_limit : Z) : GM ending :=
  summarise started fd_limit ;;;
  when (o_hold o && (0 <=? o_hold_seconds o)%Z) (say (Holding (o_hold_seconds o))) ;;;
  let* now := gsys now_seconds in
  let* holding := hold_loop n o (now + o_hold_seconds o * 1000000) in
  if (holding : bool) then ret Holds
  else
    let* connections := gets g_connections in
    say (Closing (length connections)) ;;;
    for_each connections (λ fd, gsys (λ k, (tt, sys_close fd k))) ;;;
    ret (Exits 0).

(** [fd_limit >= 0 && fd_limit < target + 16]; the sum is one of [long]s and is
    only formed if the limit is known. *)
Definition below_target (fd_limit : Z) (o : GenOptions) : GM bool :=
  λ s, if (0 <=? fd_limit)%Z
       then if (LONG_MAX <? o_target o + 16)%Z then Overflow else Done ((fd_limit <? o_target o + 16)%Z, s)
       else Done (false, s).

(** [main] after the options. *)
Definition generate (n : nat) (o : GenOptions) : GM ending :=
  gsys (λ k, (tt, install_handlers k)) ;;;
  let* fd_limit := gsys raise_fd_limit in
  say (Target (o_target o) (o_host o) (o_port o) fd_limit) ;;;
  let* low := below_target fd_limit o in
  when low (say LimitWarning) ;;;
  let* room := gsys (sys_reserve (o_target o)) in
  if negb room then ret Terminates
  else
    let* started := gsys now_seconds in
    let* ok := open_all (Z.to_nat (o_target o)) o started fd_limit in
    if negb ok then ret (Exits 2) else finish n o started fd_limit.

Definition new_gen (k : K) : Gen K := mkGen [] [] 0 k [].

(** [main]; [args] is [argv + 1]. *)
Definition gen_main (n : nat) (program : bytes) (args : list bytes) (k : K) : outcome (ending * Gen K) :=
  obind (gen_options args) (λ r,
    match r with
    | None => Done (Exits 2, gprint (Usage (gen_usage program)) (new_gen k))
    | Some o => generate n o (new_gen k)
    end).

End Generator.

(** ** Splitting at commas *)

Fixpoint join_commas (parts : list bytes) : bytes :=
  match parts with
  | [] => []
  | [p] => p
  | p :: parts => p ++ comma :: join_commas parts
  end.

Lemma split_commas_spec fuel start parts :
  length start < fuel →
  ∃ ps, split_commas_loop fuel start parts = Done (parts ++ ps) ∧ ps ≠ [] ∧ join_commas ps = start
        ∧ Forall (λ p, comma ∉ p) ps.
Proof.
  revert start parts. induction fuel as [|fuel IH]; intros start parts Hf; [lia|]. cbn [split_commas_loop].
  destruct (find_char comma start) as [n|] eqn:Hn.
  - apply find_Some in Hn as (Heq & Hnot & Hlt).
    destruct (IH (drop (S n) start) (parts ++ [take n start])) as (ps & -> & Hne & Hj & Hall);
      [rewrite length_drop; lia|].
    exists (take n start :: ps). rewrite <-app_assoc. split_and!; [done|done| |by constructor].
    destruct ps as [|p ps]; [done|]. cbn [join_commas] in *. by rewrite Hj, <-Heq.
  - apply find_None in Hn. exists [start]. split_and!; [done|done|done|by repeat constructor].
Qed.

(** ** Descriptors *)

Section Descriptors.
Context `{!Kernel K, !KernelView K, !KernelLaws K, !SocketCalls K, !SocketLaws K, !SignalCalls K, !SignalLaws K}.
Context `{!GenCalls K, !GenLaws K}.

#[local] Instance gen_strict : Tolerance := False.

Implicit Types s : Gen K.

Lemma wp_gsys {A} (f : K → A * K) (Q : A → Gen K → Prop) s :
  (∀ a k, f (g_kern s) = (a, k) → Q a (gset_kern k s)) → wp (gsys f) Q s.
Proof.
  intros HQ. destruct (f (g_kern s)) as [a k] eqn:Hf. eapply wp_done; [|by apply HQ].
  unfold gsys. by rewrite Hf.
Qed.

(** The connections are the descriptors opened since [k0]. *)
Definition holds (k0 : K) (conns : list Z) (k : K) : Prop :=
  NoDup conns ∧ (∀ fd, fd ∈ conns → fd ∉ open_fds k0)
  ∧ open_fds k = list_to_set conns ∪ open_fds k0.

(** Nothing but texts and counters changed, and the same descriptors are open. *)
Definition idles s s' : Prop :=
  g_connections s' = g_connections s ∧ open_fds (g_kern s') = open_fds (g_kern s).

#[global] Instance idles_preorder : PreOrder idles.
Proof. split; [done|]. intros s1 s2 s3 [? ?] [? ?]. split; congruence. Qed.

Lemma idles_call {A} (f : K → A * K) s :
  (open_fds (f (g_kern s)).2 = open_fds (g_kern s)) → wp (gsys f) (λ _ s', idles s s') s.
Proof. intros Hf. apply wp_gsys. intros a k Hk. rewrite Hk in Hf. done. Qed.

(** The descriptor [fd] has been opened. *)
Definition opens (fd : Z) s s' : Prop :=
  (0 ≤ fd)%Z ∧ fd ∉ open_fds (g_kern s) ∧ g_connections s' = g_connections s
  ∧ open_fds (g_kern s') = {[fd]} ∪ open_fds (g_kern s).

Lemma attempt_plain_spec o s :
  wp (attempt_plain o) (λ r s', if (r.1 <? 0)%Z then idles s s' else opens r.1 s s') s.
Proof.
  apply wp_bind, wp_gsys. intros [fd e] k Hc. apply connect_to_created in Hc as [Hc _].
  apply wp_bind. eapply (wp_mono _ (λ _ s', idles (gset_kern k s) s')).
  { destruct e; [by apply wp_modify|by apply wp_ret]. }
  intros [] s' [Hcs Ho]. apply wp_bind, wp_gets, wp_ret. cbn in *.
  destruct Hc as [(Hpos & _ & Hfresh & Hop & _)|(-> & _ & Hop)].
  - rewrite (proj2 (Z.ltb_ge fd 0)) by done. by split_and!; [..|congruence].
  - split; cbn; congruence.
Qed.

Lemma bind_source_open fd a (k : K) : open_fds (bind_source fd a k).2 = open_fds k.
Proof.
  unfold bind_source. destruct (sys_inet_pton _) as [x|]; [|done].
  pose proof (law_bind fd (mkSockaddr x 0) k) as (Ho & _). by destruct (sys_bind fd _ k).
Qed.

Lemma attempt_from_spec o remote s :
  wp (attempt_from o remote) (λ r s', if (r.1 <? 0)%Z then idles s s' else opens r.1 s s') s.
Proof.
  apply wp_bind, wp_gsys. intros fd k [[Hneg (Ho & _)]|(Hpos & Hfresh & Ho & _)]%law_socket.
  { rewrite (proj2 (Z.leb_gt 0 fd)) by done. apply wp_bind, wp_gets, wp_bind, wp_modify, wp_ret. cbn.
    rewrite (proj2 (Z.ltb_lt fd 0)) by done. by split. }
  rewrite (proj2 (Z.leb_le 0 fd)) by done. apply wp_bind, wp_gets. cbv zeta.
  set (s1 := gset_kern k s). assert (opens fd s s1) as Hop by by split_and!.
  apply wp_bind. eapply wp_mono; [apply (idles_call _ s1), bind_source_open|]. intros bound s2 H2.
  apply wp_bind. eapply (wp_mono _ (λ _ s3, idles s2 s3)).
  { destruct (negb bound); [by apply wp_ret|]. apply idles_call. apply law_connect. }
  intros rc s3 H3. apply wp_bind, wp_gets. assert (idles s1 s3) as [Hc3 Ho3] by (exact (transitivity H2 H3)).
  destruct Hop as (_ & _ & Hc1 & Ho1). destruct (rc <? 0)%Z.
  - apply wp_bind, wp_modify, wp_bind, wp_gsys. intros [] k4 [= <-]. apply wp_ret. cbn.
    split; cbn; [congruence|]. destruct (law_close fd (g_kern s3)) as (-> & _).
    rewrite Ho3, Ho1. set_solver.
  - apply wp_ret. cbn. rewrite (proj2 (Z.ltb_ge fd 0)) by done. split_and!; [done|done|congruence..].
Qed.

(** The host is not numeric but source addresses are given. *)
Definition hopeless (o : GenOptions) : Prop :=
  o_sources o ≠ [] ∧ sys_inet_pton (K := K) (c_str (o_host o)) = None.

Lemma attempt_spec o s :
  wp (attempt o)
    (λ r s', match r with
             | None => hopeless o ∧ idles s s'
             | Some (fd, _) => ¬ hopeless o ∧ if (fd <? 0)%Z then idles s s' else opens fd s s'
             end) s.
Proof.
  unfold attempt, hopeless. destruct (o_sources o) as [|x l].
  - apply wp_bind. eapply wp_mono; [apply attempt_plain_spec|]. intros [fd e] s' Hs. apply wp_ret. naive_solver.
  - destruct (sys_inet_pton _) as [a|].
    + apply wp_bind. eapply wp_mono; [apply attempt_from_spec|]. intros [fd e] s' Hs. apply wp_ret. naive_solver.
    + by apply wp_bind, wp_modify, wp_ret.
Qed.

Lemma idles_opens s1 s2 s3 fd : idles s1 s2 → opens fd s2 s3 → opens fd s1 s3.
Proof. intros [Hc Ho] (? & Hf & Hc' & Ho'). rewrite Ho in *. split_and!; congruence || done. Qed.

Lemma keeps_gsys {A} (f : K → A * K) : keeps g_retries (gsys f).
Proof. intros s a s'. unfold gsys. destruct (f (g_kern s)). by intros [= _ <-]. Qed.

Lemma attempt_keeps_retries o : keeps g_retries (attempt o).
Proof.
  unfold attempt, attempt_plain, attempt_from, say, gerrno. auto 20 using keeps_gsys with keeps.
Qed.

(** One more try: the flag is read and the generator may pause. *)
Lemma retry_spec e tries s :
  wp (if is_transient e && (tries <? 200)%Z then let* stop := gsys sys_stopped in ret (negb stop) else ret false)
    (λ b s', (b = true → (tries < 200)%Z) ∧ idles s s' ∧ g_retries s' = g_retries s) s.
Proof.
  destruct (is_transient e && (tries <? 200)%Z) eqn:Hb; [|by apply wp_ret].
  apply andb_true_iff in Hb as [_ Hb%Z.ltb_lt]. apply wp_bind, wp_gsys. intros stop k Hk. apply wp_ret.
  pose proof (law_stopped (g_kern s)) as (Ho & _). rewrite Hk in Ho. done.
Qed.

Lemma count_retry_done s :
  (g_retries s < LONG_MAX)%Z → count_retry s = Done (tt, gset_retries (g_retries s + 1) s).
Proof. intros H. unfold count_retry. by rewrite (proj2 (Z.leb_gt _ _)). Qed.

(** [fuel] attempts are enough when 200 - [tries] are left. *)
Lemma open_one_spec fuel o tries s :
  (0 ≤ 200 - tries < Z.of_nat fuel)%Z → (g_retries s + (200 - tries) ≤ LONG_MAX)%Z →
  wp (open_one fuel o tries)
    (λ r s', match r with
             | Opened fd => ¬ hopeless o ∧ opens fd s s'
             | GiveUp => idles s s'
             | Abort2 => hopeless o ∧ idles s s'
             end ∧ (g_retries s' ≤ g_retries s + (200 - tries))%Z) s.
Proof.
  revert tries s. induction fuel as [|fuel IH]; intros tries s Hf Hmax; [lia|]. cbn [open_one].
  apply wp_bind. eapply wp_mono; [apply (wp_keeps g_retries); [apply attempt_spec|apply attempt_keeps_retries]|].
  intros [[fd e]|] s1 [H1 Hr1]; [|apply wp_ret; rewrite Hr1; split; [done|lia]].
  destruct H1 as [Hno H1]. destruct (fd <? 0)%Z; [|apply wp_ret; rewrite Hr1; split; [done|lia]].
  apply wp_bind. eapply wp_mono; [apply retry_spec|]. intros again s2 (Hlt & H2 & Hr2).
  destruct again; [|apply wp_ret; split; [by etrans|lia]].
  specialize (Hlt eq_refl). apply wp_bind. eapply wp_done; [apply count_retry_done; lia|].
  apply wp_bind, wp_gsys. intros [] k [= <-].
  destruct (law_nanosleep 2000000 (g_kern s2)) as [Ho _].
  set (s3 := gset_kern _ _). assert (idles s s3) as H3.
  { etrans; [exact H1|]. etrans; [exact H2|]. done. }
  assert (g_retries s3 = g_retries s + 1)%Z as Hr3 by (cbn; lia).
  eapply wp_mono; [apply IH; lia|]. intros r s4 [H4 Hr4]. split; [|lia].
  destruct r as [fd'| |]; [|by etrans|]; (destruct H4; split; [done|]); [by eapply idles_opens|by etrans].
Qed.

Definition gen_inv (k0 : K) (o : GenOptions) s : Prop :=
  holds k0 (g_connections s) (g_kern s) ∧ (hopeless o → g_connections s = []).

Lemma gen_inv_idles k0 o s s' : idles s s' → gen_inv k0 o s → gen_inv k0 o s'.
Proof. intros [Hc Ho] [(H1 & H2 & H3) H4]. unfold gen_inv, holds. rewrite Hc, Ho. done. Qed.

Lemma gen_inv_opens k0 o s s' fd :
  ¬ hopeless o → opens fd s s' → gen_inv k0 o s →
  gen_inv k0 o (gset_connections (g_connections s' ++ [fd]) s').
Proof.
  intros Hno (_ & Hfresh & Hc & Ho) [(H1 & H2 & H3) _]. rewrite H3 in Hfresh. split; [|done]. cbn.
  unfold holds. rewrite Hc, Ho, H3. split_and!.
  - apply NoDup_app. split_and!; [done| |by apply NoDup_singleton]. set_solver.
  - set_solver.
  - rewrite list_to_set_app_L. cbn. set_solver.
Qed.

Lemma now_seconds_quiet (k : K) : quiet k (now_seconds k).2.
Proof. unfold now_seconds. pose proof (law_gettimeofday k). by destruct (sys_gettimeofday k). Qed.

Lemma report_progress_spec started limit s :
  wp (report_progress started limit) (λ _ s', idles s s' ∧ g_retries s' = g_retries s) s.
Proof.
  apply wp_bind, wp_gets, wp_bind, wp_gsys. intros now k Hk. apply wp_modify.
  pose proof (now_seconds_quiet (g_kern s)) as (Ho & _). rewrite Hk in Ho. done.
Qed.

Lemma open_all_spec left o started limit k0 s :
  gen_inv k0 o s → (g_retries s + 200 * Z.of_nat left ≤ LONG_MAX)%Z →
  wp (open_all left o started limit)
    (λ ok s', gen_inv k0 o s' ∧ (ok = false → hopeless o)
      ∧ length (g_connections s') ≤ length (g_connections s) + left
      ∧ (g_retries s' ≤ g_retries s + 200 * Z.of_nat left)%Z) s.
Proof.
  revert s. induction left as [|left IH]; intros s Hinv Hmax; cbn [open_all].
  { apply wp_ret. split_and!; [done|done|lia|lia]. }
  apply wp_bind, wp_gsys. intros stop k Hk. pose proof (law_stopped (g_kern s)) as (Ho & _). rewrite Hk in Ho.
  set (s1 := gset_kern k s). assert (gen_inv k0 o s1) as H1 by by apply (gen_inv_idles _ _ s).
  destruct stop; [apply wp_ret; split_and!; [done|done|cbn; lia|cbn; lia]|].
  apply wp_bind. eapply wp_mono; [apply (open_one_spec 201 o 0 s1); [lia|cbn; lia]|]. intros r s2 [H2 Hr2].
  cbn in Hr2. destruct r as [fd| |].
  - destruct H2 as [Hno Hop]. pose proof (gen_inv_opens k0 o s1 s2 fd Hno Hop H1) as H3.
    apply wp_bind, wp_modify, wp_bind, wp_gets, wp_bind. set (s3 := gset_connections _ s2).
    eapply (wp_mono _ (λ _ s4, idles s3 s4 ∧ g_retries s4 = g_retries s3)).
    { apply wp_when; intros _; [apply report_progress_spec|done]. }
    intros [] s4 [H4 Hr4]. eapply wp_mono; [apply IH; [by eapply gen_inv_idles|cbn in Hr4; lia]|].
    intros ok s5 (H5 & Hok & Hlen & Hr5). destruct H4 as [Hc4 _]. destruct Hop as (_ & _ & Hc2 & _).
    split_and!; [done|done| |cbn in Hr4; lia].
    rewrite Hc4 in Hlen. cbn in Hlen. rewrite length_app, Hc2 in Hlen. cbn in Hlen. lia.
  - apply wp_bind, wp_get, wp_bind, wp_modify, wp_ret. destruct H2 as [Hc2 Ho2].
    split_and!; [by apply (gen_inv_idles _ _ s1)|done|cbn; rewrite Hc2; cbn; lia|cbn; lia].
  - apply wp_ret. destruct H2 as [Hh [Hc2 Ho2]].
    split_and!; [by apply (gen_inv_idles _ _ s1)|done|rewrite Hc2; cbn; lia|lia].
Qed.

Lemma hold_loop_spec n o until s : wp (hold_loop n o until) (λ _ s', idles s s' ∧ g_retries s' = g_retries s) s.
Proof.
  revert s. induction n as [|n IH]; intros s; cbn [hold_loop]; [by apply wp_ret|].
  destruct (negb (o_hold o)); [by apply wp_ret|]. apply wp_bind, wp_gsys. intros stop k Hk.
  pose proof (law_stopped (g_kern s)) as (Ho & _). rewrite Hk in Ho. destruct stop; [by apply wp_ret|].
  set (s1 := gset_kern k s). apply wp_bind.
  eapply (wp_mono _ (λ _ s2, idles s1 s2 ∧ g_retries s2 = g_retries s1)).
  { destruct (0 <=? o_hold_seconds o)%Z; [|by apply wp_ret]. apply wp_bind, wp_gsys. intros now k2 Hk2.
    pose proof (now_seconds_quiet (g_kern s1)) as (Ho2 & _). rewrite Hk2 in Ho2. by apply wp_ret. }
  intros over s2 [H2 Hr2]. assert (idles s s2) as H2' by (transitivity s1; done).
  destruct over; [by apply wp_ret|]. apply wp_bind, wp_gsys. intros [] k3 [= <-].
  destruct (law_nanosleep 1000000000 (g_kern s2)) as [Ho3 _].
  eapply wp_mono; [apply IH|]. intros b s4 [H4 Hr4]. split; [|cbn in *; congruence].
  transitivity s2; [done|]. etrans; [|exact H4]. done.
Qed.

(** Closing the connections. *)
Lemma close_all_spec k0 conns s :
  holds k0 conns (g_kern s) →
  wp (for_each conns (λ fd, gsys (λ k, (tt, sys_close fd k))))
    (λ _ s', open_fds (g_kern s') = open_fds k0 ∧ g_connections s' = g_connections s
             ∧ g_retries s' = g_retries s) s.
Proof.
  revert s. induction conns as [|fd conns IH]; intros s (H1 & H2 & H3); cbn [for_each].
  { apply wp_ret. split_and!; [|done|done]. rewrite H3. set_solver. }
  apply wp_bind, wp_gsys. intros [] k [= <-]. apply NoDup_cons in H1 as [Hnot H1].
  eapply wp_mono; [apply IH|].
  - split_and!; [done|set_solver|]. cbn. destruct (law_close fd (g_kern s)) as (-> & _). rewrite H3.
    assert (fd ∉ open_fds k0) by (apply H2; left). cbn. set_solver.
  - intros [] s' (Ho & Hc & Hr). done.
Qed.

(** The limits on what is opened and retried. *)
Definition bounded (o : GenOptions) s : Prop :=
  (Z.of_nat (length (g_connections s)) ≤ o_target o ∧ g_retries s ≤ 200 * o_target o)%Z.

(** The end of the generator: with a status, or without room for the
    connections, the descriptors of before are open; while it holds, they and
    the connections are. *)
Definition gen_outcome (k0 : K) (o : GenOptions) (r : ending) s : Prop :=
  bounded o s
  ∧ match r with
    | Holds => holds k0 (g_connections s) (g_kern s)
    | Exits status => (status = 0 ∨ status = 2 ∧ hopeless o)%Z ∧ open_fds (g_kern s) = open_fds k0
    | Terminates => g_connections s = [] ∧ open_fds (g_kern s) = open_fds k0
    end.

(** Neither connections nor retries nor descriptors change. *)
Definition calm s s' : Prop := idles s s' ∧ g_retries s' = g_retries s.

#[global] Instance calm_preorder : PreOrder calm.
Proof. split; [done|]. intros s1 s2 s3 [H1 ?] [H2 ?]. split; [exact (transitivity H1 H2)|congruence]. Qed.

Lemma calm_say b l s : wp (when b (say l)) (λ _ s', calm s s') s.
Proof. apply wp_when; intros _; [by apply wp_modify|done]. Qed.

Lemma calm_sys {A} (f : K → A * K) s : quiet (g_kern s) (f (g_kern s)).2 → wp (gsys f) (λ _ s', calm s s') s.
Proof. intros (Ho & _). apply wp_gsys. intros a k Hk. rewrite Hk in Ho. done. Qed.

(** A step that is [calm] keeps what holds of the state so far. *)
Lemma wp_calm {A C} (m : M (Gen K) A) (f : A → M (Gen K) C) (Q : C → Gen K → Prop) s0 s :
  calm s0 s → wp m (λ _ s', calm s s') s → (∀ a s', calm s0 s' → wp (f a) Q s') → wp (bind m f) Q s.
Proof.
  intros H0 Hm Hf. apply wp_bind. eapply wp_mono; [exact Hm|]. intros a s' Hs. apply Hf.
  exact (transitivity H0 Hs).
Qed.

Lemma bounded_calm o s s' : calm s s' → bounded o s → bounded o s'.
Proof. intros [[Hc _] Hr] [H1 H2]. unfold bounded. by rewrite Hc, Hr. Qed.

Lemma summarise_spec started limit s : wp (summarise started limit) (λ _ s', calm s s') s.
Proof.
  unfold summarise. assert (calm s s) as H0 by done.
  eapply (wp_calm _ _ _ s); [done|apply report_progress_spec|]. intros _ s1 H1. apply wp_bind, wp_gets.
  eapply (wp_calm _ _ _ s); [exact H1|apply calm_say|]. intros _ s2 H2.
  eapply (wp_calm _ _ _ s); [exact H2|apply calm_sys, law_getrusage|]. intros r s3 H3.
  eapply (wp_calm _ _ _ s); [exact H3|apply calm_say|]. intros _ s4 H4.
  apply wp_bind, wp_gets. by apply wp_modify.
Qed.

(** Reporting, holding and closing, once the connections are there. *)
Lemma finish_spec n o started limit k0 s :
  gen_inv k0 o s → bounded o s → wp (finish n o started limit) (λ r s', gen_outcome k0 o r s') s.
Proof.
  intros Hinv Hb. unfold finish. assert (calm s s) as H0 by done.
  eapply (wp_calm _ _ _ s); [done|apply summarise_spec|]. intros _ s1 H1.
  eapply (wp_calm _ _ _ s); [exact H1|apply calm_say|]. intros _ s3 H3.
  eapply (wp_calm _ _ _ s); [exact H3|apply calm_sys, now_seconds_quiet|]. intros now s4 H4.
  eapply (wp_calm _ _ _ s); [exact H4|apply hold_loop_spec|]. intros holding s5 H6.
  destruct (gen_inv_idles k0 o s s5 (proj1 H6) Hinv) as [Hholds _].
  destruct holding; [apply wp_ret; split; [by eapply bounded_calm|done]|].
  apply wp_bind, wp_gets, wp_bind, wp_modify, wp_bind.
  eapply wp_mono; [by apply (close_all_spec k0)|]. intros [] s7 (Ho & Hc & Hr). apply wp_ret.
  split; [|by auto]. apply (bounded_calm o s s5 H6) in Hb. unfold bounded in *. cbn in *. by rewrite Hc, Hr.
Qed.

(** Small enough for the [long]s of the generator. *)
Definition counts_fit (o : GenOptions) : Prop := (200 * o_target o ≤ LONG_MAX)%Z.

Lemma below_target_done limit o s : (0 < o_target o)%Z → counts_fit o → ∃ b, below_target limit o s = Done (b, s).
Proof.
  unfold below_target, counts_fit. intros. destruct (0 <=? limit)%Z; [|by eexists].
  destruct (Z.ltb_spec LONG_MAX (o_target o + 16)); [unfold LONG_MAX in *; lia|by eexists].
Qed.

Lemma generate_spec n o k0 :
  (0 < o_target o)%Z → counts_fit o → wp (generate n o) (λ r s, gen_outcome k0 o r s) (new_gen k0).
Proof.
  intros Ht Hfit. unfold generate. set (s := new_gen k0). assert (calm s s) as H0 by done.
  eapply (wp_calm _ _ _ s); [done|apply calm_sys, install_quiet|]. intros _ s0 H0'.
  eapply (wp_calm _ _ _ s); [exact H0'|apply calm_sys, raise_fd_limit_quiet|]. intros limit s1 H1.
  eapply (wp_calm _ _ _ s); [exact H1|by apply wp_modify|]. intros _ s2 H2.
  apply wp_bind. destruct (below_target_done limit o s2 Ht Hfit) as [low Hlow]. eapply wp_done; [exact Hlow|].
  eapply (wp_calm _ _ _ s); [exact H2|apply calm_say|]. intros _ s3 H3.
  eapply (wp_calm _ _ _ s); [exact H3|apply calm_sys, law_reserve|]. intros room s4 H4.
  assert (bounded o s4) as Hb4 by (apply (bounded_calm o s s4 H4); split; cbn; lia).
  destruct room; cbn [negb]; [|apply wp_ret; split; [done|exact (proj1 H4)]].
  eapply (wp_calm _ _ _ s); [exact H4|apply calm_sys, now_seconds_quiet|]. intros started s5 H5.
  assert (gen_inv k0 o s5) as Hinv.
  { apply (gen_inv_idles _ _ s _ (proj1 H5)). split; [|done]. split_and!; [constructor|set_solver|set_solver]. }
  destruct H5 as [[Hc5 _] Hr5]. cbn in Hc5, Hr5. unfold counts_fit in Hfit.
  apply wp_bind. eapply wp_mono; [apply (open_all_spec _ _ _ _ k0); [done|lia]|].
  intros ok s6 (H6 & Hok & Hlen & Hret). rewrite Hc5 in Hlen. cbn in Hlen.
  assert (bounded o s6) as Hb by (split; lia).
  destruct ok; cbn [negb]; [by apply finish_spec|].
  apply wp_ret. specialize (Hok eq_refl). split; [done|]. split; [by right|]. destruct H6 as [(_ & _ & ->) Hh].
  rewrite Hh by done. set_solver.
Qed.

(** ** The command line *)

(** What the options that are accepted have in common. *)
Definition options_ok (o : GenOptions) : Prop :=
  (1 ≤ o_port o ≤ 65535 ∧ 0 < o_target o ∧ 0 < o_report_every o)%Z.

Lemma split_commas_done v : ∃ l, split_commas v = Done l.
Proof. destruct (split_commas_spec (S (length v)) v []) as (ps & H & _); [lia|]. by exists ps. Qed.

Lemma gen_args_ok args o :
  options_ok o → ∃ r, gen_args o args = Done r ∧ ∀ o', r = Some o' → options_ok o' ∧ o_target o' = o_target o.
Proof.
  remember (length args) as n eqn:Hn. revert args o Hn.
  induction (lt_wf n) as [n _ IH]. intros [|arg args] o -> Ho; cbn [gen_args].
  { eexists. split; [done|]. by intros ? [= <-]. }
  assert (∀ args' o2, length args' ≤ length args → options_ok o2 → o_target o2 = o_target o →
    ∃ r, gen_args o2 args' = Done r ∧ ∀ o', r = Some o' → options_ok o' ∧ o_target o' = o_target o) as Hgo.
  { intros args' o2 Hle Ho2 <-. apply (IH (length args')); [cbn; lia|done|done]. }
  assert (∃ r, Done None = Done r ∧ ∀ o', r = Some o' → options_ok o' ∧ o_target o' = o_target o) as Hno
    by by exists None.
  repeat case_match; try done; simplify_eq/=.
  - apply Hgo; [lia| |done]. destruct Ho as (? & ? & ?). unfold options_ok. cbn. lia.
  - apply Hgo; [lia| |done]. destruct Ho as (? & ? & ?). unfold options_ok. cbn. lia.
  - destruct (split_commas_done l) as [ps ->]. cbn [obind]. apply Hgo; [lia|done|done].
  - by apply Hgo.
  - by apply Hgo.
  - apply Hgo; [lia|done|done].
Qed.

(** The options are decoded on every command line. *)
Lemma gen_options_ok args : ∃ r, gen_options args = Done r ∧ ∀ o, r = Some o → options_ok o.
Proof.
  destruct args as [|host [|port [|target args]]]; try by exists None. cbn [gen_options]. cbv zeta.
  destruct (_ || _) eqn:Hb; [by exists None|]. apply orb_false_iff in Hb as [[Hp Hq]%orb_false_iff Ht].
  destruct (gen_args_ok args (mkGenOptions host (atoi port) (strtol target) 5000 true (-1) []))
    as (r & -> & Hr); [unfold options_ok; cbn; lia|].
  exists r. split; [done|]. intros o Ho. by apply Hr.
Qed.

(** C39: the connection generator, from its command line to its end, for
    targets whose retries a [long] can count.  A wrong command line gives the
    usage text and status 2.  Otherwise, whatever the kernel and the allocator
    answer, nothing overflows and every phase returns; it never has more
    connections than asked for and never retries more than 200 times per
    connection; while it holds the connections they are exactly the descriptors
    it has opened; and when it ends, exactly the descriptors of before are
    open, with status 2 only if source addresses go with a server address that
    is not numeric. *)
Theorem generator_leaves_nothing n program args k :
  (∀ o, gen_options args = Done (Some o) → counts_fit o) →
  ∃ r s, gen_main n program args k = Done (r, s) ∧
    ((gen_options args = Done None ∧ r = Exits 2 ∧ s = gprint (Usage (gen_usage program)) (new_gen k))
     ∨ ∃ o, gen_options args = Done (Some o) ∧ options_ok o ∧ gen_outcome k o r s).
Proof.
  intros Hfit. unfold gen_main. destruct (gen_options_ok args) as (r & Hr & Hok). rewrite Hr in *. cbn [obind].
  destruct r as [o|]; [|by eauto 10]. specialize (Hfit o eq_refl). specialize (Hok o eq_refl).
  destruct (wp_returns _ _ _ (generate_spec n o k (proj1 (proj2 Hok)) Hfit)) as [[_ []]|(r & s & H & Ho)]. by eauto 10.
Qed.

End Descriptors.

(** A target within 16 of [LONG_MAX] makes the test of the descriptor limit
    overflow. *)
Theorem huge_target_overflows `{!Kernel K, !SocketCalls K, !SignalCalls K, !GenCalls K} n o (k : K) :
  (LONG_MAX - 16 < o_target o)%Z → (0 ≤ (raise_fd_limit (install_handlers k)).1)%Z → generate n o (new_gen k) = Overflow.
Proof.
  intros Ht Hl. unfold generate, gsys, bind, say, modify, below_target. cbn.
  destruct (raise_fd_limit (install_handlers k)) as [limit k']. cbn in Hl |- *.
  rewrite (proj2 (Z.leb_le 0 limit)) by done. by rewrite (proj2 (Z.ltb_lt _ _)) by lia.
Qed.

(** ** The scripted kernel *)

#[global] Instance script_gen : GenCalls Script := {
  sys_gettimeofday := λ k, ((sc_clock k, 0%Z), k);
  sys_nanosleep := λ _ k, k;
  sys_getrusage := λ k, ((0%Z, mkRusage 2048 (0, 1000)%Z (0, 2000)%Z), k);
  sys_getpid := λ _, 4711%Z;
  sys_reserve := λ n k, (Z.leb n 1000000, k)
}.

#[global] Instance script_gen_laws : GenLaws Script.
Proof. by split. Qed.

Definition gen_demo_args : list bytes :=
  [lit "127.0.0.1"; lit "5000"; lit "3"; lit "--report-every"; lit "2"; lit "--no-hold"].

Definition gen_demo : GenOptions := mkGenOptions (lit "127.0.0.1") 5000 3 2 false (-1) [].

Definition gen_kernel : Script := mkScript (EOTHER 0) {[0; 1; 2]}%Z ∅ [] [] [] [] [] 7 [false; false; false] ∅.

Lemma generator_leaves_nothing_witness :
  gen_options gen_demo_args = Done (Some gen_demo)
  ∧ ∃ r s, gen_main 1 (lit "conn_gen") gen_demo_args gen_kernel = Done (r, s) ∧
    ((gen_options gen_demo_args = Done None ∧ r = Exits 2
      ∧ s = gprint (Usage (gen_usage (lit "conn_gen"))) (new_gen gen_kernel))
     ∨ ∃ o, gen_options gen_demo_args = Done (Some o) ∧ options_ok o ∧ gen_outcome gen_kernel o r s).
Proof.
  assert (gen_options gen_demo_args = Done (Some gen_demo)) as Hargs by (vm_compute; reflexivity).
  split; [exact Hargs|]. apply (generator_leaves_nothing 1 (lit "conn_gen") gen_demo_args gen_kernel).
  intros o Ho. rewrite Hargs in Ho. injection Ho as <-. unfold counts_fit, LONG_MAX. cbn. lia.
Defined.

(** The connections are closed again, and a target that the allocator has no
    room for ends the program. *)
Example gen_demo_run :
  match gen_main 1 (lit "conn_gen") gen_demo_args gen_kernel with
  | Done (Exits 0%Z, s) =>
      bool_decide (g_connections s = [3; 4; 5]%Z) && bool_decide (open_fds (g_kern s) = {[0; 1; 2]}%Z)
  | _ => false
  end = true.
Proof. vm_compute. reflexivity. Qed.

Example gen_no_room :
  match gen_main 1 (lit "conn_gen") [lit "127.0.0.1"; lit "5000"; lit "1000001"] gen_kernel with
  | Done (Terminates, s) => bool_decide (g_connections s = [])
  | _ => false
  end = true.
Proof. vm_compute. reflexivity. Qed.

Example gen_options_example :
  gen_options [lit "127.0.0.1"; lit "5000"; lit "70000"; lit "--src-ips"; lit "127.0.0.2,127.0.0.3"; lit "--no-hold"]
  = Done (Some (mkGenOptions (lit "127.0.0.1") 5000 70000 5000 false (-1) [lit "127.0.0.2"; lit "127.0.0.3"])).
Proof. vm_compute. reflexivity. Qed.
