(* ===== verification/ClientSignals.v ===== *)
(** * ClientSignals: the clients and the generator under signals

    The client shell and the connection generator run as a [Process]: like
    the server (Shutdown.v) they survive SIGPIPE and leave their loops, in
    good order, after SIGINT or SIGTERM. *)

From S2P Require Import Prelude CxxString Framing Kernel EventLoop SocketUtils Signals KeptCalls TcpClient.
From S2P Require Import ClientShell ClientScript ConnGen.

(** ** The remaining system calls of a process *)

Section Calls.
Context `{!Kernel K, !Arrivals K} {F : SendFlags}.

#[global] Instance process_stalls `{!Stalls K} : Stalls (Process K) := λ p, sys_stall (p_kern p).

#[global] Instance process_terminal `{!Terminal K} : Terminal (Process K) := λ fd cap, below (sys_read fd cap).

#[global] Instance process_typed `{!TerminalView K} : TerminalView (Process K) := λ p, typed (p_kern p).

#[global] Instance process_gen `{!GenCalls K} : GenCalls (Process K) := {
  sys_gettimeofday := below sys_gettimeofday;
  sys_nanosleep := λ ns, below_ (sys_nanosleep ns);
  sys_getrusage := below sys_getrusage;
  sys_getpid := λ p, sys_getpid (p_kern p);
  sys_reserve := λ n, below (sys_reserve n)
}.

End Calls.

Section Laws.
Context `{!Kernel K, !KernelView K, !SocketCalls K, !SignalCalls K, !Arrivals K} {F : SendFlags}.

#[global] Instance process_stall_laws `{!Stalls K, !StallLaws K} : StallLaws (Process K).
Proof.
  split.
  - intros fd data p n p' H%process_send_inv. exact (stall_send fd data _ _ _ H).
  - intros fd data p n p' r revs p'' H%process_send_inv Hn Hb Hp%below_inv.
    exact (stall_poll fd data _ _ _ _ _ _ H Hn Hb Hp).
Qed.

#[global] Instance process_gen_laws `{!GenCalls K, !GenLaws K} : GenLaws (Process K).
Proof.
  split.
  - intros p. apply below_quiet, law_gettimeofday.
  - intros p. apply below_quiet, law_getrusage.
  - intros n p. apply below_quiet, law_reserve.
  - intros ns p. exact (law_nanosleep ns (p_kern p)).
Qed.

(** Signals say nothing of standard input. *)
Class ArrivalsTyped `{!TerminalView K} : Prop := typed_arrived k : typed (sys_arrived k).2 = typed k.

Lemma below_typed `{!TerminalView K} {A} (f : K → A * K) p :
  (∀ k, typed (f k).2 = typed k) → typed (below f p).2 = typed p.
Proof. intros Hf. specialize (Hf (p_kern p)). unfold below. by destruct (f (p_kern p)). Qed.

#[global] Instance process_terminal_laws
    `{!Terminal K, !TerminalView K, !TerminalLaws K, !ArrivalsTyped} : TerminalLaws (Process K).
Proof.
  split; intros; try (apply below_typed; intros).
  - match goal with H : _ = _ |- _ => apply below_inv in H; exact (law_read _ _ _ _ _ H) end.
  - cbn [sys_send process_kernel]. destruct (process_send fd data k) as [n p'] eqn:Hs.
    apply process_send_inv in Hs. pose proof (typed_send fd data (p_kern k)) as Ht. rewrite Hs in Ht. exact Ht.
  - apply typed_recv.
  - apply typed_poll.
  - exact (typed_shutdown fd how (p_kern k)).
  - exact (typed_close fd (p_kern k)).
  - done.
  - cbn [sys_stopped process_kernel]. unfold process_stopped. pose proof (below_typed sys_arrived k typed_arrived) as Ha.
    destruct (below sys_arrived k) as [sigs p]. cbn in *. rewrite <-Ha. unfold typed, process_typed.
    by rewrite delivered_kern.
  - apply typed_getfl.
  - apply typed_setfl.
  - apply typed_setsockopt.
  - apply typed_socket.
  - apply typed_connect.
  - apply typed_getaddrinfo.
Qed.

End Laws.

(** ** Invariants of the kernel in the two programs *)

Section Shell.
Context `{!Kernel K, !SocketCalls K, !SignalCalls K, !Stalls K, !Terminal K}.
Context (I : K → Prop) `{!KernelKept I, !FdKept I, !SocketKept I}.
Hypothesis read_kept : ∀ fd cap k, I k → I (sys_read fd cap k).2.

Abbreviation client_kept m := (maintains (λ n : TCPClient * K, I n.2) m).
Abbreviation shell_kept m := (maintains (λ s : Shell K, I (sh_kern s)) m).

Lemma call_kept {A} (f : K → A * K) : (∀ k, I k → I (f k).2) → client_kept (call f).
Proof.
  intros Hf [c k] a n. unfold call. specialize (Hf k). destruct (f k) as [b k']. intros [= _ <-]. exact Hf.
Qed.

Lemma store_kept f : client_kept (store f).
Proof. unfold store. by apply maintains_modify. Qed.

Lemma send_kept line : client_kept (send_message line).
Proof.
  pose proof store_kept. assert (∀ fuel n, client_kept (send_loop fuel line n)) as Hloop.
  { induction fuel as [|fuel IH]; intros n; cbn [send_loop]; [apply maintains_stuck|].
    assert (∀ fd data, client_kept (call (sys_send fd data))) by (intros; apply call_kept; intros; kernel_call; done).
    assert (∀ fds t, client_kept (call (sys_poll fds t))) by (intros; apply call_kept; intros; kernel_call; done).
    unfold set_failure, field, client_errno. auto 20 with maintains. }
  unfold send_message, field. auto 20 with maintains.
Qed.

Lemma receive_kept out : client_kept (receive_messages out).
Proof.
  pose proof store_kept. assert (∀ fuel out, client_kept (receive_loop fuel out)) as Hloop.
  { induction fuel as [|fuel IH]; intros out'; cbn [receive_loop]; [apply maintains_stuck|].
    assert (∀ fd cap, client_kept (call (sys_recv fd cap))) by (intros; apply call_kept; intros; kernel_call; done).
    assert (∀ (o : outcome (bytes * list bytes)), client_kept (λ s, obind o (λ r, Done (r, s)))).
    { by intros [] ? ? ? [= _ <-]. }
    unfold set_failure, field, client_errno. auto 20 with maintains. }
  unfold receive_messages. auto 20 with maintains.
Qed.

Lemma shutdown_kept : client_kept shutdown_writes.
Proof.
  unfold shutdown_writes, field. apply maintains_bind; [auto with maintains|]. intros fd.
  apply maintains_when, call_kept. intros k Hk. cbn. by apply fk_shutdown.
Qed.

Lemma disconnect_kept : client_kept disconnect.
Proof.
  unfold disconnect, field. apply maintains_bind; [auto with maintains|]. intros fd. apply maintains_when.
  apply maintains_bind; [|intros; apply store_kept]. apply call_kept. intros k Hk. cbn. by apply fk_close.
Qed.

Lemma connect_server_kept : client_kept connect_to_server.
Proof.
  pose proof store_kept. unfold connect_to_server, field.
  assert (∀ host port, client_kept (call (connect_to host port))) by (intros; apply call_kept; eauto with kernel_kept).
  assert (∀ fd, client_kept (call (set_tcp_nodelay fd))) by (intros; apply call_kept; eauto with kernel_kept).
  assert (∀ fd, client_kept (call (set_nonblocking fd))) by (intros; apply call_kept; eauto with kernel_kept).
  auto 20 with maintains.
Qed.

Lemma on_client_kept {A} (m : M (TCPClient * K) A) : client_kept m → shell_kept (on_client m).
Proof.
  intros Hm s a s'. unfold on_client, obind. destruct (m (sh_client s, sh_kern s)) as [[b [c k]]| | |] eqn:Hr; try done.
  intros [= _ <-] Hk. exact (Hm _ _ _ Hr Hk).
Qed.

Lemma sh_sys_kept {A} (f : K → A * K) : (∀ k, I k → I (f k).2) → shell_kept (sh_sys f).
Proof. intros Hf. by apply on_client_kept, call_kept. Qed.

Hint Resolve on_client_kept send_kept receive_kept shutdown_kept disconnect_kept connect_server_kept : maintains.
Hint Extern 1 (ensures _ (sh_sys _) _) => (apply sh_sys_kept; intros; first [by apply read_kept|eauto with kernel_kept]) : maintains.
Hint Extern 1 (ensures _ (modify _) _) => (apply maintains_modify; by intros) : maintains.

Lemma shell_pass_kept options : shell_kept (shell_pass options).
Proof.
  assert (∀ fuel, shell_kept (lines_loop fuel options)) as Hlines.
  { induction fuel as [|fuel IH]; cbn [lines_loop]; [apply maintains_stuck|].
    unfold report_error, err. auto 20 with maintains. }
  unfold shell_pass, serve_socket, serve_stdin, print_messages, sh_errno, out, err.
  auto 30 with maintains.
Qed.

(** The whole of [run_client_shell] but the installation of the handlers. *)
Lemma shell_body_kept n options : shell_kept (shell_body n options).
Proof.
  pose proof (shell_pass_kept options).
  assert (∀ n, shell_kept (shell_passes n options)) as Hpasses.
  { clear n. induction n as [|n IH]; cbn [shell_passes]; auto with maintains. }
  assert (∀ commands, shell_kept (send_initial options commands)) as Hinit.
  { induction commands as [|command commands IH]; cbn [send_initial]; unfold report_error, out, err; auto 20 with maintains. }
  unfold shell_body, connected_session, report_error, out, err. auto 30 with maintains.
Qed.

End Shell.

Section Generator.
Context `{!Kernel K, !SocketCalls K, !SignalCalls K, !GenCalls K}.
Context (I : K → Prop) `{!KernelKept I, !FdKept I, !SocketKept I}.
Hypothesis time_kept : ∀ k, I k → I (sys_gettimeofday k).2.
Hypothesis sleep_kept : ∀ ns k, I k → I (sys_nanosleep ns k).
Hypothesis usage_kept : ∀ k, I k → I (sys_getrusage k).2.
Hypothesis reserve_kept : ∀ n k, I k → I (sys_reserve n k).2.

Abbreviation gen_kept m := (maintains (λ s : Gen K, I (g_kern s)) m).

Lemma gsys_kept {A} (f : K → A * K) : (∀ k, I k → I (f k).2) → gen_kept (gsys f).
Proof.
  intros Hf s a s'. unfold gsys. specialize (Hf (g_kern s)). destruct (f (g_kern s)) as [b k].
  intros [= _ <-]. exact Hf.
Qed.

Lemma now_kept k : I k → I (now_seconds k).2.
Proof. intros Hk%time_kept. unfold now_seconds. by destruct (sys_gettimeofday k). Qed.

Lemma source_kept fd address k : I k → I (bind_source fd address k).2.
Proof. intros Hk. unfold bind_source. through_calls I. Qed.

Lemma close_gen_kept fd : gen_kept (gsys (λ k, (tt, sys_close fd k))).
Proof. apply gsys_kept. intros k Hk. by apply fk_close. Qed.

Lemma sleep_gen_kept ns : gen_kept (gsys (λ k, (tt, sys_nanosleep ns k))).
Proof. apply gsys_kept. intros k Hk. by apply sleep_kept. Qed.

Hint Resolve close_gen_kept sleep_gen_kept : maintains.
Hint Extern 2 (ensures _ (gsys _) _) =>
  (apply gsys_kept; intros;
   first [by apply now_kept|by apply source_kept|by apply usage_kept|by apply reserve_kept|eauto with kernel_kept])
  : maintains.
Hint Extern 1 (ensures _ (modify _) _) => (apply maintains_modify; by intros) : maintains.

Lemma say_kept l : gen_kept (say l).
Proof. unfold say. auto with maintains. Qed.

Lemma count_retry_kept : gen_kept count_retry.
Proof. intros s a s'. unfold count_retry. destruct (_ <=? _)%Z; [done|]. by intros [= _ <-]. Qed.

Lemma below_target_kept limit o : gen_kept (below_target limit o).
Proof. intros s a s'. unfold below_target. repeat case_match; by intros [= _ <-]. Qed.

Hint Resolve say_kept count_retry_kept below_target_kept : maintains.

Lemma open_one_kept fuel o tries : gen_kept (open_one fuel o tries).
Proof.
  assert (gen_kept (attempt o)) as Hattempt.
  { unfold attempt, attempt_plain, attempt_from, gerrno. auto 30 with maintains. }
  revert tries. induction fuel as [|fuel IH]; intros tries; cbn [open_one]; [apply maintains_stuck|].
  auto 20 with maintains.
Qed.

Hint Resolve open_one_kept : maintains.

Lemma report_progress_kept started limit : gen_kept (report_progress started limit).
Proof. unfold report_progress, report. cbv zeta. auto 20 with maintains. Qed.

Hint Resolve report_progress_kept : maintains.

Lemma open_all_kept left o started limit : gen_kept (open_all left o started limit).
Proof. induction left as [|left IH]; cbn [open_all]; auto 20 with maintains. Qed.

Lemma hold_loop_kept n o until : gen_kept (hold_loop n o until).
Proof. induction n as [|n IH]; cbn [hold_loop]; auto 20 with maintains. Qed.

Hint Resolve open_all_kept hold_loop_kept : maintains.

Lemma finish_kept n o started limit : gen_kept (finish n o started limit).
Proof. unfold finish, summarise. auto 40 with maintains. Qed.

Hint Resolve finish_kept : maintains.

(** [generate] once the handlers are installed. *)
Lemma generate_kept n o k r s :
  I (install_handlers k) → generate n o (new_gen k) = Done (r, s) → I (g_kern s).
Proof.
  intros HI Hrun. unfold generate in Hrun. unfold bind at 1 in Hrun. cbn [gsys obind] in Hrun.
  match type of Hrun with ?m ?s0 = _ =>
    assert (gen_kept m) as Hm by auto 40 with maintains; exact (Hm s0 _ _ Hrun HI) end.
Qed.

End Generator.

(** ** Leaving the loops *)

Section Leave.
Context `{!Kernel K, !SocketCalls K, !SignalCalls K, !Stalls K, !Terminal K, !GenCalls K}.

Implicit Types s : Shell K.

(** One pass more. *)
Lemma shell_passes_more n options s s1 s2 :
  shell_passes n options s = Done (true, s1) → shell_pass options s1 = Done (false, s2) →
  shell_passes (S n) options s = Done (false, s2).
Proof.
  revert s. induction n as [|n IH]; intros s Hn Hp.
  { injection Hn as ->. cbn [shell_passes]. unfold bind. by rewrite Hp. }
  cbn [shell_passes] in Hn. apply bind_Done in Hn as ([] & s3 & H3 & Hn); [|done].
  change (shell_passes (S (S n)) options) with
    (let* continue := shell_pass options in if (continue : bool) then shell_passes (S n) options else ret false).
  unfold bind at 1. rewrite H3. exact (IH s3 Hn Hp).
Qed.

(** A run that has not left the loop is one of its passes from some state. *)
Lemma session_running n options s s1 :
  connected_session n options s = Done (None, s1) →
  ∃ s0, send_initial options (opt_initial_commands options) s = Done (true, s0)
        ∧ shell_passes n options s0 = Done (true, s1).
Proof.
  unfold connected_session. intros ([] & s0 & Hi & H)%bind_Done; cbn [negb] in H; [|done].
  apply bind_Done in H as ([] & s2 & Hp & H).
  - injection H as <-. by exists s0.
  - apply bind_Done in H as (q & s3 & _ & H). apply bind_Done in H as (u & s4 & _ & H).
    apply bind_Done in H as (u' & s5 & _ & H). by apply bind_Done in H as (st & s6 & _ & H).
Qed.

Lemma run_running n options (k : K) s :
  run_client_shell n options (new_shell options k) = Done (None, s) →
  ∃ s0, shell_passes n options s0 = Done (true, s)
    ∧ ∀ n' s', run_client_shell n' options (new_shell options k) = Done (None, s') →
               shell_passes n' options s0 = Done (true, s').
Proof.
  assert (∀ m s', run_client_shell m options (new_shell options k) = Done (None, s') →
    ∃ s1 s2, on_client connect_to_server (new_shell options (install_handlers k)) = Done (true, s1)
      ∧ out (greeting options) s1 = Done (tt, s2) ∧ connected_session m options s2 = Done (None, s')) as Hrun.
  { intros m s' H. unfold run_client_shell in H. apply bind_Done in H as ([] & s1 & [= <-] & H).
    apply bind_Done in H as (r & s2 & H & Hr). destruct r; [by apply bind_Done in Hr as (? & ? & _ & ?)|].
    injection Hr as ->. apply bind_Done in H as ([] & s3 & Hc & H); cbn [negb] in H.
    - apply bind_Done in H as ([] & s4 & Ho & H). by exists s3, s4.
    - by apply bind_Done in H as (? & ? & _ & ?). }
  intros (s1 & s2 & Hc & Ho & (s0 & Hi & Hp)%session_running)%Hrun. exists s0. split; [done|].
  intros n' s' (s1' & s2' & Hc' & Ho' & (s0' & Hi' & Hp')%session_running)%Hrun.
  rewrite Hc in Hc'. injection Hc' as <-. rewrite Ho in Ho'. injection Ho' as <-. rewrite Hi in Hi'.
  by injection Hi' as <-.
Qed.

Implicit Types g : Gen K.

Lemma hold_loop_more n o until g g1 :
  hold_loop n o until g = Done (true, g1) → (sys_stopped (g_kern g1)).1 = true →
  ∃ g2, hold_loop (S n) o until g = Done (false, g2).
Proof.
  revert g. induction n as [|n IH]; intros g Hn Hs.
  { injection Hn as ->. cbn [hold_loop]. destruct (negb (o_hold o)); [by eexists|]. unfold bind, gsys.
    destruct (sys_stopped (g_kern g1)) as [b k]. cbn in Hs. subst b. by eexists. }
  cbn [hold_loop] in Hn. change (hold_loop (S (S n)) o until g) with
    ((if negb (o_hold o) then ret false
      else
        let* stop := gsys sys_stopped in
        if (stop : bool) then ret false
        else
          let* over := if (0 <=? o_hold_seconds o)%Z
                       then let* now := gsys now_seconds in ret (until <=? now)%Z
                       else ret false in
          if (over : bool) then ret false
          else gsys (λ k, (tt, sys_nanosleep 1000000000 k)) ;;; hold_loop (S n) o until) g).
  destruct (negb (o_hold o)); [done|]. apply bind_Done in Hn as (stop & g2 & H2 & Hn).
  unfold bind at 1. rewrite H2. cbn [obind]. destruct stop; [done|]. apply bind_Done in Hn as (over & g3 & H3 & Hn).
  unfold bind at 1. rewrite H3. cbn [obind]. destruct over; [done|]. apply bind_Done in Hn as (u & g4 & H4 & Hn).
  unfold bind at 1. rewrite H4. cbn [obind]. by apply IH.
Qed.

(** The end of [finish]. *)
Definition held (o : GenOptions) (until : Z) (n : nat) : M (Gen K) ending :=
  let* holding := hold_loop n o until in
  if (holding : bool) then ret Holds
  else
    let* connections := gets g_connections in
    say (Closing (length connections)) ;;;
    for_each connections (λ fd, gsys (λ k, (tt, sys_close fd k))) ;;;
    ret (Exits 0).

(** Code that holds connections, if ever, from one state on. *)
Definition holds_from (o : GenOptions) (run : nat → outcome (ending * Gen K)) : Prop :=
  (∀ n g, run n ≠ Done (Holds, g)) ∨ ∃ until g0, ∀ n, run n = held o until n g0.

Lemma holds_from_bind {A} o (m : M (Gen K) A) (f : nat → A → M (Gen K) ending) g :
  (∀ a g', holds_from o (λ n, f n a g')) → holds_from o (λ n, bind m (f n) g).
Proof.
  intros Hf. unfold bind. destruct (m g) as [[a g']| | |]; cbn [obind]; [apply Hf|by left..].
Qed.

Lemma generate_holds_from o (k : K) : holds_from o (λ n, generate n o (new_gen k)).
Proof.
  assert (∀ started limit g, holds_from o (λ n, finish n o started limit g)) as Hfinish.
  { intros started limit g. do 3 (apply holds_from_bind; intros ? ?). right. by eexists _, _. }
  unfold generate. do 6 (apply holds_from_bind; intros ? ?).
  destruct (negb _); [by left|]. do 2 (apply holds_from_bind; intros ? ?). destruct (negb _); [by left|]. apply Hfinish.
Qed.

Lemma generate_leaves n o (k : K) g r g' :
  generate n o (new_gen k) = Done (Holds, g) → (sys_stopped (g_kern g)).1 = true →
  generate (S n) o (new_gen k) = Done (r, g') → r = Exits 0.
Proof.
  intros Hn Hs Hr. destruct (generate_holds_from o k) as [Hno|(until & g0 & Heq)]; [by destruct (Hno n g)|].
  rewrite Heq in Hn, Hr. apply bind_Done in Hn as ([] & g1 & Hh & Hn).
  - injection Hn as ->. destruct (hold_loop_more _ _ _ _ _ Hh Hs) as [g2 Hh'].
    apply bind_Done in Hr as (b & g3 & Hb & Hr). rewrite Hh' in Hb. injection Hb as <- <-.
    apply bind_Done in Hr as (? & ? & _ & Hr). apply bind_Done in Hr as (? & ? & _ & Hr).
    apply bind_Done in Hr as (? & ? & _ & Hr). by injection Hr.
  - apply bind_Done in Hn as (? & ? & _ & Hn). apply bind_Done in Hn as (? & ? & _ & Hn).
    by apply bind_Done in Hn as (? & ? & _ & Hn).
Qed.

End Leave.

Section Heed.
Context `{!Kernel K, !KernelView K, !KernelLaws K, !SocketCalls K, !SocketLaws K, !SignalCalls K}.
Context `{!Arrivals K, !ArrivalLaws K} {F : SendFlags} `{!Stalls K, !StallLaws K, !GenCalls K, !GenLaws K}.
Context `{!Terminal K, !TerminalView K, !TerminalLaws K} {arrivals_typed : ArrivalsTyped}.

Implicit Types p : Process K.

Lemma shell_handled n options p r s :
  p_killed p = false → run_client_shell n options (new_shell options p) = Done (r, s) → handled (sh_kern s).
Proof.
  intros Hp Hrun. assert (∀ fd cap p, ready false p → ready false (sys_read fd cap p).2) as Hread
    by (intros; by apply below_ready).
  apply bind_Done in Hrun as ([] & s1 & [= <-] & Hrun).
  assert (maintains (λ s : Shell (Process K), ready false (sh_kern s))
    (let* result := shell_body n options in
     match result with None => ret None | Some status => on_client destroy_client ;;; ret (Some status) end)) as Hm.
  { apply maintains_bind; [by apply (shell_body_kept (ready false))|]. intros [status|]; [|apply maintains_ret].
    apply maintains_bind; [|intros; apply maintains_ret]. apply (on_client_kept (ready false)), (disconnect_kept (ready false)). }
  refine (proj1 (Hm _ _ _ Hrun _)). by split; [apply install_handled|].
Qed.

Lemma generator_handled n o p r g :
  p_killed p = false → generate n o (new_gen p) = Done (r, g) → handled (g_kern g).
Proof.
  intros Hp Hrun. refine (proj1 (generate_kept (ready false) _ _ _ _ n o p r g _ Hrun)); intros;
    [by apply below_ready|done|by apply below_ready..|]. by split; [apply install_handled|].
Qed.

(** A pass of the shell that begins with the request is the last. *)
Lemma told_shell_pass options (s : Shell (Process K)) :
  handled (sh_kern s) → told_to_stop (sh_kern s) → ∃ s', shell_pass options s = Done (false, s').
Proof.
  intros Hp Ht%told_stopped; [|done]. unfold shell_pass, bind, sh_sys, on_client, call.
  destruct (sys_stopped (sh_kern s)) as [stop k]. cbn in Ht. subst stop. cbn. by eexists.
Qed.

(** C20: the clients and the connection generator under signals: from the
    moment they have installed their handlers neither SIGPIPE, SIGINT nor
    SIGTERM kills them, whatever has arrived and whichever peers have gone.
    The shell always returns from its passes; if it is still in its loop and
    SIGINT or SIGTERM has arrived by the time it tests its flag again, that
    ends the loop and it returns with its connection closed.  The generator that holds its connections when
    one of them arrives closes them all at its next look and exits with 0. *)
Theorem clients_heed_signals p :
  p_killed p = false →
  (∀ n options, typed p = [] → Forall (λ c, str_size c < 2 ^ 63)%Z (opt_initial_commands options) →
    ∃ r s, run_client_shell n options (new_shell options p) = Done (r, s) ∧ handled (sh_kern s)
      ∧ (r = None → told_to_stop (sh_kern s) →
         ∃ status s', run_client_shell (S n) options (new_shell options p) = Done (Some status, s')
           ∧ p_killed (sh_kern s') = false ∧ open_fds (sh_kern s') = open_fds p))
  ∧ (∀ n program args o, gen_options args = Done (Some o) → counts_fit o →
    ∃ r g, gen_main n program args p = Done (r, g) ∧ handled (g_kern g)
      ∧ (r = Holds → told_to_stop (g_kern g) →
         ∃ g', gen_main (S n) program args p = Done (Exits 0, g')
           ∧ p_killed (g_kern g') = false ∧ open_fds (g_kern g') = open_fds p)).
Proof.
  intros Hp. split.
  - intros n options Ht Hsize. destruct (shell_run_spec n options p Ht Hsize) as (r & s & Hrun & _).
    pose proof (shell_handled n options p r s Hp Hrun) as Hh. exists r, s. split_and!; [done|done|].
    intros -> Htold. destruct (run_running _ _ _ _ Hrun) as (s0 & Hn & Hall).
    destruct (told_shell_pass options s Hh Htold) as [s2 Hpass].
    pose proof (shell_passes_more _ _ _ _ _ Hn Hpass) as Hmore.
    destruct (shell_run_spec (S n) options p Ht Hsize) as ([status|] & s' & Hrun' & Hout).
    + exists status, s'. split; [done|]. split; [exact (proj1 (shell_handled _ _ _ _ _ Hp Hrun'))|apply Hout].
    + apply Hall in Hrun'. congruence.
  - intros n program args o Ho Hfit. destruct (gen_options_ok args) as (r0 & Hr0 & Hok).
    rewrite Ho in Hr0. injection Hr0 as <-. destruct (Hok o eq_refl) as (_ & Htarget & _).
    assert (∀ m, gen_main m program args p = generate m o (new_gen p)) as Hmain
      by (intros m; unfold gen_main; by rewrite Ho).
    assert (∀ m, ∃ r g, generate m o (new_gen p) = Done (r, g) ∧ gen_outcome p o r g) as Hspec.
    { intros m. destruct (wp_returns _ _ _ (generate_spec m o p Htarget Hfit)) as [[_ []]|H]. exact H. }
    destruct (Hspec n) as (r & g & Hrun & _). pose proof (generator_handled n o p r g Hp Hrun) as Hh.
    exists r, g. rewrite !Hmain. split_and!; [done|done|]. intros -> Htold%told_stopped; [|done].
    destruct (Hspec (S n)) as (r' & g' & Hrun' & Hout). pose proof (generate_leaves _ _ _ _ _ _ Hrun Htold Hrun') as ->.
    exists g'. split; [done|]. split; [exact (proj1 (generator_handled _ _ _ _ _ Hp Hrun'))|apply Hout].
Qed.

End Heed.

(** ** Witness

    SIGPIPE comes with every look at the flag, SIGTERM with the second. *)

(** The headers do not define MSG_NOSIGNAL. *)
#[local] Instance heed_flags : SendFlags := false.

#[local] Instance term_arrivals : Arrivals TermScript := λ k,
  let '(stop, k) := sys_stopped k in ((if (stop : bool) then [SIGPIPE; SIGTERM] else [SIGPIPE]), k).

#[local] Instance term_arrival_laws : ArrivalLaws TermScript.
Proof.
  intros k. unfold sys_arrived, term_arrivals. pose proof (law_stopped k) as H. by destruct (sys_stopped k).
Qed.

#[local] Instance term_arrivals_typed : ArrivalsTyped (K := TermScript).
Proof.
  intros k. unfold sys_arrived, term_arrivals. pose proof (typed_stopped k) as H. by destruct (sys_stopped k).
Qed.

#[local] Instance term_gen : GenCalls TermScript := {
  sys_gettimeofday := on_net sys_gettimeofday;
  sys_nanosleep := λ ns, on_net_ (sys_nanosleep ns);
  sys_getrusage := on_net sys_getrusage;
  sys_getpid := λ k, sys_getpid (ts_net k);
  sys_reserve := λ n, on_net (sys_reserve n)
}.

#[local] Instance term_gen_laws : GenLaws TermScript.
Proof. by split. Qed.

(** Nobody types and no message comes; the flag is looked at [looks] times
    before SIGTERM. *)
Definition heed_process (looks : nat) : Process TermScript :=
  new_process (mkTerm (mkScript (EOTHER 0) {[0; 1; 2]}%Z ∅ [] [] [] [∅; ∅; ∅] [] 7 (repeat false looks ++ [true]) ∅) [] []).

Definition heed_args : list bytes := [lit "127.0.0.1"; lit "5000"; lit "2"; lit "--hold"].

Lemma clients_heed_signals_witness :
  (∃ s', run_client_shell 2 demo_options (new_shell demo_options (heed_process 1)) = Done (Some 0%Z, s')
     ∧ p_killed (sh_kern s') = false)
  ∧ ∃ g', gen_main 2 (lit "conn_gen") heed_args (heed_process 3) = Done (Exits 0, g')
      ∧ open_fds (g_kern g') = {[0; 1; 2]}%Z.
Proof.
  split.
  - destruct (clients_heed_signals (heed_process 1) eq_refl) as [Hshell _].
    destruct (Hshell 1 demo_options) as (r & s & Hrun & _ & Hstop); [reflexivity|repeat constructor|].
    assert (match run_client_shell 1 demo_options (new_shell demo_options (heed_process 1)) with
            | Done (None, s) => bool_decide (SIGTERM ∈ (sys_arrived (p_kern (sh_kern s))).1) | _ => false end = true)
      as Hcheck by (vm_compute; reflexivity).
    rewrite Hrun in Hcheck. destruct r as [|]; [discriminate|].
    destruct (Hstop eq_refl) as (status & s' & Hrun' & Hk & _).
    { right. exists SIGTERM. split; [exact (bool_decide_eq_true_1 _ Hcheck)|discriminate]. }
    assert (match run_client_shell 2 demo_options (new_shell demo_options (heed_process 1)) with
            | Done (Some 0%Z, _) => true | _ => false end = true) as H0 by (vm_compute; reflexivity).
    rewrite Hrun' in H0. destruct status; [|discriminate H0..]. exists s'. split; [exact Hrun'|exact Hk].
  - destruct (clients_heed_signals (heed_process 3) eq_refl) as [_ Hgen].
    destruct (Hgen 1 (lit "conn_gen") heed_args
      (mkGenOptions (lit "127.0.0.1") 5000 2 5000 true (-1) [])) as (r & g & Hrun & _ & Hstop);
      [vm_compute; reflexivity|unfold counts_fit, LONG_MAX; cbn; lia|].
    assert (match gen_main 1 (lit "conn_gen") heed_args (heed_process 3) with
            | Done (Holds, g) => bool_decide (SIGTERM ∈ (sys_arrived (p_kern (g_kern g))).1) | _ => false end = true)
      as Hcheck by (vm_compute; reflexivity).
    rewrite Hrun in Hcheck. destruct r as [| |]; [discriminate| |discriminate].
    destruct (Hstop eq_refl) as (g' & Hrun' & _ & Ho).
    { right. exists SIGTERM. split; [exact (bool_decide_eq_true_1 _ Hcheck)|discriminate]. }
    exists g'. split; [exact Hrun'|exact Ho].
Defined.
